(* ===== verification/_CoqProject ===== *)
-Q . S2P
Prelude.v
Packable.v
Trits.v
External.v
MessageTypes.v
Payload.v
PayloadKeys.v
PayloadCodec.v
Message.v
Packets.v
Pow.v
Curl.v
CurlBatched.v
CurlUnrolled.v
BigInt.v
TangleTypes.v
LedgerTypes.v
Snapshot.v
Vertices.v
StorageSystem.v
Storage.v
StorageTables.v
StorageMemory.v
Tangle.v
TangleFrame.v
TangleCache.v
TipPool.v
Solidity.v
Peers.v
Calm.v
LedgerStorage.v
Pruning.v
Ledger.v
Merkle.v
WhiteFlag.v
WhiteFlagOrder.v
WhiteFlagLedger.v
Confirm.v
SnapshotImport.v
Consensus.v
Workers.v
ConfirmLedger.v
ConfirmState.v
SnapshotLedger.v
PruningCone.v
PruningLedger.v
NodeSafety.v
Node.v
Protocol.v
