(* ===== verification/Prelude.v ===== *)
(** * Bee: a verification development for the IOTA node framework in Rust

    Bee is a node of the IOTA network. Messages, each of which approves earlier ones, its parents, form a graph, the
    tangle. Milestones are messages signed by a coordinator; the ledger advances by confirming the milestones one after the
    other, which applies the transactions in the past cone of each of them.

    ** Parts of the program and files of the development

    _Data._ [Packable.v] is the serialization trait ([bee-common/bee-common/src/packable.rs]) with its contract, the classes
    [PackableOk] (decoding inverts encoding, and yields well-formed values) and [PackableCanonical] (a value has one
    encoding). [MessageTypes.v], [Payload.v], [PayloadKeys.v], [PayloadCodec.v] and [Message.v] are [bee-message/src]: for
    every type its constructors, with their checks, and its codec. [LedgerTypes.v] and [Snapshot.v] are
    [bee-ledger/src/types]; [TangleTypes.v] is the data of [bee-tangle/src]; [StorageSystem.v] is the version and the health of
    a storage.

    _Ternary arithmetic and hashing._ [Trits.v] is [bee-ternary/src]: trits, the packed encodings and their buffers.
    [Pow.v] has trytes, [b1t6.rs], and [bee-pow/src]: the score of a message and the miner. [Curl.v], [CurlBatched.v] and
    [CurlUnrolled.v] are the three implementations of Curl-P in [bee-crypto/src/ternary/sponge/curlp]; [BigInt.v] is
    [bee-crypto/src/ternary/bigint], the integers of 384 bits and of 242 and 243 trits.

    _Storage._ [Storage.v] has the access traits of [bee-storage/bee-storage/src] as classes, and the contract
    [LedgerBackendOk] between a backend and its users: one finite map per table, and batches that are applied at once. A
    fetch of the children of a message or of the outputs of an address may be cut off at a limit ([edge_limit],
    [output_id_limit]), as in the RocksDB and sled backends; the theorems say where they need that the limit is not exceeded.
    [StorageTables.v] and [StorageMemory.v] are the in-memory backend ([bee-storage/bee-storage-memory/src]), which keeps the
    contract without limits. All that follows is proved against the contract.

    _Tangle._ [Vertices.v] and [Tangle.v] are [bee-tangle/src/vertices.rs] and [tangle.rs]: a cache of vertices with pins and
    random eviction in front of the storage. [TangleCache.v] and [TangleFrame.v] have the proofs, [TipPool.v] is [urts.rs].

    _Ledger._ [LedgerStorage.v] ([bee-ledger/src/workers/storage.rs]) has the functions on the storage, [Ledger.v] the
    invariant [ledger_inv] of the tables; [WhiteFlag.v] and [Merkle.v] are [workers/consensus/white_flag.rs], [metadata.rs] and
    [merkle_hasher.rs], with proofs in [WhiteFlagOrder.v] and [WhiteFlagLedger.v]; [Confirm.v] has [confirm] and [state.rs],
    with proofs in [ConfirmLedger.v] and [ConfirmState.v]; [SnapshotImport.v] is [workers/snapshot/import.rs] and [worker.rs],
    with proofs in [SnapshotLedger.v]; [Pruning.v] is [workers/pruning], with proofs in [PruningCone.v] and
    [PruningLedger.v]; [Consensus.v] is the worker of [workers/consensus/worker.rs], with the conditions for snapshots and
    pruning.

    _Protocol._ [Packets.v] has the packets of [bee-protocol/src/workers/packets] and the handler that cuts them out of the
    stream of a peer; [Peers.v] the peer manager; [Solidity.v] the propagator; [Workers.v] the other workers of
    [bee-protocol/src/workers], from the submission of a message to the solidification of milestones. [Calm.v] has rules
    for operations that keep solidity.

    _Composition._ [NodeSafety.v] and [Node.v] have the node around the consensus worker, [node_step]; [Protocol.v] has the
    workers of the protocol next to the consensus worker, [sync_step].

    [Prelude.v], this file, has what all the others use: results and the operator [let?], the monad [st] of code that
    changes a state and may panic, with its rules ([keeps]), machine integers, bytes, and lemmas on lists and maps.
    [External.v] has the crates that the code calls and whose source is not part of the repository, each a class of
    operations with a class of laws: hash and signature functions, [hex], [bitflags], [hashbrown], random numbers and the
    iteration order of hash maps. The classes [Curl] (the batched hash of the crate [iota-crypto], in [Pow.v]), [PeerIds]
    ([Peers.v]), [XxHash] ([Workers.v]) and [ByteOrder] ([BigInt.v]) are of the same kind. Every such class has an instance,
    on which the theorems are evaluated in the modules [Examples].

    ** Conventions

    Definitions have the names of the source, with the name of the type as a prefix where it is needed. An operation that
    changes a state returns the new state. Errors are values of [result]; a panic is [None]. Unsigned integers are integers
    of [Z] that are wrapped where the code can exceed their width. Loops that are not structural take fuel, and missing fuel
    is [None] as well; each theorem that promises a result says how much fuel is enough, or that some amount is: the length
    of the input for decoders, one more than the number of edges in the storage for the propagator, one more than the number
    of parents of the stored messages for pruning, any bound on the depth of the past cone for White Flag. A lock that the code holds during an operation makes it one step;
    [update_metadata], which releases its lock in between, is two. The workers of the protocol run one handler at a time,
    in any order.

    ** What the theorems show

    - The node. The ledger is consistent in every state that a node reaches ([Node.node_stays_consistent]); what a
      confirmation does on every branch ([confirm_outcome]) and when it succeeds ([confirm_completes]); the node can be
      restarted in every state ([node_restarts]), and answers queries by its ledger ([queries_answered]).
    - The protocol, with pruning disabled. The milestones that the workers hand to the ledger follow it without a gap, and
      are solid ([Protocol.solidifier_feeds_ledger]); White Flag finds their past cones ([next_milestone_traversed]), unless a
      solid entry point arrives as a message, which stops the node ([stored_entry_point_blocks]). The propagator marks only
      messages whose past cone is available, and all of them if no message has more children than a fetch returns
      ([Solidity.propagate_solidifies]).
    - The ledger. White Flag is a depth first search, parents first ([white_flag_order]); the checks at its end always pass
      ([white_flag_checks]); it keeps the ledger consistent ([white_flag_preserves_ledger]) and the dust
      limit ([white_flag_dust_limit]); milestones are applied and rolled back as [milestone_preserves_ledger],
      [rollback_restores] and [milestone_storage_spec] say, except for outputs that are created and consumed in the same
      milestone ([rollback_keeps_transient_outputs]). Snapshots are imported into consistent ledgers
      ([import_full_consistent], [import_diffs_apply]), and the validation decides consistency
      ([validate_ledger_state_spec]). The Merkle root binds the included messages, up to collisions among what was hashed
      ([merkle_root_binding]).
    - Pruning. It ends, and deletes exactly the messages that the milestones it is asked to prune confirmed, and the
      unconfirmed ones that are recorded with them ([prune_succeeds]); it does not touch the ledger ([prune_keeps_ledger]) and
      stays behind the confirmed index as far as the configuration asks, unless a sum overflows ([pruning_keeps_depth]).
    - Storage and cache. The in-memory backend keeps the contract ([memory_backend_contract]); reading and writing through
      a cache that agrees with the storage is reading and writing the storage ([tangle_reads], [tangle_writes]), except for
      overlapping updates ([update_metadata_race]). Pruning ends the agreement, since it leaves the cache alone.
    - Messages and packets. Messages are decoded to what was encoded ([message_roundtrip]), only to well-formed values
      ([message_decode_sound]), and only from one encoding ([message_canonical]). A milestone that
      passes the validation is signed by enough of the keys that apply ([milestone_validate_quorum]). A stream of packets that arrives in any pieces is cut into the packets that were sent
      ([gossip_stream_roundtrip]); no packet makes the parser panic ([parse_packet_total]). The peer manager implements a
      finite map ([peer_manager_refines]).
    - Hashing. The batched and the unrolled implementation of Curl-P compute the hashes of the plain one
      ([batched_equals_unbatched], [unrolled_equals_curlp81]); integers of 242 trits survive the way to bytes and back
      ([t242_i384_roundtrip]); the conversion of a hash to trits is right except for a band of hashes, for which the
      comparison of signed integers is wrong ([from_i384_spec]); a mined nonce gives the message the score that was asked
      for ([mined_nonce_scores]).

    ** Not modelled

    Network input and output and what is built on libp2p: [bee-network/bee-gossip], [bee-network/bee-autopeering]; the HTTP
    handlers of [bee-api/bee-rest-api]; the assembly of the node, its configuration files and dashboard ([bee-node]) and the
    runtime ([bee-runtime]); the download of snapshots. The RocksDB and sled backends are calls of these libraries; what the
    development assumes of a backend, with the limits of their fetches, is [LedgerBackendOk]. Of [bee-crypto] the sponge Kerl, and [bee-signing], the signatures
    of the legacy network, which the ledger does not use. Serde implementations, [Display] and [Debug], metrics, events on
    the bus other than those of a confirmation, and logging. Test code ([bee-test], [bee-storage-test]). *)

From stdpp Require Export prelude gmap list strings.
From Stdlib Require Export ZArith Lia.
From Stdlib Require Import Strings.Byte Sorting.Sorted.

Local Open Scope Z_scope.

(** ** Results

    [Result<A, E>] of the Rust standard library. *)

Inductive result (E A : Type) : Type :=
| Ok (a : A)
| Err (e : E).
Arguments Ok {E A} a.
Arguments Err {E A} e.

(** [From<E>] conversions, which the question mark operator inserts. *)
Class From (E E' : Type) := from : E -> E'.
#[export] Instance From_refl E : From E E := fun e => e.

Definition result_bind {E E' A B} `{From E E'} (m : result E A) (k : A -> result E' B) : result E' B :=
  match m with
  | Ok a => k a
  | Err e => Err (from e)
  end.

Definition map_err {E E' A} (f : E -> E') (m : result E A) : result E' A :=
  match m with
  | Ok a => Ok a
  | Err e => Err (f e)
  end.

Definition ok_or {E A} (o : option A) (e : E) : result E A :=
  match o with
  | Some a => Ok a
  | None => Err e
  end.

(** A guard with an early return: [if c { return Err(e); }]. *)
Definition ensure {E} (c : bool) (e : E) : result E unit :=
  if c then Ok tt else Err e.

(** A loop that updates a state and stops at the first error. *)
Fixpoint try_fold {E A S} (f : S -> A -> result E S) (s : S) (l : list A) : result E S :=
  match l with
  | [] => Ok s
  | a :: l =>
      match f s a with
      | Ok s => try_fold f s l
      | Err e => Err e
      end
  end.

Declare Scope bee_scope.
Delimit Scope bee_scope with bee.
Open Scope bee_scope.

Notation "'let?' x ':=' m 'in' k" := (result_bind m (fun x => k))
  (at level 10, x pattern, m at level 100, k at level 200) : bee_scope.

(** Code that changes a state and may panic, which is [None]. *)
Definition st (S A : Type) : Type := S -> option (A * S).
Definition sret {S A} (a : A) : st S A := fun s => Some (a, s).
Definition sbind {S A B} (m : st S A) (k : A -> st S B) : st S B :=
  fun s => match m s with Some (a, s) => k a s | None => None end.
Definition spanic {S A} : st S A := fun _ => None.

Notation "'let*' x ':=' m 'in' k" := (sbind m (fun x => k))
  (at level 10, x pattern, m at level 100, k at level 200) : bee_scope.

(** A loop over a list for its effect. *)
Fixpoint sfor {S A} (f : A -> st S unit) (l : list A) : st S unit :=
  match l with
  | [] => sret tt
  | a :: l => let* _ := f a in sfor f l
  end.

(** *** Rules for the state monad *)

(** Whenever [m] returns, it keeps [I], and its result satisfies [R]. *)
Definition keeps {S A} (I : S -> Prop) (m : st S A) (R : A -> Prop) : Prop := forall s a s', I s -> m s = Some (a, s') -> I s' /\ R a.

Lemma sbind_inv {S A A'} (m : st S A) (k : A -> st S A') s r s' : sbind m k s = Some (r, s') -> exists a s1, m s = Some (a, s1) /\ k a s1 = Some (r, s').
Proof. unfold sbind. destruct (m s) as [[a s1]|]; [|done]. eauto. Qed.

Lemma sbind_run {S A A'} (m : st S A) (k : A -> st S A') s a s' : m s = Some (a, s') -> sbind m k s = k a s'.
Proof. intros Hm. unfold sbind. by rewrite Hm. Qed.

Section rules.
Context {S : Type} (I : S -> Prop).

Lemma keeps_ret {A} (a : A) (R : A -> Prop) : R a -> keeps I (sret a) R.
Proof. intros HR s x s' HI [= <- <-]. done. Qed.

Lemma keeps_panic {A} (R : A -> Prop) : keeps I spanic R.
Proof. by intros s x s' HI. Qed.

Lemma keeps_bind {A A'} (m : st S A) (k : A -> st S A') R R' : keeps I m R -> (forall a, R a -> keeps I (k a) R') -> keeps I (sbind m k) R'.
Proof. intros Hm Hk s x s' HI. unfold sbind. destruct (m s) as [[a s1]|] eqn:E; [|done]. destruct (Hm _ _ _ HI E). by apply Hk. Qed.

Lemma keeps_for {A} (f : A -> st S unit) l : (forall a, keeps I (f a) (fun _ => True)) -> keeps I (sfor f l) (fun _ => True).
Proof. intros Hf. induction l as [|a l IH]; [by apply keeps_ret|]. cbn. eapply keeps_bind; [apply Hf | done]. Qed.
End rules.

Definition is_ok {E A} (m : result E A) : bool := match m with Ok _ => true | Err _ => false end.

Lemma result_bind_Ok {E E' A B} `{From E E'} (m : result E A) (k : A -> result E' B) b :
  result_bind m k = Ok b <-> exists a, m = Ok a /\ k a = Ok b.
Proof. destruct m; simpl; naive_solver. Qed.

Lemma result_bind_assoc {E A B C} (m : result E A) (k : A -> result E B) (h : B -> result E C) :
  result_bind (result_bind m k) h = result_bind m (fun a => result_bind (k a) h).
Proof. by destruct m. Qed.

Lemma ensure_Ok {E} (c : bool) (e : E) u : ensure c e = Ok u <-> c = true.
Proof. destruct c, u; simpl; naive_solver. Qed.

Lemma ensure_bind_Ok {E A} (c : bool) (e : E) (k : result E A) a :
  result_bind (ensure c e) (fun _ => k) = Ok a <-> c = true /\ k = Ok a.
Proof. destruct c; simpl; naive_solver. Qed.

Lemma try_fold_cons_Ok {E A S} (f : S -> A -> result E S) s a l s' :
  try_fold f s (a :: l) = Ok s' <-> exists s1, f s a = Ok s1 /\ try_fold f s1 l = Ok s'.
Proof. cbn. destruct (f s a); naive_solver. Qed.

Lemma Ok_inj {E A} (a b : A) : @Ok E A a = Ok b <-> b = a.
Proof. naive_solver. Qed.

Lemma ok_or_Ok {E A} (o : option A) (e : E) a : ok_or o e = Ok a <-> o = Some a.
Proof. destruct o; simpl; naive_solver. Qed.

(** ** Machine integers

    A [w]-bit unsigned integer is a [Z] in [[0, 2^w)], a signed one a [Z] in [[-2^(w-1), 2^(w-1))]. *)

Definition fits (w : Z) (x : Z) : Prop := 0 <= x < 2 ^ w.
Definition sfits (w : Z) (x : Z) : Prop := - 2 ^ (w - 1) <= x < 2 ^ (w - 1).

#[export] Instance fits_dec w x : Decision (fits w x).
Proof. unfold fits. apply _. Defined.
#[export] Instance sfits_dec w x : Decision (sfits w x).
Proof. unfold sfits. apply _. Defined.

(** [x as uN]: truncation to the width. *)
Definition as_u (w : Z) (x : Z) : Z := x mod 2 ^ w.

(** [x as iN]: truncation to the width, read in two's complement. *)
Definition as_i (w : Z) (x : Z) : Z := (x + 2 ^ (w - 1)) mod 2 ^ w - 2 ^ (w - 1).

(** [checked_add] and [checked_sub] on unsigned and signed integers. *)
Definition u_checked_add (w x y : Z) : option Z := if x + y <? 2 ^ w then Some (x + y) else None.
Definition u_checked_sub (w x y : Z) : option Z := if y <=? x then Some (x - y) else None.
Definition i_checked (w x : Z) : option Z :=
  if bool_decide (sfits w x) then Some x else None.
Definition i_checked_add (w x y : Z) : option Z := i_checked w (x + y).
Definition i_checked_sub (w x y : Z) : option Z := i_checked w (x - y).

Lemma as_u_fits w x : 0 <= w -> fits w (as_u w x).
Proof. intros. apply Z.mod_pos_bound. lia. Qed.

Lemma as_u_id w x : fits w x -> as_u w x = x.
Proof. apply Z.mod_small. Qed.

Lemma as_i_sfits w x : 0 < w -> sfits w (as_i w x).
Proof.
  intros. unfold sfits, as_i.
  assert (E : 2 ^ w = 2 * 2 ^ (w - 1)) by (rewrite <- Z.pow_succ_r by lia; f_equal; lia).
  pose proof (Z.mod_pos_bound (x + 2 ^ (w - 1)) (2 ^ w) ltac:(lia)). lia.
Qed.

Lemma as_i_id w x : 0 < w -> sfits w x -> as_i w x = x.
Proof.
  intros Hw Hx. unfold as_i, sfits in *.
  assert (E : 2 ^ w = 2 * 2 ^ (w - 1)) by (rewrite <- Z.pow_succ_r by lia; f_equal; lia).
  rewrite Z.mod_small; lia.
Qed.

Lemma u_checked_add_Some w x y z : u_checked_add w x y = Some z <-> z = x + y /\ x + y < 2 ^ w.
Proof. unfold u_checked_add. case_match; naive_solver lia. Qed.

Lemma u_checked_sub_Some w x y z : u_checked_sub w x y = Some z <-> z = x - y /\ y <= x.
Proof. unfold u_checked_sub. case_match; naive_solver lia. Qed.

Lemma i_checked_add_Some w x y z : i_checked_add w x y = Some z <-> z = x + y /\ sfits w (x + y).
Proof. unfold i_checked_add, i_checked. case_bool_decide; naive_solver. Qed.

Lemma i_checked_sub_Some w x y z : i_checked_sub w x y = Some z <-> z = x - y /\ sfits w (x - y).
Proof. unfold i_checked_sub, i_checked. case_bool_decide; naive_solver. Qed.

(** [lo..=hi] ranges and their [contains]. *)
Definition range_contains (lo hi x : Z) : bool := (lo <=? x) && (x <=? hi).

Lemma range_contains_spec lo hi x : range_contains lo hi x = true <-> lo <= x <= hi.
Proof. unfold range_contains. rewrite andb_true_iff, !Z.leb_le. done. Qed.

(** The length of a list as a [usize]. *)
Definition len {A} (l : list A) : Z := Z.of_nat (length l).

Lemma len_nonneg {A} (l : list A) : 0 <= len l.
Proof. unfold len. lia. Qed.
Lemma len_app {A} (l l' : list A) : len (l ++ l') = len l + len l'.
Proof. unfold len. rewrite length_app. lia. Qed.
Lemma len_cons {A} (x : A) l : len (x :: l) = 1 + len l.
Proof. unfold len. simpl. lia. Qed.
Lemma len_nil {A} : len (@nil A) = 0.
Proof. done. Qed.
Lemma len_fmap {A B} (f : A -> B) l : len (f <$> l) = len l.
Proof. unfold len. by rewrite length_fmap. Qed.

(** Sum of a list of lengths or amounts. *)
Definition sum_Z {A} (f : A -> Z) (l : list A) : Z := foldr (fun a acc => f a + acc) 0 l.

Lemma sum_Z_const {A} (f : A -> Z) (c : Z) l : Forall (fun a => f a = c) l -> sum_Z f l = c * len l.
Proof. induction 1; simpl; rewrite ?len_cons; unfold len in *; simpl in *; lia. Qed.

Lemma sum_Z_bound {A} (f : A -> Z) (c : Z) l :
  Forall (fun a => 0 <= f a <= c) l -> 0 <= sum_Z f l <= c * len l.
Proof. induction 1; simpl; rewrite ?len_cons; unfold len in *; simpl in *; lia. Qed.

Lemma sum_Z_cons {A} (f : A -> Z) a l : sum_Z f (a :: l) = f a + sum_Z f l.
Proof. done. Qed.

Lemma sum_Z_nonneg {A} (f : A -> Z) l : Forall (fun a => 0 <= f a) l -> 0 <= sum_Z f l.
Proof. induction 1; [done|]. rewrite sum_Z_cons. lia. Qed.

Lemma sum_Z_app {A} (f : A -> Z) l l' : sum_Z f (l ++ l') = sum_Z f l + sum_Z f l'.
Proof. induction l; simpl; lia. Qed.

(** *** Duplicates by counting: [filter(..).count() > 1] *)

Lemma filter_count_elem {A} `{EqDecision A} (x : A) l : x ∈ l -> 1 <= len (filter (fun y => y = x) l).
Proof.
  intros Hx. unfold len. assert (x ∈ filter (fun y => y = x) l) as Hf by by apply list_elem_of_filter.
  destruct (filter _ l); [by apply not_elem_of_nil in Hf | cbn; lia].
Qed.

Lemma NoDup_count {A} `{EqDecision A} (l : list A) :
  NoDup l <-> Forall (fun x => len (filter (fun y => y = x) l) <= 1) l.
Proof.
  induction l as [|a l IH]; [split; constructor|].
  rewrite NoDup_cons, IH, Forall_cons, !Forall_forall, filter_cons, decide_True by done.
  rewrite len_cons. split.
  - intros [Ha Hl]. split.
    + destruct (filter (fun y => y = a) l) as [|b f] eqn:Hf; [rewrite len_nil; lia|].
      assert (b ∈ filter (fun y => y = a) l) as Hb by (rewrite Hf; by left).
      apply list_elem_of_filter in Hb as [-> Hb]. done.
    + intros x Hx. rewrite filter_cons, decide_False by (intros <-; done). by apply Hl.
  - intros [Ha Hl]. split.
    + intros Hin. pose proof (filter_count_elem a l Hin). lia.
    + intros x Hx. specialize (Hl x Hx). rewrite filter_cons in Hl. case_decide; [|done].
      rewrite len_cons in Hl. lia.
Qed.

Lemma omap_count {A B} `{EqDecision B} (f : A -> option B) b l :
  len (filter (fun y => f y = Some b) l) = len (filter (fun y => y = b) (omap f l)).
Proof.
  induction l as [|a l IH]; [done|]. rewrite filter_cons. cbn [omap list_omap].
  destruct (f a) as [c|] eqn:Hf.
  - rewrite filter_cons. do 2 case_decide; simplify_eq; rewrite ?len_cons, IH; done.
  - by rewrite decide_False.
Qed.

Lemma NoDup_omap_count {A B} `{EqDecision B} (f : A -> option B) l :
  NoDup (omap f l) <-> forall a b, a ∈ l -> f a = Some b -> len (filter (fun y => f y = Some b) l) <= 1.
Proof.
  rewrite NoDup_count, Forall_forall. setoid_rewrite omap_count. split.
  - intros Hd a b Ha Hf. apply Hd, list_elem_of_omap. eauto.
  - intros Hd b (a & Ha & Hf)%list_elem_of_omap. eauto.
Qed.

(** ** Maps to [unit] as sets *)

Lemma unit_map_eq `{Countable A} (m m' : gmap A unit) : (forall x, m !! x = Some tt <-> m' !! x = Some tt) -> m = m'.
Proof.
  intros E. apply map_eq. intros x. specialize (E x). destruct (m !! x) as [[]|], (m' !! x) as [[]|]; naive_solver.
Qed.

Definition mark `{Countable A} (l : list A) : gmap A unit := list_to_map ((fun x => (x, tt)) <$> l).

Lemma mark_lookup `{Countable A} (l : list A) x : mark l !! x = Some tt <-> x ∈ l.
Proof.
  unfold mark. split.
  - intros Hl%elem_of_list_to_map_2. by apply list_elem_of_fmap in Hl as (y & [= ->] & Hy).
  - intros Hx. destruct (_ !! x) as [[]|] eqn:E; [done|]. apply not_elem_of_list_to_map_2 in E as [].
    rewrite <- list_fmap_compose. apply list_elem_of_fmap. eauto.
Qed.

Lemma union_unit_lookup `{Countable A} (m m' : gmap A unit) x :
  (m ∪ m') !! x = Some tt <-> m !! x = Some tt \/ m' !! x = Some tt.
Proof. rewrite lookup_union. destruct (m !! x) as [[]|], (m' !! x) as [[]|]; naive_solver. Qed.

Lemma insert_unit_lookup `{Countable A} (m : gmap A unit) k x :
  <[k := tt]> m !! x = Some tt <-> k = x \/ m !! x = Some tt.
Proof. rewrite lookup_insert_Some. destruct (decide (k = x)); naive_solver. Qed.

(** ** Bytes *)

Abbreviation byte := Byte.byte.
Abbreviation bytes := (list byte).

#[export] Instance byte_eq_dec : EqDecision byte := Byte.byte_eq_dec.
#[export] Program Instance byte_countable : Countable byte :=
  inj_countable Byte.to_N Byte.of_N _.
Next Obligation. intros x. apply Byte.of_to_N. Qed.

Definition u8_of_byte (b : byte) : Z := Z.of_N (Byte.to_N b).
Definition byte_of_u8 (x : Z) : byte := default Byte.x00 (Byte.of_N (Z.to_N (x mod 256))).

Lemma u8_of_byte_range b : 0 <= u8_of_byte b < 256.
Proof. unfold u8_of_byte. pose proof (Byte.to_N_bounded b). lia. Qed.

Lemma byte_of_u8_of_byte b : byte_of_u8 (u8_of_byte b) = b.
Proof.
  unfold byte_of_u8. rewrite Z.mod_small by apply u8_of_byte_range.
  unfold u8_of_byte. by rewrite N2Z.id, Byte.of_to_N.
Qed.

Lemma u8_of_byte_of_u8 x : u8_of_byte (byte_of_u8 x) = x mod 256.
Proof.
  unfold byte_of_u8, u8_of_byte.
  pose proof (Z.mod_pos_bound x 256 ltac:(lia)).
  destruct (Byte.of_N (Z.to_N (x mod 256))) as [b|] eqn:E; simpl.
  - apply Byte.to_of_N in E. rewrite E. lia.
  - apply Byte.of_N_None_iff in E. lia.
Qed.

(** [to_le_bytes] and [from_le_bytes] of an unsigned integer of [n] bytes. *)
Fixpoint to_le_bytes (n : nat) (x : Z) : bytes :=
  match n with
  | O => []
  | S n => byte_of_u8 x :: to_le_bytes n (x / 256)
  end.

Fixpoint from_le_bytes (l : bytes) : Z :=
  match l with
  | [] => 0
  | b :: l => u8_of_byte b + 256 * from_le_bytes l
  end.

Lemma length_to_le_bytes n x : length (to_le_bytes n x) = n.
Proof. revert x. induction n; intros; simpl; auto. Qed.

Lemma len_to_le_bytes n x : len (to_le_bytes n x) = Z.of_nat n.
Proof. unfold len. by rewrite length_to_le_bytes. Qed.

Lemma pow_8_succ (n : nat) : 2 ^ (8 * Z.of_nat (S n)) = 256 * 2 ^ (8 * Z.of_nat n).
Proof. replace (8 * Z.of_nat (S n)) with (8 + 8 * Z.of_nat n) by lia. rewrite Z.pow_add_r by lia. lia. Qed.

Lemma from_to_le_bytes n x : fits (8 * Z.of_nat n) x -> from_le_bytes (to_le_bytes n x) = x.
Proof.
  unfold fits. revert x. induction n as [|n IH]; intros x Hx.
  - simpl in *. lia.
  - rewrite pow_8_succ in Hx. cbn [to_le_bytes from_le_bytes].
    rewrite u8_of_byte_of_u8, IH by (split; [apply Z.div_pos | apply Z.div_lt_upper_bound]; lia).
    pose proof (Z.div_mod x 256). lia.
Qed.

Lemma from_le_bytes_fits l : fits (8 * len l) (from_le_bytes l).
Proof.
  unfold fits, len. induction l as [|b l IH]; [simpl; lia|].
  cbn [length from_le_bytes]. rewrite pow_8_succ.
  pose proof (u8_of_byte_range b). lia.
Qed.

Lemma to_from_le_bytes l : to_le_bytes (length l) (from_le_bytes l) = l.
Proof.
  induction l as [|b l IH]; [done|]. cbn [length from_le_bytes to_le_bytes].
  pose proof (u8_of_byte_range b).
  replace ((u8_of_byte b + 256 * from_le_bytes l) / 256) with (from_le_bytes l)
    by (rewrite Z.add_comm, Z.mul_comm, Z.div_add_l, Z.div_small by lia; lia).
  rewrite IH. f_equal. rewrite <- (byte_of_u8_of_byte b) at 2. unfold byte_of_u8.
  do 3 f_equal. rewrite Z.add_comm, Z.mul_comm, Z.add_comm, Z_mod_plus_full. done.
Qed.

#[global] Arguments to_le_bytes : simpl never.
#[global] Arguments from_le_bytes : simpl never.

(** Lexicographic order on byte strings, the [Ord] of [[u8]] and of [Vec<u8>]. *)
Fixpoint lex_compare (l l' : bytes) : comparison :=
  match l, l' with
  | [], [] => Eq
  | [], _ :: _ => Lt
  | _ :: _, [] => Gt
  | b :: l, b' :: l' =>
      match u8_of_byte b ?= u8_of_byte b' with
      | Eq => lex_compare l l'
      | c => c
      end
  end.

Definition lex_lt (l l' : bytes) : Prop := lex_compare l l' = Lt.
Definition lex_le (l l' : bytes) : Prop := lex_compare l l' <> Gt.

#[export] Instance lex_lt_dec : RelDecision lex_lt.
Proof. intros l l'. unfold lex_lt. apply _. Defined.
#[export] Instance lex_le_dec : RelDecision lex_le.
Proof. intros l l'. unfold lex_le. apply _. Defined.

Lemma u8_of_byte_inj b b' : u8_of_byte b = u8_of_byte b' -> b = b'.
Proof. intros E. by rewrite <- (byte_of_u8_of_byte b), E, byte_of_u8_of_byte. Qed.

Lemma lex_compare_refl l : lex_compare l l = Eq.
Proof. induction l; simpl; [done|]. by rewrite Z.compare_refl. Qed.

Lemma lex_compare_eq l l' : lex_compare l l' = Eq -> l = l'.
Proof.
  revert l'. induction l as [|b l IH]; intros [|b' l']; simpl; try done.
  destruct (Z.compare_spec (u8_of_byte b) (u8_of_byte b')); try done.
  intros E. f_equal; [by apply u8_of_byte_inj | by apply IH].
Qed.

Lemma lex_lt_irrefl l : ~ lex_lt l l.
Proof. unfold lex_lt. by rewrite lex_compare_refl. Qed.

Lemma lex_lt_trans l1 l2 l3 : lex_lt l1 l2 -> lex_lt l2 l3 -> lex_lt l1 l3.
Proof.
  unfold lex_lt. revert l2 l3. induction l1 as [|b1 l1 IH]; intros [|b2 l2] [|b3 l3]; simpl; try done.
  destruct (Z.compare_spec (u8_of_byte b1) (u8_of_byte b2)),
    (Z.compare_spec (u8_of_byte b2) (u8_of_byte b3)),
    (Z.compare_spec (u8_of_byte b1) (u8_of_byte b3)); try done; try lia.
  apply IH.
Qed.

#[export] Instance lex_lt_Transitive : Transitive lex_lt := lex_lt_trans.

(** A list strictly sorted by a key has no duplicates. *)
Lemma StronglySorted_lex_NoDup (l : list bytes) : StronglySorted lex_lt l -> NoDup l.
Proof.
  induction 1 as [|x l _ IH Hx]; constructor; auto.
  intros Hin. rewrite Forall_forall in Hx. by eapply lex_lt_irrefl, Hx.
Qed.

(** ** Automation *)

Create HintDb bee.
Create Rewrite HintDb bee.

(** Turns the boolean guards of the code into propositions. *)
Ltac bool_to_prop :=
  repeat match goal with
  | H : _ && _ = true |- _ => apply andb_true_iff in H as [? ?]
  | H : _ && _ = false |- _ => apply andb_false_iff in H
  | H : _ || _ = false |- _ => apply orb_false_iff in H as [? ?]
  | H : _ || _ = true |- _ => apply orb_true_iff in H
  | H : negb _ = true |- _ => apply negb_true_iff in H
  | H : negb _ = false |- _ => apply negb_false_iff in H
  | H : range_contains _ _ _ = true |- _ => apply range_contains_spec in H
  | H : (_ <? _) = true |- _ => apply Z.ltb_lt in H
  | H : (_ <? _) = false |- _ => apply Z.ltb_ge in H
  | H : (_ <=? _) = true |- _ => apply Z.leb_le in H
  | H : (_ <=? _) = false |- _ => apply Z.leb_gt in H
  | H : (_ =? _) = true |- _ => apply Z.eqb_eq in H
  | H : (_ =? _) = false |- _ => apply Z.eqb_neq in H
  | H : bool_decide _ = true |- _ => apply bool_decide_eq_true in H
  | H : bool_decide _ = false |- _ => apply bool_decide_eq_false in H
  end.

(** Inverts chains of successful results. *)
Ltac inv_ok :=
  repeat match goal with
  | H : result_bind _ _ = Ok _ |- _ => apply result_bind_Ok in H as (? & ? & ?)
  | H : ensure _ _ = Ok _ |- _ => apply ensure_Ok in H
  | H : ok_or _ _ = Ok _ |- _ => apply ok_or_Ok in H
  | H : Ok _ = Ok _ |- _ => injection H as H; subst
  | H : Err _ = Ok _ |- _ => discriminate H
  | H : (_, _) = (_, _) |- _ => injection H as ? ?; subst
  | H : None = Some _ |- _ => discriminate H
  | H : Some _ = None |- _ => discriminate H
  | H : Some _ = Some _ |- _ => injection H as ?; subst
  end.
