(* ===== verification/Packable.v ===== *)
(** * Binary serialization: the [Packable] trait

    Models [bee-common/bee-common/src/packable.rs]. A value of type [Packable E A] is an implementation
    of the trait for the type [A] with the associated error [E]; [PackableOk] states what such an
    implementation promises to the code that composes it, and [PackableCanonical] that a value has one
    encoding only. *)

From S2P Require Import Prelude.

Local Open Scope Z_scope.

(** ** Readers

    A reader is the [Read] instance of a byte slice: it consumes a prefix and leaves the rest. *)

Definition reader (E A : Type) : Type := bytes -> result E (A * bytes).

(** The only [std::io::Error] of a byte slice. *)
Inductive io_error := UnexpectedEof.

Definition rret {E A} (a : A) : reader E A := fun bs => Ok (a, bs).

Definition rbind {E E' A B} `{From E E'} (m : reader E A) (k : A -> reader E' B) : reader E' B :=
  fun bs =>
    match m bs with
    | Ok (a, rest) => k a rest
    | Err e => Err (from e)
    end.

Definition rlift {E A} (m : result E A) : reader E A :=
  fun bs =>
    match m with
    | Ok a => Ok (a, bs)
    | Err e => Err e
    end.

Definition rfail {E A} (e : E) : reader E A := fun _ => Err e.

Definition rmap_err {E E' A} (f : E -> E') (m : reader E A) : reader E' A := fun bs => map_err f (m bs).

Notation "'let!' x ':=' m 'in' k" := (rbind m (fun x => k))
  (at level 10, x pattern, m at level 100, k at level 200) : bee_scope.

(** [if c { return Err(e); }] *)
Definition rensure {E} (c : bool) (e : E) : reader E unit := rlift (ensure c e).

(** [read_exact] into a buffer of [n] bytes. *)
Definition read_exact (n : Z) : reader io_error bytes :=
  fun bs =>
    if len bs <? n then Err UnexpectedEof
    else Ok (take (Z.to_nat n) bs, drop (Z.to_nat n) bs).

(** ** The trait *)

Record Packable (E A : Type) := {
  packed_len : A -> Z;
  pack : A -> bytes;
  unpack_inner : bool -> reader E A;
}.
Arguments packed_len {E A} p a.
Arguments pack {E A} p a.
Arguments unpack_inner {E A} p CHECK bs.

(** [pack_new] allocates [packed_len] bytes and packs into them. *)
Definition pack_new {E A} (P : Packable E A) (a : A) : bytes := pack P a.

Definition unpack {E A} (P : Packable E A) : reader E A := unpack_inner P true.
Definition unpack_unchecked {E A} (P : Packable E A) : reader E A := unpack_inner P false.

(** The arrays [[u8; N]]. *)
Definition array_packable (n : Z) : Packable io_error bytes := {|
  packed_len _ := n;
  pack a := a;
  unpack_inner _ := read_exact n;
|}.

(** The macro [impl_packable_for_num] at the unsigned types of [n] bytes. *)
Definition unsigned_packable (n : nat) : Packable io_error Z := {|
  packed_len _ := Z.of_nat n;
  pack a := to_le_bytes n a;
  unpack_inner _ := let! bs := read_exact (Z.of_nat n) in rret (from_le_bytes bs);
|}.

(** The macro [impl_packable_for_num] at the signed types of [n] bytes. *)
Definition signed_packable (n : nat) : Packable io_error Z := {|
  packed_len _ := Z.of_nat n;
  pack a := to_le_bytes n (as_u (8 * Z.of_nat n) a);
  unpack_inner _ :=
    let! bs := read_exact (Z.of_nat n) in rret (as_i (8 * Z.of_nat n) (from_le_bytes bs));
|}.

Definition u8 := unsigned_packable 1.
Definition u16 := unsigned_packable 2.
Definition u32 := unsigned_packable 4.
Definition u64 := unsigned_packable 8.
Definition i64 := signed_packable 8.

Definition bool_packable : Packable io_error bool := {|
  packed_len (b : bool) := packed_len u8 (if b then 1 else 0);
  pack (b : bool) := pack u8 (if b then 1 else 0);
  unpack_inner CHECK := let! x := unpack_inner u8 CHECK in rret (negb (x =? 0));
|}.

(** [for x in xs { x.pack(writer)?; }] *)
Definition pack_all {E A} (P : Packable E A) (l : list A) : bytes := concat (pack P <$> l).

(** [for _ in 0..n { xs.push(P::unpack_inner::<R, CHECK>(reader)?); }] *)
Fixpoint unpack_n {E A} (P : Packable E A) (CHECK : bool) (n : nat) : reader E (list A) :=
  match n with
  | O => rret []
  | S n =>
      let! a := unpack_inner P CHECK in
      let! l := unpack_n P CHECK n in
      rret (a :: l)
  end.

(** [xs.iter().map(Packable::packed_len).sum::<usize>()] *)
Definition packed_len_all {E A} (P : Packable E A) (l : list A) : Z := sum_Z (packed_len P) l.

#[global] Arguments packed_len_all : simpl never.
#[global] Arguments pack_all : simpl never.

Definition vec_packable {E A} `{From io_error E} (P : Packable E A) : Packable E (list A) := {|
  packed_len l := packed_len u64 0 + packed_len_all P l;
  pack l := pack u64 (as_u 64 (len l)) ++ pack_all P l;
  unpack_inner CHECK :=
    let! n := unpack_inner u64 CHECK in
    unpack_n P CHECK (Z.to_nat n);
|}.

Inductive OptionError (E : Type) :=
| OptionError_Bool (e : io_error)
| OptionError_Inner (e : E).
Arguments OptionError_Bool {E} e.
Arguments OptionError_Inner {E} e.

Definition option_packable {E A} (P : Packable E A) : Packable (OptionError E) (option A) := {|
  packed_len o := packed_len bool_packable true + match o with Some a => packed_len P a | None => 0 end;
  pack o :=
    match o with
    | Some a => pack bool_packable true ++ pack P a
    | None => pack bool_packable false
    end;
  unpack_inner CHECK :=
    let! b := rmap_err OptionError_Bool (unpack_inner bool_packable CHECK) in
    if (b : bool) then
      let! a := rmap_err OptionError_Inner (unpack_inner P CHECK) in rret (Some a)
    else rret None;
|}.

(** ** What an implementation promises *)

(** [wf] is the set of values the type's constructors let through. *)
Class PackableOk {E A} (P : Packable E A) (wf : A -> Prop) : Prop := {
  packed_len_ok a : wf a -> len (pack P a) = packed_len P a;
  unpack_pack CHECK a rest : wf a -> unpack_inner P CHECK (pack P a ++ rest) = Ok (a, rest);
  unpack_wf bs a rest : unpack_inner P true bs = Ok (a, rest) -> wf a;
  unpack_len CHECK bs a rest :
    unpack_inner P CHECK bs = Ok (a, rest) -> exists used, bs = used ++ rest /\ len used = packed_len P a;
}.

(** The decoder accepts no other byte string for a value than the one the encoder writes. *)
Class PackableCanonical {E A} (P : Packable E A) : Prop :=
  unpack_canonical CHECK bs a rest : unpack_inner P CHECK bs = Ok (a, rest) -> bs = pack P a ++ rest.

(** *** Readers: inversion and execution *)

Lemma rbind_Ok {E E' A B} `{From E E'} (m : reader E A) (k : A -> reader E' B) bs b rest :
  rbind m k bs = Ok (b, rest) <-> exists a mid, m bs = Ok (a, mid) /\ k a mid = Ok (b, rest).
Proof. unfold rbind. destruct (m bs) as [[a mid]|e]; naive_solver. Qed.

Lemma rlift_Ok {E A} (m : result E A) bs a rest : rlift m bs = Ok (a, rest) <-> m = Ok a /\ rest = bs.
Proof. unfold rlift. destruct m; naive_solver. Qed.

Lemma rmap_err_Ok {E E' A} (f : E -> E') (m : reader E A) bs r : rmap_err f m bs = Ok r <-> m bs = Ok r.
Proof. unfold rmap_err. destruct (m bs); naive_solver. Qed.

Lemma read_exact_Ok n bs a rest :
  0 <= n -> read_exact n bs = Ok (a, rest) <-> bs = a ++ rest /\ len a = n.
Proof.
  intros Hn. unfold read_exact, len. split.
  - case_match; intros; inv_ok; bool_to_prop. split; [by rewrite take_drop|].
    rewrite length_take. lia.
  - intros [-> <-]. rewrite length_app. case_match; bool_to_prop; [lia|].
    rewrite Nat2Z.id, take_app_length, drop_app_length. done.
Qed.

Lemma rbind_run {E E' A B} `{From E E'} (m : reader E A) (k : A -> reader E' B) bs a rest :
  m bs = Ok (a, rest) -> rbind m k bs = k a rest.
Proof. unfold rbind. by intros ->. Qed.

Lemma rbind_pack {E E' A B} `{From E E'} (P : Packable E A) wf `{!PackableOk P wf} CHECK
    (k : A -> reader E' B) a rest :
  wf a -> rbind (unpack_inner P CHECK) k (pack P a ++ rest) = k a rest.
Proof. intros. by apply rbind_run, unpack_pack. Qed.

Lemma rbind_read_exact {E B} `{From io_error E} n (k : bytes -> reader E B) a rest :
  len a = n -> rbind (read_exact n) k (a ++ rest) = k a rest.
Proof. intros. apply rbind_run, read_exact_Ok; [subst; apply len_nonneg | done]. Qed.

Lemma rbind_ensure {E B} (c : bool) e (k : unit -> reader E B) bs :
  c = true -> rbind (rensure c e) k bs = k tt bs.
Proof. by intros ->. Qed.

Lemma rbind_lift {E E' A B} `{From E E'} (m : result E A) (k : A -> reader E' B) a bs :
  m = Ok a -> rbind (rlift m) k bs = k a bs.
Proof. by intros ->. Qed.

(** Inverts the successful runs of readers in the hypotheses. *)
Ltac inv_read :=
  repeat (inv_ok; match goal with
  | H : rbind _ _ _ = Ok _ |- _ => apply rbind_Ok in H as (? & ? & ? & ?)
  | H : rret _ _ = Ok _ |- _ => unfold rret in H
  | H : rfail _ _ = Ok _ |- _ => discriminate H
  | H : rlift _ _ = Ok _ |- _ => apply rlift_Ok in H as [? ->]
  | H : rensure _ _ _ = Ok _ |- _ => unfold rensure in H
  | H : rmap_err _ _ _ = Ok _ |- _ => apply rmap_err_Ok in H
  | H : context [let '(_, _) := ?x in _] |- _ => destruct x
  end); inv_ok.

(** *** The implementations of the trait keep the promise *)

#[export] Instance array_ok n : 0 <= n -> PackableOk (array_packable n) (fun a => len a = n).
Proof.
  intros Hn. split; simpl.
  - done.
  - intros. by apply read_exact_Ok.
  - intros bs a rest H. by apply read_exact_Ok in H as [_ ?].
  - intros _ bs a rest H. apply read_exact_Ok in H as [-> ?]; eauto.
Qed.

#[export] Instance array_canonical n : 0 <= n -> PackableCanonical (array_packable n).
Proof. intros Hn ???? H. by apply read_exact_Ok in H as [-> _]. Qed.

#[export] Instance unsigned_ok n : PackableOk (unsigned_packable n) (fits (8 * Z.of_nat n)).
Proof.
  split; simpl.
  - intros. apply len_to_le_bytes.
  - intros _ a rest Ha. rewrite rbind_read_exact by apply len_to_le_bytes.
    unfold rret. by rewrite from_to_le_bytes.
  - intros bs a rest H. inv_read. apply read_exact_Ok in H as [-> <-]; [|lia]. apply from_le_bytes_fits.
  - intros _ bs a rest H. inv_read. apply read_exact_Ok in H as [-> ?]; [|lia]. eauto.
Qed.

#[export] Instance unsigned_canonical n : PackableCanonical (unsigned_packable n).
Proof.
  intros CHECK bs a rest H. simpl in *. inv_read. apply read_exact_Ok in H as [-> Hl]; [|lia].
  unfold len in Hl. apply Nat2Z.inj in Hl as <-. by rewrite to_from_le_bytes.
Qed.

#[export] Instance u8_ok : PackableOk u8 (fits 8) := unsigned_ok 1.
#[export] Instance u16_ok : PackableOk u16 (fits 16) := unsigned_ok 2.
#[export] Instance u32_ok : PackableOk u32 (fits 32) := unsigned_ok 4.
#[export] Instance u64_ok : PackableOk u64 (fits 64) := unsigned_ok 8.
#[export] Instance u8_canonical : PackableCanonical u8 := unsigned_canonical 1.
#[export] Instance u16_canonical : PackableCanonical u16 := unsigned_canonical 2.
#[export] Instance u32_canonical : PackableCanonical u32 := unsigned_canonical 4.
#[export] Instance u64_canonical : PackableCanonical u64 := unsigned_canonical 8.

Lemma packed_len_u8 x : packed_len u8 x = 1.
Proof. done. Qed.
Lemma packed_len_u16 x : packed_len u16 x = 2.
Proof. done. Qed.
Lemma packed_len_u32 x : packed_len u32 x = 4.
Proof. done. Qed.
Lemma packed_len_u64 x : packed_len u64 x = 8.
Proof. done. Qed.
Lemma packed_len_bool b : packed_len bool_packable b = 1.
Proof. by destruct b. Qed.
Lemma packed_len_array n bs : packed_len (array_packable n) bs = n.
Proof. done. Qed.
#[export] Hint Rewrite packed_len_u8 packed_len_u16 packed_len_u32 packed_len_u64 packed_len_bool packed_len_array
  @len_app @len_cons @len_nil : bee.

Lemma as_i_as_u w x : 0 < w -> sfits w x -> as_i w (as_u w x) = x.
Proof.
  intros Hw Hx. unfold as_i, as_u. rewrite Zplus_mod_idemp_l. by apply as_i_id.
Qed.

Lemma as_u_as_i w x : 0 < w -> fits w x -> as_u w (as_i w x) = x.
Proof.
  intros Hw Hx. unfold as_i, as_u. rewrite Zminus_mod_idemp_l.
  replace (x + 2 ^ (w - 1) - 2 ^ (w - 1)) with x by lia. by apply Z.mod_small.
Qed.

#[export] Instance i64_ok : PackableOk i64 (sfits 64).
Proof.
  split; unfold i64, signed_packable; cbn [packed_len pack unpack_inner].
  - intros. apply len_to_le_bytes.
  - intros _ a rest Ha. rewrite rbind_read_exact by apply len_to_le_bytes.
    unfold rret. rewrite from_to_le_bytes by by apply as_u_fits.
    by rewrite as_i_as_u.
  - intros bs a rest H. inv_read. by apply as_i_sfits.
  - intros _ bs a rest H. inv_read. apply read_exact_Ok in H as [-> ?]; [eauto|lia].
Qed.

#[export] Instance i64_canonical : PackableCanonical i64.
Proof.
  intros CHECK bs a rest. unfold i64, signed_packable; cbn [pack unpack_inner]. intros H.
  inv_read. apply read_exact_Ok in H as [-> Hl]; [|lia].
  pose proof (from_le_bytes_fits x) as Hf. rewrite Hl in Hf.
  rewrite as_u_as_i by done. unfold len in Hl. apply Nat2Z.inj in Hl. rewrite <- Hl.
  by rewrite to_from_le_bytes.
Qed.

#[export] Instance bool_ok : PackableOk bool_packable (fun _ => True).
Proof.
  split; cbn [bool_packable packed_len pack unpack_inner].
  - by intros [].
  - intros CHECK [] rest _; rewrite (rbind_pack u8 (fits 8)) by done; done.
  - done.
  - intros CHECK bs a rest H. inv_read.
    apply (unpack_len (P := u8) CHECK) in H as (used & -> & Hl). eauto.
Qed.

Lemma pack_all_cons {E A} (P : Packable E A) a l : pack_all P (a :: l) = pack P a ++ pack_all P l.
Proof. done. Qed.

Lemma packed_len_all_cons {E A} (P : Packable E A) a l :
  packed_len_all P (a :: l) = packed_len P a + packed_len_all P l.
Proof. done. Qed.

Section all.
Context {E A} (P : Packable E A) (wf : A -> Prop) `{!PackableOk P wf}.

Lemma pack_all_len l : Forall wf l -> len (pack_all P l) = packed_len_all P l.
Proof.
  induction 1; [done|]. rewrite pack_all_cons, packed_len_all_cons, len_app, packed_len_ok by done. lia.
Qed.

Lemma unpack_n_pack CHECK l rest :
  Forall wf l -> unpack_n P CHECK (length l) (pack_all P l ++ rest) = Ok (l, rest).
Proof.
  induction 1 as [|a l Ha Hl IH]; [done|].
  rewrite pack_all_cons, <- app_assoc. cbn [length unpack_n].
  rewrite (rbind_pack P wf) by done. by rewrite (rbind_run _ _ _ _ _ IH).
Qed.

Lemma unpack_n_length CHECK n bs l rest : unpack_n P CHECK n bs = Ok (l, rest) -> length l = n.
Proof.
  revert bs l. induction n as [|n IH]; simpl; intros; inv_read; [done|]. simpl. eauto.
Qed.

Lemma unpack_n_wf n bs l rest : unpack_n P true n bs = Ok (l, rest) -> Forall wf l.
Proof.
  revert bs l. induction n as [|n IH]; simpl; intros; inv_read; [constructor|].
  constructor; [by eapply unpack_wf | eauto].
Qed.

Lemma unpack_n_len CHECK n bs l rest :
  unpack_n P CHECK n bs = Ok (l, rest) -> exists used, bs = used ++ rest /\ len used = packed_len_all P l.
Proof.
  revert bs l. induction n as [|n IH]; simpl; intros; inv_read; [by exists []|].
  apply (unpack_len (wf := wf)) in H as (u1 & -> & H1). apply IH in H0 as (u2 & -> & H2).
  exists (u1 ++ u2). rewrite app_assoc, len_app, packed_len_all_cons. split; [done|lia].
Qed.

Lemma rbind_unpack_n {E' B} `{From E E'} CHECK n (k : list A -> reader E' B) l rest :
  Forall wf l -> n = length l -> rbind (unpack_n P CHECK n) k (pack_all P l ++ rest) = k l rest.
Proof. intros ? ->. by apply rbind_run, unpack_n_pack. Qed.

Lemma unpack_n_canonical `{!PackableCanonical P} CHECK n bs l rest :
  unpack_n P CHECK n bs = Ok (l, rest) -> bs = pack_all P l ++ rest.
Proof.
  revert bs l. induction n as [|n IH]; simpl; intros; inv_read; [done|].
  apply unpack_canonical in H as ->. apply IH in H0 as ->. by rewrite pack_all_cons, app_assoc.
Qed.
End all.

(** [Vec<P>] keeps the promise when [P] does. *)
#[export] Instance vec_ok {E A} `{HF : From io_error E} (P : Packable E A) wf `{!PackableOk P wf} :
  PackableOk (vec_packable P) (fun l => Forall wf l /\ fits 64 (len l)).
Proof.
  split; cbn [vec_packable packed_len pack unpack_inner].
  - intros l [Hl Hn]. rewrite len_app, (pack_all_len P wf) by done. done.
  - intros CHECK l rest [Hl Hn]. rewrite as_u_id, <- app_assoc by done.
    rewrite (rbind_pack u64 (fits 64)) by done. unfold len at 1. rewrite Nat2Z.id.
    by apply (unpack_n_pack P wf).
  - intros bs l rest H. inv_read. split; [by eapply unpack_n_wf|].
    apply (unpack_wf (P := u64)) in H. apply (unpack_n_length P) in H0.
    unfold len, fits in *. lia.
  - intros CHECK bs l rest H. inv_read.
    apply (unpack_len (P := u64)) in H as (u1 & -> & H).
    eapply (unpack_n_len P wf) in H0 as (u2 & -> & H0).
    exists (u1 ++ u2). rewrite app_assoc, len_app. split; [done|]. autorewrite with bee in *. lia.
Qed.

#[export] Instance option_ok {E A} (P : Packable E A) wf `{!PackableOk P wf} :
  PackableOk (option_packable P) (fun o => match o with Some a => wf a | None => True end).
Proof.
  assert (Hb : forall CHECK b rest, unpack_inner bool_packable CHECK (pack bool_packable b ++ rest) = Ok (b, rest))
    by (intros; by apply unpack_pack).
  split; cbn [option_packable packed_len pack unpack_inner].
  - intros [a|] Ha; [|done]. rewrite len_app, !packed_len_ok by done. done.
  - intros CHECK [a|] rest Ho; [rewrite <- app_assoc|];
      rewrite (rbind_run _ _ _ _ _ (proj2 (rmap_err_Ok _ _ _ _) (Hb CHECK _ _))); [|done].
    rewrite (rbind_run _ _ _ a rest); [done|]. by apply rmap_err_Ok, (unpack_pack (wf := wf)).
  - intros bs [a|] rest H; [|done]. inv_read. destruct x; inv_read. by eapply unpack_wf.
  - intros CHECK bs o rest H. inv_read.
    apply (unpack_len (P := bool_packable)) in H as (u1 & -> & H). destruct x; inv_read.
    + apply (unpack_len (wf := wf)) in H0 as (u2 & -> & H2). exists (u1 ++ u2).
      rewrite app_assoc, len_app. split; [done|]. autorewrite with bee in *. lia.
    + exists u1. split; [done|]. autorewrite with bee in *. lia.
Qed.

(** ** Automation for the composed implementations

    The codec of a record runs the codecs of its fields in order, and the codec of an enumeration
    dispatches on a kind; the proofs of the promise follow that structure. *)

#[export] Hint Extern 0 (0 <= _) => (vm_compute; discriminate) : typeclass_instances.

(** Unfolds the constants of the bounds of fields; extended where constants are declared. *)
Ltac unfold_consts := idtac.

(** Decides the side conditions that remain on fields. *)
Ltac wf_side :=
  lazymatch goal with
  | |- fits ?w ?x =>
      first [ assumption
            | assert_fails (idtac; match x with context [?v] => is_var v end);
              by (unfold fits; split; vm_compute; congruence)
            | by (unfold fits in *; destruct_and?; unfold_consts; lia)
            | by (destruct_and?; assumption) ]
  | |- _ => first [assumption | reflexivity | by (destruct_and?; assumption) | by (destruct_and?; unfold_consts; lia)]
  end.

(** Runs the decoder on the front of an encoding. *)
Ltac run_step :=
  match goal with
  | |- context [rbind (unpack_inner ?P ?C) ?k (pack ?P ?a ++ ?r)] =>
      rewrite (rbind_pack P _ C k a r) by wf_side
  | |- context [rbind (unpack_n ?P ?C ?n) ?k (pack_all ?P ?l ++ ?r)] =>
      rewrite (rbind_unpack_n P _ C n k l r) by wf_side
  | |- context [rbind (rensure _ _) _ _] => rewrite rbind_ensure by wf_side
  | |- (if ?a =? ?b then _ else _) _ = _ =>
      let v := eval vm_compute in (a =? b) in
      match v with true => idtac | false => idtac end;
      change (a =? b) with v; cbv iota
  | |- unpack_inner ?P ?C (pack ?P ?a ++ ?r) = _ => rewrite (unpack_pack (P := P) C a r) by wf_side
  end.
Ltac run_unpack := rewrite <- ?app_assoc; repeat (run_step; cbv beta).

(** Splits the input of each successful decoder into what it consumed and the rest. *)
Ltac split_read :=
  repeat match goal with
  | H : unpack_inner ?P ?C _ = Ok _ |- _ => apply (unpack_len (P := P)) in H as (? & -> & ?)
  | H : unpack_n ?P ?C _ _ = Ok _ |- _ => apply (unpack_n_len P _) in H as (? & -> & ?)
  end.
Ltac solve_read :=
  split_read; rewrite ?app_assoc; eexists; split; [reflexivity|];
  rewrite ?len_app; autorewrite with bee in *; cbn in *; lia.

(** Replaces the input of each successful decoder by the encoding of the value. *)
Ltac canonical_read :=
  repeat match goal with
  | H : unpack_inner ?P ?C _ = Ok _ |- _ => apply (unpack_canonical (P := P)) in H as ->
  | H : unpack_n ?P ?C _ _ = Ok _ |- _ => apply (unpack_n_canonical P) in H as ->
  end; rewrite <- ?app_assoc.

(** Collects what the checked decoders promise of the values. *)
Ltac wf_read :=
  repeat match goal with
  | H : unpack_inner ?P true _ = Ok _ |- _ => apply (unpack_wf (P := P)) in H
  | H : unpack_n ?P true _ _ = Ok _ |- _ =>
      let Hl := fresh in
      pose proof (unpack_n_length P _ _ _ _ _ H) as Hl; apply (unpack_n_wf P _) in H
  end.

Ltac kinds :=
  repeat match goal with
  | H : (if ?b then _ else _) _ = Ok _ |- _ => destruct b eqn:?; inv_read
  | H : (?k =? _) = true |- _ => apply Z.eqb_eq in H; subst k
  end.

Ltac len_pack := rewrite ?len_app, ?packed_len_ok by wf_side; autorewrite with bee; lia.

(** Proves the laws of the codec of a record or an enumeration from the laws of the codecs of its fields.
    [new_Ok] characterises the results of the type's validating constructor. *)
Ltac packable_ok new_Ok :=
  split; cbn [packed_len pack unpack_inner];
  [ let a := fresh "a" in
    intros a ?;
    first [len_pack | destruct a; cbv beta iota in *; len_pack]
  | let a := fresh "a" in
    intros ? a ? ?;
    first [ run_unpack; first [by destruct a | apply rlift_Ok; rewrite new_Ok; split_and?; first [wf_side | by destruct a]]
          | destruct a; cbv beta iota in *; run_unpack; done ]
  | intros; inv_read; kinds; rewrite ?new_Ok in *; wf_read; destruct_and?; subst; cbn; split_and?; first [assumption | done | unfold fits in *; unfold_consts; lia]
  | intros; inv_read; kinds; rewrite ?new_Ok in *; destruct_and?; subst; solve_read ].

(** The same for canonicity. *)
Ltac packable_canonical new_Ok :=
  let H := fresh "H" in
  intros ? ? ? ? H; cbn [pack unpack_inner] in *; inv_read; kinds; rewrite ?new_Ok in *; destruct_and?; subst;
  canonical_read; done.

(** ** Claims *)

(** The generic implementations keep the contract of [Packable] when the implementation for the elements does: the
    announced length is the length of the encoding, decoding undoes encoding and consumes exactly the encoding. *)
Theorem generic_codecs {E A} `{From io_error E} (P : Packable E A) wf :
  PackableOk P wf ->
  PackableOk (vec_packable P) (fun l => Forall wf l /\ fits 64 (len l))
  /\ PackableOk (option_packable P) (fun o => match o with Some a => wf a | None => True end).
Proof. intros HP. split; apply _. Qed.

(** The fixed-width integers are encoded in little endian in one way only, at every width. *)
Theorem number_codecs n :
  PackableOk (unsigned_packable n) (fits (8 * Z.of_nat n)) /\ PackableCanonical (unsigned_packable n)
  /\ PackableOk i64 (sfits 64) /\ PackableCanonical i64.
Proof. split_and!; apply _. Qed.

Module Examples.
Lemma generic_codecs_witness : PackableOk (vec_packable u16) (fun l => Forall (fits 16) l /\ fits 64 (len l)).
Proof. exact (proj1 (generic_codecs u16 (fits 16) u16_ok)). Defined.
End Examples.
