(* ===== verification/Trits.v ===== *)
(** * Trits and their packed encodings

    Models [bee-ternary]: balanced and unbalanced trits ([trit/balanced.rs], [trit/unbalanced.rs]), the
    encodings [T2B1] to [T5B1] that pack 2 to 5 trits into one byte ([t2b1.rs] to [t5b1.rs], one Section
    over the two constants in which the four files differ), and the trit buffer operations of [lib.rs]
    that the message types use. A buffer refines the list of its trits ([buf_repr]). *)

From S2P Require Import Prelude.

Local Open Scope Z_scope.

(** ** Trits *)

Inductive Btrit := NegOne | Zero | PlusOne.
Inductive Utrit := UZero | UOne | UTwo.

#[export] Instance Btrit_eq_dec : EqDecision Btrit.
Proof. solve_decision. Defined.
#[export] Instance Utrit_eq_dec : EqDecision Utrit.
Proof. solve_decision. Defined.

Definition Btrit_shift (t : Btrit) : Utrit :=
  match t with NegOne => UZero | Zero => UOne | PlusOne => UTwo end.

Definition Utrit_shift (t : Utrit) : Btrit :=
  match t with UZero => NegOne | UOne => Zero | UTwo => PlusOne end.

Definition Btrit_neg (t : Btrit) : Btrit :=
  match t with NegOne => PlusOne | Zero => Zero | PlusOne => NegOne end.

Definition Btrit_into_i8 (t : Btrit) : Z :=
  match t with NegOne => -1 | Zero => 0 | PlusOne => 1 end.

Definition Btrit_try_from_i8 (x : Z) : option Btrit :=
  if x =? -1 then Some NegOne else if x =? 0 then Some Zero else if x =? 1 then Some PlusOne else None.

Definition Btrit_checked_increment (t : Btrit) : option Btrit :=
  match t with NegOne => Some Zero | Zero => Some PlusOne | PlusOne => None end.

(** [Utrit::from_u8] panics on other representations than 0, 1 and 2. *)
Definition Utrit_from_u8 (x : Z) : option Utrit :=
  if x =? 0 then Some UZero else if x =? 1 then Some UOne else if x =? 2 then Some UTwo else None.

Definition Utrit_into_u8 (t : Utrit) : Z :=
  match t with UZero => 0 | UOne => 1 | UTwo => 2 end.

(** ** Packed encodings *)

(** [RawEncodingBuf] of the packed encodings: the bytes and the number of trits. *)
Record TritBuf := mkTritBuf { buf_raw : list Z; buf_len : nat }.

#[export] Instance TritBuf_eq_dec : EqDecision TritBuf.
Proof. solve_decision. Defined.

Section packed.
(** [TRITS_PER_BYTE] and [BALANCE_DIFF] of the encoding. *)
Context (tpb : nat) (balance_diff : Z).

Definition pow3 (elem : nat) : Z := 3 ^ Z.of_nat elem.

Definition extract (x : Z) (elem : nat) : option Btrit :=
  Utrit_shift <$> Utrit_from_u8 (as_u 8 (Z.rem (Z.quot (x + balance_diff) (pow3 elem)) 3)).

Definition insert_trit (x : Z) (elem : nat) (trit : Btrit) : Z :=
  let utrit := Btrit_shift trit in
  let ux := x + balance_diff in
  let ux := ux + (Utrit_into_u8 utrit - Z.rem (Z.quot ux (pow3 elem)) 3) * pow3 elem in
  as_i 8 (ux - balance_diff).

Definition is_valid (b : Z) : bool := (- balance_diff <=? b) && (b <=? balance_diff).

Definition TritBuf_new : TritBuf := mkTritBuf [] 0.

Definition TritBuf_push (b : TritBuf) (trit : Btrit) : TritBuf :=
  if bool_decide (buf_len b mod tpb = 0)%nat then
    mkTritBuf (buf_raw b ++ [insert_trit 0 0 trit]) (S (buf_len b))
  else
    let last_index := (length (buf_raw b) - 1)%nat in
    mkTritBuf (alter (fun x => insert_trit x (buf_len b mod tpb) trit) last_index (buf_raw b)) (S (buf_len b)).

(** The popped trit and the buffer that is left. *)
Definition TritBuf_pop (b : TritBuf) : option Btrit * TritBuf :=
  if bool_decide (buf_len b = 0)%nat then (None, b)
  else if bool_decide (buf_len b mod tpb = 1)%nat then
    ((last (buf_raw b)) ≫= fun x => extract x 0,
     mkTritBuf (take (length (buf_raw b) - 1) (buf_raw b)) (buf_len b - 1))
  else
    ((last (buf_raw b)) ≫= fun x => extract x ((buf_len b + tpb - 1) mod tpb),
     mkTritBuf (buf_raw b) (buf_len b - 1)).

Definition get_unchecked (b : TritBuf) (index : nat) : option Btrit :=
  (buf_raw b !! (index / tpb)%nat) ≫= fun x => extract x (index mod tpb).

Definition set_unchecked (b : TritBuf) (index : nat) (trit : Btrit) : TritBuf :=
  mkTritBuf (alter (fun x => insert_trit x (index mod tpb) trit) (index / tpb)%nat (buf_raw b)) (buf_len b).

Definition TritBuf_get (b : TritBuf) (index : nat) : option Btrit :=
  if bool_decide (index < buf_len b)%nat then get_unchecked b index else None.

(** [from_trits], and [collect] of an iterator of trits. *)
Definition from_trits (trits : list Btrit) : TritBuf := foldl TritBuf_push TritBuf_new trits.

(** [as_i8_slice]: the bytes that hold trits. *)
Definition as_i8_slice (b : TritBuf) : list Z :=
  take ((buf_len b + tpb - 1) / tpb) (buf_raw b).

(** [try_from_raw]; [from_raw_unchecked] asserts that the bytes hold [num_trits] trits. *)
Definition try_from_raw (raw : list Z) (num_trits : nat) : option TritBuf :=
  if forallb is_valid raw then
    if bool_decide (num_trits <= length raw * tpb)%nat then Some (mkTritBuf raw num_trits) else None
  else None.

(** [iter]: the trits of a slice; [None] when a byte is not a valid representation. *)
Definition iter_trits (b : TritBuf) : option (list Btrit) := mapM (get_unchecked b) (seq 0 (buf_len b)).

(** [to_buf] *)
Definition to_buf (b : TritBuf) : option TritBuf := from_trits <$> iter_trits b.
End packed.

(** *** The byte level

    The byte arithmetic of the four encodings is checked on every byte, element and trit. *)

Class PackedByte (tpb : nat) (d : Z) : Prop := {
  packed_tpb : (0 < tpb)%nat;
  packed_zero : is_valid d 0 = true;
  insert_valid x e t : is_valid d x = true -> (e < tpb)%nat -> is_valid d (insert_trit d x e t) = true;
  extract_insert_same x e t :
    is_valid d x = true -> (e < tpb)%nat -> extract d (insert_trit d x e t) e = Some t;
  extract_insert_other x e e' t :
    is_valid d x = true -> (e < tpb)%nat -> (e' < tpb)%nat -> e' <> e ->
    extract d (insert_trit d x e t) e' = extract d x e';
  extract_valid x e : is_valid d x = true -> (e < tpb)%nat -> is_Some (extract d x e);
}.

Definition valid_bytes (d : Z) : list Z := (fun n => Z.of_nat n - d) <$> seq 0 (Z.to_nat (2 * d + 1)).

Lemma valid_bytes_elem d x : 0 <= d -> is_valid d x = true -> In x (valid_bytes d).
Proof.
  unfold is_valid, valid_bytes. intros Hd H. bool_to_prop. apply in_map_iff.
  exists (Z.to_nat (x + d)). split; [lia|]. apply in_seq. lia.
Qed.

Definition all_trits : list Btrit := [NegOne; Zero; PlusOne].

Lemma all_trits_elem t : In t all_trits.
Proof. destruct t; simpl; auto. Qed.

Definition packed_byte_check (tpb : nat) (d : Z) : bool :=
  forallb (fun x =>
    forallb (fun e =>
      bool_decide (is_Some (extract d x e)) &&
      forallb (fun t =>
        let x' := insert_trit d x e t in
        is_valid d x' && bool_decide (extract d x' e = Some t) &&
        forallb (fun e' => bool_decide (e' = e) || bool_decide (extract d x' e' = extract d x e')) (seq 0 tpb))
      all_trits)
    (seq 0 tpb))
  (valid_bytes d).

Lemma packed_byte_check_sound tpb d :
  (0 < tpb)%nat -> 0 <= d -> packed_byte_check tpb d = true -> PackedByte tpb d.
Proof.
  unfold packed_byte_check. intros Htpb Hd H. rewrite forallb_forall in H.
  assert (Hxe : forall x e, is_valid d x = true -> (e < tpb)%nat ->
    is_Some (extract d x e) /\ forall t,
      is_valid d (insert_trit d x e t) = true /\ extract d (insert_trit d x e t) e = Some t /\
      forall e', (e' < tpb)%nat -> e' <> e -> extract d (insert_trit d x e t) e' = extract d x e').
  { intros x e Hx He. specialize (H x (valid_bytes_elem d x Hd Hx)). rewrite forallb_forall in H.
    specialize (H e ltac:(apply in_seq; lia)). apply andb_true_iff in H as [H1 H2].
    split; [by bool_to_prop|]. intros t. rewrite forallb_forall in H2. specialize (H2 t (all_trits_elem t)).
    apply andb_true_iff in H2 as [H2 H3]. apply andb_true_iff in H2 as [H2 H4].
    split; [done|]. split; [by bool_to_prop|]. intros e' He' Hne. rewrite forallb_forall in H3.
    specialize (H3 e' ltac:(apply in_seq; lia)). apply orb_true_iff in H3 as [H3|H3]; by bool_to_prop. }
  split; try done; try (intros; by apply Hxe). unfold is_valid. lia.
Qed.

#[export] Instance T2B1 : PackedByte 2 4.
Proof. apply packed_byte_check_sound; [lia | lia | vm_compute; reflexivity]. Qed.
#[export] Instance T3B1 : PackedByte 3 13.
Proof. apply packed_byte_check_sound; [lia | lia | vm_compute; reflexivity]. Qed.
#[export] Instance T4B1 : PackedByte 4 40.
Proof. apply packed_byte_check_sound; [lia | lia | vm_compute; reflexivity]. Qed.
#[export] Instance T5B1 : PackedByte 5 121.
Proof. apply packed_byte_check_sound; [lia | lia | vm_compute; reflexivity]. Qed.

(** *** Buffers refine lists of trits *)

Section refinement.
Context (tpb : nat) (d : Z) `{!PackedByte tpb d}.

(** The buffer holds the trits of the list, in as few bytes as they need. *)
Record buf_repr (b : TritBuf) (l : list Btrit) : Prop := {
  repr_valid : Forall (fun x => is_valid d x = true) (buf_raw b);
  repr_bytes : length (buf_raw b) = ((length l + tpb - 1) / tpb)%nat;
  repr_len : buf_len b = length l;
  repr_get i t : l !! i = Some t -> get_unchecked tpb d b i = Some t;
}.

Lemma ceil_aligned q : ((q * tpb + tpb - 1) / tpb = q)%nat.
Proof.
  pose proof packed_tpb. symmetry. apply (Nat.div_unique _ _ _ (tpb - 1)); lia.
Qed.

Lemma ceil_offset q r : (0 < r <= tpb)%nat -> ((q * tpb + r + tpb - 1) / tpb = S q)%nat.
Proof. intros. symmetry. apply (Nat.div_unique _ _ _ (r - 1)); lia. Qed.

Lemma div_offset q r : (r < tpb)%nat -> ((q * tpb + r) / tpb = q)%nat.
Proof. intros. symmetry. apply (Nat.div_unique _ _ _ r); lia. Qed.

Lemma mod_offset q r : (r < tpb)%nat -> ((q * tpb + r) mod tpb = r)%nat.
Proof. intros. symmetry. apply (Nat.mod_unique _ _ q); lia. Qed.

(** The number of trits, split into full bytes and the trits of the last byte. *)
Lemma split_len n : exists q r, (n = q * tpb + r)%nat /\ (r < tpb)%nat.
Proof.
  pose proof packed_tpb. exists (n / tpb)%nat, (n mod tpb)%nat.
  split; [rewrite Nat.mul_comm; apply Nat.div_mod_eq | apply Nat.mod_upper_bound; lia].
Qed.

Lemma index_lt_div i q r : (i < q * tpb + r)%nat -> (r < tpb)%nat -> (i / tpb <= q)%nat.
Proof. intros. apply Nat.lt_succ_r, Nat.Div0.div_lt_upper_bound. nia. Qed.

Lemma index_mod i : (i mod tpb < tpb)%nat.
Proof. pose proof packed_tpb. apply Nat.mod_upper_bound. lia. Qed.

Lemma same_byte_other i n : i <> n -> (i / tpb = n / tpb)%nat -> (i mod tpb <> n mod tpb)%nat.
Proof. intros Hne Hd Hm. apply Hne. rewrite (Nat.div_mod_eq i tpb), (Nat.div_mod_eq n tpb). lia. Qed.

Lemma new_repr : buf_repr TritBuf_new [].
Proof.
  split; simpl; [constructor | | done | done].
  pose proof packed_tpb. symmetry. apply Nat.div_small. lia.
Qed.

(** Updating one trit of one byte. *)
Lemma get_alter raw n i t k :
  Forall (fun x => is_valid d x = true) raw -> (n / tpb < length raw)%nat ->
  get_unchecked tpb d (mkTritBuf (alter (fun x => insert_trit d x (n mod tpb) t) (n / tpb)%nat raw) k) i =
    if decide (i = n) then Some t else get_unchecked tpb d (mkTritBuf raw k) i.
Proof.
  intros Hv Hn. unfold get_unchecked; simpl.
  destruct (lookup_lt_is_Some_2 raw _ Hn) as [x Hx].
  assert (Hvx : is_valid d x = true) by by eapply (Forall_lookup_1 _ _ _ _ Hv).
  case_decide as E; [subst i|].
  - rewrite list_lookup_alter_eq, Hx. simpl. apply (extract_insert_same (tpb := tpb)); auto using index_mod.
  - destruct (decide (i / tpb = n / tpb)%nat) as [Hd|Hd].
    + rewrite Hd, list_lookup_alter_eq, Hx. simpl.
      apply (extract_insert_other (tpb := tpb)); auto using index_mod, same_byte_other.
    + by rewrite list_lookup_alter_ne.
Qed.

Lemma alter_valid raw n k t :
  Forall (fun x => is_valid d x = true) raw ->
  Forall (fun x => is_valid d x = true) (alter (fun x => insert_trit d x (n mod tpb) t) k raw).
Proof.
  intros Hv. apply Forall_alter; [done|]. intros x Hx ?. apply (insert_valid (tpb := tpb)); auto using index_mod.
Qed.

Lemma push_repr b l t : buf_repr b l -> buf_repr (TritBuf_push tpb d b t) (l ++ [t]).
Proof.
  intros [Hv Hb Hl Hg]. unfold TritBuf_push. rewrite Hl.
  destruct (split_len (length l)) as (q & r & Hn & Hr).
  assert (Hm : (length l mod tpb)%nat = r) by (rewrite Hn; by apply mod_offset).
  assert (Hd : (length l / tpb)%nat = q) by (rewrite Hn; by apply div_offset).
  rewrite Hm. case_bool_decide as E.
  - rewrite Hn, E, Nat.add_0_r, ceil_aligned in Hb. split; simpl.
    + apply Forall_app. split; [done|]. constructor; [|done].
      apply (insert_valid (tpb := tpb)); [apply (packed_zero (tpb := tpb)) | lia].
    + rewrite !length_app, Hb, Hn, E. simpl. replace (q * tpb + 0 + 1 + tpb - 1)%nat with (q * tpb + 1 + tpb - 1)%nat by lia.
      rewrite ceil_offset by (pose proof packed_tpb; lia). lia.
    + rewrite length_app. simpl. lia.
    + intros i t'. rewrite lookup_app_Some. intros [Hi|[Hi Hi']].
      * specialize (Hg i t' Hi). unfold get_unchecked in *. simpl in *.
        assert (i < length l)%nat by by eapply lookup_lt_Some.
        rewrite lookup_app_l; [done|]. rewrite Hb. apply Nat.Div0.div_lt_upper_bound. nia.
      * assert (i = length l) as -> by (apply lookup_lt_Some in Hi'; simpl in Hi'; lia).
        rewrite Nat.sub_diag in Hi'. injection Hi' as <-. unfold get_unchecked. simpl.
        rewrite Hd, lookup_app_r, Hb, Nat.sub_diag by lia. simpl. rewrite Hm, E.
        apply (extract_insert_same (tpb := tpb)); [apply (packed_zero (tpb := tpb)) | lia].
  - rewrite Hn, ceil_offset in Hb by lia.
    replace (length (buf_raw b) - 1)%nat with (length l / tpb)%nat by lia. rewrite <- Hm. split; simpl.
    + by apply alter_valid.
    + rewrite length_alter, Hb, length_app, Hn. simpl.
      replace (q * tpb + r + 1 + tpb - 1)%nat with (q * tpb + (r + 1) + tpb - 1)%nat by lia.
      by rewrite ceil_offset by lia.
    + rewrite length_app. simpl. lia.
    + intros i t' Hi. rewrite get_alter by (done || lia).
      apply lookup_app_Some in Hi as [Hi|[Hi Hi']].
      * assert (i < length l)%nat by by eapply lookup_lt_Some. case_decide; [lia|].
        specialize (Hg i t' Hi). by destruct b.
      * assert (i = length l) as -> by (apply lookup_lt_Some in Hi'; simpl in Hi'; lia).
        rewrite Nat.sub_diag in Hi'. injection Hi' as <-. by case_decide.
Qed.

Lemma from_trits_repr l : buf_repr (from_trits tpb d l) l.
Proof.
  unfold from_trits. induction l as [|t l IH] using rev_ind; [apply new_repr|].
  rewrite foldl_app. by apply push_repr.
Qed.

Lemma iter_repr b l : buf_repr b l -> iter_trits tpb d b = Some l.
Proof.
  intros [_ _ Hl Hg]. unfold iter_trits. apply mapM_Some. rewrite Hl.
  apply Forall2_same_length_lookup_2; [by rewrite length_seq|].
  intros i x t Hx Ht. apply lookup_seq in Hx as [-> _]. eauto.
Qed.

(** Re-encoding the trits of a buffer that [push] built gives the buffer back. *)
Lemma to_buf_from_trits l : to_buf tpb d (from_trits tpb d l) = Some (from_trits tpb d l).
Proof. unfold to_buf. by rewrite (iter_repr _ l) by apply from_trits_repr. Qed.

(** A slice that passed [try_from_raw] can be read trit by trit. *)
Lemma try_from_raw_iter raw n b :
  try_from_raw tpb d raw n = Some b -> exists l, iter_trits tpb d b = Some l /\ length l = n.
Proof.
  unfold try_from_raw. case_match eqn:Hv; [|done]. case_bool_decide as Hn; [|done]. intros [= <-].
  unfold iter_trits; simpl. assert (Hm : is_Some (mapM (get_unchecked tpb d (mkTritBuf raw n)) (seq 0 n))).
  { apply mapM_is_Some_2, Forall_forall. intros i Hi%elem_of_seq. unfold get_unchecked; simpl.
    destruct (lookup_lt_is_Some_2 raw (i / tpb)%nat) as [x Hx].
    { apply Nat.Div0.div_lt_upper_bound. lia. }
    rewrite Hx. simpl. apply (extract_valid (tpb := tpb)); [|apply index_mod].
    rewrite forallb_forall in Hv. apply Hv, list_elem_of_In. by eapply list_elem_of_lookup_2. }
  destruct Hm as [l Hl]. exists l. split; [done|]. apply length_mapM in Hl. by rewrite length_seq in Hl.
Qed.

Lemma set_repr b l i t :
  buf_repr b l -> (i < length l)%nat -> buf_repr (set_unchecked tpb d b i t) (<[i:=t]> l).
Proof.
  intros [Hv Hb Hl Hg] Hi. unfold set_unchecked. split; simpl.
  - by apply alter_valid.
  - by rewrite length_alter, length_insert.
  - by rewrite length_insert.
  - intros j t' Hj. rewrite get_alter; [|done|].
    + apply list_lookup_insert_Some in Hj as [(-> & -> & _)|[Hne Hj]]; [by rewrite decide_True|].
      rewrite decide_False by congruence. specialize (Hg j t' Hj). by destruct b.
    + rewrite Hb. destruct (split_len (length l)) as (q & r & Hn & Hr). rewrite Hn in *.
      destruct (decide (r = 0)%nat) as [->|].
      * rewrite Nat.add_0_r, ceil_aligned. apply Nat.Div0.div_lt_upper_bound. nia.
      * rewrite ceil_offset by lia. apply Nat.lt_succ_r. by eapply index_lt_div.
Qed.

Lemma pop_repr b l t :
  buf_repr b (l ++ [t]) ->
  exists b', TritBuf_pop tpb d b = (Some t, b') /\ buf_len b' = length l /\
    forall i t', l !! i = Some t' -> get_unchecked tpb d b' i = Some t'.
Proof.
  intros [Hv Hb Hl Hg]. rewrite length_app in Hb, Hl. simpl in *. unfold TritBuf_pop.
  rewrite bool_decide_false by lia.
  destruct (split_len (length l)) as (q & r & Hn & Hr).
  replace (length l + 1 + tpb - 1)%nat with (q * tpb + (r + 1) + tpb - 1)%nat in Hb by lia.
  rewrite ceil_offset in Hb by lia.
  assert (Hlast : last (buf_raw b) = buf_raw b !! q) by (rewrite last_lookup; f_equal; lia).
  assert (Ht : get_unchecked tpb d b (length l) = Some t)
    by (apply Hg; by rewrite lookup_app_r, Nat.sub_diag).
  unfold get_unchecked in Ht. rewrite Hn, div_offset, mod_offset in Ht by done.
  case_bool_decide as E.
  - assert (r = 0)%nat as ->.
    { destruct (decide (r = 0)%nat); [done|]. destruct (decide (S r = tpb)) as [Hs|].
      - replace (buf_len b) with (S q * tpb + 0)%nat in E by lia. rewrite mod_offset in E by lia. lia.
      - replace (buf_len b) with (q * tpb + S r)%nat in E by lia. rewrite mod_offset in E by lia. lia. }
    eexists; split; [by rewrite Hlast, Ht|]. simpl. split; [lia|]. intros i t' Hi.
    specialize (Hg i t' (lookup_app_l_Some _ _ _ _ Hi)). apply lookup_lt_Some in Hi.
    unfold get_unchecked in *; simpl. rewrite lookup_take_lt; [done|]. rewrite Hb.
    replace (S q - 1)%nat with q by lia. apply Nat.Div0.div_lt_upper_bound. nia.
  - exists (mkTritBuf (buf_raw b) (buf_len b - 1)); split; [|split; [simpl; lia|]].
    + f_equal. rewrite Hlast. replace ((buf_len b + tpb - 1) mod tpb)%nat with r; [done|].
      rewrite Hl, Hn. replace (q * tpb + r + 1 + tpb - 1)%nat with (S q * tpb + r)%nat by lia.
      by rewrite mod_offset.
    + intros i t' Hi. specialize (Hg i t' (lookup_app_l_Some _ _ _ _ Hi)). done.
Qed.
End refinement.

(** ** Claims *)

(** Trit buffers implement lists of trits: building, pushing, popping, reading and writing a buffer is appending to,
    removing from, looking up in and updating the list of its trits, in each of the packed encodings. *)
Theorem trit_buffer_refines_list tpb d `{!PackedByte tpb d} :
  (forall l, buf_repr tpb d (from_trits tpb d l) l)
  /\ (forall b l t, buf_repr tpb d b l -> buf_repr tpb d (TritBuf_push tpb d b t) (l ++ [t]))
  /\ (forall b l i t, buf_repr tpb d b l -> (i < length l)%nat -> buf_repr tpb d (set_unchecked tpb d b i t) (<[i:=t]> l))
  /\ (forall b l i, buf_repr tpb d b l -> TritBuf_get tpb d b i = l !! i)
  /\ (forall b l t, buf_repr tpb d b (l ++ [t]) ->
       exists b', TritBuf_pop tpb d b = (Some t, b') /\ forall i, TritBuf_get tpb d b' i = l !! i).
Proof.
  assert (Hget : forall b l, buf_len b = length l -> (forall i t, l !! i = Some t -> get_unchecked tpb d b i = Some t) ->
    forall i, TritBuf_get tpb d b i = l !! i).
  { intros b l Hl Hg i. unfold TritBuf_get. rewrite Hl. case_bool_decide as Hi.
    - destruct (lookup_lt_is_Some_2 l i Hi) as [t Ht]. rewrite Ht. by apply Hg.
    - symmetry. apply lookup_ge_None. lia. }
  split; [apply from_trits_repr, _|]. split; [apply push_repr, _|]. split; [apply set_repr, _|]. split.
  - intros b l i [_ _ Hl Hg]. by apply Hget.
  - intros b l t Hb. destruct (pop_repr tpb d b l t Hb) as (b' & Hp & Hl & Hg). exists b'. split; [done|].
    by apply Hget.
Qed.

(** Bytes that [try_from_raw] accepts can be copied with [to_buf], which never panics and gives a buffer of the
    announced number of trits; copying a buffer that [push] built changes nothing. *)
Theorem trit_slice_to_buf tpb d `{!PackedByte tpb d} :
  (forall raw n b, try_from_raw tpb d raw n = Some b ->
     exists l, length l = n /\ to_buf tpb d b = Some (from_trits tpb d l))
  /\ (forall l, to_buf tpb d (from_trits tpb d l) = Some (from_trits tpb d l)).
Proof.
  split; [|apply to_buf_from_trits, _]. intros raw n b Hb.
  destruct (try_from_raw_iter tpb d raw n b Hb) as (l & Hl & Hn). exists l. unfold to_buf. by rewrite Hl.
Qed.

Module Examples.
Lemma trit_buffer_refines_list_witness : buf_repr 5 121 (from_trits 5 121 [PlusOne; NegOne]) [PlusOne; NegOne].
Proof. exact (proj1 (trit_buffer_refines_list 5 121) [PlusOne; NegOne]). Defined.

Lemma trit_slice_to_buf_witness :
  exists l, length l = 7%nat /\ to_buf 5 121 (mkTritBuf [121; -3] 7) = Some (from_trits 5 121 l).
Proof. apply (proj1 (trit_slice_to_buf 5 121) [121; -3]). vm_compute. reflexivity. Defined.
End Examples.
