(* ===== verification/External.v ===== *)
(** * Code outside the repository

    The crates the modelled code calls and whose source is not part of the repository: [iterator_sorted],
    [hex], [bitflags], [hashbrown], [rand] and the hash and signature functions of [iota-crypto]. Each is a class of operations, an argument of the
    definitions that use it; what the code relies on is a class of laws. The order in which a [HashMap] iterates is
    treated in the same way. The instances at the end are concrete functions that satisfy the laws, used to evaluate
    the model on concrete inputs. *)

From S2P Require Import Prelude.
From Stdlib Require Import Sorting.Sorted.

Local Open Scope Z_scope.

(** The crate [iterator_sorted], at the byte strings the code compares. *)
Class IteratorSorted := {
  is_sorted : list bytes -> bool;
  is_unique_sorted : list bytes -> bool;
}.

(** Its documentation: whether the elements are sorted, respectively sorted and unique. *)
Class IteratorSortedOk `{IteratorSorted} : Prop := {
  is_sorted_ok l : is_sorted l = true <-> Sorted lex_le l;
  is_unique_sorted_ok l : is_unique_sorted l = true <-> Sorted lex_lt l;
}.

(** The hash function [Blake2b256] and the [ed25519] signatures of the crate [iota-crypto]. An error of the
    crate is its rendering. *)
Class Crypto := {
  blake2b256 : bytes -> bytes;
  PublicKey : Type;
  public_key_try_from_bytes : bytes -> result string PublicKey;
  public_key_verify : PublicKey -> bytes -> bytes -> bool;
}.

(** A [Blake2b256] digest has 32 bytes. *)
Class CryptoOk `{Crypto} : Prop :=
  blake2b256_len bs : len (blake2b256 bs) = 32.

(** The crate [hex]. *)
Class Hex := {
  hex_encode : bytes -> string;
  hex_decode : string -> option bytes;
}.

(** Two characters are written for each byte in turn, and decoding reads them back. *)
Class HexOk `{Hex} : Prop := {
  hex_encode_app a b : hex_encode (a ++ b) = (hex_encode a +:+ hex_encode b)%string;
  hex_decode_encode bs : hex_decode (hex_encode bs) = Some bs;
}.

(** The methods the crate [bitflags] generates for a set of flags in a [u8]. *)
Class Bitflags := {
  flags_contains : Z -> Z -> bool;
  flags_set : Z -> Z -> bool -> Z;
}.

(** [contains] tests whether all the flags are set; [set] inserts or removes them. *)
Class BitflagsOk `{Bitflags} : Prop := {
  flags_contains_ok f g : flags_contains f g = (Z.land f g =? g);
  flags_set_ok f g b : flags_set f g b = if b then Z.lor f g else Z.ldiff f g;
}.

(** [HashMap::iter] and [HashMap::into_iter] visit the entries of a map in an arbitrary order. *)
Class HashOrder := hash_iter : forall K `{Countable K} V, gmap K V -> list (K * V).
Arguments hash_iter {_ K _ _ V} m.

(** Every entry is visited once. *)
Class HashOrderOk `{HashOrder} : Prop :=
  hash_iter_perm : forall K `{Countable K} V (m : gmap K V), Permutation (hash_iter m) (map_to_list m).
Arguments hash_iter_perm {_ _ K _ _ V} m.

Section hash_order.
Context `{HashOrderOk} `{Countable K} {V : Type}.
Implicit Types m : gmap K V.

Lemma hash_iter_NoDup m : NoDup (hash_iter m).*1.
Proof. rewrite hash_iter_perm. apply NoDup_fst_map_to_list. Qed.

Lemma elem_of_hash_iter m k v : (k, v) ∈ hash_iter m <-> m !! k = Some v.
Proof. rewrite hash_iter_perm. apply elem_of_map_to_list. Qed.

Lemma list_to_map_hash_iter m : list_to_map (hash_iter m) = m.
Proof.
  rewrite <- (list_to_map_to_list m) at 2. apply list_to_map_proper; [apply hash_iter_NoDup | apply hash_iter_perm].
Qed.
End hash_order.

(** The hasher of a hash table of [hashbrown] at the keys of the type [K], which is seeded at random. *)
Class TableHasher (K : Type) := make_hash : K -> Z.

(** A hash is a [u64]. *)
Class TableHasherOk (K : Type) `{TableHasher K} : Prop := make_hash_fits k : fits 64 (make_hash k).

(** The random numbers of [rand::thread_rng] and the locks that other threads hold: [gen_range] draws from [0..n],
    [choose_multiple] draws elements of a sequence, [try_write] tells whether a lock is free. *)
Class Environment := {
  env : Type;
  gen_range : Z -> env -> Z * env;
  choose_multiple : forall {A}, list A -> nat -> env -> list A * env;
  try_write : env -> bool * env;
}.

(** A number is drawn from its range; elements are drawn without replacement, as many as requested if there are enough. *)
Class EnvironmentOk `{Environment} : Prop := {
  gen_range_ok n e : 0 < n -> 0 <= (gen_range n e).1 < n;
  choose_multiple_ok {A} (l : list A) n e :
    length (choose_multiple l n e).1 = min n (length l) /\ exists rest, Permutation l ((choose_multiple l n e).1 ++ rest);
}.

(** ** Concrete functions for evaluation *)

Definition sorted_by (R : bytes -> bytes -> Prop) `{!RelDecision R} : list bytes -> bool :=
  fix go l :=
    match l with
    | x :: (y :: _) as l' => bool_decide (R x y) && go l'
    | _ => true
    end.

Lemma sorted_by_ok R `{!RelDecision R} l : sorted_by R l = true <-> Sorted R l.
Proof.
  induction l as [|x l IH]; [split; [constructor | done]|].
  destruct l as [|y l]; [split; [repeat constructor | done]|].
  change (sorted_by R (x :: y :: l)) with (bool_decide (R x y) && sorted_by R (y :: l)).
  rewrite andb_true_iff, IH, bool_decide_eq_true. split.
  - intros [? ?]. constructor; [done|]. by constructor.
  - intros Hs. inversion Hs as [|? ? ? Hh]; subst. by inversion Hh.
Qed.

Definition hex_digit (n : Z) : Ascii.ascii :=
  Ascii.ascii_of_nat (Z.to_nat (if n <? 10 then 48 + n else 87 + n)).

Definition hex_value (c : Ascii.ascii) : option Z :=
  let n := Z.of_nat (Ascii.nat_of_ascii c) in
  if range_contains 48 57 n then Some (n - 48)
  else if range_contains 97 102 n then Some (n - 87)
  else if range_contains 65 70 n then Some (n - 55)
  else None.

Fixpoint hex_digits (bs : bytes) : string :=
  match bs with
  | [] => EmptyString
  | b :: bs =>
      String (hex_digit (u8_of_byte b / 16)) (String (hex_digit (u8_of_byte b mod 16)) (hex_digits bs))
  end.

Fixpoint hex_bytes (s : string) : option bytes :=
  match s with
  | EmptyString => Some []
  | String c (String d s) =>
      x ← hex_value c; y ← hex_value d; bs ← hex_bytes s; Some (byte_of_u8 (16 * x + y) :: bs)
  | _ => None
  end.

Lemma hex_value_digit n : 0 <= n < 16 -> hex_value (hex_digit n) = Some n.
Proof.
  intros Hn. assert (Hin : n ∈ (seqZ 0 16)) by (apply elem_of_seqZ; lia). clear Hn. revert n Hin.
  by apply Forall_forall, (Forall_fold_right (fun n => hex_value (hex_digit n) = Some n)).
Qed.

Module Concrete.
#[export] Instance lex_sorted : IteratorSorted := {
  is_sorted := sorted_by lex_le;
  is_unique_sorted := sorted_by lex_lt;
}.

#[export] Instance lex_sorted_ok : IteratorSortedOk.
Proof. split; intros; apply sorted_by_ok. Qed.

(** A digest that pads or cuts its input, and a scheme in which every signature equals the message. *)
#[export] Instance toy_crypto : Crypto := {
  blake2b256 bs := take 32 (bs ++ repeat Byte.x00 32);
  PublicKey := bytes;
  public_key_try_from_bytes bs := Ok bs;
  public_key_verify _ signature msg := bool_decide (take 32 signature = msg);
}.

#[export] Instance toy_crypto_ok : CryptoOk.
Proof. intros bs. unfold len, blake2b256, toy_crypto. rewrite length_take, length_app, repeat_length. lia. Qed.

#[export] Instance bit_flags : Bitflags := {
  flags_contains f g := Z.land f g =? g;
  flags_set f g b := if b then Z.lor f g else Z.ldiff f g;
}.

#[export] Instance bit_flags_ok : BitflagsOk.
Proof. by split. Qed.

#[export] Instance tree_order : HashOrder := fun K _ _ V m => map_to_list m.

#[export] Instance tree_order_ok : HashOrderOk.
Proof. by intros K ? ? V m. Qed.

(** The hash is the first byte; the numbers are drawn in turn, and no lock is held. *)
Definition byte_hasher {A} (f : A -> bytes) : TableHasher A :=
  fun k => match f k with b :: _ => u8_of_byte b | [] => 0 end.

#[export] Instance counter : Environment := {
  env := Z;
  gen_range n e := (e mod n, e + 1);
  choose_multiple _ l n e := (take n l, e);
  try_write e := (true, e);
}.

#[export] Instance counter_ok : EnvironmentOk.
Proof.
  split; cbn.
  - intros n e Hn. apply Z.mod_pos_bound. lia.
  - intros A l n e. split; [apply length_take|]. exists (drop n l). by rewrite take_drop.
Qed.

#[export] Instance lower_hex : Hex := { hex_encode := hex_digits; hex_decode := hex_bytes }.

#[export] Instance lower_hex_ok : HexOk.
Proof.
  split; simpl.
  - induction a as [|x a IH]; intros b; [done|]. cbn [app hex_digits]. rewrite IH. done.
  - induction bs as [|b bs IH]; [done|]. cbn [hex_digits hex_bytes].
    pose proof (u8_of_byte_range b). rewrite !hex_value_digit by (Z.to_euclidean_division_equations; lia).
    cbn. rewrite IH. cbn. rewrite <- Z.div_mod by lia. by rewrite byte_of_u8_of_byte.
Qed.
End Concrete.
