(* ===== verification/MessageTypes.v ===== *)
(** * Building blocks of messages

    Models the leaf types of [bee-message]: identifiers, milestone indices, addresses, signatures, unlock
    blocks, inputs, outputs and parents, with their validating constructors and their [Packable]
    implementations. For each type [wf_T] is the set of values its constructors let through, and the
    [PackableOk] instance shows that encoding and decoding keep it. *)

From S2P Require Import Prelude Packable External.
From Stdlib Require Import Sorting.Sorted.

Local Open Scope Z_scope.

(** ** Data *)

(** *** Constants: [constants.rs] *)

Definition IOTA_SUPPLY : Z := 2779530283277761.
Definition INPUT_OUTPUT_COUNT_MAX : Z := 127.
Definition input_output_count_range (n : Z) : bool := range_contains 1 INPUT_OUTPUT_COUNT_MAX n.
Definition unlock_block_count_range (n : Z) : bool := input_output_count_range n.
Definition input_output_index_range (i : Z) : bool := range_contains 0 (INPUT_OUTPUT_COUNT_MAX - 1) i.

(** *** Identifiers *)

Definition MESSAGE_ID_LENGTH : Z := 32.
Definition TRANSACTION_ID_LENGTH : Z := 32.
Definition MILESTONE_ID_LENGTH : Z := 32.
Definition ED25519_ADDRESS_LENGTH : Z := 32.
Definition ED25519_PUBLIC_KEY_LENGTH : Z := 32.
Definition ED25519_SIGNATURE_LENGTH : Z := 64.

Record MessageId := MessageId_new { message_id_bytes : bytes }.
Record TransactionId := TransactionId_new { transaction_id_bytes : bytes }.
Record MilestoneId := MilestoneId_new { milestone_id_bytes : bytes }.

Definition MessageId_null : MessageId := MessageId_new (repeat Byte.x00 (Z.to_nat MESSAGE_ID_LENGTH)).

(** The index of an output is a [u16]. *)
Record OutputId := mkOutputId { output_transaction_id : TransactionId; output_index : Z }.

(** A milestone index is a [u32]. *)
Record MilestoneIndex := MilestoneIndex_new { milestone_index : Z }.

(** *** Addresses, signatures and unlock blocks *)

Record Ed25519Address := Ed25519Address_new { ed25519_address_bytes : bytes }.
Inductive Address := Address_Ed25519 (address : Ed25519Address).

Record Ed25519Signature := Ed25519Signature_new { public_key : bytes; signature : bytes }.
Inductive SignatureUnlock := SignatureUnlock_Ed25519 (s : Ed25519Signature).
Record ReferenceUnlock := mkReferenceUnlock { reference_index : Z }.
Inductive UnlockBlock :=
| UnlockBlock_Signature (s : SignatureUnlock)
| UnlockBlock_Reference (r : ReferenceUnlock).
Record UnlockBlocks := mkUnlockBlocks { unlock_blocks_inner : list UnlockBlock }.

(** *** Inputs and outputs *)

Record UtxoInput := mkUtxoInput { utxo_output_id : OutputId }.
Record TreasuryInput := TreasuryInput_new { treasury_milestone_id : MilestoneId }.
Inductive Input :=
| Input_Utxo (i : UtxoInput)
| Input_Treasury (i : TreasuryInput).

Record SignatureLockedSingleOutput := mkSingle { single_address : Address; single_amount : Z }.
Record SignatureLockedDustAllowanceOutput := mkDustAllowance { dust_address : Address; dust_amount : Z }.
Record TreasuryOutput := mkTreasuryOutput { treasury_amount : Z }.
Inductive Output :=
| Output_SignatureLockedSingle (o : SignatureLockedSingleOutput)
| Output_SignatureLockedDustAllowance (o : SignatureLockedDustAllowanceOutput)
| Output_Treasury (o : TreasuryOutput).

Record Parents := mkParents { parents_inner : list MessageId }.

(** [Milestone]: the message of a coordinator milestone. *)
Record Milestone := Milestone_new { milestone_message_id : MessageId; milestone_timestamp : Z }.

(** *** Decidable equality and countability, for [Eq] and [Hash] *)

#[export] Instance MessageId_eq_dec : EqDecision MessageId.
Proof. solve_decision. Defined.
#[export] Instance TransactionId_eq_dec : EqDecision TransactionId.
Proof. solve_decision. Defined.
#[export] Instance MilestoneId_eq_dec : EqDecision MilestoneId.
Proof. solve_decision. Defined.
#[export] Instance OutputId_eq_dec : EqDecision OutputId.
Proof. solve_decision. Defined.
#[export] Instance MilestoneIndex_eq_dec : EqDecision MilestoneIndex.
Proof. solve_decision. Defined.
#[export] Instance Ed25519Address_eq_dec : EqDecision Ed25519Address.
Proof. solve_decision. Defined.
#[export] Instance Address_eq_dec : EqDecision Address.
Proof. solve_decision. Defined.
#[export] Instance Ed25519Signature_eq_dec : EqDecision Ed25519Signature.
Proof. solve_decision. Defined.
#[export] Instance SignatureUnlock_eq_dec : EqDecision SignatureUnlock.
Proof. solve_decision. Defined.
#[export] Instance UtxoInput_eq_dec : EqDecision UtxoInput.
Proof. solve_decision. Defined.
#[export] Instance TreasuryInput_eq_dec : EqDecision TreasuryInput.
Proof. solve_decision. Defined.
#[export] Instance Input_eq_dec : EqDecision Input.
Proof. solve_decision. Defined.
#[export] Instance SignatureLockedSingleOutput_eq_dec : EqDecision SignatureLockedSingleOutput.
Proof. solve_decision. Defined.
#[export] Instance SignatureLockedDustAllowanceOutput_eq_dec : EqDecision SignatureLockedDustAllowanceOutput.
Proof. solve_decision. Defined.
#[export] Instance TreasuryOutput_eq_dec : EqDecision TreasuryOutput.
Proof. solve_decision. Defined.
#[export] Instance Output_eq_dec : EqDecision Output.
Proof. solve_decision. Defined.

#[export] Program Instance MessageId_countable : Countable MessageId :=
  inj_countable' message_id_bytes MessageId_new _.
Next Obligation. by intros []. Qed.
#[export] Program Instance TransactionId_countable : Countable TransactionId :=
  inj_countable' transaction_id_bytes TransactionId_new _.
Next Obligation. by intros []. Qed.
#[export] Program Instance MilestoneId_countable : Countable MilestoneId :=
  inj_countable' milestone_id_bytes MilestoneId_new _.
Next Obligation. by intros []. Qed.
#[export] Program Instance OutputId_countable : Countable OutputId :=
  inj_countable' (fun o => (output_transaction_id o, output_index o)) (fun p => mkOutputId p.1 p.2) _.
Next Obligation. by intros []. Qed.
#[export] Program Instance MilestoneIndex_countable : Countable MilestoneIndex :=
  inj_countable' milestone_index MilestoneIndex_new _.
Next Obligation. by intros []. Qed.
#[export] Program Instance Ed25519Address_countable : Countable Ed25519Address :=
  inj_countable' ed25519_address_bytes Ed25519Address_new _.
Next Obligation. by intros []. Qed.
#[export] Program Instance Address_countable : Countable Address :=
  inj_countable' (fun a => match a with Address_Ed25519 a => a end) Address_Ed25519 _.
Next Obligation. by intros []. Qed.

(** *** Errors: [error.rs]

    The last two constructors are not errors of the code, and are shown not to occur: [Panic] stands for a
    panic, and [FuelExhausted] ends the recursion of the payload decoder of the model. *)

Inductive MessageError :=
| CryptoError (e : string)
| DuplicateAddress (a : Address)
| DuplicateSignature (index : Z)
| DuplicateUtxo (u : UtxoInput)
| InputUnlockBlockCountMismatch (inputs blocks : Z)
| InvalidAccumulatedOutput (total : Z)
| InvalidAddress
| InvalidAddressKind (k : Z)
| InvalidAmount (amount : Z)
| InvalidDustAllowanceAmount (amount : Z)
| InvalidEssenceKind (k : Z)
| InvalidHexadecimalChar (s : string)
| InvalidHexadecimalLength (expected actual : Z)
| InvalidIndexationDataLength (n : Z)
| InvalidIndexationIndexLength (n : Z)
| InvalidInputKind (k : Z)
| InvalidInputOutputCount (n : Z)
| InvalidInputOutputIndex (i : Z)
| InvalidMessageLength (n : Z)
| InvalidMigratedFundsEntryAmount (amount : Z)
| InvalidOutputKind (k : Z)
| InvalidParentsCount (n : Z)
| InvalidPayloadKind (k : Z)
| InvalidPayloadLength (expected actual : Z)
| InvalidPowScoreValues (score index : Z)
| InvalidReceiptFundsCount (n : Z)
| InvalidReferenceIndex (i : Z)
| InvalidSignature
| InvalidSignatureKind (k : Z)
| InvalidTailTransactionHash
| InvalidTreasuryAmount (amount : Z)
| InvalidUnlockBlockCount (n : Z)
| InvalidUnlockBlockKind (k : Z)
| InvalidUnlockBlockReference (index : Z)
| Io (e : io_error)
| MigratedFundsNotSorted
| MilestoneInvalidPublicKeyCount (n : Z)
| MilestoneInvalidSignatureCount (n : Z)
| MilestonePublicKeysNotUniqueSorted
| MilestonePublicKeysSignaturesCountMismatch (keys signatures : Z)
| MissingField (field : string)
| MissingPayload
| ParentsNotUniqueSorted
| RemainingBytesAfterMessage
| SignaturePublicKeyMismatch (expected actual : string)
| TailTransactionHashNotUnique (previous current : Z)
| TransactionInputsNotSorted
| TransactionOutputsNotSorted
| Panic
| FuelExhausted.

#[export] Instance From_io_error : From io_error MessageError := Io.

(** ** Operations *)

(** *** Kinds *)

Definition Ed25519Address_KIND : Z := 0.
Definition Ed25519Signature_KIND : Z := 0.
Definition SignatureUnlock_KIND : Z := 0.
Definition ReferenceUnlock_KIND : Z := 1.
Definition UtxoInput_KIND : Z := 0.
Definition TreasuryInput_KIND : Z := 1.
Definition SignatureLockedSingleOutput_KIND : Z := 0.
Definition SignatureLockedDustAllowanceOutput_KIND : Z := 1.
Definition TreasuryOutput_KIND : Z := 2.

Definition Address_kind (a : Address) : Z :=
  match a with Address_Ed25519 _ => Ed25519Address_KIND end.

Definition UnlockBlock_kind (u : UnlockBlock) : Z :=
  match u with
  | UnlockBlock_Signature _ => SignatureUnlock_KIND
  | UnlockBlock_Reference _ => ReferenceUnlock_KIND
  end.

Definition Input_kind (i : Input) : Z :=
  match i with
  | Input_Utxo _ => UtxoInput_KIND
  | Input_Treasury _ => TreasuryInput_KIND
  end.

Definition Output_kind (o : Output) : Z :=
  match o with
  | Output_SignatureLockedSingle _ => SignatureLockedSingleOutput_KIND
  | Output_SignatureLockedDustAllowance _ => SignatureLockedDustAllowanceOutput_KIND
  | Output_Treasury _ => TreasuryOutput_KIND
  end.

(** *** Milestone indices

    The arithmetic of [u32]: a release build wraps around. *)

Definition MilestoneIndex_add (self other : MilestoneIndex) : MilestoneIndex :=
  MilestoneIndex_new (as_u 32 (milestone_index self + milestone_index other)).

Definition MilestoneIndex_add_u32 (self : MilestoneIndex) (other : Z) : MilestoneIndex :=
  MilestoneIndex_new (as_u 32 (milestone_index self + other)).

Definition MilestoneIndex_sub (self other : MilestoneIndex) : MilestoneIndex :=
  MilestoneIndex_new (as_u 32 (milestone_index self - milestone_index other)).

Definition MilestoneIndex_sub_u32 (self : MilestoneIndex) (other : Z) : MilestoneIndex :=
  MilestoneIndex_new (as_u 32 (milestone_index self - other)).

(** *** Validating constructors *)

Definition OutputId_new (transaction_id : TransactionId) (index : Z) : result MessageError OutputId :=
  let? _ := ensure (input_output_index_range index) (InvalidInputOutputIndex index) in
  Ok (mkOutputId transaction_id index).

Definition OutputId_try_from (bs : bytes) : result MessageError OutputId :=
  OutputId_new (TransactionId_new (take (Z.to_nat TRANSACTION_ID_LENGTH) bs))
    (from_le_bytes (drop (Z.to_nat TRANSACTION_ID_LENGTH) bs)).

Definition UtxoInput_new (id : TransactionId) (index : Z) : result MessageError UtxoInput :=
  let? o := OutputId_new id index in
  Ok (mkUtxoInput o).

Definition ReferenceUnlock_new (index : Z) : result MessageError ReferenceUnlock :=
  let? _ := ensure (input_output_index_range index) (InvalidReferenceIndex index) in
  Ok (mkReferenceUnlock index).

Definition DUST_THRESHOLD : Z := 1000000.
Definition DUST_ALLOWANCE_DIVISOR : Z := 100000.
Definition DUST_OUTPUTS_MAX : Z := 100.

Definition dust_outputs_max (dust_allowance_sum : Z) : Z :=
  Z.min DUST_OUTPUTS_MAX (dust_allowance_sum / DUST_ALLOWANCE_DIVISOR).

Definition SignatureLockedSingleOutput_new (address : Address) (amount : Z)
    : result MessageError SignatureLockedSingleOutput :=
  let? _ := ensure (range_contains 1 IOTA_SUPPLY amount) (InvalidAmount amount) in
  Ok (mkSingle address amount).

Definition SignatureLockedDustAllowanceOutput_new (address : Address) (amount : Z)
    : result MessageError SignatureLockedDustAllowanceOutput :=
  let? _ := ensure (range_contains DUST_THRESHOLD IOTA_SUPPLY amount) (InvalidDustAllowanceAmount amount) in
  Ok (mkDustAllowance address amount).

Definition TreasuryOutput_new (amount : Z) : result MessageError TreasuryOutput :=
  let? _ := ensure (range_contains 0 IOTA_SUPPLY amount) (InvalidTreasuryAmount amount) in
  Ok (mkTreasuryOutput amount).

(** The loop of [UnlockBlocks::new]: [seen_signatures] is the hash set, [index] the position in the blocks. *)
Fixpoint UnlockBlocks_check (unlock_blocks : list UnlockBlock) (seen_signatures : list SignatureUnlock)
    (index : Z) (l : list UnlockBlock) : result MessageError unit :=
  match l with
  | [] => Ok tt
  | UnlockBlock_Reference r :: l =>
      if (index =? 0)
        || (as_u 16 index <=? reference_index r)
        || match unlock_blocks !! Z.to_nat (reference_index r) with
           | Some (UnlockBlock_Reference _) => true
           | _ => false
           end
      then Err (InvalidUnlockBlockReference index)
      else UnlockBlocks_check unlock_blocks seen_signatures (index + 1) l
  | UnlockBlock_Signature s :: l =>
      if bool_decide (s ∈ seen_signatures) then Err (DuplicateSignature index)
      else UnlockBlocks_check unlock_blocks (s :: seen_signatures) (index + 1) l
  end.

Definition UnlockBlocks_new (unlock_blocks : list UnlockBlock) : result MessageError UnlockBlocks :=
  let? _ := ensure (unlock_block_count_range (len unlock_blocks)) (InvalidUnlockBlockCount (len unlock_blocks)) in
  let? _ := UnlockBlocks_check unlock_blocks [] 0 unlock_blocks in
  Ok (mkUnlockBlocks unlock_blocks).

(** [get] follows a reference. *)
Definition UnlockBlocks_get (u : UnlockBlocks) (index : nat) : option UnlockBlock :=
  match unlock_blocks_inner u !! index with
  | Some (UnlockBlock_Reference reference) => unlock_blocks_inner u !! Z.to_nat (reference_index reference)
  | Some unlock_block => Some unlock_block
  | None => None
  end.

Definition message_parents_range (n : Z) : bool := range_contains 1 8 n.

Definition Parents_new `{IteratorSorted} (inner : list MessageId) : result MessageError Parents :=
  let? _ := ensure (message_parents_range (len inner)) (InvalidParentsCount (len inner)) in
  let? _ := ensure (is_unique_sorted (message_id_bytes <$> inner)) ParentsNotUniqueSorted in
  Ok (mkParents inner).

(** *** Signature verification *)

Definition Ed25519Address_verify `{Crypto} `{Hex} (self : Ed25519Address) (msg : bytes) (s : Ed25519Signature)
    : result MessageError unit :=
  let address := blake2b256 (public_key s) in
  let? _ := ensure (bool_decide (ed25519_address_bytes self = address))
              (SignaturePublicKeyMismatch (hex_encode (ed25519_address_bytes self)) (hex_encode address)) in
  let? pk := map_err CryptoError (public_key_try_from_bytes (public_key s)) in
  ensure (public_key_verify pk (signature s) msg) InvalidSignature.

Definition Address_verify `{Crypto} `{Hex} (self : Address) (msg : bytes) (s : SignatureUnlock)
    : result MessageError unit :=
  match self, s with
  | Address_Ed25519 address, SignatureUnlock_Ed25519 s => Ed25519Address_verify address msg s
  end.

(** *** Text: [FromStr] and [Display] *)

(** [hex::decode(s).map_err(..)?.try_into().map_err(..)?] at an array of [n] bytes. *)
Definition hex_array `{Hex} (n : Z) (s : string) : result MessageError bytes :=
  let? bs := ok_or (hex_decode s) (InvalidHexadecimalChar s) in
  let? _ := ensure (len bs =? n) (InvalidHexadecimalLength (n * 2) (Z.of_nat (String.length s))) in
  Ok bs.

Definition MessageId_from_str `{Hex} (s : string) : result MessageError MessageId :=
  let? bs := hex_array MESSAGE_ID_LENGTH s in Ok (MessageId_new bs).
Definition TransactionId_from_str `{Hex} (s : string) : result MessageError TransactionId :=
  let? bs := hex_array TRANSACTION_ID_LENGTH s in Ok (TransactionId_new bs).
Definition MilestoneId_from_str `{Hex} (s : string) : result MessageError MilestoneId :=
  let? bs := hex_array MILESTONE_ID_LENGTH s in Ok (MilestoneId_new bs).
Definition Ed25519Address_from_str `{Hex} (s : string) : result MessageError Ed25519Address :=
  let? bs := hex_array ED25519_ADDRESS_LENGTH s in Ok (Ed25519Address_new bs).
Definition OUTPUT_ID_LENGTH : Z := TRANSACTION_ID_LENGTH + 2.
Definition OutputId_from_str `{Hex} (s : string) : result MessageError OutputId :=
  let? bs := hex_array OUTPUT_ID_LENGTH s in OutputId_try_from bs.
Definition UtxoInput_from_str `{Hex} (s : string) : result MessageError UtxoInput :=
  let? o := OutputId_from_str s in Ok (mkUtxoInput o).
Definition TreasuryInput_from_str `{Hex} (s : string) : result MessageError TreasuryInput :=
  let? m := MilestoneId_from_str s in Ok (TreasuryInput_new m).

Definition MessageId_fmt `{Hex} (self : MessageId) : string := hex_encode (message_id_bytes self).
Definition TransactionId_fmt `{Hex} (self : TransactionId) : string := hex_encode (transaction_id_bytes self).
Definition MilestoneId_fmt `{Hex} (self : MilestoneId) : string := hex_encode (milestone_id_bytes self).
Definition Ed25519Address_fmt `{Hex} (self : Ed25519Address) : string := hex_encode (ed25519_address_bytes self).
Definition OutputId_fmt `{Hex} (self : OutputId) : string :=
  (TransactionId_fmt (output_transaction_id self) +:+ hex_encode (to_le_bytes 2 (output_index self)))%string.
Definition UtxoInput_fmt `{Hex} (self : UtxoInput) : string := OutputId_fmt (utxo_output_id self).
Definition TreasuryInput_fmt `{Hex} (self : TreasuryInput) : string := MilestoneId_fmt (treasury_milestone_id self).

(** *** Packable *)

Definition MessageId_packable : Packable MessageError MessageId := {|
  packed_len _ := MESSAGE_ID_LENGTH;
  pack self := pack (array_packable MESSAGE_ID_LENGTH) (message_id_bytes self);
  unpack_inner CHECK :=
    let! bs := unpack_inner (array_packable MESSAGE_ID_LENGTH) CHECK in rret (MessageId_new bs);
|}.

Definition TransactionId_packable : Packable MessageError TransactionId := {|
  packed_len _ := TRANSACTION_ID_LENGTH;
  pack self := pack (array_packable TRANSACTION_ID_LENGTH) (transaction_id_bytes self);
  unpack_inner CHECK :=
    let! bs := unpack_inner (array_packable TRANSACTION_ID_LENGTH) CHECK in rret (TransactionId_new bs);
|}.

Definition MilestoneId_packable : Packable MessageError MilestoneId := {|
  packed_len _ := MILESTONE_ID_LENGTH;
  pack self := pack (array_packable MILESTONE_ID_LENGTH) (milestone_id_bytes self);
  unpack_inner CHECK :=
    let! bs := unpack_inner (array_packable MILESTONE_ID_LENGTH) CHECK in rret (MilestoneId_new bs);
|}.

Definition MilestoneIndex_packable : Packable io_error MilestoneIndex := {|
  packed_len self := packed_len u32 (milestone_index self);
  pack self := pack u32 (milestone_index self);
  unpack_inner CHECK := let! v := unpack_inner u32 CHECK in rret (MilestoneIndex_new v);
|}.

Definition Milestone_packable : Packable MessageError Milestone := {|
  packed_len self :=
    packed_len MessageId_packable (milestone_message_id self) + packed_len u64 (milestone_timestamp self);
  pack self := pack MessageId_packable (milestone_message_id self) ++ pack u64 (milestone_timestamp self);
  unpack_inner CHECK :=
    let! message_id := unpack_inner MessageId_packable CHECK in
    let! timestamp := unpack_inner u64 CHECK in
    rret (Milestone_new message_id timestamp);
|}.

Definition Ed25519Address_packable : Packable MessageError Ed25519Address := {|
  packed_len _ := ED25519_ADDRESS_LENGTH;
  pack self := pack (array_packable ED25519_ADDRESS_LENGTH) (ed25519_address_bytes self);
  unpack_inner CHECK :=
    let! bs := unpack_inner (array_packable ED25519_ADDRESS_LENGTH) CHECK in rret (Ed25519Address_new bs);
|}.

Definition Address_packable : Packable MessageError Address := {|
  packed_len self :=
    match self with
    | Address_Ed25519 address => packed_len u8 Ed25519Address_KIND + packed_len Ed25519Address_packable address
    end;
  pack self :=
    match self with
    | Address_Ed25519 address => pack u8 Ed25519Address_KIND ++ pack Ed25519Address_packable address
    end;
  unpack_inner CHECK :=
    let! k := unpack_inner u8 CHECK in
    if k =? Ed25519Address_KIND then
      let! address := unpack_inner Ed25519Address_packable CHECK in rret (Address_Ed25519 address)
    else rfail (InvalidAddressKind k);
|}.

Definition Ed25519Signature_packable : Packable MessageError Ed25519Signature := {|
  packed_len _ := ED25519_PUBLIC_KEY_LENGTH + ED25519_SIGNATURE_LENGTH;
  pack self :=
    pack (array_packable ED25519_PUBLIC_KEY_LENGTH) (public_key self)
    ++ pack (array_packable ED25519_SIGNATURE_LENGTH) (signature self);
  unpack_inner CHECK :=
    let! public_key := unpack_inner (array_packable ED25519_PUBLIC_KEY_LENGTH) CHECK in
    let! signature := unpack_inner (array_packable ED25519_SIGNATURE_LENGTH) CHECK in
    rret (Ed25519Signature_new public_key signature);
|}.

Definition SignatureUnlock_packable : Packable MessageError SignatureUnlock := {|
  packed_len self :=
    match self with
    | SignatureUnlock_Ed25519 s => packed_len u8 Ed25519Signature_KIND + packed_len Ed25519Signature_packable s
    end;
  pack self :=
    match self with
    | SignatureUnlock_Ed25519 s => pack u8 Ed25519Signature_KIND ++ pack Ed25519Signature_packable s
    end;
  unpack_inner CHECK :=
    let! k := unpack_inner u8 CHECK in
    if k =? Ed25519Signature_KIND then
      let! s := unpack_inner Ed25519Signature_packable CHECK in rret (SignatureUnlock_Ed25519 s)
    else rfail (InvalidSignatureKind k);
|}.

Definition ReferenceUnlock_packable : Packable MessageError ReferenceUnlock := {|
  packed_len _ := packed_len u16 0;
  pack self := pack u16 (reference_index self);
  unpack_inner CHECK := let! i := unpack_inner u16 CHECK in rlift (ReferenceUnlock_new i);
|}.

Definition UnlockBlock_packable : Packable MessageError UnlockBlock := {|
  packed_len self :=
    match self with
    | UnlockBlock_Signature u => packed_len u8 SignatureUnlock_KIND + packed_len SignatureUnlock_packable u
    | UnlockBlock_Reference u => packed_len u8 ReferenceUnlock_KIND + packed_len ReferenceUnlock_packable u
    end;
  pack self :=
    match self with
    | UnlockBlock_Signature u => pack u8 SignatureUnlock_KIND ++ pack SignatureUnlock_packable u
    | UnlockBlock_Reference u => pack u8 ReferenceUnlock_KIND ++ pack ReferenceUnlock_packable u
    end;
  unpack_inner CHECK :=
    let! k := unpack_inner u8 CHECK in
    if k =? SignatureUnlock_KIND then
      let! u := unpack_inner SignatureUnlock_packable CHECK in rret (UnlockBlock_Signature u)
    else if k =? ReferenceUnlock_KIND then
      let! u := unpack_inner ReferenceUnlock_packable CHECK in rret (UnlockBlock_Reference u)
    else rfail (InvalidUnlockBlockKind k);
|}.

Definition UnlockBlocks_packable : Packable MessageError UnlockBlocks := {|
  packed_len self := packed_len u16 0 + packed_len_all UnlockBlock_packable (unlock_blocks_inner self);
  pack self :=
    pack u16 (as_u 16 (len (unlock_blocks_inner self)))
    ++ pack_all UnlockBlock_packable (unlock_blocks_inner self);
  unpack_inner CHECK :=
    let! n := unpack_inner u16 CHECK in
    let! _ := rensure (negb (CHECK && negb (unlock_block_count_range n))) (InvalidUnlockBlockCount n) in
    let! unlock_blocks := unpack_n UnlockBlock_packable CHECK (Z.to_nat n) in
    rlift (UnlockBlocks_new unlock_blocks);
|}.

Definition OutputId_packable : Packable MessageError OutputId := {|
  packed_len self :=
    packed_len TransactionId_packable (output_transaction_id self) + packed_len u16 (output_index self);
  pack self := pack TransactionId_packable (output_transaction_id self) ++ pack u16 (output_index self);
  unpack_inner CHECK :=
    let! transaction_id := unpack_inner TransactionId_packable CHECK in
    let! index := unpack_inner u16 CHECK in
    rlift (OutputId_new transaction_id index);
|}.

Definition UtxoInput_packable : Packable MessageError UtxoInput := {|
  packed_len self := packed_len OutputId_packable (utxo_output_id self);
  pack self := pack OutputId_packable (utxo_output_id self);
  unpack_inner CHECK := let! o := unpack_inner OutputId_packable CHECK in rret (mkUtxoInput o);
|}.

Definition TreasuryInput_packable : Packable MessageError TreasuryInput := {|
  packed_len self := packed_len MilestoneId_packable (treasury_milestone_id self);
  pack self := pack MilestoneId_packable (treasury_milestone_id self);
  unpack_inner CHECK := let! m := unpack_inner MilestoneId_packable CHECK in rret (TreasuryInput_new m);
|}.

Definition Input_packable : Packable MessageError Input := {|
  packed_len self :=
    match self with
    | Input_Utxo i => packed_len u8 UtxoInput_KIND + packed_len UtxoInput_packable i
    | Input_Treasury i => packed_len u8 TreasuryInput_KIND + packed_len TreasuryInput_packable i
    end;
  pack self :=
    match self with
    | Input_Utxo i => pack u8 UtxoInput_KIND ++ pack UtxoInput_packable i
    | Input_Treasury i => pack u8 TreasuryInput_KIND ++ pack TreasuryInput_packable i
    end;
  unpack_inner CHECK :=
    let! k := unpack_inner u8 CHECK in
    if k =? UtxoInput_KIND then
      let! i := unpack_inner UtxoInput_packable CHECK in rret (Input_Utxo i)
    else if k =? TreasuryInput_KIND then
      let! i := unpack_inner TreasuryInput_packable CHECK in rret (Input_Treasury i)
    else rfail (InvalidInputKind k);
|}.

Definition SignatureLockedSingleOutput_packable : Packable MessageError SignatureLockedSingleOutput := {|
  packed_len self := packed_len Address_packable (single_address self) + packed_len u64 (single_amount self);
  pack self := pack Address_packable (single_address self) ++ pack u64 (single_amount self);
  unpack_inner CHECK :=
    let! address := unpack_inner Address_packable CHECK in
    let! amount := unpack_inner u64 CHECK in
    rlift (SignatureLockedSingleOutput_new address amount);
|}.

Definition SignatureLockedDustAllowanceOutput_packable
    : Packable MessageError SignatureLockedDustAllowanceOutput := {|
  packed_len self := packed_len Address_packable (dust_address self) + packed_len u64 (dust_amount self);
  pack self := pack Address_packable (dust_address self) ++ pack u64 (dust_amount self);
  unpack_inner CHECK :=
    let! address := unpack_inner Address_packable CHECK in
    let! amount := unpack_inner u64 CHECK in
    rlift (SignatureLockedDustAllowanceOutput_new address amount);
|}.

Definition TreasuryOutput_packable : Packable MessageError TreasuryOutput := {|
  packed_len self := packed_len u64 (treasury_amount self);
  pack self := pack u64 (treasury_amount self);
  unpack_inner CHECK := let! amount := unpack_inner u64 CHECK in rlift (TreasuryOutput_new amount);
|}.

Definition Output_packable : Packable MessageError Output := {|
  packed_len self :=
    match self with
    | Output_SignatureLockedSingle o =>
        packed_len u8 SignatureLockedSingleOutput_KIND + packed_len SignatureLockedSingleOutput_packable o
    | Output_SignatureLockedDustAllowance o =>
        packed_len u8 SignatureLockedDustAllowanceOutput_KIND
        + packed_len SignatureLockedDustAllowanceOutput_packable o
    | Output_Treasury o => packed_len u8 TreasuryOutput_KIND + packed_len TreasuryOutput_packable o
    end;
  pack self :=
    match self with
    | Output_SignatureLockedSingle o =>
        pack u8 SignatureLockedSingleOutput_KIND ++ pack SignatureLockedSingleOutput_packable o
    | Output_SignatureLockedDustAllowance o =>
        pack u8 SignatureLockedDustAllowanceOutput_KIND ++ pack SignatureLockedDustAllowanceOutput_packable o
    | Output_Treasury o => pack u8 TreasuryOutput_KIND ++ pack TreasuryOutput_packable o
    end;
  unpack_inner CHECK :=
    let! k := unpack_inner u8 CHECK in
    if k =? SignatureLockedSingleOutput_KIND then
      let! o := unpack_inner SignatureLockedSingleOutput_packable CHECK in rret (Output_SignatureLockedSingle o)
    else if k =? SignatureLockedDustAllowanceOutput_KIND then
      let! o := unpack_inner SignatureLockedDustAllowanceOutput_packable CHECK in
      rret (Output_SignatureLockedDustAllowance o)
    else if k =? TreasuryOutput_KIND then
      let! o := unpack_inner TreasuryOutput_packable CHECK in rret (Output_Treasury o)
    else rfail (InvalidOutputKind k);
|}.

Definition Parents_packable `{IteratorSorted} : Packable MessageError Parents := {|
  packed_len self := packed_len u8 0 + len (parents_inner self) * MESSAGE_ID_LENGTH;
  pack self := pack u8 (as_u 8 (len (parents_inner self))) ++ pack_all MessageId_packable (parents_inner self);
  unpack_inner CHECK :=
    let! n := unpack_inner u8 CHECK in
    let! _ := rensure (negb (CHECK && negb (message_parents_range n))) (InvalidParentsCount n) in
    let! inner := unpack_n MessageId_packable CHECK (Z.to_nat n) in
    rlift (Parents_new inner);
|}.

(** ** Well-formed values *)

Definition wf_MessageId (m : MessageId) : Prop := len (message_id_bytes m) = MESSAGE_ID_LENGTH.
Definition wf_TransactionId (t : TransactionId) : Prop := len (transaction_id_bytes t) = TRANSACTION_ID_LENGTH.
Definition wf_MilestoneId (m : MilestoneId) : Prop := len (milestone_id_bytes m) = MILESTONE_ID_LENGTH.
Definition wf_MilestoneIndex (i : MilestoneIndex) : Prop := fits 32 (milestone_index i).
Definition wf_Milestone (m : Milestone) : Prop :=
  wf_MessageId (milestone_message_id m) /\ fits 64 (milestone_timestamp m).
Definition wf_Ed25519Address (a : Ed25519Address) : Prop := len (ed25519_address_bytes a) = ED25519_ADDRESS_LENGTH.
Definition wf_Address (a : Address) : Prop := match a with Address_Ed25519 a => wf_Ed25519Address a end.
Definition wf_Ed25519Signature (s : Ed25519Signature) : Prop :=
  len (public_key s) = ED25519_PUBLIC_KEY_LENGTH /\ len (signature s) = ED25519_SIGNATURE_LENGTH.
Definition wf_SignatureUnlock (s : SignatureUnlock) : Prop :=
  match s with SignatureUnlock_Ed25519 s => wf_Ed25519Signature s end.
Definition wf_ReferenceUnlock (r : ReferenceUnlock) : Prop := 0 <= reference_index r < INPUT_OUTPUT_COUNT_MAX.
Definition wf_UnlockBlock (u : UnlockBlock) : Prop :=
  match u with
  | UnlockBlock_Signature s => wf_SignatureUnlock s
  | UnlockBlock_Reference r => wf_ReferenceUnlock r
  end.
Definition wf_OutputId (o : OutputId) : Prop :=
  wf_TransactionId (output_transaction_id o) /\ 0 <= output_index o < INPUT_OUTPUT_COUNT_MAX.
Definition wf_UtxoInput (i : UtxoInput) : Prop := wf_OutputId (utxo_output_id i).
Definition wf_TreasuryInput (i : TreasuryInput) : Prop := wf_MilestoneId (treasury_milestone_id i).
Definition wf_Input (i : Input) : Prop :=
  match i with Input_Utxo i => wf_UtxoInput i | Input_Treasury i => wf_TreasuryInput i end.
Definition wf_Single (o : SignatureLockedSingleOutput) : Prop :=
  wf_Address (single_address o) /\ 1 <= single_amount o <= IOTA_SUPPLY.
Definition wf_DustAllowance (o : SignatureLockedDustAllowanceOutput) : Prop :=
  wf_Address (dust_address o) /\ DUST_THRESHOLD <= dust_amount o <= IOTA_SUPPLY.
Definition wf_TreasuryOutput (o : TreasuryOutput) : Prop := 0 <= treasury_amount o <= IOTA_SUPPLY.
Definition wf_Output (o : Output) : Prop :=
  match o with
  | Output_SignatureLockedSingle o => wf_Single o
  | Output_SignatureLockedDustAllowance o => wf_DustAllowance o
  | Output_Treasury o => wf_TreasuryOutput o
  end.

(** The signatures of a list of unlock blocks. *)
Definition signatures (l : list UnlockBlock) : list SignatureUnlock :=
  omap (fun u => match u with UnlockBlock_Signature s => Some s | UnlockBlock_Reference _ => None end) l.

(** What the protocol asks of the unlock blocks of a transaction: a reference points back to a signature
    and no signature occurs twice. *)
Definition unlock_spec (l : list UnlockBlock) : Prop :=
  1 <= len l <= INPUT_OUTPUT_COUNT_MAX
  /\ NoDup (signatures l)
  /\ (forall i r, l !! i = Some (UnlockBlock_Reference r) ->
       (Z.to_nat (reference_index r) < i)%nat
       /\ exists s, l !! Z.to_nat (reference_index r) = Some (UnlockBlock_Signature s)).

Definition wf_UnlockBlocks (u : UnlockBlocks) : Prop :=
  Forall wf_UnlockBlock (unlock_blocks_inner u) /\ unlock_spec (unlock_blocks_inner u).

(** Parents: one to eight message identifiers in strictly increasing lexicographic order. *)
Definition wf_Parents (p : Parents) : Prop :=
  Forall wf_MessageId (parents_inner p)
  /\ 1 <= len (parents_inner p) <= 8
  /\ Sorted lex_lt (message_id_bytes <$> parents_inner p).

(** ** Constructors let exactly the well-formed values through *)

Lemma OutputId_new_Ok t i o :
  OutputId_new t i = Ok o <-> 0 <= i < INPUT_OUTPUT_COUNT_MAX /\ o = mkOutputId t i.
Proof.
  unfold OutputId_new, input_output_index_range. rewrite ensure_bind_Ok, range_contains_spec, Ok_inj.
  intuition lia.
Qed.

Lemma ReferenceUnlock_new_Ok i r :
  ReferenceUnlock_new i = Ok r <-> 0 <= i < INPUT_OUTPUT_COUNT_MAX /\ r = mkReferenceUnlock i.
Proof.
  unfold ReferenceUnlock_new, input_output_index_range. rewrite ensure_bind_Ok, range_contains_spec, Ok_inj.
  intuition lia.
Qed.

Lemma SignatureLockedSingleOutput_new_Ok a x o :
  SignatureLockedSingleOutput_new a x = Ok o <-> 1 <= x <= IOTA_SUPPLY /\ o = mkSingle a x.
Proof. unfold SignatureLockedSingleOutput_new. by rewrite ensure_bind_Ok, range_contains_spec, Ok_inj. Qed.

Lemma SignatureLockedDustAllowanceOutput_new_Ok a x o :
  SignatureLockedDustAllowanceOutput_new a x = Ok o
  <-> DUST_THRESHOLD <= x <= IOTA_SUPPLY /\ o = mkDustAllowance a x.
Proof. unfold SignatureLockedDustAllowanceOutput_new. by rewrite ensure_bind_Ok, range_contains_spec, Ok_inj. Qed.

Lemma TreasuryOutput_new_Ok x o :
  TreasuryOutput_new x = Ok o <-> 0 <= x <= IOTA_SUPPLY /\ o = mkTreasuryOutput x.
Proof. unfold TreasuryOutput_new. by rewrite ensure_bind_Ok, range_contains_spec, Ok_inj. Qed.

Lemma Parents_new_Ok `{IteratorSortedOk} l p :
  Parents_new l = Ok p
  <-> 1 <= len l <= 8 /\ Sorted lex_lt (message_id_bytes <$> l) /\ p = mkParents l.
Proof.
  unfold Parents_new, message_parents_range.
  by rewrite !ensure_bind_Ok, range_contains_spec, is_unique_sorted_ok, Ok_inj.
Qed.

(** The condition the loop of [UnlockBlocks::new] checks of the reference [r] at position [i]. *)
Definition reference_ok (l : list UnlockBlock) (i : Z) (r : ReferenceUnlock) : Prop :=
  reference_index r < i /\ forall r', l !! Z.to_nat (reference_index r) <> Some (UnlockBlock_Reference r').

Lemma UnlockBlocks_check_Ok all seen index l u :
  0 <= index -> index + len l <= 2 ^ 16 -> Forall wf_UnlockBlock l ->
  UnlockBlocks_check all seen index l = Ok u
  <-> NoDup (signatures l)
      /\ (forall s, s ∈ signatures l -> s ∉ seen)
      /\ (forall i r, l !! i = Some (UnlockBlock_Reference r) -> reference_ok all (index + Z.of_nat i) r).
Proof.
  intros H0 Hb Hwf. revert seen index H0 Hb.
  induction Hwf as [|b l Hw Hwf IH]; intros seen index H0 Hb; cbn [UnlockBlocks_check].
  { destruct u. cbn. split; [|done]. intros _. repeat split; [constructor | set_solver |..]; inversion H. }
  rewrite len_cons in Hb. pose proof (len_nonneg l).
  destruct b as [s|r].
  - case_bool_decide as Hs.
    + split; [done|]. intros (_ & Hn & _). exfalso. by apply (Hn s); [left|].
    + rewrite IH by lia. cbn. rewrite NoDup_cons. split.
      * intros (Hd & Hn & Hr). repeat split; [set_solver..| |];
          destruct i as [|i]; try done; replace (index + Z.of_nat (S i)) with (index + 1 + Z.of_nat i) by lia;
          by eapply Hr.
      * intros ([Hd1 Hd2] & Hn & Hr). split; [done|]. split; [set_solver|].
        intros i r Hi. replace (index + 1 + Z.of_nat i) with (index + Z.of_nat (S i)) by lia. by apply Hr.
  - case_match eqn:Hc; rewrite as_u_id in Hc by (unfold fits; lia).
    + split; [done|]. intros (_ & _ & Hr). exfalso. specialize (Hr 0%nat r eq_refl) as [Hr1 Hr2].
      rewrite !orb_true_iff, Z.eqb_eq, Z.leb_le in Hc. cbn in Hw. unfold wf_ReferenceUnlock in Hw.
      destruct Hc as [[?|?]|Hc]; [lia..|]. case_match; [|done]. case_match; [done|]. by eapply Hr2.
    + rewrite !orb_false_iff, Z.eqb_neq, Z.leb_gt in Hc. destruct Hc as [[Hi Hr] Hm].
      rewrite IH by lia. cbn. split; intros (Hd & Hn & Hrs); (split; [done|]; split; [done|]).
      * intros [|i] r' Hl; [|replace (index + Z.of_nat (S i)) with (index + 1 + Z.of_nat i) by lia; by apply Hrs].
        cbn in Hl. simplify_eq. split; [lia|]. intros r'' Hl'. by rewrite Hl' in Hm.
      * intros i r' Hl. replace (index + 1 + Z.of_nat i) with (index + Z.of_nat (S i)) by lia. by apply Hrs.
Qed.

Lemma UnlockBlocks_new_Ok l u :
  Forall wf_UnlockBlock l -> UnlockBlocks_new l = Ok u <-> unlock_spec l /\ u = mkUnlockBlocks l.
Proof.
  intros Hwf. unfold UnlockBlocks_new, unlock_block_count_range, input_output_count_range, unlock_spec.
  rewrite ensure_bind_Ok, range_contains_spec, result_bind_Ok. split.
  - intros (Hl & x & Hc & Hu). apply UnlockBlocks_check_Ok in Hc as (Hd & _ & Hr);
      [|lia | unfold INPUT_OUTPUT_COUNT_MAX in *; lia | done].
    inv_ok. split; [|done]. split; [done|]. split; [done|]. intros i r Hi.
    specialize (Hr i r Hi) as [Hlt Hno]. rewrite Forall_lookup in Hwf. specialize (Hwf i _ Hi) as Hw.
    cbn in Hw. unfold wf_ReferenceUnlock in Hw. assert (Z.to_nat (reference_index r) < i)%nat by lia.
    split; [done|]. apply lookup_lt_Some in Hi.
    destruct (lookup_lt_is_Some_2 l (Z.to_nat (reference_index r))) as [[s|r'] Hs]; [lia|eauto|].
    by apply Hno in Hs.
  - intros [(Hl & Hd & Hr) ->]. split; [done|]. exists tt. split; [|done].
    apply UnlockBlocks_check_Ok; [lia | unfold INPUT_OUTPUT_COUNT_MAX in *; lia | done |].
    split; [done|]. split; [set_solver|]. intros i r Hi. specialize (Hr i r Hi) as (Hlt & s & Hs).
    rewrite Forall_lookup in Hwf. specialize (Hwf i _ Hi). cbn in Hwf. unfold wf_ReferenceUnlock in Hwf.
    split; [lia|]. intros r'. by rewrite Hs.
Qed.

(** ** The implementations of [Packable] keep their promise *)

Ltac unfold_consts ::=
  unfold INPUT_OUTPUT_COUNT_MAX, IOTA_SUPPLY, DUST_THRESHOLD, MESSAGE_ID_LENGTH in *.

#[export] Instance MessageId_ok : PackableOk MessageId_packable wf_MessageId.
Proof. unfold MessageId_packable, wf_MessageId. packable_ok @Ok_inj. Qed.
#[export] Instance TransactionId_ok : PackableOk TransactionId_packable wf_TransactionId.
Proof. unfold TransactionId_packable, wf_TransactionId. packable_ok @Ok_inj. Qed.
#[export] Instance MilestoneId_ok : PackableOk MilestoneId_packable wf_MilestoneId.
Proof. unfold MilestoneId_packable, wf_MilestoneId. packable_ok @Ok_inj. Qed.
#[export] Instance MilestoneIndex_ok : PackableOk MilestoneIndex_packable wf_MilestoneIndex.
Proof. unfold MilestoneIndex_packable, wf_MilestoneIndex. packable_ok @Ok_inj. Qed.
#[export] Instance Milestone_ok : PackableOk Milestone_packable wf_Milestone.
Proof. unfold Milestone_packable, wf_Milestone. packable_ok @Ok_inj. Qed.
#[export] Instance Ed25519Address_ok : PackableOk Ed25519Address_packable wf_Ed25519Address.
Proof. unfold Ed25519Address_packable, wf_Ed25519Address. packable_ok @Ok_inj. Qed.
#[export] Instance Address_ok : PackableOk Address_packable wf_Address.
Proof. unfold Address_packable, wf_Address. packable_ok @Ok_inj. Qed.
#[export] Instance Ed25519Signature_ok : PackableOk Ed25519Signature_packable wf_Ed25519Signature.
Proof. unfold Ed25519Signature_packable, wf_Ed25519Signature. packable_ok @Ok_inj. Qed.
#[export] Instance SignatureUnlock_ok : PackableOk SignatureUnlock_packable wf_SignatureUnlock.
Proof. unfold SignatureUnlock_packable, wf_SignatureUnlock. packable_ok @Ok_inj. Qed.
#[export] Instance ReferenceUnlock_ok : PackableOk ReferenceUnlock_packable wf_ReferenceUnlock.
Proof. unfold ReferenceUnlock_packable, wf_ReferenceUnlock. packable_ok ReferenceUnlock_new_Ok. Qed.
#[export] Instance UnlockBlock_ok : PackableOk UnlockBlock_packable wf_UnlockBlock.
Proof. unfold UnlockBlock_packable, wf_UnlockBlock. packable_ok @Ok_inj. Qed.
#[export] Instance OutputId_ok : PackableOk OutputId_packable wf_OutputId.
Proof. unfold OutputId_packable, wf_OutputId. packable_ok OutputId_new_Ok. Qed.
#[export] Instance UtxoInput_ok : PackableOk UtxoInput_packable wf_UtxoInput.
Proof. unfold UtxoInput_packable, wf_UtxoInput. packable_ok @Ok_inj. Qed.
#[export] Instance TreasuryInput_ok : PackableOk TreasuryInput_packable wf_TreasuryInput.
Proof. unfold TreasuryInput_packable, wf_TreasuryInput. packable_ok @Ok_inj. Qed.
#[export] Instance Input_ok : PackableOk Input_packable wf_Input.
Proof. unfold Input_packable, wf_Input. packable_ok @Ok_inj. Qed.
#[export] Instance Single_ok : PackableOk SignatureLockedSingleOutput_packable wf_Single.
Proof. unfold SignatureLockedSingleOutput_packable, wf_Single. packable_ok SignatureLockedSingleOutput_new_Ok. Qed.
#[export] Instance DustAllowance_ok : PackableOk SignatureLockedDustAllowanceOutput_packable wf_DustAllowance.
Proof.
  unfold SignatureLockedDustAllowanceOutput_packable, wf_DustAllowance.
  packable_ok SignatureLockedDustAllowanceOutput_new_Ok.
Qed.
#[export] Instance TreasuryOutput_ok : PackableOk TreasuryOutput_packable wf_TreasuryOutput.
Proof. unfold TreasuryOutput_packable, wf_TreasuryOutput. packable_ok TreasuryOutput_new_Ok. Qed.
#[export] Instance Output_ok : PackableOk Output_packable wf_Output.
Proof. unfold Output_packable, wf_Output. packable_ok @Ok_inj. Qed.

(** Each value has one encoding. *)

#[export] Instance MessageId_canonical : PackableCanonical MessageId_packable.
Proof. unfold MessageId_packable. packable_canonical @Ok_inj. Qed.
#[export] Instance TransactionId_canonical : PackableCanonical TransactionId_packable.
Proof. unfold TransactionId_packable. packable_canonical @Ok_inj. Qed.
#[export] Instance MilestoneId_canonical : PackableCanonical MilestoneId_packable.
Proof. unfold MilestoneId_packable. packable_canonical @Ok_inj. Qed.
#[export] Instance MilestoneIndex_canonical : PackableCanonical MilestoneIndex_packable.
Proof. unfold MilestoneIndex_packable. packable_canonical @Ok_inj. Qed.
#[export] Instance Milestone_canonical : PackableCanonical Milestone_packable.
Proof. unfold Milestone_packable. packable_canonical @Ok_inj. Qed.
#[export] Instance Ed25519Address_canonical : PackableCanonical Ed25519Address_packable.
Proof. unfold Ed25519Address_packable. packable_canonical @Ok_inj. Qed.
#[export] Instance Address_canonical : PackableCanonical Address_packable.
Proof. unfold Address_packable. packable_canonical @Ok_inj. Qed.
#[export] Instance Ed25519Signature_canonical : PackableCanonical Ed25519Signature_packable.
Proof. unfold Ed25519Signature_packable. packable_canonical @Ok_inj. Qed.
#[export] Instance SignatureUnlock_canonical : PackableCanonical SignatureUnlock_packable.
Proof. unfold SignatureUnlock_packable. packable_canonical @Ok_inj. Qed.
#[export] Instance ReferenceUnlock_canonical : PackableCanonical ReferenceUnlock_packable.
Proof. unfold ReferenceUnlock_packable. packable_canonical ReferenceUnlock_new_Ok. Qed.
#[export] Instance UnlockBlock_canonical : PackableCanonical UnlockBlock_packable.
Proof. unfold UnlockBlock_packable. packable_canonical @Ok_inj. Qed.
#[export] Instance OutputId_canonical : PackableCanonical OutputId_packable.
Proof. unfold OutputId_packable. packable_canonical OutputId_new_Ok. Qed.
#[export] Instance UtxoInput_canonical : PackableCanonical UtxoInput_packable.
Proof. unfold UtxoInput_packable. packable_canonical @Ok_inj. Qed.
#[export] Instance TreasuryInput_canonical : PackableCanonical TreasuryInput_packable.
Proof. unfold TreasuryInput_packable. packable_canonical @Ok_inj. Qed.
#[export] Instance Input_canonical : PackableCanonical Input_packable.
Proof. unfold Input_packable. packable_canonical @Ok_inj. Qed.
#[export] Instance SignatureLockedSingleOutput_canonical : PackableCanonical SignatureLockedSingleOutput_packable.
Proof. unfold SignatureLockedSingleOutput_packable. packable_canonical SignatureLockedSingleOutput_new_Ok. Qed.
#[export] Instance SignatureLockedDustAllowanceOutput_canonical : PackableCanonical SignatureLockedDustAllowanceOutput_packable.
Proof. unfold SignatureLockedDustAllowanceOutput_packable. packable_canonical SignatureLockedDustAllowanceOutput_new_Ok. Qed.
#[export] Instance TreasuryOutput_canonical : PackableCanonical TreasuryOutput_packable.
Proof. unfold TreasuryOutput_packable. packable_canonical TreasuryOutput_new_Ok. Qed.
#[export] Instance Output_canonical : PackableCanonical Output_packable.
Proof. unfold Output_packable. packable_canonical @Ok_inj. Qed.

Lemma rensure_check (CHECK c : bool) (e : MessageError) u bs rest :
  rensure (negb (CHECK && negb c)) e bs = Ok (u, rest) -> rest = bs /\ (CHECK = true -> c = true).
Proof. destruct CHECK, c; cbn; naive_solver. Qed.

Lemma UnlockBlocks_new_inv l u :
  UnlockBlocks_new l = Ok u -> 1 <= len l <= INPUT_OUTPUT_COUNT_MAX /\ u = mkUnlockBlocks l.
Proof.
  unfold UnlockBlocks_new, unlock_block_count_range, input_output_count_range.
  rewrite ensure_bind_Ok, range_contains_spec. intros [? ?]. inv_ok. done.
Qed.

#[export] Instance UnlockBlocks_ok : PackableOk UnlockBlocks_packable wf_UnlockBlocks.
Proof.
  unfold UnlockBlocks_packable, wf_UnlockBlocks. split; cbn [packed_len pack unpack_inner].
  - intros a [Ha _]. rewrite len_app, (pack_all_len _ wf_UnlockBlock), packed_len_ok; [done| |done].
    by apply as_u_fits.
  - intros C [l] rest [Hl Hs]. cbn [unlock_blocks_inner] in *. pose proof (proj1 Hs) as Hn.
    assert (fits 16 (len l)) by (unfold fits, INPUT_OUTPUT_COUNT_MAX in *; lia).
    rewrite as_u_id by done. rewrite <- app_assoc. run_step.
    rewrite rbind_ensure; [|by unfold unlock_block_count_range, input_output_count_range;
      rewrite (proj2 (range_contains_spec _ _ _) Hn), andb_false_r].
    rewrite (rbind_unpack_n _ wf_UnlockBlock); [|done|unfold len; lia].
    apply rlift_Ok. split; [|done]. by apply UnlockBlocks_new_Ok.
  - intros bs a rest H. inv_read. wf_read. apply UnlockBlocks_new_Ok in H2 as [? ->]; done.
  - intros C bs a rest H. inv_read. apply UnlockBlocks_new_inv in H2 as [_ ->]. solve_read.
Qed.

#[export] Instance UnlockBlocks_canonical : PackableCanonical UnlockBlocks_packable.
Proof.
  intros C bs a rest. unfold UnlockBlocks_packable. cbn [pack unpack_inner]. intros H. inv_read.
  apply UnlockBlocks_new_inv in H2 as [Hl ->]. unfold INPUT_OUTPUT_COUNT_MAX in Hl.
  pose proof (unpack_n_length _ _ _ _ _ _ H1) as Hn. apply (unpack_n_canonical _) in H1 as ->.
  pose proof (unpack_wf (P := u16) _ _ _ H) as Hx. apply unpack_canonical in H as ->.
  cbn [unlock_blocks_inner]. rewrite <- app_assoc. f_equal. f_equal. unfold fits, len in *.
  rewrite as_u_id by (unfold fits; lia). lia.
Qed.

Section parents.
Context `{IteratorSortedOk}.

#[export] Instance Parents_ok : PackableOk Parents_packable wf_Parents.
Proof.
  unfold Parents_packable, wf_Parents. split; cbn [packed_len pack unpack_inner].
  - intros a [Ha _]. rewrite len_app, (pack_all_len _ wf_MessageId), packed_len_ok by (done || by apply as_u_fits).
    unfold packed_len_all. rewrite (sum_Z_const _ MESSAGE_ID_LENGTH); [autorewrite with bee; lia|]. by apply Forall_true.
  - intros C [l] rest (Hl & Hn & Hs). cbn [parents_inner] in *.
    assert (fits 8 (len l)) by (unfold fits; lia).
    rewrite as_u_id by done. rewrite <- app_assoc. run_step.
    rewrite rbind_ensure;
      [|by unfold message_parents_range; rewrite (proj2 (range_contains_spec _ _ _) Hn), andb_false_r].
    rewrite (rbind_unpack_n _ wf_MessageId); [|done|unfold len; lia].
    apply rlift_Ok. split; [|done]. by apply Parents_new_Ok.
  - intros bs a rest Hr. inv_read. wf_read. apply Parents_new_Ok in H4 as (? & ? & ->); done.
  - intros C bs a rest Hr. inv_read. apply Parents_new_Ok in H4 as (? & ? & ->).
    apply (unpack_n_len _ wf_MessageId) in H3 as (u & -> & Hu).
    unfold packed_len_all in Hu. rewrite (sum_Z_const _ MESSAGE_ID_LENGTH) in Hu; [solve_read|].
    by apply Forall_true.
Qed.

#[export] Instance Parents_canonical : PackableCanonical Parents_packable.
Proof.
  intros C bs a rest. unfold Parents_packable. cbn [pack unpack_inner]. intros Hr. inv_read.
  apply Parents_new_Ok in H4 as (Hl & _ & ->).
  pose proof (unpack_n_length _ _ _ _ _ _ H3) as Hn. apply (unpack_n_canonical _) in H3 as ->.
  pose proof (unpack_wf (P := u8) _ _ _ H1) as Hx. apply unpack_canonical in H1 as ->.
  cbn [parents_inner]. rewrite <- app_assoc. f_equal. f_equal. unfold fits, len in *.
  rewrite as_u_id by (unfold fits; lia). lia.
Qed.
End parents.

(** ** Properties of the operations *)

(** Following references once is enough: behind an index of well-formed unlock blocks is a signature. *)
Lemma get_signature u i :
  wf_UnlockBlocks u -> Z.of_nat i < len (unlock_blocks_inner u) ->
  exists s, UnlockBlocks_get u i = Some (UnlockBlock_Signature s).
Proof.
  intros (_ & _ & _ & Hr) Hi. unfold UnlockBlocks_get, len in *.
  destruct (lookup_lt_is_Some_2 (unlock_blocks_inner u) i) as [b Hb]; [lia|]. rewrite Hb.
  destruct b as [s|r]; [eauto|]. by destruct (Hr i r Hb) as [_ ?].
Qed.

(** Parents are pairwise different. *)
Lemma parents_NoDup p : wf_Parents p -> NoDup (parents_inner p).
Proof.
  intros (_ & _ & Hs). apply NoDup_fmap_1 with message_id_bytes.
  by apply StronglySorted_lex_NoDup, Sorted_StronglySorted; [intros ???; apply lex_lt_trans|].
Qed.

(** *** Text round trips *)

Section text.
Context `{HexOk}.

Lemma hex_array_encode n bs : len bs = n -> hex_array n (hex_encode bs) = Ok bs.
Proof. intros <-. unfold hex_array. rewrite hex_decode_encode. cbn. by rewrite Z.eqb_refl. Qed.

Lemma MessageId_str m : wf_MessageId m -> MessageId_from_str (MessageId_fmt m) = Ok m.
Proof. destruct m. intros Hm. unfold MessageId_from_str, MessageId_fmt. by rewrite hex_array_encode. Qed.

Lemma MilestoneId_str m : wf_MilestoneId m -> MilestoneId_from_str (MilestoneId_fmt m) = Ok m.
Proof. destruct m. intros Hm. unfold MilestoneId_from_str, MilestoneId_fmt. by rewrite hex_array_encode. Qed.

Lemma TransactionId_str t : wf_TransactionId t -> TransactionId_from_str (TransactionId_fmt t) = Ok t.
Proof. destruct t. intros Ht. unfold TransactionId_from_str, TransactionId_fmt. by rewrite hex_array_encode. Qed.

Lemma Ed25519Address_str a : wf_Ed25519Address a -> Ed25519Address_from_str (Ed25519Address_fmt a) = Ok a.
Proof. destruct a. intros Ha. unfold Ed25519Address_from_str, Ed25519Address_fmt. by rewrite hex_array_encode. Qed.

Lemma OutputId_str o : wf_OutputId o -> OutputId_from_str (OutputId_fmt o) = Ok o.
Proof.
  destruct o as [[t] i]. intros [Ht Hi]. unfold OutputId_from_str, OutputId_fmt, TransactionId_fmt.
  cbn [output_transaction_id output_index transaction_id_bytes] in *. unfold wf_TransactionId in Ht.
  cbn [transaction_id_bytes] in Ht. rewrite <- hex_encode_app, hex_array_encode.
  - change (OutputId_try_from (t ++ to_le_bytes 2 i) = Ok (mkOutputId (TransactionId_new t) i)).
    unfold OutputId_try_from. unfold len, TRANSACTION_ID_LENGTH in *.
    rewrite take_app_length', drop_app_length' by lia.
    rewrite from_to_le_bytes; [by apply OutputId_new_Ok|]. unfold fits, INPUT_OUTPUT_COUNT_MAX in *. lia.
  - rewrite len_app, len_to_le_bytes, Ht. done.
Qed.
End text.

(** ** Claims *)

(** [UnlockBlocks::new] accepts exactly the lists of 1 to 127 unlock blocks in which no signature occurs twice and
    every reference points back to a signature; behind each index of an accepted list [get] finds a signature. *)
Theorem unlock_blocks_new_spec l :
  Forall wf_UnlockBlock l ->
  (is_ok (UnlockBlocks_new l) = true <-> unlock_spec l)
  /\ forall u i, UnlockBlocks_new l = Ok u -> (i < length l)%nat ->
       exists s, UnlockBlocks_get u i = Some (UnlockBlock_Signature s).
Proof.
  intros Hl. pose proof (fun u => UnlockBlocks_new_Ok l u Hl) as Hn. split.
  - destruct (UnlockBlocks_new l) as [u|e] eqn:E; cbn; split; try done.
    + intros _. by apply (Hn u).
    + intros Hs. by specialize (proj2 (Hn (mkUnlockBlocks l)) (conj Hs eq_refl)).
  - intros u i [Hs ->]%Hn Hi. apply get_signature; [by split|]. unfold len. cbn. lia.
Qed.

(** [Parents::new] accepts exactly one to eight message identifiers in strictly increasing lexicographic order, and
    the parents of a message are pairwise different. *)
Theorem parents_new_spec `{IteratorSortedOk} l p :
  Parents_new l = Ok p
  <-> p = mkParents l /\ 1 <= len l <= 8 /\ Sorted lex_lt (message_id_bytes <$> l) /\ NoDup l.
Proof.
  rewrite Parents_new_Ok. split.
  - intros (Hl & Hs & ->). repeat (split; [done|]). apply NoDup_fmap_1 with message_id_bytes.
    by apply StronglySorted_lex_NoDup, Sorted_StronglySorted; [intros ???; apply lex_lt_trans|].
  - intros (-> & Hl & Hs & _). done.
Qed.

(** An output identifier is read back from its hexadecimal rendering. *)
Theorem output_id_text_roundtrip `{HexOk} o : wf_OutputId o -> OutputId_from_str (OutputId_fmt o) = Ok o.
Proof. apply OutputId_str. Qed.

(** Addresses, inputs, outputs, unlock blocks and parents keep the contract of [Packable]: encodings have the
    announced length, decode to the value, and no other byte string does. *)
Theorem message_parts_codec `{IteratorSortedOk} :
  (PackableOk Address_packable wf_Address /\ PackableCanonical Address_packable)
  /\ (PackableOk Input_packable wf_Input /\ PackableCanonical Input_packable)
  /\ (PackableOk Output_packable wf_Output /\ PackableCanonical Output_packable)
  /\ (PackableOk UnlockBlocks_packable wf_UnlockBlocks /\ PackableCanonical UnlockBlocks_packable)
  /\ (PackableOk Parents_packable wf_Parents /\ PackableCanonical Parents_packable).
Proof. split_and!; apply _. Qed.

(** ** Evaluation *)

Module Examples.
Import Concrete.

Lemma unlock_blocks_new_spec_witness :
  let s := UnlockBlock_Signature (SignatureUnlock_Ed25519 (Ed25519Signature_new (repeat Byte.x01 32) (repeat Byte.x02 64))) in
  exists u, UnlockBlocks_new [s; UnlockBlock_Reference (mkReferenceUnlock 0)] = Ok u
    /\ exists t, UnlockBlocks_get u 1 = Some (UnlockBlock_Signature t).
Proof.
  intros s. eexists. split; [reflexivity|].
  apply (unlock_blocks_new_spec [s; UnlockBlock_Reference (mkReferenceUnlock 0)]); [|reflexivity|cbn; lia].
  repeat constructor; vm_compute; congruence.
Defined.

Lemma parents_new_spec_witness :
  let l := [MessageId_new (repeat Byte.x01 32); MessageId_new (repeat Byte.x02 32)] in
  Parents_new l = Ok (mkParents l) /\ NoDup l.
Proof.
  intros l. assert (H : Parents_new l = Ok (mkParents l)) by (vm_compute; reflexivity).
  split; [exact H|]. exact (proj2 (proj2 (proj2 (proj1 (parents_new_spec l (mkParents l)) H)))).
Defined.

Lemma output_id_text_roundtrip_witness :
  let o := mkOutputId (TransactionId_new (repeat Byte.xab 32)) 126 in
  OutputId_from_str (OutputId_fmt o) = Ok o.
Proof. apply output_id_text_roundtrip. split; vm_compute; [reflexivity | split; congruence]. Defined.

Lemma message_parts_codec_witness : PackableOk Address_packable wf_Address.
Proof. exact (proj1 (proj1 message_parts_codec)). Defined.
End Examples.
