(* ===== verification/Payload.v ===== *)
(** * Payloads

    Models [bee-message/src/payload]: indexation, treasury transaction, receipt, milestone and transaction
    payloads, and the sum of them, which is recursive: a transaction may carry an indexation payload, a
    milestone a receipt, and a receipt carries a treasury transaction.

    The code recurses through [Payload::unpack_inner]. The implementations for the composite types take the
    implementation of [Payload] as an argument [P]; [Payload_step P] is the code of [impl Packable for
    Payload] with recursive calls to [P], [Payload_unpack] iterates it with fuel, and [Payload_packable]
    runs it with more fuel than the input has bytes. [Payload_unpack_unfold] states that the result
    satisfies the recursive equation of the code, so the fuel is not observable ([PayloadCodec]). *)

From S2P Require Import Prelude Packable Trits External MessageTypes.
From Stdlib Require Import Sorting.Sorted.

Local Open Scope Z_scope.

(** ** Data *)

Definition MESSAGE_LENGTH_MAX : Z := 32768.

(** *** Indexation *)

Definition INDEXATION_PADDED_INDEX_LENGTH : Z := 64.
Record PaddedIndex := PaddedIndex_new { padded_index_bytes : bytes }.
Definition indexation_index_length_range (n : Z) : bool := range_contains 1 INDEXATION_PADDED_INDEX_LENGTH n.

Record IndexationPayload := mkIndexationPayload { indexation_index : bytes; indexation_data : bytes }.

(** *** Treasury transaction *)

Record TreasuryTransactionPayload := mkTreasuryTransactionPayload {
  treasury_input : Input;
  treasury_output : Output;
}.

(** *** Receipt *)

Definition TAIL_TRANSACTION_HASH_LEN : Z := 49.
Definition TAIL_TRANSACTION_HASH_TRITS : nat := 243.

Record TailTransactionHash := mkTailTransactionHash { tail_transaction_hash_buf : TritBuf }.
Record MigratedFundsEntry := mkMigratedFundsEntry {
  tail_transaction_hash : TailTransactionHash;
  migrated_output : SignatureLockedSingleOutput;
}.

(** *** The recursive payloads *)

Inductive Payload :=
| Payload_Transaction (p : TransactionPayload)
| Payload_Milestone (p : MilestonePayload)
| Payload_Indexation (p : IndexationPayload)
| Payload_Receipt (p : ReceiptPayload)
| Payload_TreasuryTransaction (p : TreasuryTransactionPayload)
with TransactionPayload :=
| mkTransactionPayload (essence : Essence) (unlock_blocks : UnlockBlocks)
with Essence :=
| Essence_Regular (essence : RegularEssence)
with RegularEssence :=
| mkRegularEssence (inputs : list Input) (outputs : list Output) (payload : option Payload)
with MilestonePayload :=
| mkMilestonePayload (essence : MilestonePayloadEssence) (signatures : list bytes)
with MilestonePayloadEssence :=
| mkMilestonePayloadEssence (index : MilestoneIndex) (timestamp : Z) (parents : Parents) (merkle_proof : bytes)
    (next_pow_score next_pow_score_milestone_index : Z) (public_keys : list bytes) (receipt : option Payload)
with ReceiptPayload :=
| mkReceiptPayload (migrated_at : MilestoneIndex) (last : bool) (funds : list MigratedFundsEntry)
    (transaction : Payload).

Definition TransactionPayload_KIND : Z := 0.
Definition MilestonePayload_KIND : Z := 1.
Definition IndexationPayload_KIND : Z := 2.
Definition ReceiptPayload_KIND : Z := 3.
Definition TreasuryTransactionPayload_KIND : Z := 4.
Definition RegularEssence_KIND : Z := 0.

Definition Payload_kind (p : Payload) : Z :=
  match p with
  | Payload_Transaction _ => TransactionPayload_KIND
  | Payload_Milestone _ => MilestonePayload_KIND
  | Payload_Indexation _ => IndexationPayload_KIND
  | Payload_Receipt _ => ReceiptPayload_KIND
  | Payload_TreasuryTransaction _ => TreasuryTransactionPayload_KIND
  end.

(** The accessors. *)
Definition transaction_essence (t : TransactionPayload) : Essence := let 'mkTransactionPayload e _ := t in e.
Definition unlock_blocks (t : TransactionPayload) : UnlockBlocks := let 'mkTransactionPayload _ u := t in u.
Definition regular_essence (e : Essence) : RegularEssence := let 'Essence_Regular e := e in e.
Definition essence_inputs (e : RegularEssence) : list Input := let 'mkRegularEssence i _ _ := e in i.
Definition essence_outputs (e : RegularEssence) : list Output := let 'mkRegularEssence _ o _ := e in o.
Definition essence_payload (e : RegularEssence) : option Payload := let 'mkRegularEssence _ _ p := e in p.
Definition milestone_essence (m : MilestonePayload) : MilestonePayloadEssence := let 'mkMilestonePayload e _ := m in e.
Definition milestone_signatures (m : MilestonePayload) : list bytes := let 'mkMilestonePayload _ s := m in s.
Definition essence_index (e : MilestonePayloadEssence) : MilestoneIndex :=
  let 'mkMilestonePayloadEssence i _ _ _ _ _ _ _ := e in i.
Definition essence_timestamp (e : MilestonePayloadEssence) : Z :=
  let 'mkMilestonePayloadEssence _ t _ _ _ _ _ _ := e in t.
Definition essence_parents (e : MilestonePayloadEssence) : Parents :=
  let 'mkMilestonePayloadEssence _ _ p _ _ _ _ _ := e in p.
Definition essence_merkle_proof (e : MilestonePayloadEssence) : bytes :=
  let 'mkMilestonePayloadEssence _ _ _ m _ _ _ _ := e in m.
Definition essence_next_pow_score (e : MilestonePayloadEssence) : Z :=
  let 'mkMilestonePayloadEssence _ _ _ _ n _ _ _ := e in n.
Definition essence_next_pow_score_milestone_index (e : MilestonePayloadEssence) : Z :=
  let 'mkMilestonePayloadEssence _ _ _ _ _ n _ _ := e in n.
Definition essence_public_keys (e : MilestonePayloadEssence) : list bytes :=
  let 'mkMilestonePayloadEssence _ _ _ _ _ _ k _ := e in k.
Definition essence_receipt (e : MilestonePayloadEssence) : option Payload :=
  let 'mkMilestonePayloadEssence _ _ _ _ _ _ _ r := e in r.
Definition receipt_migrated_at (r : ReceiptPayload) : MilestoneIndex := let 'mkReceiptPayload m _ _ _ := r in m.
Definition receipt_last (r : ReceiptPayload) : bool := let 'mkReceiptPayload _ l _ _ := r in l.
Definition receipt_funds (r : ReceiptPayload) : list MigratedFundsEntry := let 'mkReceiptPayload _ _ f _ := r in f.
Definition receipt_transaction (r : ReceiptPayload) : Payload := let 'mkReceiptPayload _ _ _ t := r in t.

(** ** Operations *)

(** *** Validating constructors *)

Definition IndexationPayload_new (index data : bytes) : result MessageError IndexationPayload :=
  let? _ := ensure (indexation_index_length_range (len index)) (InvalidIndexationIndexLength (len index)) in
  let? _ := ensure (len data <=? MESSAGE_LENGTH_MAX) (InvalidIndexationDataLength (len data)) in
  Ok (mkIndexationPayload index data).

Definition padded_index (self : IndexationPayload) : PaddedIndex :=
  PaddedIndex_new
    (indexation_index self
     ++ drop (length (indexation_index self)) (repeat Byte.x00 (Z.to_nat INDEXATION_PADDED_INDEX_LENGTH))).

Definition TreasuryTransactionPayload_new (input : Input) (output : Output)
    : result MessageError TreasuryTransactionPayload :=
  let? _ := ensure (match input with Input_Treasury _ => true | _ => false end)
              (InvalidInputKind (Input_kind input)) in
  let? _ := ensure (match output with Output_Treasury _ => true | _ => false end)
              (InvalidOutputKind (Output_kind output)) in
  Ok (mkTreasuryTransactionPayload input output).

(** [cast_slice] between [u8] and [i8]. *)
Definition cast_i8 (bs : bytes) : list Z := (fun b => as_i 8 (u8_of_byte b)) <$> bs.
Definition cast_u8 (l : list Z) : bytes := (fun x => byte_of_u8 (as_u 8 x)) <$> l.

Definition TailTransactionHash_try_from (bs : bytes) : result MessageError TailTransactionHash :=
  let? trits := ok_or (try_from_raw 5 121 (cast_i8 bs) TAIL_TRANSACTION_HASH_TRITS) InvalidTailTransactionHash in
  let? buf := ok_or (to_buf 5 121 trits) Panic in
  Ok (mkTailTransactionHash buf).

Definition TailTransactionHash_as_ref (self : TailTransactionHash) : bytes :=
  cast_u8 (as_i8_slice 5 (tail_transaction_hash_buf self)).

Definition MigratedFundsEntry_new (h : TailTransactionHash) (output : SignatureLockedSingleOutput)
    : result MessageError MigratedFundsEntry :=
  let? _ := ensure (range_contains DUST_THRESHOLD IOTA_SUPPLY (single_amount output))
              (InvalidMigratedFundsEntryAmount (single_amount output)) in
  Ok (mkMigratedFundsEntry h output).

(** The loop of [ReceiptPayload::new] over the tail transaction hashes. *)
Fixpoint tail_transaction_hashes_check (tail_transaction_hashes : gmap bytes Z) (index : Z)
    (funds : list MigratedFundsEntry) : result MessageError unit :=
  match funds with
  | [] => Ok tt
  | f :: funds =>
      let h := TailTransactionHash_as_ref (tail_transaction_hash f) in
      match tail_transaction_hashes !! h with
      | Some previous => Err (TailTransactionHashNotUnique previous index)
      | None => tail_transaction_hashes_check (<[h := index]> tail_transaction_hashes) (index + 1) funds
      end
  end.

Definition TailTransactionHash_packable : Packable MessageError TailTransactionHash := {|
  packed_len _ := TAIL_TRANSACTION_HASH_LEN;
  pack self := TailTransactionHash_as_ref self;
  unpack_inner CHECK :=
    let! bs := unpack_inner (array_packable TAIL_TRANSACTION_HASH_LEN) CHECK in
    rlift (TailTransactionHash_try_from bs);
|}.

Definition MigratedFundsEntry_packable : Packable MessageError MigratedFundsEntry := {|
  packed_len self :=
    packed_len TailTransactionHash_packable (tail_transaction_hash self)
    + packed_len SignatureLockedSingleOutput_packable (migrated_output self);
  pack self :=
    pack TailTransactionHash_packable (tail_transaction_hash self)
    ++ pack SignatureLockedSingleOutput_packable (migrated_output self);
  unpack_inner CHECK :=
    let! h := unpack_inner TailTransactionHash_packable CHECK in
    let! output := unpack_inner SignatureLockedSingleOutput_packable CHECK in
    rlift (MigratedFundsEntry_new h output);
|}.

Definition migrated_funds_entry_range (n : Z) : bool := input_output_count_range n.

Definition ReceiptPayload_new `{IteratorSorted} (migrated_at : MilestoneIndex) (last : bool)
    (funds : list MigratedFundsEntry) (transaction : Payload) : result MessageError ReceiptPayload :=
  let? _ := ensure (migrated_funds_entry_range (len funds)) (InvalidReceiptFundsCount (len funds)) in
  let? _ := ensure (match transaction with Payload_TreasuryTransaction _ => true | _ => false end)
              (InvalidPayloadKind (Payload_kind transaction)) in
  let? _ := ensure (is_unique_sorted (pack_new MigratedFundsEntry_packable <$> funds))
              TransactionOutputsNotSorted in
  let? _ := tail_transaction_hashes_check ∅ 0 funds in
  Ok (mkReceiptPayload migrated_at last funds transaction).

(** [amount]: the sum of the migrated amounts in [u64] arithmetic. *)
Definition ReceiptPayload_amount (self : ReceiptPayload) : Z :=
  foldl (fun acc funds => as_u 64 (acc + single_amount (migrated_output funds))) 0 (receipt_funds self).

(** *** Regular essence *)

Record RegularEssenceBuilder := mkRegularEssenceBuilder {
  builder_inputs : list Input;
  builder_outputs : list Output;
  builder_payload : option Payload;
}.

Definition RegularEssenceBuilder_new : RegularEssenceBuilder := mkRegularEssenceBuilder [] [] None.
Definition with_inputs (self : RegularEssenceBuilder) (inputs : list Input) : RegularEssenceBuilder :=
  mkRegularEssenceBuilder inputs (builder_outputs self) (builder_payload self).
Definition add_input (self : RegularEssenceBuilder) (input : Input) : RegularEssenceBuilder :=
  mkRegularEssenceBuilder (builder_inputs self ++ [input]) (builder_outputs self) (builder_payload self).
Definition with_outputs (self : RegularEssenceBuilder) (outputs : list Output) : RegularEssenceBuilder :=
  mkRegularEssenceBuilder (builder_inputs self) outputs (builder_payload self).
Definition add_output (self : RegularEssenceBuilder) (output : Output) : RegularEssenceBuilder :=
  mkRegularEssenceBuilder (builder_inputs self) (builder_outputs self ++ [output]) (builder_payload self).
Definition with_payload (self : RegularEssenceBuilder) (payload : Payload) : RegularEssenceBuilder :=
  mkRegularEssenceBuilder (builder_inputs self) (builder_outputs self) (Some payload).

(** The loop of [finish] over the inputs. *)
Fixpoint finish_inputs (inputs l : list Input) : result MessageError unit :=
  match l with
  | [] => Ok tt
  | input :: l =>
      match input with
      | Input_Utxo u =>
          if 1 <? len (filter (fun i => i = input) inputs) then Err (DuplicateUtxo u)
          else finish_inputs inputs l
      | _ => Err (InvalidInputKind (Input_kind input))
      end
  end.

Definition single_at (a : Address) (o : Output) : bool :=
  match o with Output_SignatureLockedSingle s => bool_decide (single_address s = a) | _ => false end.
Definition dust_allowance_at (a : Address) (o : Output) : bool :=
  match o with Output_SignatureLockedDustAllowance s => bool_decide (dust_address s = a) | _ => false end.

(** The loop of [finish] over the outputs; [total] is the accumulated amount. *)
Fixpoint finish_outputs (outputs l : list Output) (total : Z) : result MessageError unit :=
  match l with
  | [] => Ok tt
  | output :: l =>
      let? total :=
        match output with
        | Output_SignatureLockedSingle single =>
            let? _ := ensure (len (filter (single_at (single_address single)) outputs) <=? 1)
                        (DuplicateAddress (single_address single)) in
            ok_or (u_checked_add 64 total (single_amount single))
              (InvalidAccumulatedOutput (as_u 64 (total + single_amount single)))
        | Output_SignatureLockedDustAllowance dust_allowance =>
            let? _ := ensure (len (filter (dust_allowance_at (dust_address dust_allowance)) outputs) <=? 1)
                        (DuplicateAddress (dust_address dust_allowance)) in
            ok_or (u_checked_add 64 total (dust_amount dust_allowance))
              (InvalidAccumulatedOutput (total + dust_amount dust_allowance))
        | _ => Err (InvalidOutputKind (Output_kind output))
        end in
      if IOTA_SUPPLY <? total then Err (InvalidAccumulatedOutput total)
      else finish_outputs outputs l total
  end.

Definition RegularEssenceBuilder_finish `{IteratorSorted} (self : RegularEssenceBuilder)
    : result MessageError RegularEssence :=
  let inputs := builder_inputs self in
  let outputs := builder_outputs self in
  let? _ := ensure (input_output_count_range (len inputs)) (InvalidInputOutputCount (len inputs)) in
  let? _ := ensure (input_output_count_range (len outputs)) (InvalidInputOutputCount (len outputs)) in
  let? _ := match builder_payload self with
            | None | Some (Payload_Indexation _) => Ok tt
            | Some payload => Err (InvalidPayloadKind (Payload_kind payload))
            end in
  let? _ := finish_inputs inputs inputs in
  let? _ := ensure (is_sorted (pack_new Input_packable <$> inputs)) TransactionInputsNotSorted in
  let? _ := finish_outputs outputs outputs 0 in
  let? _ := ensure (is_sorted (pack_new Output_packable <$> outputs)) TransactionOutputsNotSorted in
  Ok (mkRegularEssence inputs outputs (builder_payload self)).

(** *** Transaction *)

Record TransactionPayloadBuilder := mkTransactionPayloadBuilder {
  builder_essence : option Essence;
  builder_unlock_blocks : option UnlockBlocks;
}.

Definition TransactionPayloadBuilder_new : TransactionPayloadBuilder := mkTransactionPayloadBuilder None None.
Definition with_essence (self : TransactionPayloadBuilder) (essence : Essence) : TransactionPayloadBuilder :=
  mkTransactionPayloadBuilder (Some essence) (builder_unlock_blocks self).
Definition with_unlock_blocks (self : TransactionPayloadBuilder) (u : UnlockBlocks) : TransactionPayloadBuilder :=
  mkTransactionPayloadBuilder (builder_essence self) (Some u).

Definition TransactionPayloadBuilder_finish (self : TransactionPayloadBuilder)
    : result MessageError TransactionPayload :=
  let? essence := ok_or (builder_essence self) (MissingField "essence") in
  let? unlock_blocks := ok_or (builder_unlock_blocks self) (MissingField "unlock_blocks") in
  let 'Essence_Regular regular := essence in
  let? _ := ensure (len (essence_inputs regular) =? len (unlock_blocks_inner unlock_blocks))
              (InputUnlockBlockCountMismatch (len (essence_inputs regular)) (len (unlock_blocks_inner unlock_blocks))) in
  Ok (mkTransactionPayload essence unlock_blocks).

(** *** Milestone *)

Definition MILESTONE_MERKLE_PROOF_LENGTH : Z := 32.
Definition MILESTONE_PUBLIC_KEY_LENGTH : Z := 32.
Definition MILESTONE_SIGNATURE_LENGTH : Z := 64.
Definition milestone_public_key_count_range (n : Z) : bool := range_contains 1 255 n.
Definition milestone_signature_count_range (n : Z) : bool := range_contains 1 255 n.

Definition MilestonePayloadEssence_new `{IteratorSorted} (index : MilestoneIndex) (timestamp : Z)
    (parents : Parents) (merkle_proof : bytes) (next_pow_score next_pow_score_milestone_index : Z)
    (public_keys : list bytes) (receipt : option Payload) : result MessageError MilestonePayloadEssence :=
  let? _ := ensure (negb ((next_pow_score =? 0) && negb (next_pow_score_milestone_index =? 0)
                          || negb (next_pow_score =? 0)
                             && (next_pow_score_milestone_index <=? milestone_index index)))
              (InvalidPowScoreValues next_pow_score next_pow_score_milestone_index) in
  let? _ := ensure (milestone_public_key_count_range (len public_keys))
              (MilestoneInvalidPublicKeyCount (len public_keys)) in
  let? _ := ensure (is_unique_sorted public_keys) MilestonePublicKeysNotUniqueSorted in
  let? _ := match receipt with
            | None | Some (Payload_Receipt _) => Ok tt
            | Some payload => Err (InvalidPayloadKind (Payload_kind payload))
            end in
  Ok (mkMilestonePayloadEssence index timestamp parents merkle_proof next_pow_score
        next_pow_score_milestone_index public_keys receipt).

Definition MilestonePayload_new (essence : MilestonePayloadEssence) (signatures : list bytes)
    : result MessageError MilestonePayload :=
  let? _ := ensure (milestone_signature_count_range (len signatures))
              (MilestoneInvalidSignatureCount (len signatures)) in
  let? _ := ensure (len (essence_public_keys essence) =? len signatures)
              (MilestonePublicKeysSignaturesCountMismatch (len (essence_public_keys essence)) (len signatures)) in
  Ok (mkMilestonePayload essence signatures).

(** *** Packable *)

Definition IndexationPayload_packable : Packable MessageError IndexationPayload := {|
  packed_len self :=
    packed_len u16 0 + len (indexation_index self) + packed_len u32 0 + len (indexation_data self);
  pack self :=
    pack u16 (as_u 16 (len (indexation_index self))) ++ indexation_index self
    ++ pack u32 (as_u 32 (len (indexation_data self))) ++ indexation_data self;
  unpack_inner CHECK :=
    let! index_len := unpack_inner u16 CHECK in
    let! _ := rensure (negb (CHECK && negb (indexation_index_length_range index_len)))
                (InvalidIndexationIndexLength index_len) in
    let! index := read_exact index_len in
    let! data_len := unpack_inner u32 CHECK in
    let! _ := rensure (negb (CHECK && (MESSAGE_LENGTH_MAX <? data_len))) (InvalidIndexationDataLength data_len) in
    let! data := read_exact data_len in
    rret (mkIndexationPayload index data);
|}.

Definition TreasuryTransactionPayload_packable : Packable MessageError TreasuryTransactionPayload := {|
  packed_len self :=
    packed_len Input_packable (treasury_input self) + packed_len Output_packable (treasury_output self);
  pack self := pack Input_packable (treasury_input self) ++ pack Output_packable (treasury_output self);
  unpack_inner CHECK :=
    let! input := unpack_inner Input_packable CHECK in
    let! output := unpack_inner Output_packable CHECK in
    rlift (TreasuryTransactionPayload_new input output);
|}.

Section composite.
Context `{IteratorSorted} (P : Packable MessageError Payload).

Definition option_payload_packed_len (payload : option Payload) : Z :=
  packed_len u32 0 + match payload with Some payload => packed_len P payload | None => 0 end.

Definition option_payload_pack (payload : option Payload) : bytes :=
  match payload with
  | Some payload => pack u32 (as_u 32 (packed_len P payload)) ++ pack P payload
  | None => pack u32 0
  end.

Definition option_payload_unpack (CHECK : bool) : reader MessageError (Z * option Payload) :=
  let! payload_len := unpack_inner u32 CHECK in
  if 0 <? payload_len then
    let! payload := unpack_inner P CHECK in
    if payload_len =? packed_len P payload then rret (payload_len, Some payload)
    else rfail (InvalidPayloadLength payload_len (packed_len P payload))
  else rret (0, None).

Definition ReceiptPayload_packable : Packable MessageError ReceiptPayload := {|
  packed_len self :=
    packed_len MilestoneIndex_packable (receipt_migrated_at self)
    + packed_len bool_packable (receipt_last self)
    + packed_len u16 0
    + packed_len_all MigratedFundsEntry_packable (receipt_funds self)
    + option_payload_packed_len (Some (receipt_transaction self));
  pack self :=
    pack MilestoneIndex_packable (receipt_migrated_at self)
    ++ pack bool_packable (receipt_last self)
    ++ pack u16 (as_u 16 (len (receipt_funds self)))
    ++ pack_all MigratedFundsEntry_packable (receipt_funds self)
    ++ option_payload_pack (Some (receipt_transaction self));
  unpack_inner CHECK :=
    let! migrated_at := unpack_inner MilestoneIndex_packable CHECK in
    let! last := unpack_inner bool_packable CHECK in
    let! funds_len := unpack_inner u16 CHECK in
    let! funds := unpack_n MigratedFundsEntry_packable CHECK (Z.to_nat funds_len) in
    let! transaction := option_payload_unpack CHECK in
    let! transaction := rlift (ok_or transaction.2 MissingPayload) in
    rlift (ReceiptPayload_new migrated_at last funds transaction);
|}.

Definition MilestonePayloadEssence_packable : Packable MessageError MilestonePayloadEssence := {|
  packed_len self :=
    packed_len MilestoneIndex_packable (essence_index self)
    + packed_len u64 (essence_timestamp self)
    + packed_len Parents_packable (essence_parents self)
    + MILESTONE_MERKLE_PROOF_LENGTH
    + packed_len u32 (essence_next_pow_score self)
    + packed_len u32 (essence_next_pow_score_milestone_index self)
    + packed_len u8 0
    + len (essence_public_keys self) * MILESTONE_PUBLIC_KEY_LENGTH
    + option_payload_packed_len (essence_receipt self);
  pack self :=
    pack MilestoneIndex_packable (essence_index self)
    ++ pack u64 (essence_timestamp self)
    ++ pack Parents_packable (essence_parents self)
    ++ pack (array_packable MILESTONE_MERKLE_PROOF_LENGTH) (essence_merkle_proof self)
    ++ pack u32 (essence_next_pow_score self)
    ++ pack u32 (essence_next_pow_score_milestone_index self)
    ++ pack u8 (as_u 8 (len (essence_public_keys self)))
    ++ pack_all (array_packable MILESTONE_PUBLIC_KEY_LENGTH) (essence_public_keys self)
    ++ option_payload_pack (essence_receipt self);
  unpack_inner CHECK :=
    let! index := unpack_inner MilestoneIndex_packable CHECK in
    let! timestamp := unpack_inner u64 CHECK in
    let! parents := unpack_inner Parents_packable CHECK in
    let! merkle_proof := unpack_inner (array_packable MILESTONE_MERKLE_PROOF_LENGTH) CHECK in
    let! next_pow_score := unpack_inner u32 CHECK in
    let! next_pow_score_milestone_index := unpack_inner u32 CHECK in
    let! public_keys_len := unpack_inner u8 CHECK in
    let! public_keys := unpack_n (array_packable MILESTONE_PUBLIC_KEY_LENGTH) CHECK (Z.to_nat public_keys_len) in
    let! receipt := option_payload_unpack CHECK in
    rlift (MilestonePayloadEssence_new index timestamp parents merkle_proof next_pow_score
             next_pow_score_milestone_index public_keys receipt.2);
|}.

Definition MilestonePayload_packable : Packable MessageError MilestonePayload := {|
  packed_len self :=
    packed_len MilestonePayloadEssence_packable (milestone_essence self)
    + packed_len u8 0
    + len (milestone_signatures self) * MILESTONE_SIGNATURE_LENGTH;
  pack self :=
    pack MilestonePayloadEssence_packable (milestone_essence self)
    ++ pack u8 (as_u 8 (len (milestone_signatures self)))
    ++ pack_all (array_packable MILESTONE_SIGNATURE_LENGTH) (milestone_signatures self);
  unpack_inner CHECK :=
    let! essence := unpack_inner MilestonePayloadEssence_packable CHECK in
    let! signatures_len := unpack_inner u8 CHECK in
    let! signatures := unpack_n (array_packable MILESTONE_SIGNATURE_LENGTH) CHECK (Z.to_nat signatures_len) in
    rlift (MilestonePayload_new essence signatures);
|}.

Definition RegularEssence_packable : Packable MessageError RegularEssence := {|
  packed_len self :=
    packed_len u16 0 + packed_len_all Input_packable (essence_inputs self)
    + packed_len u16 0 + packed_len_all Output_packable (essence_outputs self)
    + option_payload_packed_len (essence_payload self);
  pack self :=
    pack u16 (as_u 16 (len (essence_inputs self))) ++ pack_all Input_packable (essence_inputs self)
    ++ pack u16 (as_u 16 (len (essence_outputs self))) ++ pack_all Output_packable (essence_outputs self)
    ++ option_payload_pack (essence_payload self);
  unpack_inner CHECK :=
    let! inputs_len := unpack_inner u16 CHECK in
    let! _ := rensure (negb (CHECK && negb (input_output_count_range inputs_len)))
                (InvalidInputOutputCount inputs_len) in
    let! inputs := unpack_n Input_packable CHECK (Z.to_nat inputs_len) in
    let! outputs_len := unpack_inner u16 CHECK in
    let! _ := rensure (negb (CHECK && negb (input_output_count_range outputs_len)))
                (InvalidInputOutputCount outputs_len) in
    let! outputs := unpack_n Output_packable CHECK (Z.to_nat outputs_len) in
    let builder := with_outputs (with_inputs RegularEssenceBuilder_new inputs) outputs in
    let! payload := option_payload_unpack CHECK in
    let builder := match payload.2 with Some payload => with_payload builder payload | None => builder end in
    rlift (RegularEssenceBuilder_finish builder);
|}.

Definition Essence_packable : Packable MessageError Essence := {|
  packed_len self :=
    match self with
    | Essence_Regular essence => packed_len u8 RegularEssence_KIND + packed_len RegularEssence_packable essence
    end;
  pack self :=
    match self with
    | Essence_Regular essence => pack u8 RegularEssence_KIND ++ pack RegularEssence_packable essence
    end;
  unpack_inner CHECK :=
    let! k := unpack_inner u8 CHECK in
    if k =? RegularEssence_KIND then
      let! essence := unpack_inner RegularEssence_packable CHECK in rret (Essence_Regular essence)
    else rfail (InvalidEssenceKind k);
|}.

Definition TransactionPayload_packable : Packable MessageError TransactionPayload := {|
  packed_len self :=
    packed_len Essence_packable (transaction_essence self) + packed_len UnlockBlocks_packable (unlock_blocks self);
  pack self :=
    pack Essence_packable (transaction_essence self) ++ pack UnlockBlocks_packable (unlock_blocks self);
  unpack_inner CHECK :=
    let! essence := unpack_inner Essence_packable CHECK in
    let! unlock_blocks := unpack_inner UnlockBlocks_packable CHECK in
    rlift (TransactionPayloadBuilder_finish
             (with_unlock_blocks (with_essence TransactionPayloadBuilder_new essence) unlock_blocks));
|}.

(** [impl Packable for Payload] with recursive calls to [P]. *)
Definition Payload_step : Packable MessageError Payload := {|
  packed_len self :=
    match self with
    | Payload_Transaction p => packed_len u32 TransactionPayload_KIND + packed_len TransactionPayload_packable p
    | Payload_Milestone p => packed_len u32 MilestonePayload_KIND + packed_len MilestonePayload_packable p
    | Payload_Indexation p => packed_len u32 IndexationPayload_KIND + packed_len IndexationPayload_packable p
    | Payload_Receipt p => packed_len u32 ReceiptPayload_KIND + packed_len ReceiptPayload_packable p
    | Payload_TreasuryTransaction p =>
        packed_len u32 TreasuryTransactionPayload_KIND + packed_len TreasuryTransactionPayload_packable p
    end;
  pack self :=
    match self with
    | Payload_Transaction p => pack u32 TransactionPayload_KIND ++ pack TransactionPayload_packable p
    | Payload_Milestone p => pack u32 MilestonePayload_KIND ++ pack MilestonePayload_packable p
    | Payload_Indexation p => pack u32 IndexationPayload_KIND ++ pack IndexationPayload_packable p
    | Payload_Receipt p => pack u32 ReceiptPayload_KIND ++ pack ReceiptPayload_packable p
    | Payload_TreasuryTransaction p =>
        pack u32 TreasuryTransactionPayload_KIND ++ pack TreasuryTransactionPayload_packable p
    end;
  unpack_inner CHECK :=
    let! k := unpack_inner u32 CHECK in
    if k =? TransactionPayload_KIND then
      let! p := unpack_inner TransactionPayload_packable CHECK in rret (Payload_Transaction p)
    else if k =? MilestonePayload_KIND then
      let! p := unpack_inner MilestonePayload_packable CHECK in rret (Payload_Milestone p)
    else if k =? IndexationPayload_KIND then
      let! p := unpack_inner IndexationPayload_packable CHECK in rret (Payload_Indexation p)
    else if k =? ReceiptPayload_KIND then
      let! p := unpack_inner ReceiptPayload_packable CHECK in rret (Payload_Receipt p)
    else if k =? TreasuryTransactionPayload_KIND then
      let! p := unpack_inner TreasuryTransactionPayload_packable CHECK in rret (Payload_TreasuryTransaction p)
    else rfail (InvalidPayloadKind k);
|}.
End composite.

Section recursion.
Context `{IteratorSorted}.

(** The encoder recurses on the value. *)
Fixpoint Payload_packed_len (p : Payload) : Z :=
  packed_len (Payload_step {|
    packed_len := Payload_packed_len; pack _ := []; unpack_inner _ := rfail FuelExhausted |}) p.

Fixpoint Payload_pack (p : Payload) : bytes :=
  pack (Payload_step {|
    packed_len := Payload_packed_len; pack := Payload_pack; unpack_inner _ := rfail FuelExhausted |}) p.

(** The decoder recurses on the input; [fuel] bounds the nesting of payloads. *)
Fixpoint Payload_unpack (fuel : nat) (CHECK : bool) : reader MessageError Payload :=
  match fuel with
  | O => rfail FuelExhausted
  | S fuel =>
      unpack_inner (Payload_step {|
        packed_len := Payload_packed_len; pack := Payload_pack; unpack_inner := Payload_unpack fuel |}) CHECK
  end.

(** A payload starts with the four bytes of its kind, so its nesting is less than the length of the input. *)
Definition Payload_packable : Packable MessageError Payload := {|
  packed_len := Payload_packed_len;
  pack := Payload_pack;
  unpack_inner CHECK bs := Payload_unpack (S (length bs)) CHECK bs;
|}.
End recursion.

(** *** Identifiers and signatures *)

Definition TransactionPayload_id `{IteratorSorted} `{Crypto} (self : TransactionPayload) : TransactionId :=
  TransactionId_new
    (blake2b256 (to_le_bytes 4 TransactionPayload_KIND
                 ++ pack_new (TransactionPayload_packable Payload_packable) self)).

Definition MilestonePayload_id `{IteratorSorted} `{Crypto} (self : MilestonePayload) : MilestoneId :=
  MilestoneId_new
    (blake2b256 (to_le_bytes 4 MilestonePayload_KIND
                 ++ pack_new (MilestonePayload_packable Payload_packable) self)).

Definition Essence_hash `{IteratorSorted} `{Crypto} (self : Essence) : bytes :=
  blake2b256 (pack_new (Essence_packable Payload_packable) self).

Definition MilestonePayloadEssence_hash `{IteratorSorted} `{Crypto} (self : MilestonePayloadEssence) : bytes :=
  blake2b256 (pack_new (MilestonePayloadEssence_packable Payload_packable) self).

Inductive MilestoneValidationError :=
| InvalidMinThreshold
| TooFewSignatures (min_threshold signatures : Z)
| InsufficientApplicablePublicKeys (keys min_threshold : Z)
| UnapplicablePublicKey (key : string)
| InvalidMilestoneSignature (index : Z) (key : string)
| MilestoneCrypto (e : string).

(** The loop of [validate] over the public keys and their signatures. *)
Fixpoint validate_signatures `{Crypto} `{Hex} (applicable_public_keys : list string) (essence_hash : bytes)
    (index : Z) (l : list (bytes * bytes)) : result MilestoneValidationError unit :=
  match l with
  | [] => Ok tt
  | (public_key, signature) :: l =>
      let? _ := ensure (bool_decide (hex_encode public_key ∈ applicable_public_keys))
                  (UnapplicablePublicKey (hex_encode public_key)) in
      let? ed25519_public_key := map_err MilestoneCrypto (public_key_try_from_bytes public_key) in
      let? _ := ensure (public_key_verify ed25519_public_key signature essence_hash)
                  (InvalidMilestoneSignature index (hex_encode public_key)) in
      validate_signatures applicable_public_keys essence_hash (index + 1) l
  end.

Definition MilestonePayload_validate `{IteratorSorted} `{Crypto} `{Hex} (self : MilestonePayload)
    (applicable_public_keys : list string) (min_threshold : Z) : result MilestoneValidationError unit :=
  let? _ := ensure (negb (min_threshold =? 0)) InvalidMinThreshold in
  let? _ := ensure (min_threshold <=? len applicable_public_keys)
              (InsufficientApplicablePublicKeys (len applicable_public_keys) min_threshold) in
  let? _ := ensure (min_threshold <=? len (milestone_signatures self))
              (TooFewSignatures min_threshold (len (milestone_signatures self))) in
  validate_signatures applicable_public_keys (MilestonePayloadEssence_hash (milestone_essence self)) 0
    (zip (essence_public_keys (milestone_essence self)) (milestone_signatures self)).

(** ** Well-formed payloads *)

Definition wf_IndexationPayload (i : IndexationPayload) : Prop :=
  1 <= len (indexation_index i) <= INDEXATION_PADDED_INDEX_LENGTH
  /\ len (indexation_data i) <= MESSAGE_LENGTH_MAX.

Definition is_treasury_input (i : Input) : Prop := match i with Input_Treasury _ => True | _ => False end.
Definition is_treasury_output (o : Output) : Prop := match o with Output_Treasury _ => True | _ => False end.

Definition wf_TreasuryTransactionPayload (t : TreasuryTransactionPayload) : Prop :=
  wf_Input (treasury_input t) /\ wf_Output (treasury_output t)
  /\ is_treasury_input (treasury_input t) /\ is_treasury_output (treasury_output t).

(** A tail transaction hash holds 243 trits, packed by [push]. *)
Definition wf_TailTransactionHash (h : TailTransactionHash) : Prop :=
  exists l, length l = TAIL_TRANSACTION_HASH_TRITS /\ tail_transaction_hash_buf h = from_trits 5 121 l.

Definition wf_MigratedFundsEntry (f : MigratedFundsEntry) : Prop :=
  wf_TailTransactionHash (tail_transaction_hash f) /\ wf_Single (migrated_output f)
  /\ DUST_THRESHOLD <= single_amount (migrated_output f) <= IOTA_SUPPLY.

Definition receipt_hashes (funds : list MigratedFundsEntry) : list bytes :=
  (fun f => TailTransactionHash_as_ref (tail_transaction_hash f)) <$> funds.

(** What the protocol asks of a receipt. *)
Definition receipt_spec (funds : list MigratedFundsEntry) (transaction : Payload) : Prop :=
  1 <= len funds <= INPUT_OUTPUT_COUNT_MAX
  /\ (exists t, transaction = Payload_TreasuryTransaction t)
  /\ Sorted lex_lt (pack_new MigratedFundsEntry_packable <$> funds)
  /\ NoDup (receipt_hashes funds).

Definition is_utxo (i : Input) : Prop := match i with Input_Utxo _ => True | _ => False end.
Definition single_address_of (o : Output) : option Address :=
  match o with Output_SignatureLockedSingle s => Some (single_address s) | _ => None end.
Definition dust_address_of (o : Output) : option Address :=
  match o with Output_SignatureLockedDustAllowance s => Some (dust_address s) | _ => None end.
Definition output_amount (o : Output) : Z :=
  match o with
  | Output_SignatureLockedSingle s => single_amount s
  | Output_SignatureLockedDustAllowance s => dust_amount s
  | Output_Treasury t => treasury_amount t
  end.

(** What the protocol asks of the essence of a transaction: the counts, unspent transaction outputs as
    inputs without duplicates, at most one output of each kind per address, no more than the supply,
    both lists sorted, and at most an indexation payload. *)
Definition essence_spec (inputs : list Input) (outputs : list Output) (payload : option Payload) : Prop :=
  1 <= len inputs <= INPUT_OUTPUT_COUNT_MAX
  /\ 1 <= len outputs <= INPUT_OUTPUT_COUNT_MAX
  /\ (payload = None \/ exists i, payload = Some (Payload_Indexation i))
  /\ Forall is_utxo inputs /\ NoDup inputs
  /\ Sorted lex_le (pack_new Input_packable <$> inputs)
  /\ Forall (fun o => ~ is_treasury_output o) outputs
  /\ NoDup (omap single_address_of outputs) /\ NoDup (omap dust_address_of outputs)
  /\ sum_Z output_amount outputs <= IOTA_SUPPLY
  /\ Sorted lex_le (pack_new Output_packable <$> outputs).

(** What the protocol asks of the essence of a milestone. *)
Definition milestone_essence_spec (index : MilestoneIndex) (next_pow_score next_pow_score_milestone_index : Z)
    (public_keys : list bytes) (receipt : option Payload) : Prop :=
  (next_pow_score = 0 -> next_pow_score_milestone_index = 0)
  /\ (next_pow_score <> 0 -> milestone_index index < next_pow_score_milestone_index)
  /\ 1 <= len public_keys <= 255 /\ Sorted lex_lt public_keys
  /\ (receipt = None \/ exists r, receipt = Some (Payload_Receipt r)).

Section wf.
(** [wfP] are the payloads that may be nested. *)
Context (wfP : Payload -> Prop).

Definition wf_option_payload (o : option Payload) : Prop := match o with Some p => wfP p | None => True end.

Definition wf_ReceiptPayload (r : ReceiptPayload) : Prop :=
  wf_MilestoneIndex (receipt_migrated_at r) /\ Forall wf_MigratedFundsEntry (receipt_funds r)
  /\ receipt_spec (receipt_funds r) (receipt_transaction r) /\ wfP (receipt_transaction r).

Definition wf_RegularEssence (e : RegularEssence) : Prop :=
  Forall wf_Input (essence_inputs e) /\ Forall wf_Output (essence_outputs e)
  /\ essence_spec (essence_inputs e) (essence_outputs e) (essence_payload e)
  /\ wf_option_payload (essence_payload e).

Definition wf_Essence (e : Essence) : Prop := wf_RegularEssence (regular_essence e).

Definition wf_TransactionPayload (t : TransactionPayload) : Prop :=
  wf_Essence (transaction_essence t) /\ wf_UnlockBlocks (unlock_blocks t)
  /\ len (essence_inputs (regular_essence (transaction_essence t))) = len (unlock_blocks_inner (unlock_blocks t)).

Definition wf_MilestonePayloadEssence (e : MilestonePayloadEssence) : Prop :=
  wf_MilestoneIndex (essence_index e) /\ fits 64 (essence_timestamp e) /\ wf_Parents (essence_parents e)
  /\ len (essence_merkle_proof e) = MILESTONE_MERKLE_PROOF_LENGTH
  /\ fits 32 (essence_next_pow_score e) /\ fits 32 (essence_next_pow_score_milestone_index e)
  /\ Forall (fun k => len k = MILESTONE_PUBLIC_KEY_LENGTH) (essence_public_keys e)
  /\ milestone_essence_spec (essence_index e) (essence_next_pow_score e)
       (essence_next_pow_score_milestone_index e) (essence_public_keys e) (essence_receipt e)
  /\ wf_option_payload (essence_receipt e).

Definition wf_MilestonePayload (m : MilestonePayload) : Prop :=
  wf_MilestonePayloadEssence (milestone_essence m)
  /\ Forall (fun s => len s = MILESTONE_SIGNATURE_LENGTH) (milestone_signatures m)
  /\ len (essence_public_keys (milestone_essence m)) = len (milestone_signatures m).

Definition wf_Payload_step (p : Payload) : Prop :=
  match p with
  | Payload_Transaction t => wf_TransactionPayload t
  | Payload_Milestone m => wf_MilestonePayload m
  | Payload_Indexation i => wf_IndexationPayload i
  | Payload_Receipt r => wf_ReceiptPayload r
  | Payload_TreasuryTransaction t => wf_TreasuryTransactionPayload t
  end.
End wf.

(** Payloads nest at most three deep: a milestone with a receipt with a treasury transaction. *)
Fixpoint wf_Payload_depth (n : nat) : Payload -> Prop :=
  match n with
  | O => fun _ => False
  | S n => wf_Payload_step (wf_Payload_depth n)
  end.

Definition wf_Payload : Payload -> Prop := wf_Payload_depth 3.

(** ** Constructors let exactly the well-formed values through *)

Lemma TreasuryTransactionPayload_new_Ok i o t :
  TreasuryTransactionPayload_new i o = Ok t
  <-> is_treasury_input i /\ is_treasury_output o /\ t = mkTreasuryTransactionPayload i o.
Proof.
  unfold TreasuryTransactionPayload_new. rewrite !ensure_bind_Ok, Ok_inj.
  destruct i, o; simpl; naive_solver.
Qed.

Lemma MigratedFundsEntry_new_Ok h o f :
  MigratedFundsEntry_new h o = Ok f
  <-> DUST_THRESHOLD <= single_amount o <= IOTA_SUPPLY /\ f = mkMigratedFundsEntry h o.
Proof. unfold MigratedFundsEntry_new. by rewrite ensure_bind_Ok, range_contains_spec, Ok_inj. Qed.

Lemma tail_transaction_hashes_check_Ok m i funds u :
  tail_transaction_hashes_check m i funds = Ok u
  <-> NoDup (receipt_hashes funds) /\ forall h, h ∈ receipt_hashes funds -> m !! h = None.
Proof.
  revert m i. induction funds as [|f funds IH]; intros m i; cbn.
  { destruct u. split; [|done]. intros _. split; [constructor | set_solver]. }
  case_match eqn:Hm.
  - split; [done|]. intros [_ Hn]. rewrite Hn in Hm; [done | by left].
  - rewrite IH, NoDup_cons. split.
    + intros [Hd Hn]. split; [split; [|done]|].
      * intros Hin. apply Hn in Hin. by rewrite lookup_insert_eq in Hin.
      * intros h [->|Hh]%elem_of_cons; [done|]. apply Hn in Hh. by apply lookup_insert_None in Hh as [? _].
    + intros [[Hf Hd] Hn]. split; [done|]. intros h Hh. apply lookup_insert_None. split; [|by intros <-].
      apply Hn. by right.
Qed.

Lemma ReceiptPayload_new_Ok `{IteratorSortedOk} m l funds t r :
  ReceiptPayload_new m l funds t = Ok r <-> receipt_spec funds t /\ r = mkReceiptPayload m l funds t.
Proof.
  unfold ReceiptPayload_new, migrated_funds_entry_range, input_output_count_range, receipt_spec.
  rewrite !ensure_bind_Ok, range_contains_spec, is_unique_sorted_ok, result_bind_Ok.
  setoid_rewrite tail_transaction_hashes_check_Ok. setoid_rewrite (@Ok_inj MessageError ReceiptPayload).
  split.
  - intros (? & Ht & ? & ? & [? _] & ->). destruct t; try done. repeat split; eauto; lia.
  - intros [(? & [t' ->] & ? & ?) ->]. repeat split; done || lia.
Qed.

(** *** Regular essence *)

Lemma finish_inputs_Ok inputs l u :
  finish_inputs inputs l = Ok u <-> Forall is_utxo l /\ Forall (fun x => len (filter (fun y => y = x) inputs) <= 1) l.
Proof.
  destruct u. induction l as [|[x|x] l IH]; cbn [finish_inputs].
  - split; [by split; constructor | done].
  - rewrite !Forall_cons. destruct (Z.ltb_spec 1 (len (filter (fun i => i = Input_Utxo x) inputs))).
    + split; [done|]. lia.
    + rewrite IH. cbn. intuition lia.
  - rewrite !Forall_cons. cbn. split; [done|]. tauto.
Qed.

(** The condition of one round of the loop over the outputs. *)
Definition output_ok (outputs : list Output) (o : Output) : Prop :=
  match o with
  | Output_SignatureLockedSingle s =>
      len (filter (fun y => single_address_of y = Some (single_address s)) outputs) <= 1
  | Output_SignatureLockedDustAllowance s =>
      len (filter (fun y => dust_address_of y = Some (dust_address s)) outputs) <= 1
  | Output_Treasury _ => False
  end.

Lemma single_at_spec a o : single_at a o <-> single_address_of o = Some a.
Proof. destruct o; cbn; rewrite ?bool_decide_spec; naive_solver. Qed.

Lemma dust_allowance_at_spec a o : dust_allowance_at a o <-> dust_address_of o = Some a.
Proof. destruct o; cbn; rewrite ?bool_decide_spec; naive_solver. Qed.

Lemma wf_output_amount o : wf_Output o -> 0 <= output_amount o <= IOTA_SUPPLY.
Proof. destruct o; intros H; cbn in *; unfold wf_Single, wf_DustAllowance, wf_TreasuryOutput, DUST_THRESHOLD in H; lia. Qed.

(** Accumulating the outputs never overflows: the amounts and the running total are at most the supply. *)
Lemma supply_no_overflow total x : total <= IOTA_SUPPLY -> x <= IOTA_SUPPLY -> u_checked_add 64 total x = Some (total + x).
Proof. intros. apply u_checked_add_Some. unfold IOTA_SUPPLY in *. lia. Qed.

Lemma finish_outputs_Ok outputs l total u :
  0 <= total <= IOTA_SUPPLY -> Forall wf_Output l ->
  finish_outputs outputs l total = Ok u
  <-> Forall (output_ok outputs) l /\ total + sum_Z output_amount l <= IOTA_SUPPLY.
Proof.
  intros Ht Hwf. revert total Ht. destruct u.
  induction Hwf as [|o l Ho Hwf IH]; intros total Ht; cbn [finish_outputs].
  { cbn. split; [intros _; split; [constructor | lia] | done]. }
  pose proof (wf_output_amount o Ho) as Ha. rewrite Forall_cons.
  assert (Hs : 0 <= sum_Z output_amount l).
  { apply sum_Z_nonneg. eapply Forall_impl; [exact Hwf|]. intros ? ?%wf_output_amount. lia. }
  rewrite sum_Z_cons.
  destruct o as [s|s|s]; cbn [output_amount output_ok] in *; [| |cbn; naive_solver].
  all: rewrite supply_no_overflow by lia; cbn [ok_or].
  all: first [rewrite (list_filter_iff _ _ _ (single_at_spec _))
             |rewrite (list_filter_iff _ _ _ (dust_allowance_at_spec _))].
  all: match goal with |- context [?a <=? 1] => destruct (Z.leb_spec a 1) end;
    cbn [ensure result_bind from From_refl]; [|split; [done|]; intros [[? _] _]; lia].
  all: match goal with |- context [IOTA_SUPPLY <? ?a] => destruct (Z.ltb_spec IOTA_SUPPLY a) end;
    [split; [done|]; intros [_ ?]; lia | rewrite IH by lia; intuition lia].
Qed.

Lemma output_ok_all outputs :
  Forall (output_ok outputs) outputs
  <-> Forall (fun o => ~ is_treasury_output o) outputs
      /\ NoDup (omap single_address_of outputs) /\ NoDup (omap dust_address_of outputs).
Proof.
  rewrite !NoDup_omap_count, !Forall_forall. split.
  - intros Ho. repeat split.
    + intros o Hin Ht. specialize (Ho o Hin). by destruct o.
    + intros o a Hin Ha. specialize (Ho o Hin). destruct o; simplify_eq/=. done.
    + intros o a Hin Ha. specialize (Ho o Hin). destruct o; simplify_eq/=. done.
  - intros (Ht & Hs & Hd) o Hin. destruct o; cbn.
    + by eapply Hs.
    + by eapply Hd.
    + by apply (Ht _ Hin).
Qed.

Lemma finish_Ok `{IteratorSortedOk} b e :
  Forall wf_Output (builder_outputs b) ->
  RegularEssenceBuilder_finish b = Ok e
  <-> essence_spec (builder_inputs b) (builder_outputs b) (builder_payload b)
      /\ e = mkRegularEssence (builder_inputs b) (builder_outputs b) (builder_payload b).
Proof.
  intros Hwf. unfold RegularEssenceBuilder_finish, input_output_count_range, essence_spec.
  rewrite !ensure_bind_Ok, !range_contains_spec, result_bind_Ok.
  setoid_rewrite result_bind_Ok. setoid_rewrite ensure_bind_Ok. setoid_rewrite result_bind_Ok.
  setoid_rewrite ensure_bind_Ok. setoid_rewrite finish_inputs_Ok.
  setoid_rewrite is_sorted_ok. setoid_rewrite (@Ok_inj MessageError RegularEssence).
  rewrite NoDup_count. split.
  - intros (Hi & Ho & [] & Hp & [] & [Hu Hd] & Hs & u & Hf & Hs' & ->).
    apply finish_outputs_Ok in Hf as [Hf Ht]; [|unfold IOTA_SUPPLY; lia|done].
    apply output_ok_all in Hf as (? & ? & ?). split; [|done]. repeat (split; [done|]).
    split; [by destruct (builder_payload b) as [[]|]; eauto|]. done.
  - intros [(Hi & Ho & Hp & Hu & Hd & Hs & Ht & Hd1 & Hd2 & Hsum & Hs') ->]. split; [done|]. split; [done|].
    exists tt. split; [by destruct Hp as [->|[? ->]]|]. exists tt. split; [done|]. split; [done|]. exists tt.
    split; [|done]. apply finish_outputs_Ok; [unfold IOTA_SUPPLY; lia|done|].
    split; [by apply output_ok_all | done].
Qed.

(** *** Receipts and milestones *)

Lemma foldl_sum {A} (f : A -> Z) l acc :
  0 <= acc -> Forall (fun a => 0 <= f a) l -> acc + sum_Z f l < 2 ^ 64 ->
  foldl (fun acc a => as_u 64 (acc + f a)) acc l = acc + sum_Z f l.
Proof.
  intros Hacc Hf. revert acc Hacc. induction Hf as [|a l Ha Hf IH]; intros acc Hacc Hs; cbn [foldl].
  - cbn. lia.
  - rewrite sum_Z_cons in *. pose proof (sum_Z_nonneg f l Hf). rewrite as_u_id by (unfold fits; lia).
    rewrite IH by lia. lia.
Qed.

(** What [validate] checks of one public key and its signature. *)
Definition signed_by `{Crypto} `{Hex} (applicable : list string) (hash : bytes) (public_key signature : bytes) : Prop :=
  hex_encode public_key ∈ applicable
  /\ exists k, public_key_try_from_bytes public_key = Ok k /\ public_key_verify k signature hash = true.

Lemma validate_signatures_Ok `{Crypto} `{Hex} keys hash i l u :
  validate_signatures keys hash i l = Ok u <-> Forall (fun p => signed_by keys hash p.1 p.2) l.
Proof.
  destruct u. revert i. induction l as [|[pk sg] l IH]; intros i; cbn [validate_signatures].
  { split; [constructor | done]. }
  rewrite ensure_bind_Ok, bool_decide_eq_true, Forall_cons. unfold signed_by at 1. cbn [fst snd].
  destruct (public_key_try_from_bytes pk) as [k|e]; cbn [map_err result_bind].
  - rewrite ensure_bind_Ok, IH. naive_solver.
  - naive_solver.
Qed.

(** ** Claims *)

(** [RegularEssenceBuilder::finish] accepts exactly the essences the protocol allows: the bounds on the counts,
    different unspent outputs as inputs, at most one output of each kind per address, a total of at most the supply,
    sorted inputs and outputs, and no payload but an indexation payload. *)
Theorem essence_finish_spec `{IteratorSortedOk} b :
  Forall wf_Output (builder_outputs b) ->
  match RegularEssenceBuilder_finish b with
  | Ok e =>
      essence_spec (builder_inputs b) (builder_outputs b) (builder_payload b)
      /\ e = mkRegularEssence (builder_inputs b) (builder_outputs b) (builder_payload b)
  | Err _ => ~ essence_spec (builder_inputs b) (builder_outputs b) (builder_payload b)
  end.
Proof.
  intros Hb. destruct (RegularEssenceBuilder_finish b) as [e|err] eqn:E.
  - by apply finish_Ok.
  - intros Hs. specialize (proj2 (finish_Ok b _ Hb) (conj Hs eq_refl)). by rewrite E.
Qed.

(** [ReceiptPayload::new] accepts exactly 1 to 127 entries, strictly sorted, of different tail transactions, with a
    treasury transaction; the amount of a receipt is the sum of its entries, without overflow. *)
Theorem receipt_new_spec `{IteratorSortedOk} migrated_at last funds transaction r :
  Forall wf_MigratedFundsEntry funds ->
  ReceiptPayload_new migrated_at last funds transaction = Ok r
  <-> receipt_spec funds transaction /\ r = mkReceiptPayload migrated_at last funds transaction
      /\ ReceiptPayload_amount r = sum_Z (fun f => single_amount (migrated_output f)) funds.
Proof.
  intros Hf. rewrite ReceiptPayload_new_Ok. split; [|naive_solver]. intros [Hs ->]. repeat (split; [done|]).
  unfold ReceiptPayload_amount. cbn [receipt_funds].
  assert (Hb : Forall (fun f => 0 <= single_amount (migrated_output f) <= IOTA_SUPPLY) funds).
  { eapply Forall_impl; [exact Hf|]. intros f (_ & _ & ?). unfold DUST_THRESHOLD in *. lia. }
  pose proof (sum_Z_bound _ _ _ Hb) as Hsum. destruct Hs as [Hl _].
  rewrite foldl_sum; [lia|lia| |].
  - eapply Forall_impl; [exact Hb|]. cbn. lia.
  - unfold IOTA_SUPPLY, INPUT_OUTPUT_COUNT_MAX in *. lia.
Qed.

(** C38. A milestone that passes [validate] carries valid signatures of its essence by at least [min_threshold] different
    applicable public keys. *)
Theorem milestone_validate_quorum `{IteratorSorted} `{Crypto} `{Hex} wfP m applicable min_threshold u :
  wf_MilestonePayload wfP m -> MilestonePayload_validate m applicable min_threshold = Ok u ->
  exists public_keys : list bytes,
    NoDup public_keys /\ min_threshold <= len public_keys /\ min_threshold <> 0
    /\ Forall (fun k => exists s, s ∈ milestone_signatures m
         /\ signed_by applicable (MilestonePayloadEssence_hash (milestone_essence m)) k s) public_keys.
Proof.
  destruct m as [e sg]. intros (He & _ & Hl) Hv. cbn [milestone_essence milestone_signatures] in *.
  unfold MilestonePayload_validate in Hv. rewrite !ensure_bind_Ok, validate_signatures_Ok in Hv.
  destruct Hv as (Hz & _ & Ht & Hs). cbn [milestone_essence milestone_signatures] in *. bool_to_prop.
  exists (essence_public_keys e). split; [|split; [lia|split; [by intros ->|]]].
  - destruct He as (_ & _ & _ & _ & _ & _ & _ & (_ & _ & _ & Hk & _) & _).
    by apply StronglySorted_lex_NoDup, Sorted_StronglySorted; [intros ???; apply lex_lt_trans|].
  - apply Forall_forall. intros k [i Hi]%list_elem_of_lookup_1.
    destruct (lookup_lt_is_Some_2 sg i) as [s Hsi]; [apply lookup_lt_Some in Hi; unfold len in *; lia|].
    exists s. split; [by eapply list_elem_of_lookup_2|].
    rewrite Forall_lookup in Hs. apply (Hs i (k, s)). rewrite lookup_zip_with, Hi. cbn. by rewrite Hsi.
Qed.

(** ** Evaluation *)

Module Examples.
Import Concrete.

Definition address (b : Byte.byte) : Address := Address_Ed25519 (Ed25519Address_new (repeat b 32)).
Definition utxo (b : Byte.byte) (i : Z) : Input :=
  Input_Utxo (mkUtxoInput (mkOutputId (TransactionId_new (repeat b 32)) i)).

Definition essence_builder : RegularEssenceBuilder :=
  add_output (add_output (add_input (add_input RegularEssenceBuilder_new (utxo Byte.x01 0)) (utxo Byte.x02 5))
    (Output_SignatureLockedSingle (mkSingle (address Byte.x03) 1000)))
    (Output_SignatureLockedDustAllowance (mkDustAllowance (address Byte.x03) 1000000)).

Lemma essence_finish_spec_witness :
  Forall wf_Output (builder_outputs essence_builder)
  /\ essence_spec (builder_inputs essence_builder) (builder_outputs essence_builder) (builder_payload essence_builder).
Proof.
  assert (H : Forall wf_Output (builder_outputs essence_builder)).
  { repeat constructor; vm_compute; congruence. }
  split; [exact H|]. pose proof (essence_finish_spec essence_builder H) as Hs.
  assert (He : is_ok (RegularEssenceBuilder_finish essence_builder) = true) by (vm_compute; reflexivity).
  destruct (RegularEssenceBuilder_finish essence_builder); [exact (proj1 Hs) | discriminate He].
Defined.

Definition tail_hash (t : Btrit) : TailTransactionHash := mkTailTransactionHash (from_trits 5 121 (repeat t 243)).
Definition fund (t : Btrit) : MigratedFundsEntry :=
  mkMigratedFundsEntry (tail_hash t) (mkSingle (address Byte.x04) 2000000).
Definition treasury_payload : Payload :=
  Payload_TreasuryTransaction (mkTreasuryTransactionPayload
    (Input_Treasury (TreasuryInput_new (MilestoneId_new (repeat Byte.x05 32))))
    (Output_Treasury (mkTreasuryOutput 100))).

Lemma fund_wf t : wf_MigratedFundsEntry (fund t).
Proof.
  split; [exists (repeat t 243); split; [apply repeat_length | reflexivity]|].
  split; vm_compute; intuition congruence.
Qed.

Lemma receipt_new_spec_witness :
  exists r, ReceiptPayload_new (MilestoneIndex_new 3) true [fund Zero; fund NegOne] treasury_payload = Ok r
    /\ ReceiptPayload_amount r = 4000000.
Proof.
  eexists. split; [vm_compute; reflexivity|].
  apply (receipt_new_spec (MilestoneIndex_new 3) true [fund Zero; fund NegOne] treasury_payload).
  - repeat constructor; apply fund_wf.
  - vm_compute. reflexivity.
Defined.

Definition milestone_essence_1 : MilestonePayloadEssence :=
  mkMilestonePayloadEssence (MilestoneIndex_new 1) 0 (mkParents [MessageId_new (repeat Byte.x01 32)])
    (repeat Byte.x00 32) 0 0 [repeat Byte.x07 32] None.
Definition milestone_1 : MilestonePayload :=
  mkMilestonePayload milestone_essence_1 [MilestonePayloadEssence_hash milestone_essence_1 ++ repeat Byte.x00 32].

Lemma milestone_1_wf : wf_MilestonePayload (fun _ => True) milestone_1.
Proof.
  split; [|split; [repeat constructor | reflexivity]]. repeat (split; [vm_compute; intuition congruence|]).
  split; [|split; [vm_compute; intuition congruence|]].
  - split; [repeat constructor|]. split; [vm_compute; intuition congruence | repeat constructor].
  - repeat (split; [vm_compute; intuition congruence|]). split; [repeat constructor|]. split; [|exact I].
    repeat (split; [vm_compute; intuition congruence|]). split; [repeat constructor | by left].
Qed.

Lemma milestone_validate_quorum_witness :
  exists public_keys : list bytes,
    NoDup public_keys /\ 1 <= len public_keys /\ 1 <> 0
    /\ Forall (fun k => exists s, s ∈ milestone_signatures milestone_1
         /\ signed_by [hex_encode (repeat Byte.x07 32)] (MilestonePayloadEssence_hash milestone_essence_1) k s) public_keys.
Proof.
  apply (milestone_validate_quorum (fun _ => True) milestone_1 [hex_encode (repeat Byte.x07 32)] 1 tt).
  - apply milestone_1_wf.
  - vm_compute. reflexivity.
Defined.
End Examples.
