(* ===== verification/PayloadKeys.v ===== *)
(** * Payloads as keys

    The types derive [PartialEq], [Eq] and [Hash]: payloads have a decidable equality, and they are countable, so that
    receipts can be keys of finite maps. *)

From S2P Require Import Prelude Trits MessageTypes Payload.

Local Open Scope Z_scope.

(** ** The types that do not recurse *)

#[export] Instance ReferenceUnlock_eq_dec : EqDecision ReferenceUnlock.
Proof. solve_decision. Defined.
#[export] Instance UnlockBlock_eq_dec : EqDecision UnlockBlock.
Proof. solve_decision. Defined.
#[export] Instance UnlockBlocks_eq_dec : EqDecision UnlockBlocks.
Proof. solve_decision. Defined.
#[export] Instance Parents_eq_dec : EqDecision Parents.
Proof. solve_decision. Defined.
#[export] Instance IndexationPayload_eq_dec : EqDecision IndexationPayload.
Proof. solve_decision. Defined.
#[export] Instance TreasuryTransactionPayload_eq_dec : EqDecision TreasuryTransactionPayload.
Proof. solve_decision. Defined.
#[export] Instance TailTransactionHash_eq_dec : EqDecision TailTransactionHash.
Proof. solve_decision. Defined.
#[export] Instance MigratedFundsEntry_eq_dec : EqDecision MigratedFundsEntry.
Proof. solve_decision. Defined.

#[export] Instance UnlockBlock_countable : Countable UnlockBlock.
Proof.
  refine (inj_countable' (fun b => match b with
                           | UnlockBlock_Signature (SignatureUnlock_Ed25519 s) => inl (public_key s, signature s)
                           | UnlockBlock_Reference r => inr (reference_index r)
                           end)
    (fun x => match x with
              | inl (k, s) => UnlockBlock_Signature (SignatureUnlock_Ed25519 (Ed25519Signature_new k s))
              | inr i => UnlockBlock_Reference (mkReferenceUnlock i)
              end) _).
  by intros [[[]]|[]].
Defined.
#[export] Instance UnlockBlocks_countable : Countable UnlockBlocks.
Proof.
  refine (inj_countable' unlock_blocks_inner mkUnlockBlocks _).
  by intros [].
Defined.
#[export] Instance Input_countable : Countable Input.
Proof.
  refine (inj_countable' (fun i => match i with
                           | Input_Utxo u => inl (utxo_output_id u)
                           | Input_Treasury t => inr (treasury_milestone_id t)
                           end)
    (fun x => match x with
              | inl o => Input_Utxo (mkUtxoInput o)
              | inr m => Input_Treasury (TreasuryInput_new m)
              end) _).
  by intros [[]|[]].
Defined.
#[export] Instance Output_countable : Countable Output.
Proof.
  refine (inj_countable' (fun o => match o with
                           | Output_SignatureLockedSingle s => inl (inl (single_address s, single_amount s))
                           | Output_SignatureLockedDustAllowance s => inl (inr (dust_address s, dust_amount s))
                           | Output_Treasury t => inr (treasury_amount t)
                           end)
    (fun x => match x with
              | inl (inl (a, n)) => Output_SignatureLockedSingle (mkSingle a n)
              | inl (inr (a, n)) => Output_SignatureLockedDustAllowance (mkDustAllowance a n)
              | inr n => Output_Treasury (mkTreasuryOutput n)
              end) _).
  by intros [[]|[]|[]].
Defined.
#[export] Instance Parents_countable : Countable Parents.
Proof.
  refine (inj_countable' parents_inner mkParents _).
  by intros [].
Defined.
#[export] Instance IndexationPayload_countable : Countable IndexationPayload.
Proof.
  refine (inj_countable' (fun i => (indexation_index i, indexation_data i)) (fun '(i, d) => mkIndexationPayload i d) _).
  by intros [].
Defined.
#[export] Instance TreasuryTransactionPayload_countable : Countable TreasuryTransactionPayload.
Proof.
  refine (inj_countable' (fun t => (treasury_input t, treasury_output t)) (fun '(i, o) => mkTreasuryTransactionPayload i o) _).
  by intros [].
Defined.
#[export] Instance MigratedFundsEntry_countable : Countable MigratedFundsEntry.
Proof.
  refine (inj_countable' (fun f => let b := tail_transaction_hash_buf (tail_transaction_hash f) in
                           (buf_raw b, buf_len b, single_address (migrated_output f), single_amount (migrated_output f)))
    (fun '(r, n, a, x) => mkMigratedFundsEntry (mkTailTransactionHash (mkTritBuf r n)) (mkSingle a x)) _).
  by intros [[[]] []].
Defined.

(** ** The recursive types *)

Fixpoint Payload_dec (p q : Payload) : {p = q} + {p <> q}
with TransactionPayload_dec (p q : TransactionPayload) : {p = q} + {p <> q}
with Essence_dec (p q : Essence) : {p = q} + {p <> q}
with RegularEssence_dec (p q : RegularEssence) : {p = q} + {p <> q}
with MilestonePayload_dec (p q : MilestonePayload) : {p = q} + {p <> q}
with MilestonePayloadEssence_dec (p q : MilestonePayloadEssence) : {p = q} + {p <> q}
with ReceiptPayload_dec (p q : ReceiptPayload) : {p = q} + {p <> q}.
Proof. all: decide equality; first [apply (decide (_ = _)) | decide equality]. Defined.

#[export] Instance Payload_eq_dec : EqDecision Payload := Payload_dec.
#[export] Instance ReceiptPayload_eq_dec : EqDecision ReceiptPayload := ReceiptPayload_dec.
#[export] Instance TransactionPayload_eq_dec : EqDecision TransactionPayload := TransactionPayload_dec.
#[export] Instance MilestonePayload_eq_dec : EqDecision MilestonePayload := MilestonePayload_dec.

(** A payload is a list of the payloads on its spine without what they contain, which determines it: every payload
    contains at most one other one. *)
Abbreviation spine_node := (
  (list Input * list Output * UnlockBlocks)
  + (MilestoneIndex * Z * Parents * bytes * Z * Z * list bytes * list bytes)
  + (MilestoneIndex * bool * list MigratedFundsEntry)
  + IndexationPayload + TreasuryTransactionPayload)%type.

Fixpoint payload_spine (p : Payload) : list spine_node :=
  let inner (o : option Payload) := match o with Some p => payload_spine p | None => [] end in
  match p with
  | Payload_Transaction (mkTransactionPayload (Essence_Regular (mkRegularEssence i o q)) u) =>
      inl (inl (inl (inl (i, o, u)))) :: inner q
  | Payload_Milestone (mkMilestonePayload (mkMilestonePayloadEssence i t p m n k ks r) s) =>
      inl (inl (inl (inr (i, t, p, m, n, k, ks, s)))) :: inner r
  | Payload_Receipt (mkReceiptPayload m l f q) => inl (inl (inr (m, l, f))) :: payload_spine q
  | Payload_Indexation p => [inl (inr p)]
  | Payload_TreasuryTransaction p => [inr p]
  end.

Fixpoint payload_of_spine (l : list spine_node) : option Payload :=
  match l with
  | [] => None
  | inl (inl (inl (inl (i, o, u)))) :: l =>
      Some (Payload_Transaction (mkTransactionPayload (Essence_Regular (mkRegularEssence i o (payload_of_spine l))) u))
  | inl (inl (inl (inr (i, t, p, m, n, k, ks, s)))) :: l =>
      Some (Payload_Milestone
              (mkMilestonePayload (mkMilestonePayloadEssence i t p m n k ks (payload_of_spine l)) s))
  | inl (inl (inr (m, b, f))) :: l => q ← payload_of_spine l; Some (Payload_Receipt (mkReceiptPayload m b f q))
  | inl (inr p) :: _ => Some (Payload_Indexation p)
  | inr p :: _ => Some (Payload_TreasuryTransaction p)
  end.

Lemma payload_of_spine_spine : forall p, payload_of_spine (payload_spine p) = Some p.
Proof.
  fix IH 1. intros [[[[i o q]] u]|[[i t p m n k ks r] s]|p|[m l f q]|p]; cbn [payload_spine payload_of_spine].
  - do 5 f_equal. destruct q as [q|]; [apply IH | done].
  - do 4 f_equal. destruct r as [r|]; [apply IH | done].
  - done.
  - by rewrite IH.
  - done.
Qed.

#[export] Instance Payload_countable : Countable Payload.
Proof.
  refine (inj_countable payload_spine payload_of_spine _).
  apply payload_of_spine_spine.
Defined.
#[export] Instance ReceiptPayload_countable : Countable ReceiptPayload.
Proof.
  refine (inj_countable Payload_Receipt (fun p => match p with Payload_Receipt r => Some r | _ => None end) _).
  done.
Defined.

#[export] Instance PaddedIndex_eq_dec : EqDecision PaddedIndex.
Proof. solve_decision. Defined.
#[export] Instance PaddedIndex_countable : Countable PaddedIndex.
Proof. refine (inj_countable' padded_index_bytes PaddedIndex_new _). by intros []. Defined.
