(* ===== verification/PayloadCodec.v ===== *)
(** * The codec of payloads

    Proofs about the [Packable] implementations of [Payload]: each composite implementation keeps its promise
    relative to the implementation of the payload it carries; the recursive decoder terminates, satisfies
    the recursive equation of the code and keeps the promise for the well-formed payloads. *)

From S2P Require Import Prelude Packable Trits External MessageTypes Payload.
From Stdlib Require Import Sorting.Sorted.

Local Open Scope Z_scope.

(** ** The implementations of [Packable] keep their promise *)

Ltac unfold_consts ::=
  unfold INPUT_OUTPUT_COUNT_MAX, IOTA_SUPPLY, DUST_THRESHOLD, MESSAGE_ID_LENGTH, INDEXATION_PADDED_INDEX_LENGTH,
    MESSAGE_LENGTH_MAX in *.

#[export] Instance IndexationPayload_ok : PackableOk IndexationPayload_packable wf_IndexationPayload.
Proof.
  unfold IndexationPayload_packable, wf_IndexationPayload. split; cbn [packed_len pack unpack_inner].
  - intros a Ha. rewrite !len_app, !packed_len_ok by by apply as_u_fits. autorewrite with bee. lia.
  - intros C [i d] rest [Hi Hd]. cbn [indexation_index indexation_data] in *. pose proof (len_nonneg d).
    assert (fits 16 (len i) /\ fits 32 (len d)) as [? ?] by (unfold fits; unfold_consts; lia).
    rewrite !as_u_id by done. rewrite <- !app_assoc. run_step.
    rewrite rbind_ensure; [|by unfold indexation_index_length_range;
      rewrite (proj2 (range_contains_spec _ _ _) Hi), andb_false_r].
    rewrite rbind_read_exact by done. run_step.
    rewrite rbind_ensure; [|by rewrite (proj2 (Z.ltb_ge _ _) Hd), andb_false_r].
    by rewrite rbind_read_exact.
  - intros bs [i d] rest H. inv_read. wf_read. unfold fits in *.
    apply read_exact_Ok in H1 as [_ Hi]; [|lia]. apply read_exact_Ok in H4 as [_ Hd]; [|lia].
    cbn in *. unfold indexation_index_length_range in *. rewrite negb_involutive in H0.
    rewrite negb_true_iff in H3. bool_to_prop. lia.
  - intros C bs [i d] rest H. inv_read. cbn [indexation_index indexation_data].
    pose proof (unpack_wf (P := u16) _ _ _ H) as [? _]. pose proof (unpack_wf (P := u32) _ _ _ H2) as [? _].
    apply read_exact_Ok in H1 as [-> ?]; [|done]. apply read_exact_Ok in H4 as [-> ?]; [|done].
    apply (unpack_len (P := u32)) in H2 as (? & -> & ?). solve_read.
Qed.

#[export] Instance IndexationPayload_canonical : PackableCanonical IndexationPayload_packable.
Proof.
  unfold IndexationPayload_packable. intros C bs [i d] rest H. cbn [pack unpack_inner] in *. inv_read.
  cbn [indexation_index indexation_data].
  pose proof (unpack_wf (P := u16) _ _ _ H) as Hi. pose proof (unpack_wf (P := u32) _ _ _ H2) as Hd.
  apply read_exact_Ok in H1 as [-> <-]; [|apply Hi]. apply read_exact_Ok in H4 as [-> <-]; [|apply Hd].
  rewrite !as_u_id by done. apply (unpack_canonical (P := u32)) in H2 as ->. canonical_read. done.
Qed.

#[export] Instance TreasuryTransactionPayload_ok :
  PackableOk TreasuryTransactionPayload_packable wf_TreasuryTransactionPayload.
Proof.
  unfold TreasuryTransactionPayload_packable, wf_TreasuryTransactionPayload.
  packable_ok TreasuryTransactionPayload_new_Ok.
Qed.

#[export] Instance TreasuryTransactionPayload_canonical : PackableCanonical TreasuryTransactionPayload_packable.
Proof. unfold TreasuryTransactionPayload_packable. packable_canonical TreasuryTransactionPayload_new_Ok. Qed.

(** *** Tail transaction hashes *)

Lemma cast_i8_u8 l : Forall (fun x => is_valid 121 x = true) l -> cast_i8 (cast_u8 l) = l.
Proof.
  unfold cast_i8, cast_u8. induction 1 as [|x l Hx _ IH]; [done|]. cbn [fmap list_fmap]. f_equal; [|done].
  unfold is_valid in Hx. bool_to_prop. rewrite u8_of_byte_of_u8.
  change 256 with (2 ^ 8). fold (as_u 8 (as_u 8 x)). rewrite (as_u_id 8 (as_u 8 x)) by by apply as_u_fits.
  apply as_i_as_u; [lia|]. unfold sfits. lia.
Qed.

Lemma len_cast_u8 l : len (cast_u8 l) = len l.
Proof. apply len_fmap. Qed.

Lemma tail_slice l :
  length l = TAIL_TRANSACTION_HASH_TRITS -> as_i8_slice 5 (from_trits 5 121 l) = buf_raw (from_trits 5 121 l).
Proof.
  intros Hl. pose proof (from_trits_repr 5 121 l) as [_ Hb Hn _]. unfold as_i8_slice.
  apply take_ge. rewrite Hb, Hn, Hl. done.
Qed.

Lemma TailTransactionHash_try_from_as_ref h :
  wf_TailTransactionHash h -> TailTransactionHash_try_from (TailTransactionHash_as_ref h) = Ok h.
Proof.
  destruct h as [b]. intros (l & Hl & Hb). cbn [tail_transaction_hash_buf] in Hb. subst b.
  unfold TailTransactionHash_try_from, TailTransactionHash_as_ref. cbn [tail_transaction_hash_buf].
  pose proof (from_trits_repr 5 121 l) as [Hv Hb Hn _]. rewrite tail_slice, cast_i8_u8 by done.
  unfold try_from_raw.
  rewrite (proj2 (forallb_forall _ _)) by (intros x Hx%list_elem_of_In; by apply (proj1 (Forall_forall _ _) Hv)).
  rewrite bool_decide_true by (rewrite Hb, Hl; by apply Nat.leb_le). cbn [ok_or result_bind].
  replace (mkTritBuf (buf_raw (from_trits 5 121 l)) TAIL_TRANSACTION_HASH_TRITS) with (from_trits 5 121 l)
    by (rewrite <- Hl, <- Hn; by destruct (from_trits 5 121 l)).
  by rewrite (to_buf_from_trits 5 121).
Qed.

(** Decoding never panics and gives a packed hash. *)
Lemma TailTransactionHash_try_from_wf bs :
  match TailTransactionHash_try_from bs with
  | Ok h => wf_TailTransactionHash h
  | Err e => e = InvalidTailTransactionHash
  end.
Proof.
  unfold TailTransactionHash_try_from. destruct (try_from_raw _ _ _ _) as [b|] eqn:Hb; [|done].
  cbn [ok_or result_bind]. apply (try_from_raw_iter 5 121) in Hb as (l & Hl & Hn).
  unfold to_buf. rewrite Hl. cbn. by exists l.
Qed.

Lemma TailTransactionHash_len h : wf_TailTransactionHash h -> len (TailTransactionHash_as_ref h) = TAIL_TRANSACTION_HASH_LEN.
Proof.
  intros (l & Hl & Hb). unfold TailTransactionHash_as_ref. rewrite Hb, len_cast_u8, tail_slice by done.
  pose proof (from_trits_repr 5 121 l) as [_ Hr _ _]. unfold len. rewrite Hr, Hl. done.
Qed.

#[export] Instance TailTransactionHash_ok : PackableOk TailTransactionHash_packable wf_TailTransactionHash.
Proof.
  unfold TailTransactionHash_packable. split; cbn [packed_len pack unpack_inner].
  - apply TailTransactionHash_len.
  - intros C h rest Hh. rewrite (rbind_run _ _ _ (TailTransactionHash_as_ref h) rest).
    + apply rlift_Ok. by rewrite TailTransactionHash_try_from_as_ref.
    + apply read_exact_Ok; [done|]. by rewrite TailTransactionHash_len.
  - intros bs h rest H. inv_read. pose proof (TailTransactionHash_try_from_wf x) as Hw. by rewrite H0 in Hw.
  - intros C bs h rest H. inv_read. solve_read.
Qed.

#[export] Instance MigratedFundsEntry_ok : PackableOk MigratedFundsEntry_packable wf_MigratedFundsEntry.
Proof. unfold MigratedFundsEntry_packable, wf_MigratedFundsEntry. packable_ok MigratedFundsEntry_new_Ok. Qed.

(** *** The composite payloads, relative to the payload they may carry *)

Section composite_ok.
Context `{IteratorSortedOk} (P : Packable MessageError Payload) (wfP : Payload -> Prop) `{!PackableOk P wfP}.
(** A nested payload is not empty and its length fits the length prefix. *)
Context (P_bound : forall p, wfP p -> 0 < packed_len P p < 2 ^ 32).

Lemma option_payload_len o :
  wf_option_payload wfP o -> len (option_payload_pack P o) = option_payload_packed_len P o.
Proof.
  destruct o as [p|]; cbn [wf_option_payload option_payload_pack option_payload_packed_len]; [|done].
  intros Hp. rewrite len_app, !packed_len_ok by (done || by apply as_u_fits).
  unfold option_payload_packed_len. autorewrite with bee. lia.
Qed.

(** The length that [option_payload_unpack] returns besides the payload. *)
Definition option_payload_size (o : option Payload) : Z :=
  match o with Some p => packed_len P p | None => 0 end.

Lemma option_payload_run {B} C (k : Z * option Payload -> reader MessageError B) o rest :
  wf_option_payload wfP o ->
  rbind (option_payload_unpack P C) k (option_payload_pack P o ++ rest) = k (option_payload_size o, o) rest.
Proof.
  intros Ho. apply rbind_run. unfold option_payload_unpack, option_payload_pack.
  destruct o as [p|]; cbn [wf_option_payload option_payload_size] in *.
  - specialize (P_bound p Ho). rewrite as_u_id, <- app_assoc by (unfold fits; lia).
    rewrite (rbind_pack u32 (fits 32)) by (unfold fits; lia).
    rewrite (proj2 (Z.ltb_lt _ _)) by lia. rewrite (rbind_pack P wfP) by done.
    by rewrite Z.eqb_refl.
  - rewrite (rbind_pack u32 (fits 32)) by (unfold fits; lia). done.
Qed.

Lemma option_payload_inv C bs n o rest :
  option_payload_unpack P C bs = Ok ((n, o), rest) ->
  (exists used, bs = used ++ rest /\ len used = option_payload_packed_len P o)
  /\ n = option_payload_size o /\ (C = true -> wf_option_payload wfP o).
Proof.
  unfold option_payload_unpack, option_payload_packed_len. intros Hu. inv_read.
  destruct (0 <? x); inv_read.
  - destruct (x =? packed_len P x1) eqn:E; inv_read. apply Z.eqb_eq in E as ->. split; [solve_read|].
    split; [done|]. intros ->. cbn. wf_read. done.
  - split; [|done]. solve_read.
Qed.

Ltac inv_option_payload :=
  match goal with
  | Hu : option_payload_unpack P _ _ = Ok (?r, _) |- _ =>
      destruct r as [n o]; cbn [snd] in *; apply option_payload_inv in Hu as ((used & -> & Hused) & _ & Ho)
  end.

#[export] Instance ReceiptPayload_ok : PackableOk (ReceiptPayload_packable P) (wf_ReceiptPayload wfP).
Proof.
  unfold ReceiptPayload_packable, wf_ReceiptPayload. split; cbn [packed_len pack unpack_inner].
  - intros a (Hm & Hf & _ & Ht). rewrite !len_app, option_payload_len by done.
    rewrite (pack_all_len _ wf_MigratedFundsEntry), !packed_len_ok by (done || by apply as_u_fits).
    autorewrite with bee. lia.
  - intros C [m l f t] rest (Hm & Hf & Hs & Ht).
    cbn [receipt_migrated_at receipt_last receipt_funds receipt_transaction] in *.
    assert (fits 16 (len f)) by (destruct Hs as [? _]; unfold fits; unfold_consts; lia).
    rewrite as_u_id by done. rewrite <- !app_assoc. do 3 run_step.
    rewrite (rbind_unpack_n _ wf_MigratedFundsEntry); [|done|unfold len; lia].
    rewrite option_payload_run by done. cbn [snd ok_or]. apply rlift_Ok. by rewrite ReceiptPayload_new_Ok.
  - intros bs a rest Hr. inv_read. inv_option_payload. subst o. wf_read. rewrite ReceiptPayload_new_Ok in *.
    destruct_and?. subst. repeat (split; [done|]). by apply Ho.
  - intros C bs a rest Hr. inv_read. inv_option_payload. subst o. rewrite ReceiptPayload_new_Ok in *.
    destruct_and?. subst. solve_read.
Qed.

Lemma finish_inv b e :
  RegularEssenceBuilder_finish b = Ok e ->
  e = mkRegularEssence (builder_inputs b) (builder_outputs b) (builder_payload b).
Proof. unfold RegularEssenceBuilder_finish. intros He. by inv_ok. Qed.

Lemma builder_inv (i : list Input) (o : list Output) (p : option Payload) e :
  RegularEssenceBuilder_finish
    (match p with
     | Some payload => with_payload (with_outputs (with_inputs RegularEssenceBuilder_new i) o) payload
     | None => with_outputs (with_inputs RegularEssenceBuilder_new i) o
     end) = Ok e ->
  e = mkRegularEssence i o p /\ len i <= INPUT_OUTPUT_COUNT_MAX /\ len o <= INPUT_OUTPUT_COUNT_MAX
  /\ (p = None \/ exists x, p = Some (Payload_Indexation x)) /\ (Forall wf_Output o -> essence_spec i o p).
Proof.
  intros He. split; [by apply finish_inv in He as ->; destruct p|].
  split; [|split; [|split]]; [..|by intros Ho; apply finish_Ok in He as [? ->]; destruct p];
    unfold RegularEssenceBuilder_finish, input_output_count_range in He; inv_ok; bool_to_prop;
    destruct p as [[]|]; cbn in *; try done; try lia; eauto.
Qed.

#[export] Instance RegularEssence_ok : PackableOk (RegularEssence_packable P) (wf_RegularEssence wfP).
Proof.
  unfold RegularEssence_packable, wf_RegularEssence. split; cbn [packed_len pack unpack_inner].
  - intros a (Hi & Ho & _ & Hp). rewrite !len_app, option_payload_len by done.
    rewrite (pack_all_len _ wf_Input), (pack_all_len _ wf_Output), !packed_len_ok by (done || by apply as_u_fits).
    autorewrite with bee. lia.
  - intros C [i o p] rest (Hi & Ho & Hs & Hp). cbn [essence_inputs essence_outputs essence_payload] in *.
    assert (1 <= len i <= INPUT_OUTPUT_COUNT_MAX /\ 1 <= len o <= INPUT_OUTPUT_COUNT_MAX) as [Hli Hlo]
      by (destruct Hs as (? & ? & _); done).
    assert (fits 16 (len i) /\ fits 16 (len o)) as [? ?] by (unfold fits; unfold_consts; lia).
    rewrite !as_u_id by done. rewrite <- !app_assoc. run_step. unfold input_output_count_range.
    rewrite rbind_ensure by by rewrite (proj2 (range_contains_spec _ _ _) Hli), andb_false_r.
    rewrite (rbind_unpack_n _ wf_Input); [|done|unfold len; lia]. run_step.
    rewrite rbind_ensure by by rewrite (proj2 (range_contains_spec _ _ _) Hlo), andb_false_r.
    rewrite (rbind_unpack_n _ wf_Output); [|done|unfold len; lia].
    rewrite option_payload_run by done. cbn [snd]. apply rlift_Ok. split; [|done].
    destruct p; by apply finish_Ok.
  - intros bs a rest Hr. inv_read. inv_option_payload. wf_read.
    match goal with He : RegularEssenceBuilder_finish _ = Ok _ |- _ => apply builder_inv in He as (-> & _ & _ & _ & Hs) end.
    repeat (split; [by auto|]). by apply Ho.
  - intros C bs a rest Hr. inv_read. inv_option_payload.
    match goal with He : RegularEssenceBuilder_finish _ = Ok _ |- _ => apply builder_inv in He as (-> & _) end.
    solve_read.
Qed.

#[export] Instance Essence_ok : PackableOk (Essence_packable P) (wf_Essence wfP).
Proof. unfold Essence_packable, wf_Essence. packable_ok @Ok_inj. Qed.

Lemma transaction_finish_Ok e u t :
  TransactionPayloadBuilder_finish (with_unlock_blocks (with_essence TransactionPayloadBuilder_new e) u) = Ok t
  <-> len (essence_inputs (regular_essence e)) = len (unlock_blocks_inner u) /\ t = mkTransactionPayload e u.
Proof.
  unfold TransactionPayloadBuilder_finish. cbn. destruct e. by rewrite ensure_bind_Ok, Z.eqb_eq, Ok_inj.
Qed.

#[export] Instance TransactionPayload_ok : PackableOk (TransactionPayload_packable P) (wf_TransactionPayload wfP).
Proof. unfold TransactionPayload_packable, wf_TransactionPayload. packable_ok transaction_finish_Ok. Qed.

Lemma MilestonePayloadEssence_new_Ok i t p m n ni k r e :
  MilestonePayloadEssence_new i t p m n ni k r = Ok e
  <-> milestone_essence_spec i n ni k r /\ e = mkMilestonePayloadEssence i t p m n ni k r.
Proof.
  unfold MilestonePayloadEssence_new, milestone_essence_spec, milestone_public_key_count_range.
  rewrite !ensure_bind_Ok, range_contains_spec, is_unique_sorted_ok, result_bind_Ok.
  setoid_rewrite (@Ok_inj MessageError MilestonePayloadEssence).
  rewrite negb_true_iff, orb_false_iff, !andb_false_iff, !negb_false_iff, !Z.eqb_neq, !Z.eqb_eq, Z.leb_gt.
  split.
  - intros (? & ? & ? & ? & Hr & ->). split; [|done]. split; [lia|]. split; [lia|]. split; [done|]. split; [done|].
    destruct r as [[]|]; eauto; done.
  - intros [(? & ? & ? & ? & Hr) ->]. split; [lia|]. split; [done|]. split; [done|]. exists tt.
    by destruct Hr as [->|[? ->]].
Qed.

Lemma packed_len_all_array {A} (Q : Packable io_error A) (n : Z) l :
  (forall a, packed_len Q a = n) -> packed_len_all Q l = len l * n.
Proof. intros HQ. unfold packed_len_all. rewrite (sum_Z_const _ n); [lia|]. by apply Forall_true. Qed.

#[export] Instance MilestonePayloadEssence_ok :
  PackableOk (MilestonePayloadEssence_packable P) (wf_MilestonePayloadEssence wfP).
Proof.
  unfold MilestonePayloadEssence_packable, wf_MilestonePayloadEssence.
  assert (Hk : forall l, packed_len_all (array_packable MILESTONE_PUBLIC_KEY_LENGTH) l = len l * MILESTONE_PUBLIC_KEY_LENGTH)
    by (intros; by apply packed_len_all_array).
  split; cbn [packed_len pack unpack_inner].
  - intros a (? & ? & ? & ? & ? & ? & ? & _ & ?). rewrite !len_app, option_payload_len by done.
    rewrite (pack_all_len _ (fun k => len k = MILESTONE_PUBLIC_KEY_LENGTH)), !packed_len_ok
      by (done || by apply as_u_fits).
    rewrite Hk. autorewrite with bee. lia.
  - intros C [i t p m n ni k r] rest (? & ? & ? & ? & ? & ? & ? & Hs & ?).
    cbn [essence_index essence_timestamp essence_parents essence_merkle_proof essence_next_pow_score
      essence_next_pow_score_milestone_index essence_public_keys essence_receipt] in *.
    assert (fits 8 (len k)) by (destruct Hs as (_ & _ & ? & _); unfold fits; lia).
    rewrite as_u_id by done. rewrite <- !app_assoc. do 7 run_step.
    rewrite (rbind_unpack_n _ (fun k => len k = MILESTONE_PUBLIC_KEY_LENGTH)); [|done|unfold len; lia].
    rewrite option_payload_run by done. cbn [snd]. apply rlift_Ok. by rewrite MilestonePayloadEssence_new_Ok.
  - intros bs a rest Hr. inv_read. inv_option_payload. wf_read. rewrite MilestonePayloadEssence_new_Ok in *.
    destruct_and?. subst. repeat (split; [done|]). by apply Ho.
  - intros C bs a rest Hr. inv_read. inv_option_payload. rewrite MilestonePayloadEssence_new_Ok in *.
    destruct_and?. subst. split_read. rewrite Hk in *. solve_read.
Qed.

Lemma MilestonePayload_new_Ok e s m :
  MilestonePayload_new e s = Ok m
  <-> 1 <= len s <= 255 /\ len (essence_public_keys e) = len s /\ m = mkMilestonePayload e s.
Proof.
  unfold MilestonePayload_new, milestone_signature_count_range.
  by rewrite !ensure_bind_Ok, range_contains_spec, Z.eqb_eq, Ok_inj.
Qed.

#[export] Instance MilestonePayload_ok : PackableOk (MilestonePayload_packable P) (wf_MilestonePayload wfP).
Proof.
  unfold MilestonePayload_packable, wf_MilestonePayload.
  assert (Hk : forall l, packed_len_all (array_packable MILESTONE_SIGNATURE_LENGTH) l = len l * MILESTONE_SIGNATURE_LENGTH)
    by (intros; by apply packed_len_all_array).
  split; cbn [packed_len pack unpack_inner].
  - intros a (? & ? & _). rewrite !len_app.
    rewrite (pack_all_len _ (fun k => len k = MILESTONE_SIGNATURE_LENGTH)), !packed_len_ok
      by (done || by apply as_u_fits).
    rewrite Hk. autorewrite with bee. lia.
  - intros C [e s] rest (He & Hs & Hl). cbn [milestone_essence milestone_signatures] in *.
    assert (1 <= len s <= 255) by (destruct He as (_ & _ & _ & _ & _ & _ & _ & (_ & _ & ? & _) & _); lia).
    rewrite as_u_id by (unfold fits; lia). rewrite <- !app_assoc. do 2 run_step.
    rewrite (rbind_unpack_n _ (fun k => len k = MILESTONE_SIGNATURE_LENGTH)); [|done|unfold len; lia].
    apply rlift_Ok. by rewrite MilestonePayload_new_Ok.
  - intros bs a rest Hr. inv_read. wf_read. rewrite MilestonePayload_new_Ok in *. destruct_and?. subst. done.
  - intros C bs a rest Hr. inv_read. rewrite MilestonePayload_new_Ok in *. destruct_and?. subst.
    split_read. rewrite Hk in *. solve_read.
Qed.

#[export] Instance Payload_step_ok : PackableOk (Payload_step P) (wf_Payload_step wfP).
Proof. unfold Payload_step, wf_Payload_step. packable_ok @Ok_inj. Qed.
End composite_ok.

(** ** The recursion of the decoder *)

(** *** Fuel is not observable *)

(** [m'] has at least the fuel of [m]. *)
Definition fuel_le {A} (m m' : reader MessageError A) : Prop :=
  forall bs, m bs <> Err FuelExhausted -> m' bs = m bs.

Lemma fuel_le_refl {A} (m : reader MessageError A) : fuel_le m m.
Proof. done. Qed.

Lemma fuel_le_bind {A B} (m m' : reader MessageError A) (k k' : A -> reader MessageError B) :
  fuel_le m m' -> (forall a, fuel_le (k a) (k' a)) -> fuel_le (rbind m k) (rbind m' k').
Proof.
  intros Hm Hk bs. unfold rbind. specialize (Hm bs). destruct (m bs) as [[a r]|e] eqn:E.
  - rewrite Hm by done. apply Hk.
  - intros Hn. rewrite Hm; [done|]. intros [= ->]. by apply Hn.
Qed.

Lemma fuel_le_bind_r {E A B} `{From E MessageError} (m : reader E A) (k k' : A -> reader MessageError B) :
  (forall a, fuel_le (k a) (k' a)) -> fuel_le (rbind m k) (rbind m k').
Proof. intros Hk bs. unfold rbind. destruct (m bs) as [[a r]|e]; [apply Hk | done]. Qed.

(** [m] does not run out of fuel on inputs shorter than [N]. *)
Definition enough_fuel {E A} `{From E MessageError} (N : Z) (m : reader E A) : Prop :=
  forall bs, len bs < N ->
  match m bs with
  | Ok (_, rest) => len rest <= len bs
  | Err e => from e <> FuelExhausted
  end.

Lemma enough_fuel_bind {E A B} `{From E MessageError} N (m : reader E A) (k : A -> reader MessageError B) :
  enough_fuel N m -> (forall a, enough_fuel N (k a)) -> enough_fuel N (rbind m k).
Proof.
  intros Hm Hk bs Hbs. unfold rbind. specialize (Hm bs Hbs). destruct (m bs) as [[a r]|e]; [|done].
  specialize (Hk a r ltac:(lia)). destruct (k a r) as [[b r']|e]; [lia | done].
Qed.

Lemma enough_fuel_ret {A} N (a : A) : enough_fuel N (rret (E := MessageError) a).
Proof. intros bs _. cbn. lia. Qed.

Lemma enough_fuel_fail {A} N e : e <> FuelExhausted -> enough_fuel N (rfail (E := MessageError) (A := A) e).
Proof. by intros He bs _. Qed.

Lemma enough_fuel_lift {A} N (m : result MessageError A) : m <> Err FuelExhausted -> enough_fuel N (rlift m).
Proof. intros Hm bs _. unfold rlift. destruct m; [lia|]. intros He. by apply Hm; f_equal. Qed.

Lemma enough_fuel_io {A} N (Q : Packable io_error A) wf `{!PackableOk Q wf} C : enough_fuel N (unpack_inner Q C).
Proof.
  intros bs _. destruct (unpack_inner Q C bs) as [[a r]|e] eqn:Hu; [|done].
  apply (unpack_len (P := Q)) in Hu as (u & -> & _). rewrite len_app. pose proof (len_nonneg u). lia.
Qed.

Lemma enough_fuel_read_exact N n : 0 <= n -> enough_fuel N (read_exact n).
Proof.
  intros Hn bs _. destruct (read_exact n bs) as [[a r]|e] eqn:Hu; [|done].
  apply read_exact_Ok in Hu as [-> _]; [|done]. rewrite len_app. pose proof (len_nonneg a). lia.
Qed.

Lemma enough_fuel_n {E A} `{HF : From E MessageError} N (Q : Packable E A) C n :
  enough_fuel N (unpack_inner Q C) -> enough_fuel N (unpack_n Q C n).
Proof.
  intros HQ. induction n as [|n IH]; cbn [unpack_n]; intros bs Hbs; [cbn; lia|]. unfold rbind.
  specialize (HQ bs Hbs). destruct (unpack_inner Q C bs) as [[a r]|e]; [|done].
  specialize (IH r ltac:(lia)). destruct (unpack_n Q C n r) as [[l r']|e]; [cbn; lia | done].
Qed.

(** The validating constructors do not fail with [FuelExhausted]. *)
Lemma bind_no_fuel {A B} (m : result MessageError A) (k : A -> result MessageError B) :
  m <> Err FuelExhausted -> (forall a, k a <> Err FuelExhausted) -> result_bind m k <> Err FuelExhausted.
Proof. intros Hm Hk. destruct m; cbn; [apply Hk|]. unfold from, From_refl. congruence. Qed.

Lemma ensure_no_fuel c e : e <> FuelExhausted -> ensure c e <> Err FuelExhausted.
Proof. destruct c; cbn; congruence. Qed.

Lemma ok_or_no_fuel {A} (o : option A) e : e <> FuelExhausted -> ok_or o e <> Err FuelExhausted.
Proof. destruct o; cbn; congruence. Qed.

Create HintDb fuel.
#[local] Hint Resolve enough_fuel_ret enough_fuel_fail ensure_no_fuel ok_or_no_fuel : fuel.
#[local] Hint Extern 1 (enough_fuel _ (unpack_inner _ _)) => eapply enough_fuel_io; apply _ : fuel.

Ltac no_fuel :=
  repeat first
    [ done
    | apply bind_no_fuel; [|intros ?]
    | apply ensure_no_fuel
    | apply ok_or_no_fuel
    | case_match ].

Ltac enough_fuel :=
  repeat (cbn [unpack_inner]; first
    [ solve [eauto with fuel]
    | apply enough_fuel_bind; [|intros ?]
    | apply enough_fuel_n
    | apply enough_fuel_lift; no_fuel
    | case_match ]).

Lemma UnlockBlocks_check_no_fuel all seen i l : UnlockBlocks_check all seen i l <> Err FuelExhausted.
Proof. revert seen i. induction l as [|[] l IH]; intros; cbn [UnlockBlocks_check]; [done|..]; case_match; done. Qed.

Lemma tail_transaction_hashes_check_no_fuel m i l : tail_transaction_hashes_check m i l <> Err FuelExhausted.
Proof. revert m i. induction l as [|f l IH]; intros; cbn [tail_transaction_hashes_check]; [done|]. by case_match. Qed.

Lemma finish_inputs_no_fuel i l : finish_inputs i l <> Err FuelExhausted.
Proof. induction l as [|[] l IH]; cbn [finish_inputs]; [done| |done]. by case_match. Qed.

Lemma finish_outputs_no_fuel o l t : finish_outputs o l t <> Err FuelExhausted.
Proof.
  revert t. induction l as [|[] l IH]; intros t; cbn [finish_outputs]; no_fuel; by apply IH.
Qed.

(** *** The codecs of the parts of payloads *)

#[local] Hint Resolve UnlockBlocks_check_no_fuel tail_transaction_hashes_check_no_fuel finish_inputs_no_fuel
  finish_outputs_no_fuel : fuel.

Ltac no_fuel ::=
  repeat first
    [ done
    | solve [eauto with fuel]
    | apply bind_no_fuel; [|intros ?]
    | apply ensure_no_fuel
    | apply ok_or_no_fuel
    | case_match ].

Ltac codec_fuel := intros; cbn [unpack_inner]; enough_fuel.

Lemma MessageId_fuel N C : enough_fuel N (unpack_inner MessageId_packable C).
Proof. codec_fuel. Qed.
Lemma TransactionId_fuel N C : enough_fuel N (unpack_inner TransactionId_packable C).
Proof. codec_fuel. Qed.
Lemma MilestoneId_fuel N C : enough_fuel N (unpack_inner MilestoneId_packable C).
Proof. codec_fuel. Qed.
Lemma Ed25519Address_fuel N C : enough_fuel N (unpack_inner Ed25519Address_packable C).
Proof. codec_fuel. Qed.
Lemma Ed25519Signature_fuel N C : enough_fuel N (unpack_inner Ed25519Signature_packable C).
Proof. codec_fuel. Qed.
Lemma ReferenceUnlock_fuel N C : enough_fuel N (unpack_inner ReferenceUnlock_packable C).
Proof. codec_fuel. Qed.
#[local] Hint Resolve MessageId_fuel TransactionId_fuel MilestoneId_fuel Ed25519Address_fuel Ed25519Signature_fuel ReferenceUnlock_fuel : fuel.
Lemma Address_fuel N C : enough_fuel N (unpack_inner Address_packable C).
Proof. codec_fuel. Qed.
Lemma SignatureUnlock_fuel N C : enough_fuel N (unpack_inner SignatureUnlock_packable C).
Proof. codec_fuel. Qed.
Lemma OutputId_fuel N C : enough_fuel N (unpack_inner OutputId_packable C).
Proof. codec_fuel. Qed.
Lemma TreasuryInput_fuel N C : enough_fuel N (unpack_inner TreasuryInput_packable C).
Proof. codec_fuel. Qed.
Lemma TreasuryOutput_fuel N C : enough_fuel N (unpack_inner TreasuryOutput_packable C).
Proof. codec_fuel. Qed.
#[local] Hint Resolve Address_fuel SignatureUnlock_fuel OutputId_fuel TreasuryInput_fuel TreasuryOutput_fuel : fuel.
Lemma UnlockBlock_fuel N C : enough_fuel N (unpack_inner UnlockBlock_packable C).
Proof. codec_fuel. Qed.
Lemma UtxoInput_fuel N C : enough_fuel N (unpack_inner UtxoInput_packable C).
Proof. codec_fuel. Qed.
Lemma SignatureLockedSingleOutput_fuel N C : enough_fuel N (unpack_inner SignatureLockedSingleOutput_packable C).
Proof. codec_fuel. Qed.
Lemma SignatureLockedDustAllowanceOutput_fuel N C : enough_fuel N (unpack_inner SignatureLockedDustAllowanceOutput_packable C).
Proof. codec_fuel. Qed.
Lemma TailTransactionHash_fuel N C : enough_fuel N (unpack_inner TailTransactionHash_packable C).
Proof. codec_fuel. Qed.
#[local] Hint Resolve UnlockBlock_fuel UtxoInput_fuel SignatureLockedSingleOutput_fuel SignatureLockedDustAllowanceOutput_fuel TailTransactionHash_fuel : fuel.
Lemma UnlockBlocks_fuel N C : enough_fuel N (unpack_inner UnlockBlocks_packable C).
Proof. codec_fuel. Qed.
Lemma Input_fuel N C : enough_fuel N (unpack_inner Input_packable C).
Proof. codec_fuel. Qed.
Lemma Output_fuel N C : enough_fuel N (unpack_inner Output_packable C).
Proof. codec_fuel. Qed.
Lemma MigratedFundsEntry_fuel N C : enough_fuel N (unpack_inner MigratedFundsEntry_packable C).
Proof. codec_fuel. Qed.
#[local] Hint Resolve UnlockBlocks_fuel Input_fuel Output_fuel MigratedFundsEntry_fuel : fuel.
Lemma TreasuryTransactionPayload_fuel N C : enough_fuel N (unpack_inner TreasuryTransactionPayload_packable C).
Proof. codec_fuel. Qed.
#[local] Hint Resolve TreasuryTransactionPayload_fuel : fuel.

Lemma IndexationPayload_fuel N C : enough_fuel N (unpack_inner IndexationPayload_packable C).
Proof.
  intros bs Hbs. destruct (unpack_inner IndexationPayload_packable C bs) as [[a r]|e] eqn:Hu.
  - apply (unpack_len (P := IndexationPayload_packable)) in Hu as (u & -> & _). rewrite len_app.
    pose proof (len_nonneg u). lia.
  - intros He. change (e = FuelExhausted) in He. subst e. unfold IndexationPayload_packable in Hu. cbn [unpack_inner] in Hu. unfold rbind, rensure, rlift, ensure in Hu.
    repeat (case_match; simplify_eq/=).
Qed.
#[local] Hint Resolve IndexationPayload_fuel : fuel.

Section payload_fuel.
Context `{IteratorSortedOk}.

Lemma Parents_fuel N C : enough_fuel N (unpack_inner Parents_packable C).
Proof. codec_fuel. Qed.
#[local] Hint Resolve Parents_fuel : fuel.

Section open.
Context (P : Packable MessageError Payload) (N : Z) (HP : forall C, enough_fuel N (unpack_inner P C)).

Lemma option_payload_fuel C : enough_fuel N (option_payload_unpack P C).
Proof. unfold option_payload_unpack. enough_fuel. Qed.
#[local] Hint Resolve option_payload_fuel : fuel.

Lemma ReceiptPayload_fuel C : enough_fuel N (unpack_inner (ReceiptPayload_packable P) C).
Proof. codec_fuel. Qed.
Lemma MilestonePayloadEssence_fuel C : enough_fuel N (unpack_inner (MilestonePayloadEssence_packable P) C).
Proof. codec_fuel. Qed.
#[local] Hint Resolve MilestonePayloadEssence_fuel : fuel.
Lemma MilestonePayload_fuel C : enough_fuel N (unpack_inner (MilestonePayload_packable P) C).
Proof. codec_fuel. Qed.
Lemma RegularEssence_fuel C : enough_fuel N (unpack_inner (RegularEssence_packable P) C).
Proof. codec_fuel. Qed.
#[local] Hint Resolve RegularEssence_fuel : fuel.
Lemma Essence_fuel C : enough_fuel N (unpack_inner (Essence_packable P) C).
Proof. codec_fuel. Qed.
#[local] Hint Resolve Essence_fuel : fuel.
Lemma TransactionPayload_fuel C : enough_fuel N (unpack_inner (TransactionPayload_packable P) C).
Proof. codec_fuel. Qed.
#[local] Hint Resolve ReceiptPayload_fuel MilestonePayload_fuel TransactionPayload_fuel : fuel.

(** The kind of a payload takes four bytes. *)
Lemma Payload_step_fuel C : enough_fuel (N + 4) (unpack_inner (Payload_step P) C).
Proof.
  intros bs Hbs. cbn [Payload_step unpack_inner]. unfold rbind at 1.
  destruct (unpack_inner u32 C bs) as [[k r]|e] eqn:Hk; [|done].
  apply (unpack_len (P := u32)) in Hk as (u & -> & Hu). rewrite packed_len_u32 in Hu. rewrite len_app in *.
  match goal with |- match ?m r with _ => _ end => assert (Hm : enough_fuel N m) by enough_fuel end.
  specialize (Hm r ltac:(lia)). case_match; [case_match; lia | done].
Qed.
End open.

(** More fuel for the nested payloads is more fuel for the payload. *)
Section mono.
Context (l : Payload -> Z) (p : Payload -> bytes) (u u' : bool -> reader MessageError Payload).
Context (Hu : forall C, fuel_le (u C) (u' C)).
#[local] Abbreviation Q := {| packed_len := l; pack := p; unpack_inner := u |}.
#[local] Abbreviation Q' := {| packed_len := l; pack := p; unpack_inner := u' |}.

Ltac fuel_mono :=
  repeat first
    [ apply fuel_le_refl
    | solve [auto]
    | apply fuel_le_bind_r; intros ?
    | apply fuel_le_bind; [|intros ?]
    | case_match ].

Lemma option_payload_mono C : fuel_le (option_payload_unpack Q C) (option_payload_unpack Q' C).
Proof. unfold option_payload_unpack. cbn [unpack_inner packed_len]. fuel_mono. Qed.
#[local] Hint Resolve option_payload_mono : core.

Lemma RegularEssence_mono C :
  fuel_le (unpack_inner (RegularEssence_packable Q) C) (unpack_inner (RegularEssence_packable Q') C).
Proof. cbn [RegularEssence_packable unpack_inner]. fuel_mono. Qed.
#[local] Hint Resolve RegularEssence_mono : core.

Lemma Essence_mono C : fuel_le (unpack_inner (Essence_packable Q) C) (unpack_inner (Essence_packable Q') C).
Proof. cbn [Essence_packable unpack_inner]. fuel_mono. Qed.
#[local] Hint Resolve Essence_mono : core.

Lemma TransactionPayload_mono C :
  fuel_le (unpack_inner (TransactionPayload_packable Q) C) (unpack_inner (TransactionPayload_packable Q') C).
Proof. cbn [TransactionPayload_packable unpack_inner]. fuel_mono. Qed.

Lemma MilestonePayloadEssence_mono C :
  fuel_le (unpack_inner (MilestonePayloadEssence_packable Q) C) (unpack_inner (MilestonePayloadEssence_packable Q') C).
Proof. cbn [MilestonePayloadEssence_packable unpack_inner]. fuel_mono. Qed.
#[local] Hint Resolve MilestonePayloadEssence_mono : core.

Lemma MilestonePayload_mono C :
  fuel_le (unpack_inner (MilestonePayload_packable Q) C) (unpack_inner (MilestonePayload_packable Q') C).
Proof. cbn [MilestonePayload_packable unpack_inner]. fuel_mono. Qed.

Lemma ReceiptPayload_mono C :
  fuel_le (unpack_inner (ReceiptPayload_packable Q) C) (unpack_inner (ReceiptPayload_packable Q') C).
Proof. cbn [ReceiptPayload_packable unpack_inner]. fuel_mono. Qed.
#[local] Hint Resolve TransactionPayload_mono MilestonePayload_mono ReceiptPayload_mono : core.

Lemma Payload_step_mono C : fuel_le (unpack_inner (Payload_step Q) C) (unpack_inner (Payload_step Q') C).
Proof. cbn [Payload_step unpack_inner]. fuel_mono. Qed.
End mono.

Lemma Payload_unpack_S n C :
  Payload_unpack (S n) C
  = unpack_inner (Payload_step {|
      packed_len := Payload_packed_len; pack := Payload_pack; unpack_inner := Payload_unpack n |}) C.
Proof. done. Qed.

Lemma Payload_unpack_mono n n' C : (n <= n')%nat -> fuel_le (Payload_unpack n C) (Payload_unpack n' C).
Proof.
  revert n' C. induction n as [|n IH]; intros n' C Hn.
  - intros bs. cbn. done.
  - destruct n' as [|n']; [lia|]. cbn [Payload_unpack]. apply Payload_step_mono. intros. apply IH. lia.
Qed.

Lemma Payload_unpack_fuel n C : enough_fuel (4 * Z.of_nat n) (Payload_unpack n C).
Proof.
  revert C. induction n as [|n IH]; intros C.
  - intros bs Hbs. pose proof (len_nonneg bs). lia.
  - cbn [Payload_unpack]. replace (4 * Z.of_nat (S n)) with (4 * Z.of_nat n + 4) by lia.
    by apply Payload_step_fuel.
Qed.

(** The decoder of [Payload_packable] terminates with a result of the code. *)
Lemma Payload_unpack_terminates C bs : unpack_inner Payload_packable C bs <> Err FuelExhausted.
Proof.
  intros He. pose proof (Payload_unpack_fuel (S (length bs)) C bs ltac:(unfold len; lia)) as Hf.
  cbn [Payload_packable unpack_inner] in He. by rewrite He in Hf.
Qed.

Lemma Payload_unpack_more n C : fuel_le (Payload_unpack n C) (unpack_inner Payload_packable C).
Proof.
  intros bs Hn. pose proof (Payload_unpack_terminates C bs) as Ht. cbn [Payload_packable unpack_inner] in *.
  destruct (Nat.le_ge_cases n (S (length bs))) as [Hle|Hle].
  - by apply (Payload_unpack_mono n).
  - symmetry. by apply (Payload_unpack_mono (S (length bs))).
Qed.

(** What the encoder computes does not depend on the decoder of the nested payloads. *)
Lemma Payload_packed_len_step l u p :
  packed_len (Payload_step {| packed_len := Payload_packed_len; pack := l; unpack_inner := u |}) p
  = Payload_packed_len p.
Proof. destruct p; reflexivity. Qed.

Lemma Payload_pack_step u p :
  pack (Payload_step {| packed_len := Payload_packed_len; pack := Payload_pack; unpack_inner := u |}) p
  = Payload_pack p.
Proof. destruct p; reflexivity. Qed.

(** The decoder satisfies the recursive equation of the code. *)
Lemma Payload_unpack_unfold C bs :
  unpack_inner Payload_packable C bs = unpack_inner (Payload_step Payload_packable) C bs.
Proof.
  pose proof (Payload_unpack_terminates C bs) as Ht.
  assert (exists n, Payload_unpack n C bs = unpack_inner Payload_packable C bs) as [n Hn]
    by (by exists (S (length bs))).
  assert (Hs : Payload_unpack (S n) C bs = Payload_unpack n C bs)
    by (apply Payload_unpack_mono; [lia | by rewrite Hn]).
  rewrite <- Hn, <- Hs, Payload_unpack_S. symmetry.
  refine (Payload_step_mono Payload_packed_len Payload_pack _ _ (Payload_unpack_more n) C bs _).
  by rewrite <- Payload_unpack_S, Hs, Hn.
Qed.

(** *** Lengths of well-formed payloads *)

Lemma packed_len_all_bound {E A} (Q : Packable E A) c l :
  Forall (fun a => 0 <= packed_len Q a <= c) l -> 0 <= packed_len_all Q l <= c * len l.
Proof. apply sum_Z_bound. Qed.

Lemma Indexation_bound i : wf_IndexationPayload i -> 7 <= packed_len IndexationPayload_packable i <= 32838.
Proof.
  intros [Hi Hd]. unfold INDEXATION_PADDED_INDEX_LENGTH, MESSAGE_LENGTH_MAX in *.
  pose proof (len_nonneg (indexation_data i)). cbn [IndexationPayload_packable packed_len].
  autorewrite with bee. lia.
Qed.

Lemma Treasury_bound t : wf_TreasuryTransactionPayload t -> packed_len TreasuryTransactionPayload_packable t = 42.
Proof. destruct t as [[] []]; intros (_ & _ & ? & ?); done. Qed.

Lemma MigratedFundsEntry_bound f : packed_len MigratedFundsEntry_packable f = 90.
Proof. by destruct f as [h [[a] x]]. Qed.

Lemma Input_bound i : 0 <= packed_len Input_packable i <= 35.
Proof. destruct i; vm_compute; split; congruence. Qed.

Lemma Output_bound o : 0 <= packed_len Output_packable o <= 42.
Proof. destruct o as [[[]]|[[]]|[]]; vm_compute; split; congruence. Qed.

Lemma UnlockBlock_bound u : 0 <= packed_len UnlockBlock_packable u <= 98.
Proof. destruct u as [[]|]; vm_compute; split; congruence. Qed.
End payload_fuel.

Ltac accessors :=
  cbn [transaction_essence regular_essence essence_inputs essence_outputs essence_payload unlock_blocks
    unlock_blocks_inner milestone_essence milestone_signatures essence_index essence_timestamp essence_parents
    essence_merkle_proof essence_next_pow_score essence_next_pow_score_milestone_index essence_public_keys
    essence_receipt receipt_migrated_at receipt_last receipt_funds receipt_transaction] in *.

Section payload_ok.
Context `{IteratorSortedOk}.

Lemma Payload_packed_len_eq p :
  Payload_packed_len p = packed_len (Payload_step Payload_packable) p.
Proof. symmetry. apply Payload_packed_len_step. Qed.

(** Nested payloads are of few kinds, so that well-formedness does not depend on a larger depth. *)
Lemma wf_Payload_collapse n p : wf_Payload_depth n p -> wf_Payload p.
Proof.
  unfold wf_Payload. destruct n as [|n]; [done|].
  destruct p as [[[[i o q]] u]|[[ix ts ps mp np ni ks r] s]|i|[m l f t]|t]; cbn; try done.
  - intros (He & Hu). split; [|done]. destruct He as (? & ? & Hs & Hq). accessors. repeat (split; [done|]).
    destruct Hs as (_ & _ & [->|[j ->]] & _); [done|]. destruct n; [exact (False_ind _ Hq) | exact Hq].
  - intros (He & Hs). split; [|done]. destruct He as (? & ? & ? & ? & ? & ? & ? & Hr & Hq). accessors.
    repeat (split; [done|]). destruct Hr as (_ & _ & _ & _ & [->|[[m l f t] ->]]); [done|].
    destruct n as [|n]; [exact (False_ind _ Hq)|]. destruct Hq as (? & ? & Hf & Ht). accessors. repeat (split; [done|]).
    destruct Hf as (_ & [t' ->] & _). destruct n; [exact (False_ind _ Ht) | exact Ht].
  - intros (? & ? & Hf & Ht). accessors. repeat (split; [done|]). destruct Hf as (_ & [t' ->] & _). destruct n; [exact (False_ind _ Ht) | exact Ht].
Qed.

(** Every well-formed payload is between four bytes and 64 KiB long. *)
Lemma Payload_len_leaf p :
  wf_Payload p -> (exists i, p = Payload_Indexation i) \/ (exists t, p = Payload_TreasuryTransaction t) ->
  4 <= Payload_packed_len p <= 32842.
Proof.
  intros Hp [[i ->]|[t ->]]; rewrite Payload_packed_len_eq; cbn [Payload_step packed_len].
  - pose proof (Indexation_bound i Hp). autorewrite with bee. lia.
  - rewrite Treasury_bound by done. autorewrite with bee. lia.
Qed.

Lemma Receipt_bound r n :
  wf_ReceiptPayload (wf_Payload_depth n) r -> 0 <= packed_len (ReceiptPayload_packable Payload_packable) r <= 44300.
Proof.
  intros (? & Hf & (Hl & [t Ht] & _) & Hw). cbn [ReceiptPayload_packable packed_len].
  apply wf_Payload_collapse in Hw. pose proof (Payload_len_leaf _ Hw ltac:(eauto)) as Hb.
  unfold option_payload_packed_len. cbn [Payload_packable packed_len].
  assert (0 <= packed_len_all MigratedFundsEntry_packable (receipt_funds r) <= 90 * len (receipt_funds r)).
  { apply packed_len_all_bound, Forall_forall. intros. rewrite MigratedFundsEntry_bound. lia. }
  unfold INPUT_OUTPUT_COUNT_MAX in *. autorewrite with bee.
  change (packed_len MilestoneIndex_packable (receipt_migrated_at r)) with 4. lia.
Qed.

Lemma Transaction_bound t n :
  wf_TransactionPayload (wf_Payload_depth n) t ->
  0 <= packed_len (TransactionPayload_packable Payload_packable) t <= 60000.
Proof.
  destruct t as [[[i o q]] [u]]. intros ((_ & _ & (Hi & Ho & Hq & _) & Hw) & (_ & Hu & _) & _).
  accessors.
  assert (0 <= packed_len_all Input_packable i <= 35 * len i)
    by (apply packed_len_all_bound, Forall_true, Input_bound).
  assert (0 <= packed_len_all Output_packable o <= 42 * len o)
    by (apply packed_len_all_bound, Forall_true, Output_bound).
  assert (0 <= packed_len_all UnlockBlock_packable u <= 98 * len u)
    by (apply packed_len_all_bound, Forall_true, UnlockBlock_bound).
  assert (0 <= option_payload_packed_len Payload_packable q <= 32846).
  { unfold option_payload_packed_len. cbn [Payload_packable packed_len]. autorewrite with bee.
    destruct Hq as [->|[j ->]]; [lia|]. apply wf_Payload_collapse in Hw.
    pose proof (Payload_len_leaf _ Hw ltac:(eauto)). lia. }
  cbn [TransactionPayload_packable Essence_packable RegularEssence_packable UnlockBlocks_packable packed_len].
  accessors.
  unfold INPUT_OUTPUT_COUNT_MAX in *. autorewrite with bee. lia.
Qed.

Lemma Parents_bound p : wf_Parents p -> 0 <= packed_len Parents_packable p <= 257.
Proof.
  intros (_ & Hp & _). cbn [Parents_packable packed_len]. unfold MESSAGE_ID_LENGTH. autorewrite with bee. lia.
Qed.

Lemma Milestone_bound m n :
  wf_MilestonePayload (wf_Payload_depth n) m ->
  0 <= packed_len (MilestonePayload_packable Payload_packable) m <= 72000.
Proof.
  destruct m as [[ix ts ps mp np ni ks r] s]. intros (He & Hs & Hl).
  destruct He as (_ & _ & Hps & _ & _ & _ & _ & (_ & _ & Hk & _ & Hr) & Hw).
  accessors.
  pose proof (Parents_bound ps Hps).
  assert (0 <= option_payload_packed_len Payload_packable r <= 44308).
  { unfold option_payload_packed_len. cbn [Payload_packable packed_len]. autorewrite with bee.
    destruct Hr as [->|[rc ->]]; [lia|]. destruct n as [|n]; [exact (False_ind _ Hw)|].
    rewrite Payload_packed_len_eq. cbn [Payload_step packed_len].
    pose proof (Receipt_bound rc n Hw). autorewrite with bee. lia. }
  cbn [MilestonePayload_packable MilestonePayloadEssence_packable packed_len]. accessors.
  unfold MILESTONE_MERKLE_PROOF_LENGTH, MILESTONE_PUBLIC_KEY_LENGTH, MILESTONE_SIGNATURE_LENGTH.
  change (packed_len MilestoneIndex_packable ix) with 4. autorewrite with bee. lia.
Qed.

Lemma Payload_len_bound p : wf_Payload p -> 4 <= Payload_packed_len p <= 72004.
Proof.
  intros Hp. rewrite Payload_packed_len_eq.
  destruct p as [t|m|i|r|t]; cbn [Payload_step packed_len]; autorewrite with bee.
  - pose proof (Transaction_bound t 2 Hp). lia.
  - pose proof (Milestone_bound m 2 Hp). lia.
  - pose proof (Indexation_bound i Hp). lia.
  - pose proof (Receipt_bound r 2 Hp). lia.
  - rewrite Treasury_bound by done. lia.
Qed.

(** With fuel for [n] levels, the codec keeps its promise for the payloads of depth [n]. *)
Lemma Payload_fuel_ok n :
  PackableOk {| packed_len := Payload_packed_len; pack := Payload_pack; unpack_inner := Payload_unpack n |}
    (wf_Payload_depth n).
Proof.
  induction n as [|n IH]; [by split|].
  assert (Hb : forall p, wf_Payload_depth n p -> 0 < Payload_packed_len p < 2 ^ 32).
  { intros p Hp%wf_Payload_collapse%Payload_len_bound. lia. }
  destruct (Payload_step_ok
    {| packed_len := Payload_packed_len; pack := Payload_pack; unpack_inner := Payload_unpack n |} _ Hb) as [Hl Hu Hw Hr]. split; cbn [packed_len pack unpack_inner].
  - intros p Hp. specialize (Hl p Hp). by rewrite Payload_packed_len_step, Payload_pack_step in Hl.
  - intros C p rest Hp. specialize (Hu C p rest Hp). by rewrite Payload_pack_step in Hu.
  - intros bs p rest. rewrite Payload_unpack_S. apply Hw.
  - intros C bs p rest. rewrite Payload_unpack_S. intros (u & -> & Hlen)%Hr. exists u.
    split; [done|]. by rewrite Payload_packed_len_step in Hlen.
Qed.

#[export] Instance Payload_ok : PackableOk Payload_packable wf_Payload.
Proof.
  destruct (Payload_fuel_ok 3) as [Hl Hu _ _]. split; cbn [Payload_packable packed_len pack].
  - done.
  - intros C p rest Hp. specialize (Hu C p rest Hp). cbn [unpack_inner pack] in Hu.
    rewrite (Payload_unpack_more 3); [done|]. by rewrite Hu.
  - intros bs p rest Hu'. eapply wf_Payload_collapse.
    by apply (unpack_wf (PackableOk := Payload_fuel_ok (S (length bs))) bs p rest).
  - intros C bs p rest Hu'. by apply (unpack_len (PackableOk := Payload_fuel_ok (S (length bs))) C bs p rest).
Qed.

(** The composite codecs over [Payload_packable]. *)
Lemma Payload_prefix_bound p : wf_Payload p -> 0 < packed_len Payload_packable p < 2 ^ 32.
Proof. intros Hp%Payload_len_bound. cbn [Payload_packable packed_len]. lia. Qed.
End payload_ok.

(** ** Canonicity

    The decoders of [bool] and of tail transaction hashes accept several encodings of a value, so that receipts
    have no canonical encoding. Every payload without a receipt has one. *)

Definition canonical_at {A} (P : Packable MessageError A) (a : A) : Prop :=
  forall CHECK bs rest, unpack_inner P CHECK bs = Ok (a, rest) -> bs = pack P a ++ rest.

Section canonical.
Context `{IteratorSortedOk}.

Section open.
Context (P : Packable MessageError Payload).

Lemma option_payload_canonical C bs n o rest :
  option_payload_unpack P C bs = Ok ((n, o), rest) -> (forall p, o = Some p -> canonical_at P p) ->
  bs = option_payload_pack P o ++ rest.
Proof.
  unfold option_payload_unpack, option_payload_pack. intros Hu Hc. inv_read.
  pose proof (unpack_wf (P := u32) _ _ _ H1) as Hx. apply (unpack_canonical (P := u32)) in H1 as ->.
  destruct (Z.ltb_spec 0 x); inv_read.
  - destruct (Z.eqb_spec x (packed_len P x1)) as [->|]; inv_read. rewrite as_u_id, <- app_assoc by done. f_equal.
    by apply (Hc x1 eq_refl C).
  - replace x with 0 by (unfold fits in Hx; lia). done.
Qed.

(** A list behind its length. *)
Lemma counted_canonical {E A} (Q : Packable E A) `{!PackableCanonical Q} w (U : Packable io_error Z)
    `{!PackableCanonical U} C bs n r l rest :
  unpack_inner U C bs = Ok (n, r) -> fits w n -> unpack_n Q C (Z.to_nat n) r = Ok (l, rest) ->
  bs = pack U (as_u w (len l)) ++ pack_all Q l ++ rest.
Proof.
  intros HU Hn Hl. pose proof (unpack_n_length Q _ _ _ _ _ Hl). apply (unpack_n_canonical Q) in Hl as ->.
  apply (unpack_canonical (P := U)) in HU as ->. replace (len l) with n by (unfold len, fits in *; lia).
  by rewrite as_u_id.
Qed.

Lemma u16_fits C bs n r : unpack_inner u16 C bs = Ok (n, r) -> fits 16 n.
Proof. apply (unpack_wf (P := u16)). Qed.
Lemma u8_fits C bs n r : unpack_inner u8 C bs = Ok (n, r) -> fits 8 n.
Proof. apply (unpack_wf (P := u8)). Qed.

Lemma RegularEssence_canonical e :
  (forall i, essence_payload e = Some (Payload_Indexation i) -> canonical_at P (Payload_Indexation i)) ->
  canonical_at (RegularEssence_packable P) e.
Proof.
  intros Hc C bs rest Hu. cbn [RegularEssence_packable unpack_inner pack] in *. inv_read.
  match goal with He : RegularEssenceBuilder_finish _ = Ok _ |- _ => apply builder_inv in He as (-> & _ & _ & Hp & _) end.
  destruct x11 as [n o]. accessors. cbn [snd] in *.
  apply option_payload_canonical in H7 as ->; [|intros p ->; destruct Hp as [?|[? [= ->]]]; [done | by apply Hc]].
  pose proof (counted_canonical _ 16 u16 _ _ _ _ _ _ H4 (u16_fits _ _ _ _ H4) H6) as ->.
  pose proof (counted_canonical _ 16 u16 _ _ _ _ _ _ H1 (u16_fits _ _ _ _ H1) H3) as ->.
  by rewrite <- !app_assoc.
Qed.

Lemma Essence_canonical e :
  canonical_at (RegularEssence_packable P) (regular_essence e) -> canonical_at (Essence_packable P) e.
Proof.
  intros Hc C bs rest Hu. cbn [Essence_packable unpack_inner pack] in *. inv_read. kinds.
  apply Hc in H2 as ->. canonical_read. done.
Qed.

Lemma TransactionPayload_canonical t :
  canonical_at (Essence_packable P) (transaction_essence t) -> canonical_at (TransactionPayload_packable P) t.
Proof.
  intros Hc C bs rest Hu. cbn [TransactionPayload_packable unpack_inner pack] in *. inv_read.
  apply transaction_finish_Ok in H3 as [_ ->]. apply Hc in H1 as ->. canonical_read. done.
Qed.

Lemma MilestonePayloadEssence_canonical e :
  (forall p, essence_receipt e = Some p -> canonical_at P p) -> canonical_at (MilestonePayloadEssence_packable P) e.
Proof.
  intros Hc C bs rest Hu. cbn [MilestonePayloadEssence_packable unpack_inner pack] in *. inv_read.
  rewrite MilestonePayloadEssence_new_Ok in *. destruct_and?. subst. accessors.
  match goal with Ho : option_payload_unpack P _ _ = Ok (?r, _) |- _ => destruct r as [n o]; cbn [snd] in *;
    apply option_payload_canonical in Ho as ->; [|done] end.
  match goal with Hk : unpack_n _ _ _ _ = Ok _, Hn : unpack_inner u8 _ _ = Ok _ |- _ =>
    pose proof (counted_canonical _ 8 u8 _ _ _ _ _ _ Hn (u8_fits _ _ _ _ Hn) Hk) as ->; clear Hn Hk end.
  canonical_read. done.
Qed.

Lemma MilestonePayload_canonical m :
  canonical_at (MilestonePayloadEssence_packable P) (milestone_essence m) ->
  canonical_at (MilestonePayload_packable P) m.
Proof.
  intros Hc C bs rest Hu. cbn [MilestonePayload_packable unpack_inner pack] in *. inv_read.
  rewrite MilestonePayload_new_Ok in *. destruct_and?. subst. accessors.
  match goal with Hk : unpack_n _ _ _ _ = Ok _, Hn : unpack_inner u8 _ _ = Ok _ |- _ =>
    pose proof (counted_canonical _ 8 u8 _ _ _ _ _ _ Hn (u8_fits _ _ _ _ Hn) Hk) as ->; clear Hn Hk end.
  match goal with He : unpack_inner (MilestonePayloadEssence_packable P) _ _ = Ok _ |- _ => apply Hc in He as -> end.
  by rewrite <- !app_assoc.
Qed.
End open.

(** A payload without a receipt. *)
Definition receipt_free (p : Payload) : Prop :=
  match p with
  | Payload_Milestone m => essence_receipt (milestone_essence m) = None
  | Payload_Receipt _ => False
  | _ => True
  end.

Lemma Payload_canonical p : receipt_free p -> canonical_at Payload_packable p.
Proof.
  assert (Hi : forall i, canonical_at Payload_packable (Payload_Indexation i)).
  { intros i C bs rest Hu. rewrite Payload_unpack_unfold in Hu. cbn [Payload_step unpack_inner] in Hu. inv_read.
    kinds; simplify_eq. canonical_read. done. }
  intros Hp C bs rest Hu. rewrite Payload_unpack_unfold in Hu. cbn [Payload_packable pack].
  rewrite <- (Payload_pack_step (unpack_inner Payload_packable)).
  cbn [Payload_step unpack_inner pack] in *. inv_read. kinds; cbn [receipt_free] in Hp.
  - apply TransactionPayload_canonical in H2 as ->; [canonical_read; done|].
    apply Essence_canonical, RegularEssence_canonical. intros. apply Hi.
  - apply MilestonePayload_canonical in H2 as ->; [canonical_read; done|].
    apply MilestonePayloadEssence_canonical. by rewrite Hp.
  - canonical_read. done.
  - done.
  - canonical_read. done.
Qed.
End canonical.

(** ** Claims *)

Section claims.
Context `{IteratorSortedOk}.

(** Payloads keep the contract of [Packable]: the encoding of a well-formed payload has the announced length, which
    fits the length prefix, and decodes to the payload; what the checked decoder accepts is well-formed. *)
Theorem payload_codec :
  PackableOk Payload_packable wf_Payload
  /\ forall p, wf_Payload p -> 4 <= packed_len Payload_packable p <= 72004.
Proof. split; [apply _ | apply Payload_len_bound]. Qed.

(** A payload without a receipt has one encoding. *)
Theorem payload_canonical p CHECK bs rest :
  receipt_free p -> unpack_inner Payload_packable CHECK bs = Ok (p, rest) -> bs = pack Payload_packable p ++ rest.
Proof. intros Hp. by apply Payload_canonical. Qed.
End claims.

(** The encodings of a receipt are not unique: the decoder takes every non-zero byte for the flag [last]. *)
Theorem receipt_malleable `{IteratorSorted} (P : Packable MessageError Payload) CHECK migrated_at b rest :
  fits 32 (milestone_index migrated_at) -> fits 8 b -> b <> 0 ->
  unpack_inner (ReceiptPayload_packable P) CHECK (pack MilestoneIndex_packable migrated_at ++ pack u8 b ++ rest)
  = unpack_inner (ReceiptPayload_packable P) CHECK (pack MilestoneIndex_packable migrated_at ++ pack u8 1 ++ rest).
Proof.
  intros Hm Hb Hn. cbn [ReceiptPayload_packable unpack_inner].
  rewrite !(rbind_pack MilestoneIndex_packable wf_MilestoneIndex) by done.
  assert (Hl : forall x, fits 8 x -> x <> 0 ->
    unpack_inner bool_packable CHECK (pack u8 x ++ rest) = Ok (true, rest)).
  { intros x Hx Hx0. cbn [bool_packable unpack_inner]. rewrite (rbind_pack u8 (fits 8)) by done.
    by rewrite (proj2 (Z.eqb_neq x 0)). }
  by rewrite (rbind_run _ _ _ _ _ (Hl b Hb Hn)), (rbind_run _ _ _ _ _ (Hl 1 ltac:(done) ltac:(done))).
Qed.

(** ** Evaluation *)

Module Examples.
Import Concrete.

Lemma payload_codec_witness : PackableOk Payload_packable wf_Payload.
Proof. exact (proj1 payload_codec). Defined.

Definition indexation : Payload := Payload_Indexation (mkIndexationPayload [Byte.x61] [Byte.x62; Byte.x63]).

Lemma payload_canonical_witness : Payload_pack indexation = pack Payload_packable indexation ++ [].
Proof. apply (payload_canonical indexation true); [exact I | vm_compute; reflexivity]. Defined.

Lemma receipt_malleable_witness :
  unpack_inner (ReceiptPayload_packable Payload_packable) true
    (pack MilestoneIndex_packable (MilestoneIndex_new 1) ++ pack u8 2 ++ [])
  = unpack_inner (ReceiptPayload_packable Payload_packable) true
    (pack MilestoneIndex_packable (MilestoneIndex_new 1) ++ pack u8 1 ++ []).
Proof. apply receipt_malleable; vm_compute; intuition congruence. Defined.
End Examples.
