(* ===== verification/Message.v ===== *)
(** * Messages

    Models [bee-message/src/message.rs]: the message, its builder, its identifier and its [Packable]
    implementation. The nonce provider of the builder is the type parameter of the code. *)

From S2P Require Import Prelude Packable Trits External MessageTypes Payload PayloadCodec.
From Stdlib Require Import Sorting.Sorted.

Local Open Scope Z_scope.

(** ** Data *)

Definition MESSAGE_LENGTH_MIN : Z := 53.
Definition DEFAULT_NONCE : Z := 0.

Record Message := mkMessage {
  message_network_id : Z;
  message_parents : Parents;
  message_payload : option Payload;
  message_nonce : Z;
}.

(** ** Operations *)

(** [matches!(payload, None | Some(Transaction(_)) | Some(Milestone(_)) | Some(Indexation(_)))] *)
Definition message_payload_check (payload : option Payload) : result MessageError unit :=
  match payload with
  | None | Some (Payload_Transaction _) | Some (Payload_Milestone _) | Some (Payload_Indexation _) => Ok tt
  | Some payload => Err (InvalidPayloadKind (Payload_kind payload))
  end.

Section message.
Context `{IteratorSorted}.

(** [reader.bytes().next().is_some()] *)
Definition has_remaining_bytes : reader MessageError bool :=
  fun bs => match bs with [] => Ok (false, []) | _ :: bs => Ok (true, bs) end.

Definition Message_packable : Packable MessageError Message := {|
  packed_len self :=
    packed_len u64 (message_network_id self)
    + packed_len Parents_packable (message_parents self)
    + option_payload_packed_len Payload_packable (message_payload self)
    + packed_len u64 (message_nonce self);
  pack self :=
    pack u64 (message_network_id self)
    ++ pack Parents_packable (message_parents self)
    ++ option_payload_pack Payload_packable (message_payload self)
    ++ pack u64 (message_nonce self);
  unpack_inner CHECK :=
    let! network_id := unpack_inner u64 CHECK in
    let! parents := unpack_inner Parents_packable CHECK in
    let! (payload_len, payload) := option_payload_unpack Payload_packable CHECK in
    let! _ := rlift (if (CHECK : bool) then message_payload_check payload else Ok tt) in
    let! nonce := unpack_inner u64 CHECK in
    let message_len :=
      packed_len u64 network_id + packed_len Parents_packable parents + payload_len + packed_len u64 nonce in
    let! _ := rensure (negb (CHECK && (MESSAGE_LENGTH_MAX <? message_len))) (InvalidMessageLength message_len) in
    let! remaining := if CHECK then has_remaining_bytes else rret false in
    let! _ := rensure (negb remaining) RemainingBytesAfterMessage in
    rret (mkMessage network_id parents payload nonce);
|}.

Definition Message_id `{Crypto} (self : Message) : MessageId * bytes :=
  let bs := pack_new Message_packable self in
  (MessageId_new (blake2b256 bs), bs).

(** *** The builder, over the provider of nonces and its target score *)

Section builder.
Context {P f64 : Type} (nonce : P -> bytes -> f64 -> option Z) (default_provider : P) (DEFAULT_POW_SCORE : f64).

Record MessageBuilder := mkMessageBuilder {
  builder_network_id : option Z;
  builder_parents : option Parents;
  builder_message_payload : option Payload;
  builder_nonce_provider : option (P * f64);
}.

Definition MessageBuilder_new : MessageBuilder := mkMessageBuilder None None None None.
Definition with_network_id (self : MessageBuilder) (network_id : Z) : MessageBuilder :=
  mkMessageBuilder (Some network_id) (builder_parents self) (builder_message_payload self) (builder_nonce_provider self).
Definition with_parents (self : MessageBuilder) (parents : Parents) : MessageBuilder :=
  mkMessageBuilder (builder_network_id self) (Some parents) (builder_message_payload self) (builder_nonce_provider self).
Definition with_message_payload (self : MessageBuilder) (payload : Payload) : MessageBuilder :=
  mkMessageBuilder (builder_network_id self) (builder_parents self) (Some payload) (builder_nonce_provider self).
Definition with_nonce_provider (self : MessageBuilder) (provider : P) (target_score : f64) : MessageBuilder :=
  mkMessageBuilder (builder_network_id self) (builder_parents self) (builder_message_payload self)
    (Some (provider, target_score)).

Definition MessageBuilder_finish (self : MessageBuilder) : result MessageError Message :=
  let? network_id := ok_or (builder_network_id self) (MissingField "network_id") in
  let? parents := ok_or (builder_parents self) (MissingField "parents") in
  let? _ := message_payload_check (builder_message_payload self) in
  let message := mkMessage network_id parents (builder_message_payload self) 0 in
  let message_bytes := pack_new Message_packable message in
  let? _ := ensure (len message_bytes <=? MESSAGE_LENGTH_MAX) (InvalidMessageLength (len message_bytes)) in
  let '(nonce_provider, target_score) :=
    default (default_provider, DEFAULT_POW_SCORE) (builder_nonce_provider self) in
  let message_nonce :=
    default DEFAULT_NONCE (nonce nonce_provider (take (length message_bytes - 8) message_bytes) target_score) in
  Ok (mkMessage network_id parents (builder_message_payload self) message_nonce).
End builder.
End message.
Arguments MessageBuilder : clear implicits.

(** ** Well-formed messages *)

Definition message_payload_ok (o : option Payload) : Prop := message_payload_check o = Ok tt.

Definition wf_Message (m : Message) : Prop :=
  fits 64 (message_network_id m) /\ wf_Parents (message_parents m)
  /\ wf_option_payload wf_Payload (message_payload m) /\ message_payload_ok (message_payload m)
  /\ fits 64 (message_nonce m).

(** ** Properties *)

Section message_ok.
Context `{IteratorSortedOk}.

Lemma Message_len m : wf_Message m -> len (pack Message_packable m) = packed_len Message_packable m.
Proof.
  intros (? & ? & Hp & _ & ?). cbn [Message_packable packed_len pack].
  rewrite !len_app, (option_payload_len _ wf_Payload), !packed_len_ok by done. lia.
Qed.

(** The length that the checked decoder compares with the maximum lacks the four bytes of the length prefix of the
    payload. *)
Lemma Message_unpack_pack CHECK m rest :
  wf_Message m -> (CHECK = true -> rest = [] /\ packed_len Message_packable m <= MESSAGE_LENGTH_MAX + 4) ->
  unpack_inner Message_packable CHECK (pack Message_packable m ++ rest) = Ok (m, rest).
Proof.
  destruct m as [ni ps pl nc]. intros (? & ? & Hp & Hk & ?) HC.
  cbn [message_network_id message_parents message_payload message_nonce] in *.
  cbn [Message_packable unpack_inner pack]. cbn [message_network_id message_parents message_payload message_nonce].
  rewrite <- !app_assoc. do 2 run_step.
  rewrite (option_payload_run _ wf_Payload Payload_prefix_bound) by done. cbn beta iota.
  rewrite (rbind_lift _ _ tt) by by destruct CHECK. run_step.
  destruct CHECK; [|done]. destruct (HC eq_refl) as [-> Hl]. cbn [Message_packable packed_len] in Hl.
  cbn [message_network_id message_parents message_payload message_nonce] in Hl.
  rewrite rbind_ensure; [done|]. rewrite andb_true_l, (proj2 (Z.ltb_ge _ _)); [done|].
  unfold option_payload_packed_len, option_payload_size in *. autorewrite with bee in *. destruct pl; lia.
Qed.

Lemma Message_unpack_inv bs m rest :
  unpack_inner Message_packable true bs = Ok (m, rest) ->
  wf_Message m /\ rest = [] /\ len bs = packed_len Message_packable m
  /\ packed_len Message_packable m <= MESSAGE_LENGTH_MAX + 4.
Proof.
  cbn [Message_packable unpack_inner packed_len]. intros Hu. cbv beta iota in Hu. inv_read.
  cbn [message_network_id message_parents message_payload message_nonce].
  match goal with Hr : has_remaining_bytes ?l = _ |- _ => destruct l; cbn in Hr; inv_ok; [|done] end.
  match goal with Ho : option_payload_unpack _ _ _ = Ok _ |- _ =>
    apply (option_payload_inv _ wf_Payload) in Ho as ((? & -> & Hp) & -> & Ho) end.
  match goal with Hk : message_payload_check _ = Ok ?x |- _ => destruct x end.
  pose proof (unpack_wf (P := Parents_packable) _ _ _ H2). pose proof (unpack_wf (P := u64) _ _ _ H1).
  pose proof (unpack_wf (P := u64) _ _ _ H5). split; [by repeat (split; [by auto|])|]. split; [done|].
  split_read. rewrite !len_app, len_nil. rewrite negb_true_iff in H6. bool_to_prop.
  assert (option_payload_packed_len Payload_packable o = 4 + option_payload_size Payload_packable o).
  { unfold option_payload_packed_len, option_payload_size. by autorewrite with bee. }
  autorewrite with bee in *. lia.
Qed.

(** A message whose payload carries no receipt has one encoding. *)
Definition message_receipt_free (m : Message) : Prop :=
  match message_payload m with Some p => receipt_free p | None => True end.

Lemma Message_canonical bs m rest :
  unpack_inner Message_packable true bs = Ok (m, rest) -> message_receipt_free m -> bs = pack Message_packable m.
Proof.
  intros Hu. pose proof (Message_unpack_inv _ _ _ Hu) as (_ & -> & _). revert Hu.
  cbn [Message_packable unpack_inner pack]. intros Hu Hf. cbv beta iota in Hu. inv_read.
  cbn [message_network_id message_parents message_payload message_nonce] in *.
  match goal with Hr : has_remaining_bytes ?l = _ |- _ => destruct l; cbn in Hr; inv_ok; [|done] end.
  match goal with Ho : option_payload_unpack _ _ _ = Ok _ |- _ => apply option_payload_canonical in Ho as -> end.
  - canonical_read. by rewrite app_nil_r.
  - intros p ->. by apply Payload_canonical.
Qed.

(** The pieces of a message that the builder of it received are well-formed. *)
Definition wf_MessageBuilder {P f64} (b : MessageBuilder P f64) : Prop :=
  (forall n, builder_network_id b = Some n -> fits 64 n)
  /\ (forall p, builder_parents b = Some p -> wf_Parents p)
  /\ wf_option_payload wf_Payload (builder_message_payload b).

Lemma MessageBuilder_finish_wf {P f64} nonce dp ds (b : MessageBuilder P f64) m :
  wf_MessageBuilder b -> (forall p bs s n, nonce p bs s = Some n -> fits 64 n) ->
  MessageBuilder_finish nonce dp ds b = Ok m ->
  wf_Message m /\ packed_len Message_packable m <= MESSAGE_LENGTH_MAX.
Proof.
  intros (Hn & Hp & Hb) Hnonce. unfold MessageBuilder_finish. intros Hf.
  destruct (default (dp, ds) (builder_nonce_provider b)) as [prov score]. inv_ok.
  match goal with Hk : message_payload_check _ = Ok ?x |- _ => destruct x end.
  assert (fits 64 0) by done.
  assert (Hw : wf_Message (mkMessage x x0 (builder_message_payload b) 0)) by (repeat (split; [by auto|]); done).
  match goal with Hl : (len _ <=? _) = true |- _ => unfold pack_new in Hl; rewrite Message_len in Hl by done end.
  bool_to_prop. split; [|done]. repeat (split; [by auto|]). cbn [message_nonce].
  destruct (nonce _ _ _) as [nc|] eqn:E; [by apply Hnonce in E | done].
Qed.
End message_ok.

(** ** Claims *)

Section claims.
Context `{IteratorSortedOk}.

(** C30. Decoding the encoding of a well-formed message gives the message back, with and without checks, and
    the encoding has the length [packed_len] announces. The checked decoder accepts it exactly when the length, which
    it computes without the four bytes of the length prefix of the payload, is within the maximum. *)
Theorem message_roundtrip m :
  wf_Message m ->
  len (pack_new Message_packable m) = packed_len Message_packable m
  /\ unpack_unchecked Message_packable (pack_new Message_packable m) = Ok (m, [])
  /\ (unpack Message_packable (pack_new Message_packable m) = Ok (m, [])
      <-> packed_len Message_packable m - 4 <= MESSAGE_LENGTH_MAX).
Proof.
  intros Hm. unfold pack_new, unpack, unpack_unchecked.
  rewrite <- (app_nil_r (pack Message_packable m)) at 2 3. split; [by apply Message_len|].
  split; [by apply Message_unpack_pack|]. split.
  - intros (_ & _ & _ & Hl)%Message_unpack_inv. lia.
  - intros Hl. apply Message_unpack_pack; [done|]. intros _. split; [done | lia].
Qed.

(** C31. A byte string that the checked decoder accepts is consumed completely and decodes to a well-formed message
    of that length: all validity conditions of the parts hold, whatever bytes a peer sends. *)
Theorem message_decode_sound bs m rest :
  unpack Message_packable bs = Ok (m, rest) ->
  wf_Message m /\ rest = [] /\ len bs = packed_len Message_packable m.
Proof. by intros (? & ? & ? & _)%Message_unpack_inv. Qed.

(** C32. A message without a receipt has one encoding: the bytes received are the bytes [pack_new] writes, and the
    identifier of the decoded message is the hash of the bytes received. *)
Theorem message_canonical `{Crypto} bs m rest :
  unpack Message_packable bs = Ok (m, rest) -> message_receipt_free m ->
  Message_id m = (MessageId_new (blake2b256 bs), bs).
Proof. intros Hu Hf. unfold Message_id, pack_new. by rewrite <- (Message_canonical _ _ _ Hu Hf). Qed.

(** What the builder finishes from well-formed parts, a peer decodes to the same message. *)
Theorem message_builder_decodes {P f64} nonce dp ds (b : MessageBuilder P f64) m :
  wf_MessageBuilder b -> (forall p bs s n, nonce p bs s = Some n -> fits 64 n) ->
  MessageBuilder_finish nonce dp ds b = Ok m ->
  unpack Message_packable (pack_new Message_packable m) = Ok (m, []).
Proof.
  intros Hb Hn Hf. apply MessageBuilder_finish_wf in Hf as [Hw Hl]; [|done..].
  unfold unpack, pack_new. rewrite <- (app_nil_r (pack _ m)) at 1.
  apply Message_unpack_pack; [done|]. intros _. split; [done | lia].
Qed.
End claims.

(** ** Evaluation on concrete messages *)

Module Examples.
Import Concrete.

Definition parents : Parents := mkParents [MessageId_new (repeat Byte.x01 32); MessageId_new (repeat Byte.x02 32)].

(** A message with an indexation payload of [n] bytes of data. *)
Definition indexed_message (n : Z) : Message :=
  mkMessage 7 parents (Some (Payload_Indexation (mkIndexationPayload [Byte.x61] (repeat Byte.x00 (Z.to_nat n))))) 0.

Lemma parents_wf : wf_Parents parents.
Proof.
  split; [repeat constructor|]. split; [vm_compute; split; congruence|].
  apply (sorted_by_ok lex_lt). vm_compute. reflexivity.
Qed.

Lemma indexed_message_wf n : 0 <= n <= 32768 -> wf_Message (indexed_message n).
Proof.
  intros Hn. split; [done|]. split; [apply parents_wf|]. split; [|done].
  cbn. unfold wf_IndexationPayload, len, MESSAGE_LENGTH_MAX. cbn [indexation_index indexation_data].
  rewrite repeat_length. split; [vm_compute; split; congruence | lia].
Qed.

Lemma indexed_message_len n : 0 <= n -> packed_len Message_packable (indexed_message n) = 96 + n.
Proof.
  intros Hn.
  cbn [Message_packable packed_len indexed_message message_network_id message_parents message_payload message_nonce].
  unfold option_payload_packed_len. cbn [Payload_packable packed_len].
  rewrite Payload_packed_len_eq. cbn [Payload_step packed_len IndexationPayload_packable indexation_index indexation_data].
  autorewrite with bee. unfold len. rewrite repeat_length.
  change (packed_len Parents_packable parents) with 65. cbn [length]. lia.
Qed.

Lemma indexed_message_oversize n :
  0 <= n <= 32768 -> 96 + n = MESSAGE_LENGTH_MAX + 4 ->
  unpack Message_packable (pack_new Message_packable (indexed_message n)) = Ok (indexed_message n, [])
  /\ MessageBuilder_finish (fun _ _ _ => None) tt tt
       (mkMessageBuilder (P := unit) (f64 := unit) (Some 7) (Some parents) (message_payload (indexed_message n)) None)
     = Err (InvalidMessageLength (MESSAGE_LENGTH_MAX + 4)).
Proof.
  intros Hn Hm. pose proof (indexed_message_wf n Hn) as Hw. pose proof (indexed_message_len n (proj1 Hn)) as Hl. split.
  - unfold unpack, pack_new. rewrite <- (app_nil_r (pack _ _)) at 1.
    apply Message_unpack_pack; [done|]. intros _. split; [reflexivity | lia].
  - unfold MessageBuilder_finish. cbn [builder_network_id builder_parents builder_message_payload ok_or result_bind
      message_payload_check message_payload indexed_message].
    fold (indexed_message n). unfold pack_new. rewrite Message_len, Hl, Hm by done. reflexivity.
Qed.

(** The checked decoder accepts a message of 32772 bytes, longer than [MESSAGE_LENGTH_MAX], that the builder
    refuses: its computation of the length leaves out the four bytes of the payload length. *)
Theorem message_oversize_accepted :
  let m := indexed_message 32676 in
  packed_len Message_packable m = MESSAGE_LENGTH_MAX + 4
  /\ unpack Message_packable (pack_new Message_packable m) = Ok (m, [])
  /\ MessageBuilder_finish (fun _ _ _ => None) tt tt
       (mkMessageBuilder (P := unit) (f64 := unit) (Some 7) (Some parents) (message_payload m) None)
     = Err (InvalidMessageLength (MESSAGE_LENGTH_MAX + 4)).
Proof.
  cbv zeta. split; [rewrite indexed_message_len by lia; reflexivity|].
  apply indexed_message_oversize; [lia | reflexivity].
Qed.

Lemma message_roundtrip_witness :
  wf_Message (indexed_message 3)
  /\ unpack_unchecked Message_packable (pack_new Message_packable (indexed_message 3)) = Ok (indexed_message 3, []).
Proof.
  assert (H : wf_Message (indexed_message 3)) by (apply indexed_message_wf; lia).
  split; [exact H|]. exact (proj1 (proj2 (message_roundtrip (indexed_message 3) H))).
Defined.

Lemma message_decode_sound_witness :
  wf_Message (indexed_message 3) /\ @nil Byte.byte = []
  /\ len (pack_new Message_packable (indexed_message 3)) = packed_len Message_packable (indexed_message 3).
Proof. apply (message_decode_sound _ _ []). vm_compute. reflexivity. Defined.

Lemma message_canonical_witness :
  Message_id (indexed_message 3)
  = (MessageId_new (blake2b256 (pack_new Message_packable (indexed_message 3))),
     pack_new Message_packable (indexed_message 3)).
Proof. apply (message_canonical _ _ []); [vm_compute; reflexivity | exact I]. Defined.

Lemma message_builder_decodes_witness :
  let m := indexed_message 3 in
  unpack Message_packable (pack_new Message_packable m) = Ok (m, []).
Proof.
  apply (message_builder_decodes (fun _ _ _ => None) tt tt
    (mkMessageBuilder (P := unit) (f64 := unit) (Some 7) (Some parents) (message_payload (indexed_message 3)) None)).
  - split; [by intros n [= <-]|]. split; [intros p [= <-]; apply parents_wf|].
    apply (indexed_message_wf 3). lia.
  - done.
  - vm_compute. reflexivity.
Defined.
End Examples.
