(* ===== verification/Packets.v ===== *)
(** * Packets of the gossip protocol

    Models [bee-protocol/src/workers/packets] (the header, the four kinds of packets and their encoding by type, length and
    value) and [workers/peer/packet_handler.rs], which cuts the stream of bytes that arrives from a peer into packets.

    Buffers that are written have the size that [size] returns, so that writing is modelled by the bytes written. Reading
    may panic when a buffer is too short; [None] is a panic, and [tlv_from_bytes_total] shows that the checks before it
    exclude it. The handler receives events, each with some bytes; [fetch_packet] returns no packet when the events that
    have arrived do not complete one, which is where the code waits. *)

From S2P Require Import Prelude MessageTypes Payload Message.

Local Open Scope Z_scope.

(** ** Headers: [header.rs] *)

Definition HEADER_TYPE_SIZE : Z := 1.
Definition HEADER_LENGTH_SIZE : Z := 2.
Definition HEADER_SIZE : Z := HEADER_TYPE_SIZE + HEADER_LENGTH_SIZE.

Record HeaderPacket := mkHeaderPacket {
  packet_type : Z;
  packet_length : Z;
}.

(** The buffer has [HEADER_SIZE] bytes. *)
Definition HeaderPacket_from_bytes (bs : bytes) : HeaderPacket :=
  mkHeaderPacket (from_le_bytes (take 1 bs)) (from_le_bytes (drop 1 bs)).

Definition HeaderPacket_to_bytes (self : HeaderPacket) : bytes :=
  byte_of_u8 (packet_type self) :: to_le_bytes 2 (packet_length self).

(** ** Packets: [mod.rs] *)

(** The range of sizes is half open. *)
Class Packet (P : Type) := {
  PACKET_ID : Z;
  size_range : Z * Z;
  packet_from_bytes : bytes -> option P;
  packet_size : P -> Z;
  packet_to_bytes : P -> bytes;
}.
Arguments PACKET_ID P {_}.
Arguments size_range P {_}.

(** [split_at]: a panic when the slice is too short. *)
Definition split_at (n : Z) (bs : bytes) : option (bytes * bytes) :=
  if n <=? len bs then Some (take (Z.to_nat n) bs, drop (Z.to_nat n) bs) else None.

(** *** Heartbeats: [heartbeat.rs] *)

Record HeartbeatPacket := mkHeartbeatPacket {
  heartbeat_solid_milestone_index : Z;
  heartbeat_pruned_index : Z;
  heartbeat_latest_milestone_index : Z;
  heartbeat_connected_peers : Z;
  heartbeat_synced_peers : Z;
}.

Definition HEARTBEAT_SIZE : Z := 14.

Definition HeartbeatPacket_from_bytes (bs : bytes) : option HeartbeatPacket :=
  '(solid, next) ← split_at 4 bs;
  '(pruned, next) ← split_at 4 next;
  '(latest, next) ← split_at 4 next;
  '(connected, next) ← split_at 1 next;
  '(synced, _) ← split_at 1 next;
  Some (mkHeartbeatPacket (from_le_bytes solid) (from_le_bytes pruned) (from_le_bytes latest) (from_le_bytes connected)
          (from_le_bytes synced)).

Definition HeartbeatPacket_to_bytes (self : HeartbeatPacket) : bytes :=
  to_le_bytes 4 (heartbeat_solid_milestone_index self) ++ to_le_bytes 4 (heartbeat_pruned_index self)
  ++ to_le_bytes 4 (heartbeat_latest_milestone_index self) ++ to_le_bytes 1 (heartbeat_connected_peers self)
  ++ to_le_bytes 1 (heartbeat_synced_peers self).

#[export] Instance HeartbeatPacket_packet : Packet HeartbeatPacket := {|
  PACKET_ID := 4;
  size_range := (HEARTBEAT_SIZE, HEARTBEAT_SIZE + 1);
  packet_from_bytes := HeartbeatPacket_from_bytes;
  packet_size _ := HEARTBEAT_SIZE;
  packet_to_bytes := HeartbeatPacket_to_bytes;
|}.

(** *** Messages: [message.rs] *)

Record MessagePacket := MessagePacket_new { message_packet_bytes : bytes }.

#[export] Instance MessagePacket_packet : Packet MessagePacket := {|
  PACKET_ID := 2;
  size_range := (MESSAGE_LENGTH_MIN, MESSAGE_LENGTH_MAX + 1);
  packet_from_bytes bs := Some (MessagePacket_new bs);
  packet_size self := len (message_packet_bytes self);
  packet_to_bytes := message_packet_bytes;
|}.

(** *** Requests: [message_request.rs], [milestone_request.rs] *)

Record MessageRequestPacket := MessageRequestPacket_new { request_message_id : MessageId }.

#[export] Instance MessageRequestPacket_packet : Packet MessageRequestPacket := {|
  PACKET_ID := 3;
  size_range := (32, 33);
  packet_from_bytes bs := r ← split_at 32 bs; Some (MessageRequestPacket_new (MessageId_new (r.1)));
  packet_size _ := 32;
  packet_to_bytes self := message_id_bytes (request_message_id self);
|}.

Record MilestoneRequestPacket := MilestoneRequestPacket_new { request_index : Z }.

#[export] Instance MilestoneRequestPacket_packet : Packet MilestoneRequestPacket := {|
  PACKET_ID := 1;
  size_range := (4, 5);
  packet_from_bytes bs := r ← split_at 4 bs; Some (MilestoneRequestPacket_new (from_le_bytes (r.1)));
  packet_size _ := 4;
  packet_to_bytes self := to_le_bytes 4 (request_index self);
|}.

(** ** Type, length and value: [tlv.rs] *)

Inductive TlvError :=
| InvalidAdvertisedType (found advertised : Z)
| InvalidAdvertisedLength (type_id advertised found : Z)
| Tlv_InvalidLength (type_id length : Z).

Definition tlv_from_bytes P `{Packet P} (header : HeaderPacket) (bs : bytes) : option (result TlvError P) :=
  if negb (packet_type header =? PACKET_ID P) then Some (Err (InvalidAdvertisedType (PACKET_ID P) (packet_type header)))
  else if negb (packet_length header =? len bs)
  then Some (Err (InvalidAdvertisedLength (packet_type header) (packet_length header) (len bs)))
  else if negb (((size_range P).1 <=? len bs) && (len bs <? (size_range P).2))
  then Some (Err (Tlv_InvalidLength (packet_type header) (len bs)))
  else packet ← packet_from_bytes bs; Some (Ok packet).

Definition tlv_to_bytes `{Packet P} (packet : P) : bytes :=
  HeaderPacket_to_bytes (mkHeaderPacket (PACKET_ID P) (as_u 16 (packet_size packet))) ++ packet_to_bytes packet.

(** ** Streams: [packet_handler.rs] *)

Inductive ReadState :=
| ReadState_Header
| ReadState_Payload (header : HeaderPacket).

(** [receiver] has the events that have arrived and were not yet received. *)
Record EventHandler := mkEventHandler {
  event_receiver : list bytes;
  event_buffer : bytes;
  event_offset : Z;
}.

Record PacketHandler := mkPacketHandler {
  handler_events : EventHandler;
  handler_state : ReadState;
}.

Definition EventHandler_new (receiver : list bytes) : EventHandler := mkEventHandler receiver [] 0.
Definition PacketHandler_new (receiver : list bytes) : PacketHandler :=
  mkPacketHandler (EventHandler_new receiver) ReadState_Header.

(** The buffer and the offset after an event was pushed. *)
Definition push_event (buffer : bytes) (offset : Z) (event : bytes) : bytes * Z :=
  (drop (Z.to_nat offset) buffer ++ event, 0).

(** The bytes, or nothing while events are missing, and the handler afterwards. *)
Fixpoint fetch_bytes_loop (n : Z) (receiver : list bytes) (buffer : bytes) (offset : Z) : option bytes * EventHandler :=
  if len buffer <? offset + n then
    match receiver with
    | event :: receiver =>
        let '(buffer, offset) := push_event buffer offset event in fetch_bytes_loop n receiver buffer offset
    | [] => (None, mkEventHandler [] buffer offset)
    end
  else (Some (take (Z.to_nat n) (drop (Z.to_nat offset) buffer)), mkEventHandler receiver buffer (offset + n)).

Definition fetch_bytes (n : Z) (self : EventHandler) : option bytes * EventHandler :=
  fetch_bytes_loop n (event_receiver self) (event_buffer self) (event_offset self).

(** The iteration that reads a payload. *)
Definition fetch_payload (header : HeaderPacket) (events : EventHandler) : option (HeaderPacket * bytes) * PacketHandler :=
  match fetch_bytes (packet_length header) events with
  | (Some bs, events) => (Some (header, bs), mkPacketHandler events ReadState_Header)
  | (None, events) => (None, mkPacketHandler events (ReadState_Payload header))
  end.

(** The loop runs at most twice: a header and then a payload. *)
Definition fetch_packet (self : PacketHandler) : option (HeaderPacket * bytes) * PacketHandler :=
  match handler_state self with
  | ReadState_Header =>
      match fetch_bytes HEADER_SIZE (handler_events self) with
      | (Some bs, events) => fetch_payload (HeaderPacket_from_bytes bs) events
      | (None, events) => (None, mkPacketHandler events ReadState_Header)
      end
  | ReadState_Payload header => fetch_payload header (handler_events self)
  end.

(** The packets that can be read before the handler waits; fuel for the number of packets. *)
Fixpoint fetch_packets (fuel : nat) (self : PacketHandler) : list (HeaderPacket * bytes) * PacketHandler :=
  match fuel with
  | O => ([], self)
  | S fuel =>
      match fetch_packet self with
      | (Some packet, self) => let '(packets, self) := fetch_packets fuel self in (packet :: packets, self)
      | (None, self) => ([], self)
      end
  end.

(** Events that arrive later. *)
Definition deliver (self : PacketHandler) (events : list bytes) : PacketHandler :=
  let 'mkPacketHandler (mkEventHandler receiver buffer offset) state := self in
  mkPacketHandler (mkEventHandler (receiver ++ events) buffer offset) state.

(** The packets that are read while the events arrive in batches. *)
Fixpoint fetch_batches (fuel : nat) (self : PacketHandler) (batches : list (list bytes)) : list (HeaderPacket * bytes) :=
  match batches with
  | [] => []
  | events :: batches =>
      let '(packets, self) := fetch_packets fuel (deliver self events) in packets ++ fetch_batches fuel self batches
  end.

(** ** Packets of any kind: the dispatch of [process_packet] in [peer/mod.rs] *)

Inductive AnyPacket :=
| Packet_MilestoneRequest (packet : MilestoneRequestPacket)
| Packet_Message (packet : MessagePacket)
| Packet_MessageRequest (packet : MessageRequestPacket)
| Packet_Heartbeat (packet : HeartbeatPacket).

Inductive PeerError :=
| UnsupportedPacketType (packet_type : Z)
| Peer_TlvError (e : TlvError).

#[export] Instance from_tlv_error : From TlvError PeerError := Peer_TlvError.

Definition any_map {P} (f : P -> AnyPacket) (r : option (result TlvError P)) : option (result PeerError AnyPacket) :=
  r ← r; Some (let? packet := r in Ok (f packet)).

Definition parse_packet (header : HeaderPacket) (bs : bytes) : option (result PeerError AnyPacket) :=
  if packet_type header =? PACKET_ID MilestoneRequestPacket
  then any_map Packet_MilestoneRequest (tlv_from_bytes MilestoneRequestPacket header bs)
  else if packet_type header =? PACKET_ID MessagePacket
  then any_map Packet_Message (tlv_from_bytes MessagePacket header bs)
  else if packet_type header =? PACKET_ID MessageRequestPacket
  then any_map Packet_MessageRequest (tlv_from_bytes MessageRequestPacket header bs)
  else if packet_type header =? PACKET_ID HeartbeatPacket
  then any_map Packet_Heartbeat (tlv_from_bytes HeartbeatPacket header bs)
  else Some (Err (UnsupportedPacketType (packet_type header))).

Definition any_to_bytes (p : AnyPacket) : bytes :=
  match p with
  | Packet_MilestoneRequest p => tlv_to_bytes p
  | Packet_Message p => tlv_to_bytes p
  | Packet_MessageRequest p => tlv_to_bytes p
  | Packet_Heartbeat p => tlv_to_bytes p
  end.

(** ** The encoding of one packet *)

(** What the encoding needs of a kind of packets. *)
Class PacketOk (P : Type) `{Packet P} (wf : P -> Prop) : Prop := {
  packet_id_ok : fits 8 (PACKET_ID P);
  packet_range_ok : 0 <= (size_range P).1 /\ (size_range P).2 <= 2 ^ 16;
  packet_size_ok p : wf p -> len (packet_to_bytes p) = packet_size p /\ (size_range P).1 <= packet_size p < (size_range P).2;
  packet_from_to p : wf p -> packet_from_bytes (packet_to_bytes p) = Some p;
  packet_total bs : (size_range P).1 <= len bs < (size_range P).2 ->
    exists p, packet_from_bytes bs = Some p /\ wf p /\ packet_to_bytes p = bs;
}.

Definition wf_HeartbeatPacket (p : HeartbeatPacket) : Prop :=
  fits 32 (heartbeat_solid_milestone_index p) /\ fits 32 (heartbeat_pruned_index p) /\ fits 32 (heartbeat_latest_milestone_index p)
  /\ fits 8 (heartbeat_connected_peers p) /\ fits 8 (heartbeat_synced_peers p).
Definition wf_MessagePacket (p : MessagePacket) : Prop := MESSAGE_LENGTH_MIN <= len (message_packet_bytes p) <= MESSAGE_LENGTH_MAX.
Definition wf_MessageRequestPacket (p : MessageRequestPacket) : Prop := len (message_id_bytes (request_message_id p)) = 32.
Definition wf_MilestoneRequestPacket (p : MilestoneRequestPacket) : Prop := fits 32 (request_index p).
Definition wf_AnyPacket (p : AnyPacket) : Prop :=
  match p with
  | Packet_MilestoneRequest p => wf_MilestoneRequestPacket p
  | Packet_Message p => wf_MessagePacket p
  | Packet_MessageRequest p => wf_MessageRequestPacket p
  | Packet_Heartbeat p => wf_HeartbeatPacket p
  end.

Lemma split_at_app n (a b : bytes) : len a = n -> split_at n (a ++ b) = Some (a, b).
Proof.
  intros Ha. unfold split_at. rewrite len_app, (proj2 (Z.leb_le _ _)) by (pose proof (len_nonneg b); lia).
  replace (Z.to_nat n) with (length a) by (unfold len in Ha; lia). by rewrite take_app_length, drop_app_length.
Qed.

Lemma split_at_Some n bs : 0 <= n <= len bs ->
  exists a b, split_at n bs = Some (a, b) /\ bs = a ++ b /\ len a = n /\ len b = len bs - n.
Proof.
  intros Hn. unfold split_at. rewrite (proj2 (Z.leb_le _ _)) by lia. eexists _, _. split; [done|].
  unfold len in *. rewrite length_take, length_drop, take_drop. split; [done | lia].
Qed.

Lemma len_zero (bs : bytes) : len bs = 0 -> bs = [].
Proof. by destruct bs. Qed.

Lemma to_from_le n (bs : bytes) : length bs = n -> to_le_bytes n (from_le_bytes bs) = bs.
Proof. intros <-. apply to_from_le_bytes. Qed.

Lemma from_le_fits (n : Z) bs : len bs = n -> fits (8 * n) (from_le_bytes bs).
Proof. intros <-. apply from_le_bytes_fits. Qed.

#[export] Instance MessagePacket_ok : PacketOk MessagePacket wf_MessagePacket.
Proof.
  split; cbn; unfold wf_MessagePacket, fits, MESSAGE_LENGTH_MIN, MESSAGE_LENGTH_MAX; [lia | lia | | by intros [] |].
  - intros p Hp. lia.
  - intros bs Hbs. exists (MessagePacket_new bs). cbn. split_and!; done || lia.
Qed.

#[export] Instance MessageRequestPacket_ok : PacketOk MessageRequestPacket wf_MessageRequestPacket.
Proof.
  split; cbn; unfold wf_MessageRequestPacket, fits; [lia | lia | intros p Hp; lia | |].
  - intros [[bs]] Hp. cbn in *. rewrite <- (app_nil_r bs), split_at_app by done. cbn. by rewrite app_nil_r.
  - intros bs Hbs. destruct (split_at_Some 32 bs) as (a & b & -> & -> & Ha & Hb); [lia|]. rewrite len_app in *.
    eexists. split; [done|]. cbn. by rewrite (len_zero b), app_nil_r by lia.
Qed.

#[export] Instance MilestoneRequestPacket_ok : PacketOk MilestoneRequestPacket wf_MilestoneRequestPacket.
Proof.
  split; cbn; unfold wf_MilestoneRequestPacket; [unfold fits; lia | lia | | |].
  - intros p Hp. by rewrite (len_to_le_bytes 4).
  - intros [i] Hp. cbn [request_index] in *. rewrite <- (app_nil_r (to_le_bytes 4 i)), split_at_app by apply len_to_le_bytes. cbn [mbind option_bind fst].
    by rewrite from_to_le_bytes.
  - intros bs Hbs. destruct (split_at_Some 4 bs) as (a & b & -> & -> & Ha & Hb); [lia|]. rewrite len_app in *.
    eexists. split; [done|]. cbn [request_index fst]. split; [by apply (from_le_fits 4)|].
    rewrite to_from_le by (unfold len in Ha; lia).
    by rewrite (len_zero b), app_nil_r by lia.
Qed.

#[export] Instance HeartbeatPacket_ok : PacketOk HeartbeatPacket wf_HeartbeatPacket.
Proof.
  split; cbn [PACKET_ID size_range packet_from_bytes packet_size packet_to_bytes HeartbeatPacket_packet fst snd];
    unfold wf_HeartbeatPacket, HEARTBEAT_SIZE; [unfold fits; lia | lia | | |].
  - intros p Hp. unfold HeartbeatPacket_to_bytes. rewrite !len_app, !len_to_le_bytes. lia.
  - intros [a b c d e] (Ha & Hb & Hc & Hd & He). unfold HeartbeatPacket_from_bytes, HeartbeatPacket_to_bytes.
    cbn [heartbeat_solid_milestone_index heartbeat_pruned_index heartbeat_latest_milestone_index heartbeat_connected_peers heartbeat_synced_peers] in *.
    rewrite (split_at_app 4) by apply len_to_le_bytes. cbn [mbind option_bind].
    rewrite (split_at_app 4) by apply len_to_le_bytes. cbn [mbind option_bind].
    rewrite (split_at_app 4) by apply len_to_le_bytes. cbn [mbind option_bind].
    rewrite (split_at_app 1) by apply len_to_le_bytes. cbn [mbind option_bind].
    rewrite <- (app_nil_r (to_le_bytes 1 e)), (split_at_app 1) by apply len_to_le_bytes. cbn [mbind option_bind].
    rewrite !from_to_le_bytes by done. done.
  - intros bs Hbs. unfold HeartbeatPacket_from_bytes.
    destruct (split_at_Some 4 bs) as (a & r1 & -> & -> & Ha & H1); [lia|]. rewrite len_app in *. cbn [mbind option_bind].
    destruct (split_at_Some 4 r1) as (b & r2 & -> & -> & Hb & H2); [lia|]. rewrite len_app in *. cbn [mbind option_bind].
    destruct (split_at_Some 4 r2) as (c & r3 & -> & -> & Hc & H3); [lia|]. rewrite len_app in *. cbn [mbind option_bind].
    destruct (split_at_Some 1 r3) as (d & r4 & -> & -> & Hd & H4); [lia|]. rewrite len_app in *. cbn [mbind option_bind].
    destruct (split_at_Some 1 r4) as (e & r5 & -> & -> & He & H5); [lia|]. rewrite len_app in *. cbn [mbind option_bind].
    eexists. split; [done|]. cbn. split.
    + split_and!; by apply (from_le_fits 4) || by apply (from_le_fits 1).
    + unfold HeartbeatPacket_to_bytes. cbn [heartbeat_solid_milestone_index heartbeat_pruned_index heartbeat_latest_milestone_index
        heartbeat_connected_peers heartbeat_synced_peers]. rewrite !to_from_le by (unfold len in *; lia).
      by rewrite (len_zero r5), !app_nil_r by lia.
Qed.

Lemma header_from_to h rest : fits 8 (packet_type h) -> fits 16 (packet_length h) ->
  HeaderPacket_from_bytes (take 3 (HeaderPacket_to_bytes h ++ rest)) = h.
Proof.
  intros Ht Hl. destruct h as [t l]. cbn in Ht, Hl. unfold HeaderPacket_to_bytes, HeaderPacket_from_bytes.
  change (byte_of_u8 (packet_type (mkHeaderPacket t l)) :: to_le_bytes 2 (packet_length (mkHeaderPacket t l)))
    with (to_le_bytes 1 t ++ to_le_bytes 2 l). rewrite take_app_length' by (by rewrite length_app, !length_to_le_bytes).
  rewrite take_app_length', drop_app_length' by (by rewrite length_to_le_bytes). by rewrite !from_to_le_bytes.
Qed.

Section tlv.
Context (P : Type) `{PacketOk P wf}.

Lemma tlv_header_ok (p : P) : wf p ->
  let h := mkHeaderPacket (PACKET_ID P) (as_u 16 (packet_size p)) in
  fits 8 (packet_type h) /\ fits 16 (packet_length h) /\ packet_length h = len (packet_to_bytes p).
Proof.
  intros Hp. destruct (packet_size_ok p Hp) as [Hs Hr]. destruct (packet_range_ok (P := P)) as [H1 H2]. cbn. split_and!.
  - apply packet_id_ok.
  - apply as_u_fits. lia.
  - rewrite as_u_id by (unfold fits; lia). done.
Qed.

Lemma tlv_from_to (p : P) : wf p ->
  tlv_from_bytes P (mkHeaderPacket (PACKET_ID P) (as_u 16 (packet_size p))) (packet_to_bytes p) = Some (Ok p).
Proof.
  intros Hp. destruct (tlv_header_ok p Hp) as (_ & _ & Hl). cbn in Hl. destruct (packet_size_ok p Hp) as [Hs Hr].
  unfold tlv_from_bytes. cbn [packet_type packet_length]. rewrite Z.eqb_refl, Hl, Z.eqb_refl, Hs. cbn [negb].
  rewrite (proj2 (Z.leb_le _ _)), (proj2 (Z.ltb_lt _ _)) by lia. cbn [andb negb]. by rewrite (packet_from_to p Hp).
Qed.

(** The checks exclude that [from_bytes] panics, and what is accepted is the encoding of the packet. *)
Lemma tlv_from_bytes_total h bs :
  (exists e, tlv_from_bytes P h bs = Some (Err e))
  \/ exists p, tlv_from_bytes P h bs = Some (Ok p) /\ wf p /\ packet_to_bytes p = bs
       /\ packet_type h = PACKET_ID P /\ packet_length h = len bs.
Proof.
  unfold tlv_from_bytes. destruct (Z.eqb_spec (packet_type h) (PACKET_ID P)); cbn [negb]; [|left; by eexists].
  destruct (Z.eqb_spec (packet_length h) (len bs)); cbn [negb]; [|left; by eexists].
  destruct (Z.leb_spec (size_range P).1 (len bs)); cbn [andb negb]; [|left; by eexists].
  destruct (Z.ltb_spec (len bs) (size_range P).2); cbn [negb]; [|left; by eexists].
  right. destruct (packet_total (P := P) bs) as (p & -> & Hp & Hb); [lia|]. exists p. by split_and!.
Qed.
End tlv.

(** Any packet: the header, the payload, and what is parsed. *)
Definition any_frame (p : AnyPacket) : HeaderPacket * bytes :=
  match p with
  | Packet_MilestoneRequest p => (mkHeaderPacket (PACKET_ID MilestoneRequestPacket) (as_u 16 (packet_size p)), packet_to_bytes p)
  | Packet_Message p => (mkHeaderPacket (PACKET_ID MessagePacket) (as_u 16 (packet_size p)), packet_to_bytes p)
  | Packet_MessageRequest p => (mkHeaderPacket (PACKET_ID MessageRequestPacket) (as_u 16 (packet_size p)), packet_to_bytes p)
  | Packet_Heartbeat p => (mkHeaderPacket (PACKET_ID HeartbeatPacket) (as_u 16 (packet_size p)), packet_to_bytes p)
  end.

Definition wf_frame (f : HeaderPacket * bytes) : Prop :=
  fits 8 (packet_type f.1) /\ fits 16 (packet_length f.1) /\ packet_length f.1 = len f.2.

Lemma any_frame_ok p : wf_AnyPacket p ->
  any_to_bytes p = HeaderPacket_to_bytes (any_frame p).1 ++ (any_frame p).2 /\ wf_frame (any_frame p)
  /\ parse_packet (any_frame p).1 (any_frame p).2 = Some (Ok p).
Proof.
  intros Hp. destruct p as [p|p|p|p]; cbn in Hp; (split; [done|]); (split; [by apply (tlv_header_ok _)|]);
    unfold parse_packet; cbn [any_frame fst snd packet_type];
    repeat match goal with |- context [?a =? ?b] => let r := eval vm_compute in (a =? b) in change (a =? b) with r end; cbn iota;
    unfold any_map; by rewrite (tlv_from_to _ p Hp).
Qed.

(** C17. Whatever bytes a peer sends, parsing a packet does not panic; a packet that is accepted is well formed, and its
    encoding is the header and the bytes that arrived. *)
Theorem parse_packet_total h bs :
  (exists e, parse_packet h bs = Some (Err e))
  \/ exists p, parse_packet h bs = Some (Ok p) /\ wf_AnyPacket p /\ any_to_bytes p = HeaderPacket_to_bytes h ++ bs.
Proof.
  assert (Hone : forall P `{PacketOk P wf} (f : P -> AnyPacket),
    (forall p, wf p -> wf_AnyPacket (f p) /\ any_to_bytes (f p) = tlv_to_bytes p) ->
    (exists e, any_map f (tlv_from_bytes P h bs) = Some (Err e))
    \/ exists p, any_map f (tlv_from_bytes P h bs) = Some (Ok p) /\ wf_AnyPacket p /\ any_to_bytes p = HeaderPacket_to_bytes h ++ bs).
  { intros P ? wf ? f Hf. destruct (tlv_from_bytes_total P h bs) as [[e He]|(p & Hr & Hp & Hb & Ht & Hl)].
    - left. unfold any_map. rewrite He. by eexists.
    - right. exists (f p). destruct (Hf p Hp) as [Hw Ha]. unfold any_map. rewrite Hr. split_and!; [done | done|]. rewrite Ha.
      unfold tlv_to_bytes. rewrite Hb. f_equal. destruct h as [t l]. cbn in *. subst t l. rewrite <- Hb.
      destruct (tlv_header_ok P p Hp) as (_ & _ & Hx). cbn in Hx. by rewrite Hx. }
  unfold parse_packet. destruct (_ =? _); [by apply (Hone _ _ wf_MilestoneRequestPacket _)|].
  destruct (_ =? _); [by apply (Hone _ _ wf_MessagePacket _)|]. destruct (_ =? _); [by apply (Hone _ _ wf_MessageRequestPacket _)|].
  destruct (_ =? _); [by apply (Hone _ _ wf_HeartbeatPacket _)|]. left. by eexists.
Qed.

(** ** The stream *)

(** The bytes that were not read yet. *)
Definition unread (self : EventHandler) : bytes := drop (Z.to_nat (event_offset self)) (event_buffer self) ++ concat (event_receiver self).

Definition events_ok (self : EventHandler) : Prop := 0 <= event_offset self <= len (event_buffer self).

Lemma fetch_bytes_spec n self : 0 <= n -> events_ok self ->
  let '(r, self') := fetch_bytes n self in
  events_ok self'
  /\ if n <=? len (unread self) then r = Some (take (Z.to_nat n) (unread self)) /\ unread self' = drop (Z.to_nat n) (unread self)
     else r = None /\ unread self' = unread self /\ event_receiver self' = [].
Proof.
  destruct self as [receiver buffer offset]. unfold fetch_bytes, events_ok, unread. cbn [event_receiver event_buffer event_offset].
  intros Hn. revert buffer offset. induction receiver as [|event receiver IH]; intros buffer offset Ho; cbn [fetch_bytes_loop concat].
  - destruct (Z.ltb_spec (len buffer) (offset + n)); cbn [event_receiver event_buffer event_offset concat].
    + rewrite app_nil_r. rewrite (proj2 (Z.leb_gt _ _)) by (unfold len in *; rewrite length_drop; lia). by rewrite ?app_nil_r.
    + rewrite app_nil_r. rewrite (proj2 (Z.leb_le _ _)) by (unfold len in *; rewrite length_drop; lia). rewrite ?app_nil_r, drop_drop.
      split; [lia|]. split; [done|]. f_equal. lia.
  - destruct (Z.ltb_spec (len buffer) (offset + n)); cbn [push_event event_receiver event_buffer event_offset].
    + specialize (IH (drop (Z.to_nat offset) buffer ++ event) 0). change (Z.to_nat 0) with 0%nat in IH. rewrite drop_0, <- app_assoc in IH. apply IH.
      pose proof (len_nonneg (drop (Z.to_nat offset) buffer ++ event)). lia.
    + assert (Hl : n <= len (drop (Z.to_nat offset) buffer)) by (unfold len in *; rewrite length_drop; lia).
      rewrite (proj2 (Z.leb_le _ _)) by (rewrite len_app; pose proof (len_nonneg (event ++ concat receiver)); lia).
      split; [lia|]. unfold len in Hl. rewrite take_app_le, drop_app_le by lia. split; [done|]. f_equal. rewrite drop_drop. f_equal. lia.
Qed.

(** The first packet of a stream, if it is complete, and the rest. *)
Definition frame_of (s : bytes) : option (HeaderPacket * bytes * bytes) :=
  let h := HeaderPacket_from_bytes (take 3 s) in
  let rest := drop 3 s in
  if (3 <=? len s) && (packet_length h <=? len rest)
  then Some (h, take (Z.to_nat (packet_length h)) rest, drop (Z.to_nat (packet_length h)) rest) else None.

Definition frame_bytes (f : HeaderPacket * bytes) : bytes := HeaderPacket_to_bytes f.1 ++ f.2.

Lemma len_header h : len (HeaderPacket_to_bytes h) = 3.
Proof. unfold HeaderPacket_to_bytes. by rewrite len_cons, len_to_le_bytes. Qed.

Lemma header_to_from bs : len bs = 3 -> HeaderPacket_to_bytes (HeaderPacket_from_bytes bs) = bs.
Proof.
  destruct bs as [|b [|b1 [|b2 [|]]]]; intros Hl; try (unfold len in Hl; cbn in Hl; lia).
  unfold HeaderPacket_to_bytes, HeaderPacket_from_bytes. cbn [take drop packet_type packet_length].
  rewrite to_from_le by done. f_equal. change (from_le_bytes [b]) with (u8_of_byte b + 256 * 0). rewrite Z.mul_0_r, Z.add_0_r. apply byte_of_u8_of_byte.
Qed.

Lemma header_wf bs : len bs = 3 -> fits 8 (packet_type (HeaderPacket_from_bytes bs)) /\ fits 16 (packet_length (HeaderPacket_from_bytes bs)).
Proof.
  intros Hl. unfold HeaderPacket_from_bytes. cbn. unfold len in Hl. split.
  - apply (from_le_fits 1). unfold len. rewrite length_take. lia.
  - apply (from_le_fits 2). unfold len. rewrite length_drop. lia.
Qed.

Lemma frame_of_app f s : wf_frame f -> frame_of (frame_bytes f ++ s) = Some (f.1, f.2, s).
Proof.
  intros (Ht & Hl & He). destruct f as [h p]. cbn [fst snd] in *. unfold frame_of, frame_bytes. cbn [fst snd]. rewrite <- app_assoc.
  rewrite header_from_to by done. rewrite len_app, len_header.
  assert (Hd : drop 3 (HeaderPacket_to_bytes h ++ p ++ s) = p ++ s) by (apply drop_app_length'; pose proof (len_header h); unfold len in *; lia).
  rewrite Hd, He, (len_app p). pose proof (len_nonneg p). pose proof (len_nonneg s).
  rewrite !(proj2 (Z.leb_le _ _)) by lia. cbn [andb]. unfold len. rewrite Nat2Z.id, take_app_length, drop_app_length. done.
Qed.

Lemma frame_of_Some s h p rest : frame_of s = Some (h, p, rest) -> wf_frame (h, p) /\ s = frame_bytes (h, p) ++ rest.
Proof.
  unfold frame_of. destruct (Z.leb_spec 3 (len s)) as [H3|]; [|done].
  assert (Hl3 : len (take 3 s) = 3) by (unfold len in *; rewrite length_take; lia).
  destruct (header_wf _ Hl3) as [Ht Hl]. pose proof (header_to_from _ Hl3) as Htf. revert Ht Hl Htf.
  generalize (HeaderPacket_from_bytes (take 3 s)). intros h' Ht Hl Htf.
  destruct (Z.leb_spec (packet_length h') (len (drop 3 s))) as [Hle|]; [|done]. cbn [andb]. intros [= <- <- <-].
  unfold wf_frame, frame_bytes. cbn [fst snd]. split_and!; [done | done | |].
  - unfold fits, len in *. rewrite length_take. lia.
  - by rewrite Htf, <- app_assoc, take_drop, take_drop.
Qed.

(** What the handler has still to turn into packets. *)
Definition remaining (self : PacketHandler) : bytes :=
  match handler_state self with
  | ReadState_Header => unread (handler_events self)
  | ReadState_Payload h => HeaderPacket_to_bytes h ++ unread (handler_events self)
  end.

Definition handler_ok (self : PacketHandler) : Prop :=
  events_ok (handler_events self)
  /\ match handler_state self with ReadState_Header => True | ReadState_Payload h => fits 8 (packet_type h) /\ fits 16 (packet_length h) end.

Definition fetched (s : bytes) (r : option (HeaderPacket * bytes) * PacketHandler) : Prop :=
  handler_ok r.2
  /\ match frame_of s with
     | Some (h, p, rest) => r.1 = Some (h, p) /\ remaining r.2 = rest
     | None => r.1 = None /\ remaining r.2 = s /\ event_receiver (handler_events r.2) = []
     end.

Lemma fetch_payload_spec h events : fits 8 (packet_type h) -> fits 16 (packet_length h) -> events_ok events ->
  fetched (HeaderPacket_to_bytes h ++ unread events) (fetch_payload h events).
Proof.
  intros Ht Hl He. unfold fetched, fetch_payload. pose proof (fetch_bytes_spec (packet_length h) events (proj1 Hl) He) as Hs.
  destruct (fetch_bytes (packet_length h) events) as [r events']. destruct Hs as [He' Hs].
  unfold frame_of. rewrite header_from_to by done. rewrite len_app, len_header.
  assert (Hd : drop 3 (HeaderPacket_to_bytes h ++ unread events) = unread events)
    by (apply drop_app_length'; pose proof (len_header h); unfold len in *; lia).
  rewrite Hd, (proj2 (Z.leb_le 3 _)) by (pose proof (len_nonneg (unread events)); lia). cbn [andb].
  destruct (packet_length h <=? len (unread events)).
  - destruct Hs as [-> Hu]. unfold handler_ok, remaining. cbn. by rewrite Hu.
  - destruct Hs as (-> & Hu & Hr). unfold handler_ok, remaining. cbn. by rewrite Hu.
Qed.

Lemma fetch_packet_spec self : handler_ok self -> fetched (remaining self) (fetch_packet self).
Proof.
  destruct self as [events state]. intros [He Hst]. unfold fetch_packet, remaining. cbn [handler_state handler_events] in *.
  destruct state as [|h]; [|destruct Hst; by apply fetch_payload_spec]. pose proof (fetch_bytes_spec HEADER_SIZE events ltac:(by cbn) He) as Hs.
  destruct (fetch_bytes HEADER_SIZE events) as [r events']. destruct Hs as [He' Hs]. change HEADER_SIZE with 3 in Hs.
  destruct (Z.leb_spec 3 (len (unread events))) as [H3|H3].
  - destruct Hs as [-> Hu]. assert (Hl3 : len (take 3 (unread events)) = 3) by (unfold len in *; rewrite length_take; lia).
    destruct (header_wf _ Hl3) as [Ht Hl]. pose proof (fetch_payload_spec _ events' Ht Hl He') as Hp. rewrite header_to_from in Hp by done.
    rewrite Hu in Hp. change (Z.to_nat 3) with 3%nat in *. by rewrite take_drop in Hp.
  - destruct Hs as (-> & Hu & Hr). unfold fetched, handler_ok, remaining. cbn. unfold frame_of. rewrite (proj2 (Z.leb_gt 3 _)) by done. by cbn.
Qed.

Lemma fetch_packets_spec fuel self : handler_ok self -> len (remaining self) < 3 * Z.of_nat fuel ->
  let '(packets, self') := fetch_packets fuel self in
  handler_ok self' /\ Forall wf_frame packets /\ remaining self = concat (frame_bytes <$> packets) ++ remaining self'
  /\ frame_of (remaining self') = None.
Proof.
  revert self. induction fuel as [|fuel IH]; intros self Hs Hl; cbn [fetch_packets]; [pose proof (len_nonneg (remaining self)); lia|].
  pose proof (fetch_packet_spec self Hs) as Hf. destruct (fetch_packet self) as [r self1]. unfold fetched in Hf. cbn [fst snd] in Hf.
  destruct Hf as [Hs1 Hf]. destruct (frame_of (remaining self)) as [[[h p] rest]|] eqn:Efr.
  - destruct Hf as [-> Hrest]. apply frame_of_Some in Efr as [Hw Heq]. subst rest. rewrite Heq in Hl. unfold frame_bytes in Hl at 1. cbn [fst snd] in Hl.
    rewrite !len_app, len_header in Hl. specialize (IH self1 Hs1 ltac:(pose proof (len_nonneg p); lia)).
    destruct (fetch_packets fuel self1) as [packets self']. destruct IH as (? & ? & Hc & ?). split_and!; [done | by constructor | | done].
    rewrite Heq, Hc. cbn [fmap list_fmap concat]. by rewrite <- app_assoc.
  - destruct Hf as (-> & Hrem & _). rewrite Hrem. by split_and!.
Qed.

Lemma deliver_ok self events : handler_ok self -> handler_ok (deliver self events) /\ remaining (deliver self events) = remaining self ++ concat events.
Proof.
  destruct self as [[receiver buffer offset] state]. intros [He Hst]. split; [by split|]. unfold remaining, unread. cbn.
  rewrite concat_app. destruct state; by rewrite ?app_assoc.
Qed.

Lemma fetch_batches_spec fuel self batches : handler_ok self -> frame_of (remaining self) = None ->
  len (remaining self ++ concat (concat batches)) < 3 * Z.of_nat fuel ->
  exists r, Forall wf_frame (fetch_batches fuel self batches) /\ frame_of r = None
    /\ remaining self ++ concat (concat batches) = concat (frame_bytes <$> fetch_batches fuel self batches) ++ r.
Proof.
  revert self. induction batches as [|events batches IH]; intros self Hs Hn Hl; cbn [fetch_batches concat] in *.
  { exists (remaining self). cbn. by rewrite app_nil_r. }
  destruct (deliver_ok self events Hs) as [Hd Hr]. rewrite concat_app, app_assoc, <- Hr in Hl |- *.
  pose proof (fetch_packets_spec fuel (deliver self events) Hd) as Hp. rewrite len_app in Hl.
  specialize (Hp ltac:(pose proof (len_nonneg (concat (concat batches))); lia)).
  destruct (fetch_packets fuel (deliver self events)) as [packets self']. destruct Hp as (Hs' & Hw & Heq & Hn').
  destruct (IH self' Hs' Hn') as (r & Hw2 & Hr2 & Heq2).
  { rewrite Heq in Hl. rewrite !len_app in *. pose proof (len_nonneg (concat (frame_bytes <$> packets))). lia. }
  exists r. split_and!; [by apply Forall_app | done|]. by rewrite Heq, fmap_app, concat_app, <- !app_assoc, Heq2.
Qed.

(** A stream is cut into packets in only one way. *)
Lemma frames_unique l l' r : Forall wf_frame l -> Forall wf_frame l' -> frame_of r = None ->
  concat (frame_bytes <$> l') = concat (frame_bytes <$> l) ++ r -> l = l'.
Proof.
  intros Hl. revert l'. induction Hl as [|f l Hf Hl IH]; intros l' Hl' Hr Heq.
  - destruct Hl' as [|f' l' Hf' Hl']; [done|]. cbn [fmap list_fmap concat app] in Heq. rewrite <- Heq, frame_of_app in Hr by done. done.
  - destruct Hl' as [|f' l' Hf' Hl'].
    + apply (f_equal len) in Heq. cbn [fmap list_fmap concat] in Heq. unfold frame_bytes at 1 in Heq. rewrite !len_app, len_header, len_nil in Heq.
      pose proof (len_nonneg f.2). pose proof (len_nonneg r). pose proof (len_nonneg (concat (frame_bytes <$> l))). lia.
    + cbn [fmap list_fmap concat] in Heq. apply (f_equal frame_of) in Heq as Hfr. rewrite <- app_assoc in Hfr. rewrite !frame_of_app in Hfr by done.
      injection Hfr as H1 H2 H3. destruct f as [h p], f' as [h' p']. cbn [fst snd] in H1, H2. subst h' p'. f_equal. by apply IH.
Qed.

(** C16. The stream of a connection is cut into the packets that were sent, whatever the pieces in which it arrives and
    however they are batched: the packets that the handler returns, parsed as [process_packet] parses them, are the packets
    whose encodings were sent, in order, without an error or a panic. *)
Theorem gossip_stream_roundtrip packets batches fuel :
  Forall wf_AnyPacket packets -> concat (concat batches) = concat (any_to_bytes <$> packets) ->
  len (concat (concat batches)) < 3 * Z.of_nat fuel ->
  (fun f => parse_packet f.1 f.2) <$> fetch_batches fuel (PacketHandler_new []) batches = (fun p => Some (Ok p)) <$> packets.
Proof.
  intros Hw Heq Hf. destruct (fetch_batches_spec fuel (PacketHandler_new []) batches) as (r & Hl & Hr & He); [done | done | done|].
  cbn [remaining PacketHandler_new handler_state] in He. change (unread _) with (@nil byte) in He. cbn [app] in He.
  assert (Hb : any_to_bytes <$> packets = frame_bytes <$> (any_frame <$> packets)).
  { rewrite <- list_fmap_compose. apply Forall_fmap_ext_1. eapply Forall_impl; [exact Hw|]. intros p Hp. by destruct (any_frame_ok p Hp). }
  rewrite Heq, Hb in He. assert (Hl' : Forall wf_frame (any_frame <$> packets)).
  { apply Forall_fmap. eapply Forall_impl; [exact Hw|]. intros p Hp. by destruct (any_frame_ok p Hp) as (_ & ? & _). }
  rewrite (frames_unique _ _ r Hl Hl' Hr He), <- list_fmap_compose. apply Forall_fmap_ext_1. eapply Forall_impl; [exact Hw|].
  intros p Hp. by destruct (any_frame_ok p Hp) as (_ & _ & ?).
Qed.

Module Examples.
Definition sent : list AnyPacket :=
  [Packet_MilestoneRequest (MilestoneRequestPacket_new 7); Packet_Heartbeat (mkHeartbeatPacket 7 1 9 3 2);
   Packet_MessageRequest (MessageRequestPacket_new (MessageId_new (repeat Byte.x05 32)))].
Definition stream : bytes := concat (any_to_bytes <$> sent).

(** The first piece ends within the first header, and the third within the second payload. *)
Definition pieces : list (list bytes) := [[take 2 stream]; [take 7 (drop 2 stream); take 9 (drop 9 stream)]; [[]; drop 18 stream]].

Lemma gossip_stream_roundtrip_witness :
  (fun f => parse_packet f.1 f.2) <$> fetch_batches 30 (PacketHandler_new []) pieces = (fun p => Some (Ok p)) <$> sent.
Proof.
  apply gossip_stream_roundtrip.
  - repeat constructor; vm_compute; done.
  - vm_compute. reflexivity.
  - vm_compute. reflexivity.
Defined.
End Examples.
