(* ===== verification/Pow.v ===== *)
(** * Proof of work

    Models [bee-ternary/src/tryte.rs] and [b1t6.rs] (trytes, and bytes as groups of six trits), [bee-pow/src/score.rs] (the
    score of a message) and [bee-pow/src/providers/] (the miner of nonces). Trits are lists: [Trits.v] shows that the packed
    buffers implement them. Numbers of type [f64] are those of IEEE 754, computed by [SpecFloat].

    The theorems show that decoding inverts encoding, and that a nonce that the miner returns gives the message a hash with
    the number of trailing zeros that was asked for.

    The hash functions are those of a library, and so is the logarithm; a loop of a worker takes fuel and a schedule that
    says when the worker sees the cancellation. *)

From Stdlib Require Import Floats.SpecFloat.
From S2P Require Import Prelude Packable Trits External.

Local Open Scope Z_scope.

(** What the code uses of the hash Curl-P-81 of the crate [crypto]: the hash of a slice, and of a batch of buffers. *)
Class Curl := {
  curl_digest : list Btrit -> list Btrit;
  curl_batch : list (list Btrit) -> list (list Btrit);
  BATCH_SIZE : nat;
}.

(** A batch is hashed elementwise. *)
Class CurlOk `{Curl} : Prop := {
  curl_digest_len l : length (curl_digest l) = 243%nat;
  curl_batch_ok l : curl_batch l = curl_digest <$> l;
}.

Definition HASH_LENGTH : nat := 243.

(** ** Trytes *)

(** The value of a tryte. *)
Definition Tryte : Type := Z.
Definition Tryte_MIN_VALUE : Tryte := -13.
Definition Tryte_MAX_VALUE : Tryte := 13.

Definition Tryte_try_from_i8 (x : Z) : option Tryte := if (-13 <=? x) && (x <=? 13) then Some x else None.

Definition Tryte_from_trits (a b c : Btrit) : option Tryte :=
  Tryte_try_from_i8 (Btrit_into_i8 a + Btrit_into_i8 b * 3 + Btrit_into_i8 c * 9).

(** The tryte as a slice of the encoding [T3B1]. *)
Definition Tryte_as_trits (x : Tryte) : option (list Btrit) := mapM (extract 13 x) [0; 1; 2]%nat.

(** The characters as their codes. *)
Definition Tryte_into_char (x : Tryte) : Z :=
  if x =? 0 then 57 else if x <? 0 then as_u 8 (x + 13) + 78 else as_u 8 (x - 1) + 65.
Definition Tryte_try_from_char (c : Z) : option Tryte :=
  if c =? 57 then Some 0
  else if (78 <=? c) && (c <=? 90) then Some (c - 78 - 13)
  else if (65 <=? c) && (c <=? 77) then Some (c - 65 + 1)
  else None.
Definition TryteBuf_try_from_str (s : list Z) : option (list Tryte) := mapM Tryte_try_from_char s.

(** ** Groups of six trits *)

Definition TRITS_PER_BYTE : nat := 6.

Inductive DecodeError := InvalidTrytes (a b : Tryte).

Definition encode_group (byte : Z) : Z * Z :=
  let v := as_i 8 byte + 13 * 27 + 13 in
  (Z.rem v 27 + Tryte_MIN_VALUE, Z.quot v 27 + Tryte_MIN_VALUE).

Definition encode_byte (byte : Byte.byte) : option (list Btrit) :=
  let '(t1, t2) := encode_group (u8_of_byte byte) in
  a ← (Tryte_try_from_i8 t1 ≫= Tryte_as_trits);
  b ← (Tryte_try_from_i8 t2 ≫= Tryte_as_trits);
  Some (a ++ b).

(** [b1t6::encode]; the calls of [unwrap] panic. *)
Definition b1t6_encode (bs : bytes) : option (list Btrit) := mjoin <$> mapM encode_byte bs.

Definition decode_group (t1 t2 : Tryte) : option Z :=
  let v := t1 + t2 * 27 in
  if (-128 <=? v) && (v <=? 127) then Some (as_u 8 v) else None.

(** [iter_trytes] of a slice whose length is a multiple of three. *)
Fixpoint iter_trytes (src : list Btrit) : option (list Tryte) :=
  match src with
  | a :: b :: c :: src => x ← Tryte_from_trits a b c; xs ← iter_trytes src; Some (x :: xs)
  | [] => Some []
  | _ => None
  end.

(** [step_by(2)] *)
Fixpoint every_other {A} (l : list A) : list A :=
  match l with
  | x :: _ :: l => x :: every_other l
  | _ => l
  end.

Fixpoint decode_groups (l : list (Tryte * Tryte)) : result DecodeError bytes :=
  match l with
  | [] => Ok []
  | (a, b) :: l =>
      let? x := ok_or (decode_group a b) (InvalidTrytes a b) in
      let? xs := decode_groups l in
      Ok (byte_of_u8 x :: xs)
  end.

(** [b1t6::decode]; a range that starts behind the end of the slice panics. *)
Definition b1t6_decode (src : list Btrit) : option (result DecodeError bytes) :=
  if negb (Nat.eqb (length src mod TRITS_PER_BYTE) 0) then None
  else
    a ← iter_trytes src;
    if bool_decide (length src < 3)%nat then None
    else
      b ← iter_trytes (drop 3 src);
      Some (decode_groups (zip (every_other a) (every_other b))).

(** ** Scores *)

Definition f64 : Type := spec_float.
Definition f64_of_Z (x : Z) : f64 := binary_normalize 53 1024 x 0 false.
Definition f64_div : f64 -> f64 -> f64 := SFdiv 53 1024.
Definition f64_mul : f64 -> f64 -> f64 := SFmul 53 1024.
Definition f64_ltb : f64 -> f64 -> bool := SFltb.

(** [ceil] followed by the saturating conversion to [usize]. *)
Definition f64_ceil_as_usize (x : f64) : Z :=
  match x with
  | S754_infinity false => 2 ^ 64 - 1
  | S754_finite s m e =>
      let m := if s then Z.neg m else Z.pos m in
      Z.max 0 (Z.min (2 ^ 64 - 1) (if 0 <=? e then m * 2 ^ e else - ((- m) / 2 ^ (- e))))
  | _ => 0
  end.

Fixpoint leading_zeros (l : list Btrit) : nat :=
  match l with
  | Zero :: l => S (leading_zeros l)
  | _ => 0
  end.
Definition count_trailing_zeros (pow_hash : list Btrit) : nat := leading_zeros (reverse pow_hash).

(** The power of type [u128] wraps around. *)
Definition pow_score_for_hash (pow_hash : list Btrit) (length : Z) : f64 :=
  f64_div (f64_of_Z (as_u 128 (3 ^ Z.of_nat (count_trailing_zeros pow_hash)))) (f64_of_Z length).

Section pow.
Context `{Crypto} `{Curl}.

(** The input of the hash: the digest, the nonce, and three zeros. *)
Definition pow_input (digest nonce : bytes) : option (list Btrit) :=
  a ← b1t6_encode digest; b ← b1t6_encode nonce; Some (a ++ b ++ [Zero; Zero; Zero]).

(** [split_at] panics for fewer than eight bytes. *)
Definition PoWScorer_hash (bs : bytes) : option (list Btrit) :=
  if bool_decide (length bs < 8)%nat then None
  else
    let n := (length bs - 8)%nat in
    curl_digest <$> pow_input (blake2b256 (take n bs)) (drop n bs).

Definition PoWScorer_score (bs : bytes) : option f64 := h ← PoWScorer_hash bs; Some (pow_score_for_hash h (len bs)).

(** ** Mining *)

Inductive MinerError :=
| Cancelled
| InvalidPowScore (target_score : f64) (target_zeros : Z).

Definition LN_3 : f64 := f64_div (f64_of_Z 1098612288668109) (f64_of_Z 1000000000000000).

(** [NonceProvider] for [u64] *)
Definition u64_nonce (self : Z) (bs : bytes) (target_score : f64) : result MinerError Z := Ok self.

(** The buffer of a batch that gets the nonce [nonce + i]. *)
Definition worker_buffer (pow_digest : list Btrit) (nonce : Z) (i : nat) : option (list Btrit) :=
  nonce_trits ← b1t6_encode (to_le_bytes 8 (as_u 64 (nonce + Z.of_nat i)));
  Some (pow_digest ++ nonce_trits ++ repeat Zero (HASH_LENGTH - length pow_digest - length nonce_trits)).

(** The first hash of the batch with enough zeros. *)
Fixpoint find_hash (target_zeros : Z) (i : nat) (hashes : list (list Btrit)) : option nat :=
  match hashes with
  | [] => None
  | hash :: hashes =>
      if target_zeros <=? Z.of_nat (count_trailing_zeros hash) then Some i else find_hash target_zeros (S i) hashes
  end.

(** [Miner::worker]; [cancelled n] says whether the flag is set at iteration [n]. *)
Fixpoint worker (fuel : nat) (cancelled : nat -> bool) (n : nat) (pow_digest : list Btrit) (nonce target_zeros : Z)
    : option (result MinerError Z) :=
  match fuel with
  | O => None
  | S fuel =>
      if cancelled n then Some (Err Cancelled)
      else
        buffers ← mapM (worker_buffer pow_digest nonce) (seq 0 BATCH_SIZE);
        match find_hash target_zeros 0 (curl_batch buffers) with
        | Some i => Some (Ok (as_u 64 (nonce + Z.of_nat i)))
        | None => worker fuel cancelled (S n) pow_digest (as_u 64 (nonce + Z.of_nat BATCH_SIZE)) target_zeros
        end
  end.

(** The nonce of the last worker that has found one. *)
Definition join_workers (results : list (result MinerError Z)) : Z :=
  foldl (fun nonce r => match r with Ok nonce => nonce | Err _ => nonce end) 0 results.

(** The zeros that a score needs; [ln] is the logarithm of the standard library. *)
Definition required_zeros (ln : f64 -> f64) (bs : bytes) (target_score : f64) : Z :=
  f64_ceil_as_usize (f64_div (ln (f64_mul (f64_of_Z (len bs + 8)) target_score)) LN_3).

(** The workers run with schedules of their own; without workers the division of their range panics. *)
Definition Miner_nonce (ln : f64 -> f64) (fuel : nat) (num_workers : nat) (cancelled : nat -> nat -> bool) (bs : bytes)
    (target_score : f64) : option (result MinerError Z) :=
  let target_zeros := required_zeros ln bs target_score in
  if Z.of_nat HASH_LENGTH <? target_zeros then Some (Err (InvalidPowScore target_score target_zeros))
  else if Nat.eqb num_workers 0 then None
  else
    let worker_width := (2 ^ 64 - 1) / Z.of_nat num_workers in
    pow_digest ← b1t6_encode (blake2b256 bs);
    results ← mapM (fun i => worker fuel (cancelled i) 0 pow_digest (Z.of_nat i * worker_width) target_zeros) (seq 0 num_workers);
    Some (Ok (join_workers results)).
End pow.

(** ** Groups of six trits and back *)

(** A byte is encoded as two trytes that decode to it. *)
Definition byte_check (b : Byte.byte) : bool :=
  match encode_byte b with
  | Some [a1; a2; a3; b1; b2; b3] =>
      match Tryte_from_trits a1 a2 a3, Tryte_from_trits b1 b2 b3 with
      | Some x, Some y =>
          match decode_group x y with
          | Some z => bool_decide (byte_of_u8 z = b)
          | None => false
          end
      | _, _ => false
      end
  | _ => false
  end.

Lemma byte_check_all b : byte_check b = true.
Proof. by destruct b; vm_compute. Qed.

Lemma encode_byte_spec b :
  exists a1 a2 a3 b1 b2 b3 x y z, encode_byte b = Some [a1; a2; a3; b1; b2; b3]
    /\ Tryte_from_trits a1 a2 a3 = Some x /\ Tryte_from_trits b1 b2 b3 = Some y /\ decode_group x y = Some z /\ byte_of_u8 z = b.
Proof.
  pose proof (byte_check_all b) as Hc. unfold byte_check in Hc.
  destruct (encode_byte b) as [[|a1 [|a2 [|a3 [|b1 [|b2 [|b3 [|? ?]]]]]]]|]; try done.
  destruct (Tryte_from_trits a1 a2 a3) as [x|] eqn:Hx; [|done]. destruct (Tryte_from_trits b1 b2 b3) as [y|] eqn:Hy; [|done].
  destruct (decode_group x y) as [z|] eqn:Hz; [|done]. apply bool_decide_eq_true in Hc. by eexists _, _, _, _, _, _, x, y, z.
Qed.

Definition flatten {A} (l : list (A * A)) : list A := mjoin ((fun '(x, y) => [x; y]) <$> l).

Lemma every_other_flatten {A} (l : list (A * A)) : every_other (flatten l) = l.*1 /\ every_other (tail (flatten l)) = l.*2.
Proof.
  induction l as [|[x y] l [IH1 IH2]]; [done|]. cbn. split; [by f_equal|]. destruct l as [|[x' y'] l]; [done|]. cbn in *. by f_equal.
Qed.

Lemma b1t6_encode_spec bs :
  exists t l, b1t6_encode bs = Some t /\ length t = (6 * length bs)%nat /\ iter_trytes t = Some (flatten l) /\ decode_groups l = Ok bs
    /\ length l = length bs.
Proof.
  unfold b1t6_encode. induction bs as [|b bs (t & l & Ht & Hl & Hi & Hd & Hn)]; [by exists [], []|].
  destruct (encode_byte_spec b) as (a1 & a2 & a3 & b1 & b2 & b3 & x & y & z & He & Hx & Hy & Hz & Hb).
  cbn [mapM]. destruct (mapM encode_byte bs) as [ts|] eqn:E; [|done]. injection Ht as <-.
  exists (a1 :: a2 :: a3 :: b1 :: b2 :: b3 :: mjoin ts), ((x, y) :: l). rewrite He. split; [done|].
  split_and!; cbn [length]; [lia | | | lia].
  - cbn [iter_trytes]. rewrite Hx, Hy. cbn [mbind option_bind]. by rewrite Hi.
  - cbn [decode_groups]. rewrite Hz. cbn [ok_or result_bind]. rewrite Hd. cbn [result_bind]. by rewrite Hb.
Qed.

Lemma iter_trytes_drop t x xs : iter_trytes t = Some (x :: xs) -> iter_trytes (drop 3 t) = Some xs.
Proof.
  destruct t as [|a [|b [|c t]]]; cbn; try done. destruct (Tryte_from_trits a b c); cbn; [|done].
  rewrite drop_0. destruct (iter_trytes t); cbn; [|done]. by intros [= -> ->].
Qed.

Lemma b1t6_encode_length bs t : b1t6_encode bs = Some t -> length t = (6 * length bs)%nat.
Proof. intros Ht. destruct (b1t6_encode_spec bs) as (t' & l & Ht' & Hl & _). congruence. Qed.

(** ** Mined nonces *)

Section mined.
Context `{CryptoOk} `{CurlOk}.

Lemma find_hash_spec target n hashes i :
  find_hash target n hashes = Some i -> exists h, (n <= i)%nat /\ hashes !! (i - n)%nat = Some h /\ target <= Z.of_nat (count_trailing_zeros h).
Proof.
  revert n. induction hashes as [|h hashes IH]; intros n; cbn [find_hash]; [done|]. destruct (Z.leb_spec target (Z.of_nat (count_trailing_zeros h))).
  - intros [= ->]. exists h. rewrite Nat.sub_diag. done.
  - intros (h' & Hle & Hl & Ht)%IH. exists h'. split_and!; [lia | | done]. by replace (i - n)%nat with (S (i - S n)) by lia.
Qed.

(** The buffer of a worker is the input that the scorer hashes. *)
Lemma worker_buffer_input bs digest nonce i :
  b1t6_encode (blake2b256 bs) = Some digest ->
  worker_buffer digest nonce i = pow_input (blake2b256 bs) (to_le_bytes 8 (as_u 64 (nonce + Z.of_nat i))).
Proof.
  intros Hd. unfold worker_buffer, pow_input. rewrite Hd. cbn [mbind option_bind].
  destruct (b1t6_encode (to_le_bytes _ _)) as [t|] eqn:Ht; [|done]. cbn.
  apply b1t6_encode_length in Hd, Ht. pose proof (blake2b256_len bs) as Hb. pose proof (len_to_le_bytes 8 (as_u 64 (nonce + Z.of_nat i))) as Hn.
  unfold len, HASH_LENGTH in *. by replace (243 - length digest - length t)%nat with 3%nat by lia.
Qed.

Lemma scorer_hash_nonce bs nonce : PoWScorer_hash (bs ++ to_le_bytes 8 nonce) = curl_digest <$> pow_input (blake2b256 bs) (to_le_bytes 8 nonce).
Proof.
  pose proof (len_to_le_bytes 8 nonce) as Hn. unfold len in Hn. unfold PoWScorer_hash. rewrite length_app, bool_decide_eq_false_2 by lia.
  replace (length bs + length (to_le_bytes 8 nonce) - 8)%nat with (length bs) by lia. by rewrite take_app_length, drop_app_length.
Qed.

Definition scores (bs : bytes) (target nonce : Z) : Prop :=
  exists h, PoWScorer_hash (bs ++ to_le_bytes 8 nonce) = Some h /\ target <= Z.of_nat (count_trailing_zeros h).

Lemma worker_scores fuel cancelled n bs digest nonce target r :
  b1t6_encode (blake2b256 bs) = Some digest -> worker fuel cancelled n digest nonce target = Some (Ok r) -> scores bs target r.
Proof.
  intros Hd. revert n nonce. induction fuel as [|fuel IH]; intros n nonce; cbn [worker]; [done|]. destruct (cancelled n); [done|].
  destruct (mapM (worker_buffer digest nonce) (seq 0 BATCH_SIZE)) as [buffers|] eqn:Hb; cbn [mbind option_bind]; [|done].
  destruct (find_hash target 0 (curl_batch buffers)) as [i|] eqn:Hf; [|apply IH]. intros [= <-].
  apply find_hash_spec in Hf as (h & _ & Hl & Ht). rewrite Nat.sub_0_r, curl_batch_ok, list_lookup_fmap in Hl.
  destruct (buffers !! i) as [b|] eqn:Hi; [|done]. injection Hl as <-. exists (curl_digest b). split; [|done].
  apply mapM_Some in Hb. destruct (Forall2_lookup_r _ _ _ _ _ Hb Hi) as (j & Hj & Hw). apply lookup_seq in Hj as [-> _].
  rewrite (worker_buffer_input bs) in Hw by done. rewrite scorer_hash_nonce. cbn in Hw. by rewrite Hw.
Qed.

Lemma join_workers_spec (P : Z -> Prop) n results :
  (forall r, Ok r ∈ results -> P r) -> P n \/ (exists r, Ok r ∈ results) ->
  P (foldl (fun nonce (r : result MinerError Z) => match r with Ok nonce => nonce | Err _ => nonce end) n results).
Proof.
  revert n. induction results as [|[r|e] results IH]; intros n Hall Hor; cbn.
  - destruct Hor as [?|[r Hr]]; [done | by apply elem_of_nil in Hr].
  - apply IH; [intros; apply Hall; by right|]. left. apply Hall. left.
  - apply IH; [intros; apply Hall; by right|]. destruct Hor as [?|[r Hr]]; [by left|]. right. exists r. by apply elem_of_cons in Hr as [?|?].
Qed.

(** ** Claims *)

(** Decoding inverts encoding: every byte is encoded as six trits, without a panic, and decoding them gives the bytes
    back; but the decoder panics on the encoding of no bytes. *)
Theorem b1t6_roundtrip bs :
  exists t, b1t6_encode bs = Some t /\ length t = (6 * length bs)%nat
    /\ b1t6_decode t = if bool_decide (bs = []) then None else Some (Ok bs).
Proof.
  destruct (b1t6_encode_spec bs) as (t & l & Ht & Hl & Hi & Hd & Hn). exists t. split_and!; [done | done|]. unfold b1t6_decode, TRITS_PER_BYTE.
  rewrite Hl, (Nat.mul_comm 6), Nat.Div0.mod_mul, Hi. cbn [Nat.eqb negb mbind option_bind]. case_bool_decide as Hb; case_bool_decide as Hs; try done.
  - destruct bs; [done|]. cbn in Hb. lia.
  - by rewrite Hs in Hb; cbn in Hb; lia.
  - destruct l as [|[x y] l]; [by destruct bs|]. rewrite (iter_trytes_drop t x (y :: flatten l) Hi). cbn [mbind option_bind].
    destruct (every_other_flatten ((x, y) :: l)) as [G1 G2]. change (every_other (y :: flatten l)) with (every_other (tail (flatten ((x, y) :: l)))).
    rewrite G1, G2, zip_fst_snd. by rewrite Hd.
Qed.

(** C19. A nonce that the miner returns gives the message a hash with as many trailing zeros as the score requires, whatever
    the number of workers and whenever they see the cancellation, or all the workers were cancelled and it is zero. *)
Theorem mined_nonce_scores ln fuel num_workers cancelled bs target_score nonce :
  Miner_nonce ln fuel num_workers cancelled bs target_score = Some (Ok nonce) ->
  scores bs (required_zeros ln bs target_score) nonce
  \/ nonce = 0 /\ exists digest, b1t6_encode (blake2b256 bs) = Some digest /\ forall i, (i < num_workers)%nat -> exists e,
       worker fuel (cancelled i) 0 digest (Z.of_nat i * ((2 ^ 64 - 1) / Z.of_nat num_workers)) (required_zeros ln bs target_score) = Some (Err e).
Proof.
  unfold Miner_nonce. destruct (_ <? _); [done|]. destruct (Nat.eqb num_workers 0); [done|].
  destruct (b1t6_encode (blake2b256 bs)) as [digest|] eqn:Hd; cbn [mbind option_bind]; [|done].
  destruct (mapM _ _) as [results|] eqn:Hr; cbn [mbind option_bind]; [|done]. intros [= <-]. apply mapM_Some in Hr.
  assert (Hall : forall r, Ok r ∈ results -> scores bs (required_zeros ln bs target_score) r).
  { intros r [j Hj]%list_elem_of_lookup. destruct (Forall2_lookup_r _ _ _ _ _ Hr Hj) as (i & _ & Hw). by eapply worker_scores. }
  destruct (decide (Exists (fun r => is_ok r = true) results)) as [Hex|Hno].
  - left. apply (join_workers_spec (scores bs (required_zeros ln bs target_score))); [done|]. right. apply Exists_exists in Hex as ([r|e] & Hin & ?); [by exists r | done].
  - right. split.
    + apply (join_workers_spec (fun n => n = 0)); [|by left]. intros r Hin. destruct Hno. apply Exists_exists. by exists (Ok r).
    + exists digest. split; [done|]. intros i Hi. destruct (Forall2_lookup_l _ _ _ i i Hr) as ([r|e] & Hl & Hw); [by apply lookup_seq| |by exists e].
      destruct Hno. apply Exists_exists. exists (Ok r). split; [by eapply list_elem_of_lookup_2 | done].
Qed.

(** A miner that is cancelled before it starts returns the nonce zero instead of the error [Cancelled]. *)
Theorem cancelled_miner_returns_nonce ln fuel num_workers bs target_score :
  (0 < num_workers)%nat -> required_zeros ln bs target_score <= Z.of_nat HASH_LENGTH ->
  Miner_nonce ln (S fuel) num_workers (fun _ _ => true) bs target_score = Some (Ok 0).
Proof.
  intros Hn Hz. unfold Miner_nonce. destruct (Z.ltb_spec (Z.of_nat HASH_LENGTH) (required_zeros ln bs target_score)); [lia|].
  destruct (Nat.eqb_spec num_workers 0); [lia|]. destruct (b1t6_encode_spec (blake2b256 bs)) as (t & _ & -> & _). cbn [mbind option_bind].
  cbn [worker]. assert (Hm : forall l : list nat, mapM (fun _ => Some (Err Cancelled)) l = Some (repeat (Err (A := Z) Cancelled) (length l))).
  { induction l as [|x l IH]; [done|]. cbn. by rewrite IH. }
  rewrite Hm. cbn [mbind option_bind]. unfold join_workers. do 2 f_equal. generalize (length (seq 0 num_workers)). intros k. by induction k.
Qed.
End mined.

(** ** Evaluation *)

Module Examples.
Import Concrete.

(** A hash that ends with a zero unless the first trit of the nonce is one. *)
#[local] Instance toy_curl : Curl := {
  curl_digest l := take 242 (l ++ repeat Zero 242) ++ [match l !! 192%nat with Some Zero => PlusOne | _ => Zero end];
  curl_batch l := (fun l => take 242 (l ++ repeat Zero 242) ++ [match l !! 192%nat with Some Zero => PlusOne | _ => Zero end]) <$> l;
  BATCH_SIZE := 4;
}.
#[local] Instance toy_curl_ok : CurlOk.
Proof. split; [|done]. intros l. cbn [curl_digest toy_curl]. rewrite length_app, length_take, length_app, repeat_length, Nat.min_l by lia. reflexivity. Qed.

Definition head_bytes : bytes := repeat Byte.x2a 20.

(** The score of nine zeros in a message of 27 bytes, with the exact quotient. *)
Example pow_score_27 : pow_score_for_hash (PlusOne :: repeat Zero 9) 27 = f64_of_Z 729.
Proof. vm_compute. reflexivity. Qed.

Lemma mined_nonce_scores_witness :
  Miner_nonce (fun x => x) 1 1 (fun _ _ => false) head_bytes (f64_of_Z 1) = Some (Ok 1)
  /\ (scores head_bytes (required_zeros (fun x => x) head_bytes (f64_of_Z 1)) 1 \/ 1 = 0).
Proof.
  assert (Hr : Miner_nonce (fun x => x) 1 1 (fun _ _ => false) head_bytes (f64_of_Z 1) = Some (Ok 1)) by (vm_compute; reflexivity).
  split; [exact Hr|]. destruct (mined_nonce_scores (fun x => x) 1 1 (fun _ _ => false) head_bytes (f64_of_Z 1) 1 Hr) as [Hs|[Hn _]];
    [left; exact Hs | right; exact Hn].
Defined.

Lemma cancelled_miner_returns_nonce_witness :
  Miner_nonce (fun x => x) 2 1 (fun _ _ => true) head_bytes (f64_of_Z 1) = Some (Ok 0).
Proof. apply (cancelled_miner_returns_nonce (fun x => x) 1 1 head_bytes (f64_of_Z 1)); [lia | vm_compute; discriminate]. Defined.
End Examples.
