(* ===== verification/Curl.v ===== *)
(** * Curl-P

    Models [bee-crypto/src/ternary/sponge/mod.rs] (the trait of sponges) and [sponge/curlp/mod.rs] (the ternary hash
    function [CurlP]). A round of the function reads its state in the order of the multiples of 364; [round] is the round
    as a function of the index, over any type of trits, so that the other two implementations, [CurlBatched.v] and
    [CurlUnrolled.v], can be compared with it.

    The accesses of the code to its state are unchecked; a state has 729 trits, and all the indexes are below. *)

From S2P Require Import Prelude Packable Trits External Pow.

Local Open Scope nat_scope.

#[export] Instance Btrit_inhabited : Inhabited Btrit := populate Zero.

(** The chunks of a slice: the last one may be shorter. *)
Fixpoint chunks {A} (fuel n : nat) (l : list A) : list (list A) :=
  match fuel, l with
  | _, [] => []
  | O, _ => [l]
  | S fuel, l => take n l :: chunks fuel n (drop n l)
  end.

(** ** The trait [Sponge] *)

Class Sponge (T : Type) := {
  sponge_error : Type;
  sponge_reset : T -> T;
  sponge_absorb : T -> list Btrit -> result sponge_error T;
  (** The state and the buffer, which is filled. *)
  sponge_squeeze_into : T -> list Btrit -> result sponge_error (T * list Btrit);
}.
Arguments sponge_error T {_}.

Section sponge.
Context `{Sponge T}.

Definition sponge_squeeze (self : T) : result (sponge_error T) (T * list Btrit) := sponge_squeeze_into self (repeat Zero HASH_LENGTH).

Definition sponge_digest_into (self : T) (input buf : list Btrit) : result (sponge_error T) (T * list Btrit) :=
  let? self := sponge_absorb self input in
  let? r := sponge_squeeze_into self buf in
  let '(self, buf) := r in
  Ok (sponge_reset self, buf).

Definition sponge_digest (self : T) (input : list Btrit) : result (sponge_error T) (T * list Btrit) :=
  let? self := sponge_absorb self input in
  let? r := sponge_squeeze self in
  let '(self, output) := r in
  Ok (sponge_reset self, output).
End sponge.

(** ** [CurlP] *)

Definition STATE_LENGTH : nat := HASH_LENGTH * 3.
Definition HALF_STATE_LENGTH : nat := STATE_LENGTH / 2.

Definition TRUTH_TABLE : list Btrit := [PlusOne; Zero; NegOne; PlusOne; NegOne; Zero; NegOne; PlusOne; Zero].

Inductive CurlPRounds := Rounds27 | Rounds81.
Definition rounds_count (r : CurlPRounds) : nat := match r with Rounds27 => 27 | Rounds81 => 81 end.

Record CurlP := mkCurlP {
  curlp_rounds : CurlPRounds;
  curlp_state : list Btrit;
  curlp_work_state : list Btrit;
}.

Definition CurlP_new (rounds : CurlPRounds) : CurlP := mkCurlP rounds (repeat Zero STATE_LENGTH) (repeat Zero STATE_LENGTH).

Definition truth_table_get (state : list Btrit) (p q : nat) : Btrit :=
  TRUTH_TABLE !!! Z.to_nat (3 * (Btrit_into_i8 (state !!! q) + 1) + (Btrit_into_i8 (state !!! p) + 1)).

(** One iteration of the loop of [substitution_box]. *)
Definition substitution_step (input output : list Btrit) (state_index : nat) : list Btrit :=
  let left_idx := HALF_STATE_LENGTH - state_index in
  let right_idx := STATE_LENGTH - state_index - 1 in
  let state_index_2 := 2 * state_index in
  let output := <[state_index_2 + 1 := truth_table_get input left_idx right_idx]> output in
  <[state_index_2 + 2 := truth_table_get input right_idx (left_idx - 1)]> output.

Definition substitution_box (input output : list Btrit) : list Btrit :=
  let output := <[0 := truth_table_get input 0 HALF_STATE_LENGTH]> output in
  foldl (substitution_step input) output (seq 0 HALF_STATE_LENGTH).

(** The loop swaps the two buffers after every round. *)
Definition CurlP_transform (self : CurlP) : CurlP :=
  let '(lhs, rhs) := Nat.iter (rounds_count (curlp_rounds self)) (fun '(lhs, rhs) => (substitution_box lhs rhs, lhs))
                       (curlp_state self, curlp_work_state self) in
  mkCurlP (curlp_rounds self) lhs rhs.

Definition CurlP_reset (self : CurlP) : CurlP :=
  mkCurlP (curlp_rounds self) ((fun _ => Zero) <$> curlp_state self) (curlp_work_state self).

(** [state[0..chunk.len()].copy_from(chunk)] *)
Definition copy_chunk {A} (chunk state : list A) : list A := chunk ++ drop (length chunk) state.

Definition CurlP_absorb_chunk (self : CurlP) (chunk : list Btrit) : CurlP :=
  CurlP_transform (mkCurlP (curlp_rounds self) (copy_chunk chunk (curlp_state self)) (curlp_work_state self)).
Definition CurlP_absorb (self : CurlP) (input : list Btrit) : CurlP :=
  foldl CurlP_absorb_chunk self (chunks (length input) HASH_LENGTH input).

(** The loop over the chunks of the buffer, whose contents do not matter. *)
Fixpoint CurlP_squeeze_chunks (self : CurlP) (buf : list (list Btrit)) : CurlP * list Btrit :=
  match buf with
  | [] => (self, [])
  | chunk :: buf =>
      let out := take (length chunk) (curlp_state self) in
      let '(self, rest) := CurlP_squeeze_chunks (CurlP_transform self) buf in
      (self, out ++ rest)
  end.
Definition CurlP_squeeze_into (self : CurlP) (buf : list Btrit) : CurlP * list Btrit :=
  CurlP_squeeze_chunks self (chunks (length buf) HASH_LENGTH buf).

#[export] Instance CurlP_sponge : Sponge CurlP := {
  sponge_error := Empty_set;
  sponge_reset := CurlP_reset;
  sponge_absorb self input := Ok (CurlP_absorb self input);
  sponge_squeeze_into self buf := Ok (CurlP_squeeze_into self buf);
}.

Definition CurlP27_new : CurlP := CurlP_new Rounds27.
Definition CurlP81_new : CurlP := CurlP_new Rounds81.

(** ** Rounds *)

(** The index that a round reads for the trit [i]. *)
Definition order (i : nat) : nat := (364 * i) mod 729.

(** A round: the trit [i] is made of those at the places [order i] and [order (i + 1)]. *)
Definition round {A} `{Inhabited A} (f : A -> A -> A) (s : list A) : list A :=
  (fun i => f (s !!! order i) (s !!! order (i + 1))) <$> seq 0 729.

(** The substitution box of two trits. *)
Definition sbox (a b : Btrit) : Btrit :=
  match b, a with
  | NegOne, NegOne => PlusOne | NegOne, Zero => Zero | NegOne, PlusOne => NegOne
  | Zero, NegOne => PlusOne | Zero, Zero => NegOne | Zero, PlusOne => Zero
  | PlusOne, NegOne => NegOne | PlusOne, Zero => PlusOne | PlusOne, PlusOne => Zero
  end.

Lemma truth_table_sbox s p q : truth_table_get s p q = sbox (s !!! p) (s !!! q).
Proof. unfold truth_table_get. by destruct (s !!! p), (s !!! q). Qed.

Lemma order_lt i : order i < 729.
Proof. apply Nat.mod_upper_bound. lia. Qed.

Lemma order_0 : order 0 = 0.
Proof. reflexivity. Qed.

Lemma order_odd k : k < 364 -> order (2 * k + 1) = 364 - k.
Proof. intros Hk. unfold order. replace (364 * (2 * k + 1)) with (364 - k + k * 729) by lia. rewrite Nat.Div0.mod_add. apply Nat.mod_small. lia. Qed.

Lemma order_even k : k <= 364 -> order (2 * k + 2) = 728 - k.
Proof. intros Hk. unfold order. replace (364 * (2 * k + 2)) with (728 - k + k * 729) by lia. rewrite Nat.Div0.mod_add. apply Nat.mod_small. lia. Qed.

Lemma round_length {A} `{Inhabited A} (f : A -> A -> A) s : length (round f s) = 729.
Proof. unfold round. by rewrite length_fmap, length_seq. Qed.

Lemma round_lookup {A} `{Inhabited A} (f : A -> A -> A) s i :
  i < 729 -> round f s !! i = Some (f (s !!! order i) (s !!! order (i + 1))).
Proof. intros Hi. unfold round. by rewrite list_lookup_fmap, lookup_seq_lt. Qed.

(** Writing two trits after the other, as the loops of the code do, is a round. *)
Section writes.
Context {A : Type} `{Inhabited A} (f : A -> A -> A) (s : list A).

Definition write_pair (output : list A) (k : nat) : list A :=
  <[2 * k + 2 := f (s !!! (728 - k)) (s !!! (364 - k - 1))]> (<[2 * k + 1 := f (s !!! (364 - k)) (s !!! (728 - k))]> output).

Lemma write_pairs n output :
  n <= 364 -> length output = 729 ->
  forall i, i < 729 -> foldl write_pair (<[0 := f (s !!! 0) (s !!! 364)]> output) (seq 0 n) !! i
    = if decide (i <= 2 * n) then round f s !! i else output !! i.
Proof.
  intros Hn Hl. induction n as [|n IH]; intros i Hi.
  - cbn [seq foldl]. destruct (decide (i = 0)) as [->|Hne].
    + rewrite decide_True by lia. rewrite list_lookup_insert_eq by lia. by rewrite round_lookup by lia.
    + rewrite decide_False by lia. by rewrite list_lookup_insert_ne by lia.
  - rewrite seq_S, foldl_app. cbn [foldl Nat.add]. unfold write_pair at 1. set (o := foldl write_pair _ _) in *.
    assert (Hlo : length o = 729).
    { unfold o. clear -Hl. assert (Hg : length (<[0 := f (s !!! 0) (s !!! 364)]> output) = 729) by by rewrite length_insert. revert Hg.
      generalize (<[0 := f (s !!! 0) (s !!! 364)]> output) as o. induction (seq 0 n) as [|k l IH]; intros o Ho; [done|]. cbn. apply IH. unfold write_pair. by rewrite !length_insert. }
    destruct (decide (i = 2 * n + 2)) as [->|H2]; [|destruct (decide (i = 2 * n + 1)) as [->|H1]].
    + rewrite list_lookup_insert_eq by (rewrite length_insert; lia). rewrite decide_True, round_lookup by lia.
      replace (2 * n + 2 + 1) with (2 * (n + 1) + 1) by lia. rewrite order_even by lia.
      destruct (decide (n = 363)) as [->|]; [reflexivity|]. rewrite order_odd by lia. do 3 f_equal. lia.
    + rewrite list_lookup_insert_ne, list_lookup_insert_eq by lia. rewrite decide_True, round_lookup by lia.
      replace (2 * n + 1 + 1) with (2 * n + 2) by lia. by rewrite order_odd, order_even by lia.
    + rewrite !list_lookup_insert_ne by lia. rewrite IH by lia. destruct (decide (i <= 2 * n)); [rewrite decide_True by lia | rewrite decide_False by lia]; done.
Qed.

Lemma foldl_write_length l output : length (foldl write_pair output l) = length output.
Proof. revert output. induction l as [|k l IH]; intros output; [done|]. cbn. rewrite IH. unfold write_pair. by rewrite !length_insert. Qed.

Lemma write_pairs_round output :
  length output = 729 -> foldl write_pair (<[0 := f (s !!! 0) (s !!! 364)]> output) (seq 0 364) = round f s.
Proof.
  intros Hl. apply list_eq_same_length with (n := 729); [apply round_length | by rewrite foldl_write_length, length_insert|].
  intros i x y Hi Hx Hy. rewrite write_pairs, decide_True in Hx by lia. congruence.
Qed.
End writes.

(** What is done with trits of one kind is done with their images. *)
Lemma round_rel {A C} `{Inhabited A} `{Inhabited C} (R : A -> C -> Prop) f g s t :
  (forall a a' c c', R a c -> R a' c' -> R (f a a') (g c c')) -> length s = 729 -> Forall2 R s t -> Forall2 R (round f s) (round g t).
Proof.
  intros Hf Hl HR. unfold round. apply Forall2_fmap, Forall2_same_length_lookup_2; [done|]. intros i x y Hx Hy.
  rewrite Hx in Hy. injection Hy as <-. assert (Hat : forall j, j < 729 -> R (s !!! j) (t !!! j)).
  { intros j Hj. assert (Hlt : length t = 729) by (by rewrite <- (Forall2_length _ _ _ HR)). eapply Forall2_lookup_lr; [exact HR|..]; by apply list_lookup_lookup_total_lt; rewrite ?Hl, ?Hlt. }
  apply Hf; apply Hat, order_lt.
Qed.

(** ** What the code computes *)

Definition rounds {A} `{Inhabited A} (n : nat) (f : A -> A -> A) (s : list A) : list A := Nat.iter n (round f) s.

Lemma rounds_length {A} `{Inhabited A} n (f : A -> A -> A) s : length s = 729 -> length (rounds n f s) = 729.
Proof. intros Hs. destruct n; [done|]. apply round_length. Qed.

Lemma substitution_box_round input output : length output = 729 -> substitution_box input output = round sbox input.
Proof.
  intros Hl. rewrite <- (write_pairs_round sbox input output Hl). unfold substitution_box.
  change HALF_STATE_LENGTH with 364. rewrite truth_table_sbox. generalize (<[0 := sbox (input !!! 0) (input !!! 364)]> output) as o.
  induction (seq 0 364) as [|k l IH]; intros o; [done|]. cbn [foldl]. rewrite IH. f_equal. unfold substitution_step, write_pair.
  change HALF_STATE_LENGTH with 364. change STATE_LENGTH with 729. rewrite !truth_table_sbox. by replace (729 - k - 1) with (728 - k) by lia.
Qed.

(** A sponge whose buffers have the right size. *)
Definition wf_CurlP (self : CurlP) : Prop := length (curlp_state self) = 729 /\ length (curlp_work_state self) = 729.

Lemma transform_spec self : wf_CurlP self ->
  wf_CurlP (CurlP_transform self) /\ curlp_rounds (CurlP_transform self) = curlp_rounds self
  /\ curlp_state (CurlP_transform self) = rounds (rounds_count (curlp_rounds self)) sbox (curlp_state self).
Proof.
  destruct self as [r st w]. intros [Hs Hw]. unfold CurlP_transform, wf_CurlP in *. cbn [curlp_rounds curlp_state curlp_work_state] in *.
  assert (Hi : forall n, let '(lhs, rhs) := Nat.iter n (fun '(lhs, rhs) => (substitution_box lhs rhs, lhs)) (st, w) in
                         length lhs = 729 /\ length rhs = 729 /\ lhs = rounds n sbox st).
  { induction n as [|n IH]; [done|]. rewrite Nat.iter_succ. destruct (Nat.iter n _ (st, w)) as [lhs rhs]. destruct IH as (Hl & Hr & ->).
    rewrite substitution_box_round by done. split_and!; [apply round_length | done|]. unfold rounds. by rewrite Nat.iter_succ. }
  specialize (Hi (rounds_count r)). destruct (Nat.iter _ _ (st, w)) as [lhs rhs]. by destruct Hi as (? & ? & ?).
Qed.

(** The state after a chunk. *)
Definition absorb_chunk {A} `{Inhabited A} (n : nat) (f : A -> A -> A) (s chunk : list A) : list A := rounds n f (copy_chunk chunk s).
Definition absorb_all {A} `{Inhabited A} (n : nat) (f : A -> A -> A) (input s : list A) : list A :=
  foldl (absorb_chunk n f) s (chunks (length input) HASH_LENGTH input).

Lemma copy_chunk_length {A} (chunk s : list A) : length chunk <= length s -> length (copy_chunk chunk s) = length s.
Proof. intros Hl. unfold copy_chunk. rewrite length_app, length_drop. lia. Qed.

Lemma chunks_short {A} fuel n (l : list A) : 0 < n -> length l <= fuel -> Forall (fun c => length c <= n) (chunks fuel n l).
Proof.
  intros Hn. revert l. induction fuel as [|fuel IH]; intros [|x l] Hl; cbn [chunks]; [constructor | cbn in Hl; lia | constructor|].
  constructor; [rewrite length_take; lia|]. apply IH. rewrite length_drop. cbn [length] in *. lia.
Qed.

Lemma absorb_spec self input : wf_CurlP self ->
  wf_CurlP (CurlP_absorb self input) /\ curlp_rounds (CurlP_absorb self input) = curlp_rounds self
  /\ curlp_state (CurlP_absorb self input) = absorb_all (rounds_count (curlp_rounds self)) sbox input (curlp_state self).
Proof.
  unfold CurlP_absorb, absorb_all. pose proof (chunks_short (length input) HASH_LENGTH input ltac:(unfold HASH_LENGTH; lia) ltac:(lia)) as Hc.
  revert self. induction Hc as [|c l Hc _ IH]; intros self Hw; [done|]. cbn [foldl].
  set (self1 := mkCurlP (curlp_rounds self) (copy_chunk c (curlp_state self)) (curlp_work_state self)).
  assert (Hw1 : wf_CurlP self1).
  { split; [|apply Hw]. cbn [curlp_state self1]. rewrite copy_chunk_length; [apply Hw|]. rewrite (proj1 Hw). unfold HASH_LENGTH in Hc. lia. }
  destruct (transform_spec self1 Hw1) as (Hw2 & Hr2 & Hs2). destruct (IH (CurlP_absorb_chunk self c) Hw2) as (Hw3 & Hr3 & Hs3).
  split_and!; [done | by rewrite Hr3|]. rewrite Hs3. unfold CurlP_absorb_chunk. fold self1. by rewrite Hr2, Hs2.
Qed.

(** The hash of an input: the chunks are absorbed into a state of zeros, whose first trits are the hash. *)
Definition curl {A} `{Inhabited A} (n : nat) (f : A -> A -> A) (zero : A) (input : list A) : list A :=
  take HASH_LENGTH (absorb_all n f input (repeat zero STATE_LENGTH)).

Lemma digest_spec self input :
  wf_CurlP self -> curlp_state self = repeat Zero STATE_LENGTH ->
  exists self', sponge_digest self input = Ok (self', curl (rounds_count (curlp_rounds self)) sbox Zero input)
    /\ wf_CurlP self' /\ curlp_rounds self' = curlp_rounds self /\ curlp_state self' = repeat Zero STATE_LENGTH.
Proof.
  intros Hw Hz. destruct (absorb_spec self input Hw) as (Hw1 & Hr1 & Hs1). unfold sponge_digest, sponge_squeeze. cbn [sponge_absorb sponge_squeeze_into sponge_reset CurlP_sponge result_bind].
  set (self1 := CurlP_absorb self input) in *. destruct (transform_spec self1 Hw1) as (Hw2 & Hr2 & Hs2).
  unfold CurlP_squeeze_into. change (chunks (length (repeat Zero HASH_LENGTH)) HASH_LENGTH (repeat Zero HASH_LENGTH)) with [repeat Zero HASH_LENGTH].
  cbn [CurlP_squeeze_chunks]. rewrite app_nil_r, repeat_length. eexists. split; [unfold curl; by rewrite Hs1, Hz|].
  destruct (CurlP_transform self1) as [r st w]. destruct Hw2 as [Hl Hwl]. cbn [curlp_rounds curlp_state curlp_work_state CurlP_reset] in *.
  assert (Hzs : (fun _ => Zero) <$> st = repeat Zero STATE_LENGTH).
  { change STATE_LENGTH with 729. rewrite <- Hl. clear. induction st; [done|]. cbn. by f_equal. }
  unfold CurlP_reset. cbn [curlp_rounds curlp_state curlp_work_state]. rewrite Hzs. split_and!; [split; [exact (repeat_length Zero STATE_LENGTH) | exact Hwl] | congruence | done].
Qed.

(** Related inputs have related hashes. *)
Section related.
Context {A C : Type} `{Inhabited A} `{Inhabited C} (R : A -> C -> Prop) (f : A -> A -> A) (g : C -> C -> C).
Context (Hf : forall a a' c c', R a c -> R a' c' -> R (f a a') (g c c')).

Lemma rounds_rel n s t : length s = 729 -> Forall2 R s t -> Forall2 R (rounds n f s) (rounds n g t).
Proof.
  intros Hl HR. induction n as [|n IH]; [done|]. unfold rounds. rewrite !Nat.iter_succ. apply round_rel; [done | by apply rounds_length | done].
Qed.

Lemma chunks_rel fuel n l l' : Forall2 R l l' -> Forall2 (Forall2 R) (chunks fuel n l) (chunks fuel n l').
Proof.
  revert l l'. induction fuel as [|fuel IH]; intros l l' HR; destruct HR as [|x y l l' Hxy HR]; cbn [chunks]; try constructor; try done.
  - by constructor.
  - apply Forall2_take. by constructor.
  - apply IH, Forall2_drop. by constructor.
Qed.

Lemma absorb_all_rel n l l' s s' : Forall2 R l l' -> length s = 729 -> Forall2 R s s' -> Forall2 R (absorb_all n f l s) (absorb_all n g l' s').
Proof.
  intros Hl. unfold absorb_all. rewrite <- (Forall2_length _ _ _ Hl). pose proof (chunks_rel (length l) HASH_LENGTH l l' Hl) as Hc.
  pose proof (chunks_short (length l) HASH_LENGTH l ltac:(unfold HASH_LENGTH; lia) ltac:(lia)) as Hs. revert s s'.
  induction Hc as [|c c' cs cs' Hcc _ IH]; intros s s' Hls HR; [done|]. cbn [foldl]. apply Forall_cons in Hs as [Hcl Hs].
  assert (Hlen : length (copy_chunk c s) = 729) by (rewrite copy_chunk_length; [done | unfold HASH_LENGTH in Hcl; lia]).
  apply IH; [done | by apply rounds_length|]. apply rounds_rel; [done|]. unfold copy_chunk. rewrite <- (Forall2_length _ _ _ Hcc).
  apply Forall2_app; [done | by apply Forall2_drop].
Qed.

Lemma curl_rel n z z' l l' : R z z' -> Forall2 R l l' -> Forall2 R (curl n f z l) (curl n g z' l').
Proof.
  intros Hz Hl. apply Forall2_take, absorb_all_rel; [done | apply repeat_length|]. generalize STATE_LENGTH as k.
  induction k; [constructor | by constructor].
Qed.
End related.

Lemma absorb_all_length {A} `{Inhabited A} n (f : A -> A -> A) l s : length s = 729 -> length (absorb_all n f l s) = 729.
Proof.
  intros Hl. unfold absorb_all. pose proof (chunks_short (length l) HASH_LENGTH l ltac:(unfold HASH_LENGTH; lia) ltac:(lia)) as Hs. revert s Hl.
  induction Hs as [|c cs Hc _ IH]; intros s Hl; [done|]. cbn [foldl]. apply IH. apply rounds_length. rewrite copy_chunk_length; [done|].
  unfold HASH_LENGTH in Hc. lia.
Qed.

Lemma curl_length {A} `{Inhabited A} n (f : A -> A -> A) z l : length (curl n f z l) = HASH_LENGTH.
Proof. unfold curl. rewrite length_take, absorb_all_length by apply repeat_length. reflexivity. Qed.
