(* ===== verification/CurlBatched.v ===== *)
(** * Curl-P in batches

    Models [bee-crypto/src/ternary/sponge/curlp/batched/]: 64 inputs are hashed at once. The trits of the inputs are
    interleaved; a word holds one bit of each input, and a trit is a pair of words. A number of type [usize] has 64 bits.

    [batched_equals_unbatched] shows that the hashes are those of [CurlP]: each bit of the words is a run of the
    scalar function, [lane]. *)

From S2P Require Import Prelude Packable Trits External Pow Curl.

Local Open Scope nat_scope.

(** ** Binary coded trits: [bct.rs] *)

Record BcTrit := mkBcTrit { bct_lo : Z; bct_hi : Z }.
#[export] Instance BcTrit_inhabited : Inhabited BcTrit := populate (mkBcTrit 0 0).

Definition BcTrit_zero : BcTrit := mkBcTrit 0 0.
Definition BcTrits_zeros (len : nat) : list BcTrit := repeat BcTrit_zero len.
Definition BcTrits_filled (len : nat) (value : Z) : list BcTrit := repeat (mkBcTrit value value) len.
Definition BcTrits_fill (self : list BcTrit) (value : Z) : list BcTrit := (fun _ => mkBcTrit value value) <$> self.

(** ** The sponge: [bct_curlp.rs] *)

Definition CURL_BATCH_SIZE : nat := 64.
Definition HIGH_BITS : Z := 2 ^ 64 - 1.
(** [!x] of a [usize] *)
Definition usize_not (x : Z) : Z := Z.lxor HIGH_BITS x.

Record BctCurlP := mkBctCurlP {
  bct_rounds : CurlPRounds;
  bct_state : list BcTrit;
  bct_scratch_pad : list BcTrit;
}.

Definition BctCurlP_new (rounds : CurlPRounds) : BctCurlP :=
  mkBctCurlP rounds (BcTrits_filled (3 * HASH_LENGTH) HIGH_BITS) (BcTrits_filled (3 * HASH_LENGTH) HIGH_BITS).

Definition BctCurlP_reset (self : BctCurlP) : BctCurlP :=
  mkBctCurlP (bct_rounds self) (BcTrits_fill (bct_state self) HIGH_BITS) (bct_scratch_pad self).

(** The new trit, of the previous value [(alpha, beta)] of [temp] and its new one. *)
Definition bct_box (alpha beta : Z) (temp : BcTrit) : BcTrit :=
  let delta := Z.lxor beta (bct_lo temp) in
  mkBcTrit (usize_not (Z.land delta alpha)) (Z.lor delta (Z.lxor alpha (bct_hi temp))).

(** The loop over the state; [None] if the fuel is used up. *)
Fixpoint bct_while (fuel : nat) (scratch_pad state : list BcTrit) (scratch_pad_index state_index : nat) (temp : BcTrit) : option (list BcTrit * nat) :=
  if state_index <? length state then
    match fuel with
    | O => None
    | S fuel =>
        let scratch_pad_index := scratch_pad_index + 364 in
        let '(mkBcTrit alpha beta) := temp in
        let temp := scratch_pad !!! scratch_pad_index in
        let state := <[state_index := bct_box alpha beta temp]> state in
        let state_index := state_index + 1 in
        let scratch_pad_index := scratch_pad_index - 365 in
        let '(mkBcTrit alpha beta) := temp in
        let temp := scratch_pad !!! scratch_pad_index in
        let state := <[state_index := bct_box alpha beta temp]> state in
        bct_while fuel scratch_pad state scratch_pad_index (state_index + 1) temp
    end
  else Some (state, scratch_pad_index).

(** One round; [scratch_pad_index] is declared outside the loop over the rounds. *)
Definition bct_transform_round (st : list BcTrit * list BcTrit * nat) : option (list BcTrit * list BcTrit * nat) :=
  let '(state, _, scratch_pad_index) := st in
  let scratch_pad := state in
  let '(mkBcTrit alpha beta) := scratch_pad !!! scratch_pad_index in
  let scratch_pad_index := scratch_pad_index + 364 in
  let temp := scratch_pad !!! scratch_pad_index in
  let state := <[0 := bct_box alpha beta temp]> state in
  '(state, scratch_pad_index) ← bct_while (length state) scratch_pad state scratch_pad_index 1 temp;
  Some (state, scratch_pad, scratch_pad_index).

Fixpoint iter_option {A} (n : nat) (f : A -> option A) (a : A) : option A :=
  match n with O => Some a | S n => a ← f a; iter_option n f a end.

Definition BctCurlP_transform (self : BctCurlP) : option BctCurlP :=
  '(state, scratch_pad, _) ← iter_option (rounds_count (bct_rounds self)) bct_transform_round (bct_state self, bct_scratch_pad self, 0);
  Some (mkBctCurlP (bct_rounds self) state scratch_pad).

(** The [loop] of [absorb]. *)
Fixpoint bct_absorb_loop (fuel : nat) (self : BctCurlP) (bc_trits : list BcTrit) (length offset : nat) : option BctCurlP :=
  match fuel with
  | O => None
  | S fuel =>
      let length_to_copy := if length <? HASH_LENGTH then length else HASH_LENGTH in
      let state := copy_chunk (take length_to_copy (drop offset bc_trits)) (bct_state self) in
      self ← BctCurlP_transform (mkBctCurlP (bct_rounds self) state (bct_scratch_pad self));
      if length <=? length_to_copy then Some self else bct_absorb_loop fuel self bc_trits (length - length_to_copy) (offset + length_to_copy)
  end.
Definition BctCurlP_absorb (self : BctCurlP) (bc_trits : list BcTrit) : option BctCurlP :=
  bct_absorb_loop (S (length bc_trits)) self bc_trits (length bc_trits) 0.

(** The hashes that fill the buffer. *)
Fixpoint bct_squeeze_loop (hash_count : nat) (self : BctCurlP) : option (BctCurlP * list BcTrit) :=
  match hash_count with
  | O => Some (self, [])
  | S n =>
      let out := take HASH_LENGTH (bct_state self) in
      self ← BctCurlP_transform self;
      '(self, rest) ← bct_squeeze_loop n self;
      Some (self, out ++ rest)
  end.
Definition BctCurlP_squeeze_into (self : BctCurlP) (result : list BcTrit) : option (BctCurlP * list BcTrit) :=
  let trit_count := length result in
  let hash_count := trit_count / HASH_LENGTH in
  '(self, out) ← bct_squeeze_loop hash_count self;
  let last := trit_count - hash_count * HASH_LENGTH in
  let out := out ++ take last (bct_state self) in
  if negb (trit_count mod HASH_LENGTH =? 0) then self ← BctCurlP_transform self; Some (self, out)
  else Some (self, out).

(** ** The hasher: [mod.rs] *)

Record BatchHasher := mkBatchHasher {
  trit_inputs : list (list Btrit);
  bct_inputs : list BcTrit;
  bct_hashes : list BcTrit;
  buf_demux : list Btrit;
  hasher_bct_curlp : BctCurlP;
  hasher_curlp : CurlP;
}.

Definition BatchHasher_new (input_length : nat) (rounds : CurlPRounds) : BatchHasher :=
  mkBatchHasher [] (BcTrits_zeros input_length) (BcTrits_zeros HASH_LENGTH) (repeat Zero HASH_LENGTH) (BctCurlP_new rounds) (CurlP_new rounds).

(** The assertions panic. *)
Definition BatchHasher_add (self : BatchHasher) (input : list Btrit) : option BatchHasher :=
  if negb (length (trit_inputs self) <? CURL_BATCH_SIZE) then None
  else if negb (length input =? length (bct_inputs self)) then None
  else Some (mkBatchHasher (trit_inputs self ++ [input]) (bct_inputs self) (bct_hashes self) (buf_demux self) (hasher_bct_curlp self) (hasher_curlp self)).

(** The trit of the input [j] in a pair of words. *)
Definition mux_trit (w : BcTrit) (j : nat) (t : Btrit) : BcTrit :=
  let bit := Z.shiftl 1 (Z.of_nat j) in
  match t with
  | NegOne => mkBcTrit (Z.lor (bct_lo w) bit) (bct_hi w)
  | PlusOne => mkBcTrit (bct_lo w) (Z.lor (bct_hi w) bit)
  | Zero => mkBcTrit (Z.lor (bct_lo w) bit) (Z.lor (bct_hi w) bit)
  end.
Definition mux_word (inputs : list (list Btrit)) (i : nat) (w : BcTrit) : BcTrit :=
  foldl (fun w j => mux_trit w j ((inputs !!! j) !!! i)) w (seq 0 (length inputs)).
Definition mux (inputs : list (list Btrit)) (bct : list BcTrit) : list BcTrit := imap (mux_word inputs) bct.

Definition demux_trit (w : BcTrit) (index : nat) : Btrit :=
  let lo := Z.land (Z.shiftr (bct_lo w) (Z.of_nat index)) 1 in
  let hi := Z.land (Z.shiftr (bct_hi w) (Z.of_nat index)) 1 in
  if ((lo =? 1) && (hi =? 0))%Z then NegOne else if ((lo =? 0) && (hi =? 1))%Z then PlusOne else Zero.
(** The pairs of words and the trits of the buffer, which has as many. *)
Definition demux (self : BatchHasher) (index : nat) : list Btrit :=
  zip_with (fun w _ => demux_trit w index) (bct_hashes self) (buf_demux self).

(** The hashes, which the iterator yields one after the other. *)
Definition hash_batched (self : BatchHasher) : option (BatchHasher * list (list Btrit)) :=
  let total := length (trit_inputs self) in
  let bct := BctCurlP_reset (hasher_bct_curlp self) in
  let inputs := mux (trit_inputs self) (bct_inputs self) in
  bct ← BctCurlP_absorb bct inputs;
  '(bct, hashes) ← BctCurlP_squeeze_into bct (bct_hashes self);
  let self := mkBatchHasher [] (BcTrits_fill inputs 0) hashes (buf_demux self) bct (hasher_curlp self) in
  Some (self, demux self <$> seq 0 total).

Fixpoint digest_all (curl : CurlP) (inputs : list (list Btrit)) : option (CurlP * list (list Btrit)) :=
  match inputs with
  | [] => Some (curl, [])
  | input :: inputs =>
      match sponge_digest curl input with
      | Ok (curl, h) => '(curl, hs) ← digest_all curl inputs; Some (curl, h :: hs)
      | Err _ => None
      end
  end.
Definition hash_unbatched (self : BatchHasher) : option (BatchHasher * list (list Btrit)) :=
  '(curl, hs) ← digest_all (CurlP_reset (hasher_curlp self)) (trit_inputs self);
  Some (mkBatchHasher [] (bct_inputs self) (bct_hashes self) (buf_demux self) (hasher_bct_curlp self) curl, hs).

(** ** One bit of the words *)

(** Bit [j] of the words holds the trit. *)
Definition lane (j : nat) (w : BcTrit) (t : Btrit) : Prop :=
  Z.testbit (bct_lo w) (Z.of_nat j) = match t with PlusOne => false | _ => true end
  /\ Z.testbit (bct_hi w) (Z.of_nat j) = match t with NegOne => false | _ => true end.

Lemma testbit_not x j : j < 64 -> Z.testbit (usize_not x) (Z.of_nat j) = negb (Z.testbit x (Z.of_nat j)).
Proof.
  intros Hj. unfold usize_not, HIGH_BITS. rewrite Z.lxor_spec. change (2 ^ 64 - 1)%Z with (Z.ones 64). rewrite Z.ones_spec_low by lia.
  by destruct (Z.testbit x _).
Qed.

Definition bct_box' (a b : BcTrit) : BcTrit := bct_box (bct_lo a) (bct_hi a) b.

Lemma lane_box j a b t u : j < 64 -> lane j a t -> lane j b u -> lane j (bct_box' a b) (sbox t u).
Proof.
  intros Hj [H1 H2] [H3 H4]. unfold lane, bct_box', bct_box. cbn [bct_lo bct_hi].
  rewrite testbit_not, Z.land_spec, Z.lor_spec, !Z.lxor_spec, H1, H2, H3, H4 by done. by destruct t, u.
Qed.

Lemma lane_inj j w t u : lane j w t -> lane j w u -> t = u.
Proof. unfold lane. intros [H1 H2] [H3 H4]. rewrite H1 in H3. rewrite H2 in H4. by destruct t, u. Qed.

Lemma land_1 x j : Z.land (Z.shiftr x (Z.of_nat j)) 1 = Z.b2z (Z.testbit x (Z.of_nat j)).
Proof. change 1%Z with (Z.ones 1) at 1. rewrite Z.land_ones by lia. change (2 ^ 1)%Z with 2%Z. rewrite <- Z.bit0_mod, Z.shiftr_spec by lia. done. Qed.

Lemma lane_demux j w t : lane j w t -> demux_trit w j = t.
Proof. intros [H1 H2]. unfold demux_trit. rewrite !land_1, H1, H2. by destruct t. Qed.

Lemma lane_zero j : j < 64 -> lane j (mkBcTrit HIGH_BITS HIGH_BITS) Zero.
Proof. intros Hj. unfold lane, HIGH_BITS. change (2 ^ 64 - 1)%Z with (Z.ones 64). cbn [bct_lo bct_hi]. by rewrite Z.ones_spec_low by lia. Qed.

(** ** The sponge computes rounds *)

Definition wf_BctCurlP (self : BctCurlP) : Prop := length (bct_state self) = 729.

Lemma bct_while_spec n fuel scratch state :
  n <= 364 -> n <= fuel -> length state = 729 ->
  bct_while fuel scratch state n (729 - 2 * n) (scratch !!! n) = Some (foldl (write_pair bct_box' scratch) state (seq (364 - n) n), 0).
Proof.
  revert fuel state. induction n as [|n IH]; intros fuel state Hn Hf Hl.
  - destruct fuel; cbn [bct_while]; rewrite Hl; done.
  - destruct fuel as [|fuel]; [lia|]. cbn [bct_while seq foldl]. rewrite Hl, (proj2 (Nat.ltb_lt _ _)) by lia.
    destruct (scratch !!! S n) as [alpha beta] eqn:E1. destruct (scratch !!! (S n + 364)) as [alpha' beta'] eqn:E2.
    replace (S n + 364 - 365) with n by lia. replace (729 - 2 * S n + 1 + 1) with (729 - 2 * n) by lia.
    rewrite IH by (rewrite ?length_insert; lia). replace (S (364 - S n)) with (364 - n) by lia. do 3 f_equal.
    unfold write_pair, bct_box'. replace (728 - (364 - S n)) with (S n + 364) by lia. replace (364 - (364 - S n)) with (S n) by lia.
    replace (S n - 1) with n by lia. rewrite E1, E2. cbn [bct_lo bct_hi].
    replace (729 - 2 * S n + 1) with (2 * (364 - S n) + 2) by lia. by replace (729 - 2 * S n) with (2 * (364 - S n) + 1) by lia.
Qed.

Lemma bct_round_spec state pad : length state = 729 -> bct_transform_round (state, pad, 0) = Some (round bct_box' state, state, 0).
Proof.
  intros Hl. unfold bct_transform_round. destruct (state !!! 0) as [alpha beta] eqn:E. rewrite Nat.add_0_l.
  change 1 with (729 - 2 * 364). rewrite bct_while_spec by (rewrite ?length_insert; lia). cbn [mbind option_bind].
  rewrite <- (write_pairs_round bct_box' state state Hl). unfold bct_box' at 2. rewrite E. done.
Qed.

Lemma bct_transform_spec self : wf_BctCurlP self ->
  exists pad, BctCurlP_transform self = Some (mkBctCurlP (bct_rounds self) (rounds (rounds_count (bct_rounds self)) bct_box' (bct_state self)) pad).
Proof.
  intros Hl. unfold BctCurlP_transform. assert (Hi : forall n state pad, length state = 729 ->
    exists pad', iter_option n bct_transform_round (state, pad, 0) = Some (rounds n bct_box' state, pad', 0)).
  { induction n as [|n IH]; intros state pad Hs; [by exists pad|]. cbn [iter_option]. rewrite bct_round_spec by done. cbn [mbind option_bind].
    destruct (IH (round bct_box' state) state (round_length _ _)) as [pad' Hp]. exists pad'. rewrite Hp. unfold rounds. by rewrite Nat.iter_succ_r. }
  destruct (Hi (rounds_count (bct_rounds self)) (bct_state self) (bct_scratch_pad self) Hl) as [pad ->]. by exists pad.
Qed.

(** The chunks of a slice that is not empty. *)
Lemma chunks_cons {A} fuel n (l : list A) : l <> [] -> chunks (S fuel) n l = take n l :: chunks fuel n (drop n l).
Proof. by destruct l. Qed.

Lemma chunks_fuel {A} fuel fuel' n (l : list A) : 0 < n -> length l <= fuel -> length l <= fuel' -> chunks fuel n l = chunks fuel' n l.
Proof.
  intros Hn. revert fuel' l. induction fuel as [|fuel IH]; intros [|fuel'] [|x l] H1 H2; cbn [length] in *; try lia; try done.
  rewrite !chunks_cons by done. f_equal. apply IH; rewrite length_drop; cbn [length]; lia.
Qed.

Lemma bct_absorb_loop_spec fuel self l len off :
  wf_BctCurlP self -> len = length (drop off l) -> 0 < len -> len < fuel ->
  exists pad, bct_absorb_loop fuel self l len off
    = Some (mkBctCurlP (bct_rounds self) (foldl (absorb_chunk (rounds_count (bct_rounds self)) bct_box') (bct_state self) (chunks len HASH_LENGTH (drop off l))) pad).
Proof.
  revert self len off. induction fuel as [|fuel IH]; intros self len off Hw Hlen Hpos Hf; [lia|]. cbn [bct_absorb_loop].
  assert (Hmin : (if len <? HASH_LENGTH then len else HASH_LENGTH) = min len HASH_LENGTH) by (destruct (Nat.ltb_spec len HASH_LENGTH); lia).
  rewrite Hmin. assert (Htake : take (min len HASH_LENGTH) (drop off l) = take HASH_LENGTH (drop off l)) by (rewrite Nat.min_comm, <- take_take, (take_ge _ len) by lia; done).
  rewrite Htake. set (c := take HASH_LENGTH (drop off l)).
  assert (Hw1 : wf_BctCurlP (mkBctCurlP (bct_rounds self) (copy_chunk c (bct_state self)) (bct_scratch_pad self))).
  { unfold wf_BctCurlP. cbn [bct_state]. rewrite copy_chunk_length; [done|]. unfold c. rewrite length_take, Hw. unfold HASH_LENGTH. lia. }
  destruct (bct_transform_spec _ Hw1) as [pad Ht]. rewrite Ht. cbn [mbind option_bind bct_rounds bct_state].
  destruct len as [|len]; [lia|]. rewrite chunks_cons by (intros E; rewrite E in Hlen; done). fold c. cbn [foldl]. rewrite drop_drop.
  set (self1 := mkBctCurlP _ _ pad). change (rounds _ bct_box' (copy_chunk c (bct_state self))) with (bct_state self1).
  destruct (Nat.leb_spec (S len) (min (S len) HASH_LENGTH)) as [Hle|Hgt].
  - exists pad. assert (Hd : drop (off + HASH_LENGTH) l = []) by (apply nil_length_inv; rewrite length_drop in *; lia). rewrite Hd. by destruct len.
  - assert (Hm : min (S len) HASH_LENGTH = HASH_LENGTH) by lia. rewrite Hm. assert (Hh : HASH_LENGTH = 243) by done.
    destruct (IH self1 (S len - HASH_LENGTH) (off + HASH_LENGTH)) as [pad' Hr].
    + unfold wf_BctCurlP. apply rounds_length. by apply Hw1.
    + rewrite length_drop in *. lia.
    + lia.
    + lia.
    + rewrite Hr. exists pad'. do 3 f_equal. apply chunks_fuel; rewrite ?length_drop in *; lia.
Qed.

Lemma bct_absorb_spec self l : wf_BctCurlP self -> l <> [] ->
  exists pad, BctCurlP_absorb self l = Some (mkBctCurlP (bct_rounds self) (absorb_all (rounds_count (bct_rounds self)) bct_box' l (bct_state self)) pad).
Proof. intros Hw Hl. apply bct_absorb_loop_spec; [done | done | by destruct l; [|cbn; lia] | lia]. Qed.

Lemma bct_squeeze_spec self result : wf_BctCurlP self -> length result = HASH_LENGTH ->
  exists self', BctCurlP_squeeze_into self result = Some (self', take HASH_LENGTH (bct_state self)) /\ wf_BctCurlP self' /\ bct_rounds self' = bct_rounds self.
Proof.
  intros Hw Hr. unfold BctCurlP_squeeze_into. rewrite Hr. change (HASH_LENGTH / HASH_LENGTH) with 1. change (HASH_LENGTH mod HASH_LENGTH =? 0) with true.
  cbn [bct_squeeze_loop]. destruct (bct_transform_spec self Hw) as [pad ->]. cbn [mbind option_bind negb]. eexists. split; [by rewrite !app_nil_r|].
  split; [by apply rounds_length | done].
Qed.

(** ** Interleaving *)

Lemma testbit_bit k j : Z.testbit (Z.shiftl 1 (Z.of_nat k)) (Z.of_nat j) = bool_decide (j = k).
Proof.
  rewrite Z.shiftl_spec by lia. case_bool_decide as Hjk.
  - subst. rewrite Z.sub_diag. reflexivity.
  - destruct (Nat.lt_ge_cases j k); [by rewrite Z.testbit_neg_r by lia|]. apply (Z.bits_above_log2 1); cbn; lia.
Qed.

Lemma mux_other w k t j u : j <> k -> lane j w u -> lane j (mux_trit w k t) u.
Proof.
  intros Hne [H1 H2]. unfold lane, mux_trit. destruct t; cbn [bct_lo bct_hi]; rewrite ?Z.lor_spec, ?testbit_bit, ?bool_decide_eq_false_2 by done;
    by rewrite ?orb_false_r.
Qed.

(** No input has been written at [j]. *)
Definition blank (j : nat) (w : BcTrit) : Prop := Z.testbit (bct_lo w) (Z.of_nat j) = false /\ Z.testbit (bct_hi w) (Z.of_nat j) = false.

Lemma mux_blank w k t j : j <> k -> blank j w -> blank j (mux_trit w k t).
Proof.
  intros Hne [H1 H2]. unfold blank, mux_trit. destruct t; cbn [bct_lo bct_hi]; rewrite ?Z.lor_spec, ?testbit_bit, ?bool_decide_eq_false_2 by done;
    by rewrite ?orb_false_r.
Qed.

Lemma mux_written w j t : blank j w -> lane j (mux_trit w j t) t.
Proof.
  intros [H1 H2]. unfold lane, mux_trit. destruct t; cbn [bct_lo bct_hi]; rewrite ?Z.lor_spec, ?testbit_bit, ?bool_decide_eq_true_2, ?H1, ?H2 by done; done.
Qed.

Lemma mux_word_lane inputs i j : j < length inputs -> lane j (mux_word inputs i BcTrit_zero) ((inputs !!! j) !!! i).
Proof.
  intros Hj. unfold mux_word. assert (Hn : forall n j, let w := foldl (fun w j => mux_trit w j ((inputs !!! j) !!! i)) BcTrit_zero (seq 0 n) in
                        (j < n -> lane j w ((inputs !!! j) !!! i)) /\ (n <= j -> blank j w)).
  { clear. induction n as [|n IH]; intros j w.
    - split; [lia|]. intros _. by split; apply Z.bits_0.
    - subst w. rewrite seq_S, foldl_app. cbn [foldl Nat.add]. split; intros Hj.
      + destruct (decide (j = n)) as [->|Hne]; [by apply mux_written, (IH n) | apply mux_other; [done|]; apply (IH j); lia].
      + apply mux_blank; [lia|]. apply (IH j). lia. }
  by apply (Hn (length inputs) j).
Qed.

Lemma mux_lanes inputs n j input :
  inputs !! j = Some input -> length input = n -> Forall2 (lane j) (mux inputs (BcTrits_zeros n)) input.
Proof.
  intros Hj Hl. unfold mux, BcTrits_zeros. apply Forall2_same_length_lookup_2; [by rewrite length_imap, repeat_length|]. intros i w t Hw Ht.
  rewrite list_lookup_imap in Hw. apply fmap_Some in Hw as (z & Hz & ->). apply list_elem_of_lookup_2, list_elem_of_In, repeat_spec in Hz as ->.
  rewrite <- (list_lookup_total_correct _ _ _ Ht), <- (list_lookup_total_correct _ _ _ Hj) at 1. apply mux_word_lane. by apply lookup_lt_Some in Hj.
Qed.

(** ** The hasher *)

Record wf_hasher (n : nat) (r : CurlPRounds) (h : BatchHasher) : Prop := {
  wh_inputs : Forall (fun input => length input = n) (trit_inputs h) /\ length (trit_inputs h) <= CURL_BATCH_SIZE;
  wh_bct_inputs : bct_inputs h = BcTrits_zeros n;
  wh_hashes : length (bct_hashes h) = HASH_LENGTH /\ length (buf_demux h) = HASH_LENGTH;
  wh_bct : wf_BctCurlP (hasher_bct_curlp h) /\ bct_rounds (hasher_bct_curlp h) = r;
  wh_curlp : wf_CurlP (hasher_curlp h) /\ curlp_rounds (hasher_curlp h) = r;
}.

Lemma wf_hasher_new n r : wf_hasher n r (BatchHasher_new n r).
Proof. split; [split; [constructor | cbn; lia] | done | by split; apply repeat_length | by split; [apply repeat_length|] | by split; [split; apply repeat_length|]]. Qed.

Lemma wf_hasher_add n r h input h' : wf_hasher n r h -> BatchHasher_add h input = Some h' -> wf_hasher n r h' /\ trit_inputs h' = trit_inputs h ++ [input].
Proof.
  intros [[G1 G1'] G2 G3 G4 G5]. unfold BatchHasher_add. destruct (Nat.ltb_spec (length (trit_inputs h)) CURL_BATCH_SIZE) as [Hlt|]; [|done]. cbn [negb].
  destruct (Nat.eqb_spec (length input) (length (bct_inputs h))) as [He|]; [|done]. intros [= <-]. split; [|done].
  split; cbn [trit_inputs bct_inputs bct_hashes buf_demux hasher_bct_curlp hasher_curlp]; try done. split.
  - apply Forall_app. split; [done|]. constructor; [|constructor]. rewrite He, G2. apply repeat_length.
  - rewrite length_app. cbn. lia.
Qed.

(** A state in which all the trits are equal goes round in three steps. *)
Lemma round_repeat a : round sbox (repeat a STATE_LENGTH) = repeat (sbox a a) STATE_LENGTH.
Proof.
  apply list_eq_same_length with (n := 729); [apply repeat_length | apply round_length|]. intros i x y Hi Hx Hy.
  rewrite round_lookup in Hx by done. injection Hx as <-. apply list_elem_of_lookup_2, list_elem_of_In, repeat_spec in Hy as ->.
  assert (Ht : forall j, j < 729 -> repeat a STATE_LENGTH !!! j = a).
  { intros j Hj. assert (Hs : is_Some (repeat a STATE_LENGTH !! j)) by (apply lookup_lt_is_Some; by rewrite repeat_length).
    destruct Hs as [b Hb]. rewrite (list_lookup_total_correct _ _ _ Hb). by apply list_elem_of_lookup_2, list_elem_of_In, repeat_spec in Hb. }
  by rewrite !Ht by apply order_lt.
Qed.

Lemma rounds_zeros r : rounds (rounds_count r) sbox (repeat Zero STATE_LENGTH) = repeat Zero STATE_LENGTH.
Proof.
  assert (H3 : forall n, rounds (3 * n) sbox (repeat Zero STATE_LENGTH) = repeat Zero STATE_LENGTH).
  { induction n as [|n IH]; [done|]. replace (3 * S n) with (S (S (S (3 * n)))) by lia. unfold rounds in *. rewrite !Nat.iter_succ, IH, !round_repeat. done. }
  destruct r; [exact (H3 9) | exact (H3 27)].
Qed.

(** The interleaved sponge after it has been fed. *)
Lemma bct_absorbed r self l :
  wf_BctCurlP self -> bct_rounds self = r ->
  exists bct, BctCurlP_absorb (BctCurlP_reset self) l = Some bct /\ wf_BctCurlP bct /\ bct_rounds bct = r
    /\ forall j input, j < 64 -> Forall2 (lane j) l input -> Forall2 (lane j) (bct_state bct) (absorb_all (rounds_count r) sbox input (repeat Zero STATE_LENGTH)).
Proof.
  intros Hw Hr. unfold wf_BctCurlP in Hw. assert (Hreset : bct_state (BctCurlP_reset self) = repeat (mkBcTrit HIGH_BITS HIGH_BITS) STATE_LENGTH).
  { cbn [bct_state BctCurlP_reset]. unfold BcTrits_fill. change STATE_LENGTH with 729. rewrite <- Hw. generalize (bct_state self) as st. clear. induction st; [done|]. cbn. by f_equal. }
  assert (Hwr : wf_BctCurlP (BctCurlP_reset self)) by (unfold wf_BctCurlP; rewrite Hreset; apply repeat_length).
  assert (Hz : forall j, j < 64 -> Forall2 (lane j) (bct_state (BctCurlP_reset self)) (repeat Zero STATE_LENGTH)).
  { intros j Hj. rewrite Hreset. generalize STATE_LENGTH as k. induction k; constructor; [by apply lane_zero | done]. }
  change (bct_rounds self) with (bct_rounds (BctCurlP_reset self)) in Hr. generalize dependent (BctCurlP_reset self). clear self Hw. intros self Hr _ Hw Hz.
  destruct (decide (l = [])) as [->|Hne].
  - unfold BctCurlP_absorb. cbn [bct_absorb_loop length]. change (0 <? HASH_LENGTH) with true. change (0 <=? 0) with true.
    destruct (bct_transform_spec (mkBctCurlP (bct_rounds self) (copy_chunk (take 0 (drop 0 [])) (bct_state self)) (bct_scratch_pad self))) as [pad Ht]; [exact Hw|].
    rewrite Ht. cbn [mbind option_bind bct_rounds bct_state]. eexists. split; [done|]. split_and!; [by apply rounds_length | done|].
    intros j input Hj Hl. inversion Hl; subst. cbn [bct_state]. unfold absorb_all. cbn [length chunks foldl]. rewrite <- (rounds_zeros (bct_rounds self)) at 1.
    apply rounds_rel; [intros; by apply lane_box | exact Hw | exact (Hz j Hj)].
  - destruct (bct_absorb_spec self l Hw Hne) as [pad ->]. eexists. split; [done|]. split_and!; [by apply absorb_all_length | done|].
    intros j input Hj Hl. cbn [bct_state]. rewrite Hr. apply absorb_all_rel; [intros; by apply lane_box | done | exact Hw | by apply Hz].
Qed.

Lemma demux_hash h j hash : length (buf_demux h) = HASH_LENGTH -> length (bct_hashes h) = HASH_LENGTH -> Forall2 (lane j) (bct_hashes h) hash -> demux h j = hash.
Proof.
  intros Hb Hh HR. unfold demux. assert (Hl : length (bct_hashes h) = length (buf_demux h)) by congruence. clear Hb Hh. revert Hl. generalize (buf_demux h) as buf.
  induction HR as [|w t ws ts Hw HR IH]; intros [|b buf] Hl; try done. cbn. f_equal; [by apply lane_demux | apply IH; by injection Hl].
Qed.

Lemma digest_all_spec curl0 inputs :
  wf_CurlP curl0 -> curlp_state curl0 = repeat Zero STATE_LENGTH ->
  exists curl', digest_all curl0 inputs = Some (curl', curl (rounds_count (curlp_rounds curl0)) sbox Zero <$> inputs)
    /\ wf_CurlP curl' /\ curlp_rounds curl' = curlp_rounds curl0.
Proof.
  revert curl0. induction inputs as [|input inputs IH]; intros curl0 Hw Hz; [by exists curl0|]. cbn [digest_all].
  destruct (digest_spec curl0 input Hw Hz) as (curl1 & -> & Hw1 & Hr1 & Hz1). destruct (IH curl1 Hw1 Hz1) as (curl2 & -> & Hw2 & Hr2).
  cbn [mbind option_bind fmap list_fmap]. exists curl2. rewrite Hr1 in *. by split_and!.
Qed.

Lemma fmap_const {A C} (c : C) (l : list A) : (fun _ => c) <$> l = repeat c (length l).
Proof. induction l; [done|]. cbn. by f_equal. Qed.

Lemma fmap_zero (st : list Btrit) : length st = 729 -> (fun _ => Zero) <$> st = repeat Zero STATE_LENGTH.
Proof. intros Hl. by rewrite fmap_const, Hl. Qed.

Lemma fill_zeros l n : length l = n -> BcTrits_fill l 0 = BcTrits_zeros n.
Proof. intros <-. apply fmap_const. Qed.

(** C9. The two ways of hashing a batch agree: for every hasher that was made by [new] and [add], the interleaved hasher
    and the scalar one return the same hashes, those of [CurlP] for each of the inputs; both leave a hasher that is ready
    for the next batch. *)
Theorem batched_equals_unbatched n r h :
  wf_hasher n r h ->
  exists h1 h2 hashes, hash_batched h = Some (h1, hashes) /\ hash_unbatched h = Some (h2, hashes)
    /\ hashes = curl (rounds_count r) sbox Zero <$> trit_inputs h
    /\ wf_hasher n r h1 /\ trit_inputs h1 = [] /\ wf_hasher n r h2 /\ trit_inputs h2 = [].
Proof.
  intros [[G1 G1'] G2 [G3 G3'] [G4 G4'] [G5 G5']]. unfold hash_batched, hash_unbatched.
  destruct (bct_absorbed r (hasher_bct_curlp h) (mux (trit_inputs h) (bct_inputs h)) G4 G4') as (bct & -> & Hw & Hr & Hlane).
  cbn [mbind option_bind]. destruct (bct_squeeze_spec bct (bct_hashes h) Hw G3) as (bct' & -> & Hw' & Hr'). cbn [mbind option_bind].
  set (h1 := mkBatchHasher [] _ _ _ _ _). destruct (digest_all_spec (CurlP_reset (hasher_curlp h)) (trit_inputs h)) as (curl' & -> & Hwc & Hrc).
  { split; [|apply G5]. cbn [curlp_state CurlP_reset]. rewrite length_fmap. apply G5. }
  { cbn [curlp_state CurlP_reset]. by apply fmap_zero, G5. }
  cbn [mbind option_bind]. cbn [curlp_rounds CurlP_reset] in *. rewrite G5' in *.
  assert (Hhash : length (bct_hashes h1) = HASH_LENGTH) by (cbn [bct_hashes h1]; rewrite length_take, Hw; reflexivity).
  assert (Hd : demux h1 <$> seq 0 (length (trit_inputs h)) = curl (rounds_count r) sbox Zero <$> trit_inputs h).
  { apply list_eq. intros j. rewrite !list_lookup_fmap. destruct (trit_inputs h !! j) as [input|] eqn:Hj.
    + pose proof (lookup_lt_Some _ _ _ Hj) as Hlt. rewrite lookup_seq_lt by done. cbn [fmap option_fmap option_map]. f_equal.
      apply demux_hash; [done | done|]. cbn [bct_hashes h1]. apply Forall2_take, Hlane; [unfold CURL_BATCH_SIZE in G1'; lia|]. rewrite G2.
      eapply mux_lanes; [exact Hj|]. rewrite Forall_lookup in G1. by apply (G1 j).
    + rewrite lookup_seq_ge by (by apply lookup_ge_None). done. }
  rewrite Hd. eexists h1, _, _. split; [done|]. split; [done|]. split; [done|]. split; [|split; [done|]; split; [|done]].
  - split; cbn [trit_inputs bct_inputs bct_hashes buf_demux hasher_bct_curlp hasher_curlp h1]; [split; [constructor | cbn; lia] | | done | by rewrite Hr' | done].
    rewrite G2. apply fill_zeros. unfold mux. rewrite length_imap. apply repeat_length.
  - split; cbn [trit_inputs bct_inputs bct_hashes buf_demux hasher_bct_curlp hasher_curlp]; [split; [constructor | cbn; lia] | done..].
Qed.

(** ** Evaluation *)

Module Examples.

(** Two short inputs. *)
Definition hasher_2 : option BatchHasher :=
  h ← BatchHasher_add (BatchHasher_new 3 Rounds27) [PlusOne; NegOne; Zero]; BatchHasher_add h [Zero; Zero; NegOne].

Lemma hasher_2_wf : exists h, hasher_2 = Some h /\ wf_hasher 3 Rounds27 h /\ trit_inputs h = [[PlusOne; NegOne; Zero]; [Zero; Zero; NegOne]].
Proof.
  destruct (BatchHasher_add (BatchHasher_new 3 Rounds27) [PlusOne; NegOne; Zero]) as [h|] eqn:E; [|discriminate E].
  destruct (wf_hasher_add _ _ _ _ _ (wf_hasher_new 3 Rounds27) E) as [Hw Hi]. unfold hasher_2. rewrite E. cbn [mbind option_bind].
  assert (Hb : length (bct_inputs h) = 3) by (by rewrite (wh_bct_inputs _ _ _ Hw)).
  destruct (BatchHasher_add h [Zero; Zero; NegOne]) as [h'|] eqn:E'.
  - destruct (wf_hasher_add _ _ _ _ _ Hw E') as [Hw' Hi']. exists h'. by rewrite Hi', Hi.
  - unfold BatchHasher_add in E'. rewrite Hi, Hb in E'. discriminate E'.
Qed.

Lemma batched_equals_unbatched_witness :
  exists h h1 h2 a b, hasher_2 = Some h /\ hash_batched h = Some (h1, [a; b]) /\ hash_unbatched h = Some (h2, [a; b]).
Proof.
  destruct hasher_2_wf as (h & He & Hw & Hi).
  destruct (batched_equals_unbatched 3 Rounds27 h Hw) as (h1 & h2 & hashes & Hb & Hu & Hh & _). rewrite Hi in Hh.
  eexists h, h1, h2, _, _. split; [exact He|]. rewrite Hh in Hb, Hu. split; [exact Hb | exact Hu].
Defined.
End Examples.
