(* ===== verification/CurlUnrolled.v ===== *)
(** * Curl-P without permutations

    Models [bee-crypto/src/ternary/sponge/curlp/unrolled/]: a state of 729 trits is held in six numbers of 256 bits, the
    positive and the negative trits of each third of it. Instead of permuting the state after every round, a round combines
    it with a rotation of itself; one permutation at the end puts the trits in order.

    [unrolled_equals_curlp81] shows that the hashes are those of [CurlP81]. A number of type [u64] is an integer below
    [2 ^ 64]; a panic is an error. *)

From S2P Require Import Prelude Packable Trits External Pow Curl.

Local Open Scope nat_scope.

(** ** Numbers of 256 bits: [u256.rs] *)

(** The four words, the lowest first. *)
Abbreviation U256 := (list Z).
Definition U256_default : U256 := [0; 0; 0; 0]%Z.

(** [<<] of a [u64] *)
Definition u64_shl (x : Z) (n : nat) : Z := as_u 64 (Z.shiftl x (Z.of_nat n)).
Definition u64_shr (x : Z) (n : nat) : Z := Z.shiftr x (Z.of_nat n).
Definition u64_not (x : Z) : Z := Z.lxor (2 ^ 64 - 1) x.

Definition U256_bit (self : U256) (i : nat) : Z := Z.land (u64_shr (self !!! ((i / 64) mod 4)) (i mod 64)) 1.

(** [self[i] |= x] *)
Definition or_word (self : U256) (i : nat) (x : Z) : U256 := <[i := Z.lor (self !!! i) x]> self.

Definition U256_set_bit (self : U256) (i : nat) : U256 := or_word self ((i / 64) mod 4) (u64_shl 1 (i mod 64)).

Definition shr_into (self x : U256) (shift : nat) : U256 :=
  let offset := shift / 64 in
  let r := shift mod 64 in
  if r =? 0 then foldl (fun self i => or_word self ((i - offset) mod 4) (x !!! i)) self (seq offset (4 - offset))
  else
    let l := 64 - r in
    match offset with
    | 0 =>
        let self := or_word self 0 (Z.lor (u64_shr (x !!! 0) r) (u64_shl (x !!! 1) l)) in
        let self := or_word self 1 (Z.lor (u64_shr (x !!! 1) r) (u64_shl (x !!! 2) l)) in
        let self := or_word self 2 (Z.lor (u64_shr (x !!! 2) r) (u64_shl (x !!! 3) l)) in
        or_word self 3 (u64_shr (x !!! 3) r)
    | 1 =>
        let self := or_word self 0 (Z.lor (u64_shr (x !!! 1) r) (u64_shl (x !!! 2) l)) in
        let self := or_word self 1 (Z.lor (u64_shr (x !!! 2) r) (u64_shl (x !!! 3) l)) in
        or_word self 2 (u64_shr (x !!! 3) r)
    | 2 =>
        let self := or_word self 0 (Z.lor (u64_shr (x !!! 2) r) (u64_shl (x !!! 3) l)) in
        or_word self 1 (u64_shr (x !!! 3) r)
    | 3 => or_word self 0 (u64_shr (x !!! 3) r)
    | _ => self
    end.

Definition shl_into (self x : U256) (shift : nat) : U256 :=
  let offset := shift / 64 in
  let l := shift mod 64 in
  if l =? 0 then foldl (fun self i => or_word self i (x !!! ((i - offset) mod 4))) self (seq offset (4 - offset))
  else
    let r := 64 - l in
    match offset with
    | 0 =>
        let self := or_word self 3 (Z.lor (u64_shl (x !!! 3) l) (u64_shr (x !!! 2) r)) in
        let self := or_word self 2 (Z.lor (u64_shl (x !!! 2) l) (u64_shr (x !!! 1) r)) in
        let self := or_word self 1 (Z.lor (u64_shl (x !!! 1) l) (u64_shr (x !!! 0) r)) in
        or_word self 0 (u64_shl (x !!! 0) l)
    | 1 =>
        let self := or_word self 3 (Z.lor (u64_shl (x !!! 2) l) (u64_shr (x !!! 1) r)) in
        let self := or_word self 2 (Z.lor (u64_shl (x !!! 1) l) (u64_shr (x !!! 0) r)) in
        or_word self 1 (u64_shl (x !!! 0) l)
    | 2 =>
        let self := or_word self 3 (Z.lor (u64_shl (x !!! 1) l) (u64_shr (x !!! 0) r)) in
        or_word self 2 (u64_shl (x !!! 0) l)
    | 3 => or_word self 3 (u64_shl (x !!! 0) l)
    | _ => self
    end.

Definition norm243 (self : U256) : U256 := <[3 := Z.land (self !!! 3) (2 ^ 51 - 1)]> self.

(** ** The transformation: [transform.rs] *)

Definition NUM_ROUNDS : nat := 81.
Definition ROTATION_OFFSET : Z := 364.
Definition STATE_SIZE : Z := 729.

Record StateRotation := mkStateRotation { rotation_offset : nat; rotation_shift : nat }.

(** The loop that fills the table. *)
Fixpoint state_rotations (n : nat) (rotation : Z) : list StateRotation :=
  match n with
  | O => []
  | S n =>
      mkStateRotation (Z.to_nat (rotation / 243)) (Z.to_nat (rotation mod 243))
      :: state_rotations n ((rotation * ROTATION_OFFSET) mod STATE_SIZE)
  end.
Definition STATE_ROTATIONS : list StateRotation := state_rotations NUM_ROUNDS ROTATION_OFFSET.

Definition rotate (p : list U256) (offset shift i : nat) : U256 :=
  shl_into (shr_into U256_default (p !!! ((i + offset) mod 3)) shift) (p !!! ((i + 1 + offset) mod 3)) (243 - shift).
Definition rotate_state (p n : list U256) (offset shift : nat) : list U256 * list U256 :=
  (rotate p offset shift <$> [0; 1; 2], rotate n offset shift <$> [0; 1; 2]).

Definition batch_box (x_p x_n y_p y_n : Z) : Z * Z :=
  let tmp := Z.lxor x_n y_p in
  (Z.land tmp (u64_not x_p), Z.land (u64_not tmp) (u64_not (Z.lxor x_p y_n))).

(** The four words of one third of the state. *)
Definition compute_third (p n p2 n2 : U256) : U256 * U256 :=
  let r := (fun j => batch_box (p !!! j) (n !!! j) (p2 !!! j) (n2 !!! j)) <$> [0; 1; 2; 3] in
  (norm243 r.*1, norm243 r.*2).

Definition transform_round (p n : list U256) (rotation : StateRotation) : list U256 * list U256 :=
  let '(p2, n2) := rotate_state p n (rotation_offset rotation) (rotation_shift rotation) in
  let r := (fun i => compute_third (p !!! i) (n !!! i) (p2 !!! i) (n2 !!! i)) <$> [0; 1; 2] in
  (r.*1, r.*2).

Definition M0 : Z := 10540996613548315209.
Definition M1 : Z := u64_shl M0 1.
Definition M2 : Z := u64_shl M0 2.

Definition reorder_word (p : list U256) (i j : nat) (m0 m1 m2 : Z) : Z :=
  Z.lor (Z.lor (Z.land ((p !!! i) !!! j) m0) (Z.land ((p !!! ((1 + i) mod 3)) !!! j) m1)) (Z.land ((p !!! ((2 + i) mod 3)) !!! j) m2).
Definition reorder_third (p : list U256) (i : nat) : U256 :=
  [reorder_word p i 0 M0 M1 M2; reorder_word p i 1 M2 M0 M1; reorder_word p i 2 M1 M2 M0; reorder_word p i 3 M0 M1 M2].
Definition reorder (p n : list U256) : list U256 * list U256 := (reorder_third p <$> [0; 1; 2], reorder_third n <$> [0; 1; 2]).

Definition transform (p n : list U256) : list U256 * list U256 :=
  let '(p, n) := foldl (fun '(p, n) rotation => transform_round p n rotation) (p, n) STATE_ROTATIONS in
  reorder p n.

(** ** The sponge: [mod.rs] *)

Inductive SpongeDirection := Absorb | Squeeze.

Record UnrolledCurlP81 := mkUnrolled { unrolled_p : list U256; unrolled_n : list U256; unrolled_direction : SpongeDirection }.

Definition UnrolledCurlP81_new : UnrolledCurlP81 := mkUnrolled (repeat U256_default 3) (repeat U256_default 3) Absorb.

Definition unrolled_transform (self : UnrolledCurlP81) : UnrolledCurlP81 :=
  let '(p, n) := transform (unrolled_p self) (unrolled_n self) in mkUnrolled p n (unrolled_direction self).

(** [transmute] of a number between -1 and 1. *)
Definition trit_of_bits (p n : Z) : Btrit := if (p - n =? -1)%Z then NegOne else if (p - n =? 0)%Z then Zero else PlusOne.

Definition squeeze_aux (self : UnrolledCurlP81) : UnrolledCurlP81 * list Btrit :=
  let self := match unrolled_direction self with Squeeze => unrolled_transform self | Absorb => self end in
  let self := mkUnrolled (unrolled_p self) (unrolled_n self) Squeeze in
  (self, (fun i => trit_of_bits (U256_bit (unrolled_p self !!! 0) i) (U256_bit (unrolled_n self !!! 0) i)) <$> seq 0 HASH_LENGTH).

(** The bits of a chunk. *)
Definition chunk_bits (chunk : list Btrit) : U256 * U256 :=
  foldl (fun '(p, n) i =>
    match chunk !!! i with
    | PlusOne => (U256_set_bit p i, n)
    | Zero => (p, n)
    | NegOne => (p, U256_set_bit n i)
    end) (U256_default, U256_default) (seq 0 (length chunk)).

Definition unrolled_absorb_chunk (self : UnrolledCurlP81) (chunk : list Btrit) : UnrolledCurlP81 :=
  let '(p, n) := chunk_bits chunk in
  unrolled_transform (mkUnrolled (<[0 := p]> (unrolled_p self)) (<[0 := n]> (unrolled_n self)) (unrolled_direction self)).

(** The panics of the assertions are errors here. *)
Definition unrolled_absorb (self : UnrolledCurlP81) (input : list Btrit) : result string UnrolledCurlP81 :=
  if (length input =? 0) || negb (length input mod HASH_LENGTH =? 0) then Err "trits slice length must be multiple of 243"%string
  else
    match unrolled_direction self with
    | Squeeze => Err "absorb after squeeze"%string
    | Absorb => Ok (foldl unrolled_absorb_chunk self (chunks (length input) HASH_LENGTH input))
    end.

Fixpoint unrolled_squeeze_chunks (self : UnrolledCurlP81) (buf : list (list Btrit)) : UnrolledCurlP81 * list Btrit :=
  match buf with
  | [] => (self, [])
  | _ :: buf =>
      let '(self, out) := squeeze_aux self in
      let '(self, rest) := unrolled_squeeze_chunks self buf in
      (self, out ++ rest)
  end.
Definition unrolled_squeeze_into (self : UnrolledCurlP81) (buf : list Btrit) : result string (UnrolledCurlP81 * list Btrit) :=
  if negb (length buf mod HASH_LENGTH =? 0) then Err "Invalid squeeze length"%string
  else Ok (unrolled_squeeze_chunks self (chunks (length buf) HASH_LENGTH buf)).

#[export] Instance Unrolled_sponge : Sponge UnrolledCurlP81 := {
  sponge_error := string;
  sponge_reset _ := UnrolledCurlP81_new;
  sponge_absorb := unrolled_absorb;
  sponge_squeeze_into := unrolled_squeeze_into;
}.

(** ** Bits *)

(** A word, and a bit; there are none above. *)
Definition word (x : U256) (i : nat) : Z := nth i x 0%Z.
Definition ubit (x : U256) (k : nat) : bool := Z.testbit (word x (k / 64)) (Z.of_nat (k mod 64)).

Definition wf256 (x : U256) : Prop := length x = 4 /\ Forall (fits 64) x.

Lemma word_total x i : length x = 4 -> i < 4 -> x !!! i = word x i.
Proof. intros Hl Hi. unfold word. symmetry. rewrite list_lookup_total_alt. destruct (lookup_lt_is_Some_2 x i) as [y Hy]; [lia|]. by rewrite Hy, (nth_lookup_Some _ _ _ _ Hy). Qed.

Lemma word_fits x i : wf256 x -> fits 64 (word x i).
Proof.
  intros [Hl Hf]. unfold word. destruct (x !! i) as [y|] eqn:E.
  - rewrite (nth_lookup_Some _ _ _ _ E). rewrite Forall_lookup in Hf. by apply (Hf i).
  - rewrite nth_overflow by (by apply lookup_ge_None). unfold fits. lia.
Qed.

Lemma u64_shl_0 n : u64_shl 0 n = 0%Z.
Proof. unfold u64_shl. by rewrite Z.shiftl_0_l. Qed.
Lemma u64_shr_0 n : u64_shr 0 n = 0%Z.
Proof. apply Z.shiftr_0_l. Qed.

(** A word of a number that is shifted to the right, and to the left. *)
Definition shr_word (x : U256) (i r : nat) : Z :=
  if r =? 0 then word x i else Z.lor (u64_shr (word x i) r) (u64_shl (word x (i + 1)) (64 - r)).
Definition shl_word (x : U256) (i o l : nat) : Z :=
  if i <? o then 0%Z
  else if l =? 0 then word x (i - o)
  else Z.lor (u64_shl (word x (i - o)) l) (if i =? o then 0%Z else u64_shr (word x (i - o - 1)) (64 - l)).

Ltac list4 x H := destruct x as [|? [|? [|? [|? [|]]]]]; try discriminate H; clear H.

Lemma shr_into_words self x shift a :
  length self = 4 -> length x = 4 -> shift < 256 -> a < 4 ->
  length (shr_into self x shift) = 4 /\ word (shr_into self x shift) a = Z.lor (word self a) (shr_word x (a + shift / 64) (shift mod 64)).
Proof.
  intros Hs Hx Hsh Ha. unfold shr_into, shr_word. list4 self Hs. list4 x Hx. assert (Ho : shift / 64 < 4) by (apply Nat.Div0.div_lt_upper_bound; lia).
  generalize dependent (shift / 64). generalize (shift mod 64). intros r o Ho. destruct (r =? 0);
    (destruct o as [|[|[|[|]]]]; [..|lia]); (destruct a as [|[|[|[|]]]]; [..|lia]); cbn; by rewrite ?u64_shl_0, ?u64_shr_0, ?Z.lor_0_r.
Qed.

Lemma shl_into_words self x shift a :
  length self = 4 -> length x = 4 -> shift < 256 -> a < 4 ->
  length (shl_into self x shift) = 4 /\ word (shl_into self x shift) a = Z.lor (word self a) (shl_word x a (shift / 64) (shift mod 64)).
Proof.
  intros Hs Hx Hsh Ha. unfold shl_into, shl_word. list4 self Hs. list4 x Hx. assert (Ho : shift / 64 < 4) by (apply Nat.Div0.div_lt_upper_bound; lia).
  generalize dependent (shift / 64). generalize (shift mod 64). intros r o Ho. destruct (r =? 0);
    (destruct o as [|[|[|[|]]]]; [..|lia]); (destruct a as [|[|[|[|]]]]; [..|lia]); cbn; by rewrite ?u64_shl_0, ?u64_shr_0, ?Z.lor_0_r.
Qed.

Lemma testbit_shl x n b : b < 64 -> Z.testbit (u64_shl x n) (Z.of_nat b) = if b <? n then false else Z.testbit x (Z.of_nat (b - n)).
Proof.
  intros Hb. unfold u64_shl, as_u. rewrite Z.mod_pow2_bits_low, Z.shiftl_spec by lia. destruct (Nat.ltb_spec b n).
  - by rewrite Z.testbit_neg_r by lia.
  - f_equal. lia.
Qed.
Lemma testbit_shr x n b : Z.testbit (u64_shr x n) (Z.of_nat b) = Z.testbit x (Z.of_nat (b + n)).
Proof. unfold u64_shr. rewrite Z.shiftr_spec by lia. f_equal. lia. Qed.

Lemma testbit_high x b : fits 64 x -> 64 <= b -> Z.testbit x (Z.of_nat b) = false.
Proof.
  intros [Hx Hx'] Hb. destruct (Z.eq_dec x 0) as [->|]; [apply Z.bits_0|]. apply Z.bits_above_log2; [lia|].
  assert (Z.log2 x < 64)%Z by (apply Z.log2_lt_pow2; lia). lia.
Qed.

(** The place of a bit. *)
Lemma div_mod_64 a b : b < 64 -> (64 * a + b) / 64 = a /\ (64 * a + b) mod 64 = b.
Proof. intros Hb. split; [symmetry; by apply (Nat.div_unique _ _ _ b) | symmetry; by apply (Nat.mod_unique _ _ a)]. Qed.

Lemma ubit_at x a b : b < 64 -> ubit x (64 * a + b) = Z.testbit (word x a) (Z.of_nat b).
Proof. intros Hb. unfold ubit. by destruct (div_mod_64 a b Hb) as [-> ->]. Qed.

Lemma split_64 k : exists a b, b < 64 /\ k = 64 * a + b.
Proof. exists (k / 64), (k mod 64). split; [apply Nat.mod_upper_bound; lia|]. apply Nat.div_mod. lia. Qed.

Lemma ubit_high x k : length x = 4 -> 256 <= k -> ubit x k = false.
Proof.
  intros Hx Hk. destruct (split_64 k) as (a & b & Hb & ->). rewrite ubit_at by done. unfold word. rewrite nth_overflow by lia. apply Z.bits_0.
Qed.

Lemma shr_word_bit x a r b : wf256 x -> b < 64 -> r < 64 -> Z.testbit (shr_word x a r) (Z.of_nat b) = ubit x (64 * a + b + r).
Proof.
  intros Hx Hb Hr. unfold shr_word. destruct (Nat.eqb_spec r 0) as [->|Hr0]; [by rewrite Nat.add_0_r, ubit_at|].
  rewrite Z.lor_spec, testbit_shr, testbit_shl by lia. destruct (Nat.ltb_spec b (64 - r)) as [Hlt|Hge].
  - by rewrite orb_false_r, <- ubit_at, Nat.add_assoc by lia.
  - rewrite (testbit_high (word x a)) by (by apply word_fits || lia). rewrite orb_false_l, <- ubit_at by lia. f_equal. lia.
Qed.

Lemma shl_word_bit x a o l b :
  wf256 x -> b < 64 -> l < 64 ->
  Z.testbit (shl_word x a o l) (Z.of_nat b) = if 64 * o + l <=? 64 * a + b then ubit x (64 * a + b - (64 * o + l)) else false.
Proof.
  intros Hx Hb Hl. unfold shl_word. destruct (Nat.ltb_spec a o) as [Hao|Hao]; [rewrite (proj2 (Nat.leb_gt _ _)) by lia; apply Z.bits_0|].
  destruct (Nat.eqb_spec l 0) as [->|Hl0]; [rewrite (proj2 (Nat.leb_le _ _)), <- ubit_at by lia; f_equal; lia|].
  rewrite Z.lor_spec, testbit_shl by lia. destruct (Nat.ltb_spec b l) as [Hlt|Hge].
  - rewrite orb_false_l. destruct (Nat.eqb_spec a o) as [->|]; [rewrite (proj2 (Nat.leb_gt _ _)) by lia; apply Z.bits_0|].
    rewrite (proj2 (Nat.leb_le _ _)), testbit_shr, <- ubit_at by lia. f_equal. lia.
  - rewrite (proj2 (Nat.leb_le _ _)) by lia. rewrite <- ubit_at by lia. replace (64 * (a - o) + (b - l)) with (64 * a + b - (64 * o + l)) by lia.
    destruct (a =? o); [by rewrite Z.bits_0, orb_false_r|]. rewrite testbit_shr, (testbit_high (word x (a - o - 1))) by (by apply word_fits || lia).
    apply orb_false_r.
Qed.

Lemma shift_64 shift : shift = 64 * (shift / 64) + shift mod 64 /\ shift mod 64 < 64.
Proof. split; [apply Nat.div_mod; lia | apply Nat.mod_upper_bound; lia]. Qed.

Lemma shr_into_bit self x shift k :
  length self = 4 -> wf256 x -> shift < 256 -> k < 256 -> ubit (shr_into self x shift) k = ubit self k || ubit x (k + shift).
Proof.
  intros Hs Hx Hsh Hk. destruct (split_64 k) as (a & b & Hb & ->). destruct (shift_64 shift) as [He Hr].
  rewrite !ubit_at by done. destruct (shr_into_words self x shift a) as [_ ->]; [done | apply Hx | done | lia|].
  rewrite Z.lor_spec, shr_word_bit by done. do 2 f_equal. lia.
Qed.

Lemma shl_into_bit self x shift k :
  length self = 4 -> wf256 x -> shift < 256 -> k < 256 ->
  ubit (shl_into self x shift) k = ubit self k || (if shift <=? k then ubit x (k - shift) else false).
Proof.
  intros Hs Hx Hsh Hk. destruct (split_64 k) as (a & b & Hb & ->). destruct (shift_64 shift) as [He Hr].
  rewrite ubit_at by done. destruct (shl_into_words self x shift a) as [_ ->]; [done | apply Hx | done | lia|].
  rewrite Z.lor_spec, shl_word_bit, <- ubit_at by done. by rewrite <- He.
Qed.

Lemma shr_into_length self x shift : length self = 4 -> length x = 4 -> shift < 256 -> length (shr_into self x shift) = 4.
Proof. intros. by apply (shr_into_words self x shift 0); lia. Qed.
Lemma shl_into_length self x shift : length self = 4 -> length x = 4 -> shift < 256 -> length (shl_into self x shift) = 4.
Proof. intros. by apply (shl_into_words self x shift 0); lia. Qed.

Lemma default_bit k : ubit U256_default k = false.
Proof. unfold ubit, word. destruct (k / 64) as [|[|[|[|[|]]]]]; apply Z.bits_0. Qed.

(** ** The state as trits *)

Definition is_plus (t : Btrit) : bool := match t with PlusOne => true | _ => false end.
Definition is_neg (t : Btrit) : bool := match t with NegOne => true | _ => false end.

(** Three numbers with 243 bits each. *)
Definition normed (p : list U256) : Prop := length p = 3 /\ forall i, i < 3 -> wf256 (p !!! i) /\ forall k, 243 <= k -> ubit (p !!! i) k = false.

Definition sbit (p : list U256) (m : nat) : bool := ubit (p !!! (m / 243)) (m mod 243).

Record holds (p n : list U256) (s : list Btrit) : Prop := {
  ho_p : normed p;
  ho_n : normed n;
  ho_length : length s = 729;
  ho_plus m : m < 729 -> sbit p m = is_plus (s !!! m);
  ho_neg m : m < 729 -> sbit n m = is_neg (s !!! m);
}.

(** A round without a permutation, for a rotation. *)
Definition uround (rotation : nat) (s : list Btrit) : list Btrit :=
  (fun m => sbox (s !!! m) (s !!! ((m + rotation) mod 729))) <$> seq 0 729.

Lemma div_mod_243 i k : k < 243 -> (243 * i + k) / 243 = i /\ (243 * i + k) mod 243 = k.
Proof. intros Hk. split; [symmetry; by apply (Nat.div_unique _ _ _ k) | symmetry; by apply (Nat.mod_unique _ _ i)]. Qed.

Lemma sbit_at p i k : k < 243 -> sbit p (243 * i + k) = ubit (p !!! i) k.
Proof. intros Hk. unfold sbit. by destruct (div_mod_243 i k Hk) as [-> ->]. Qed.

Lemma rotate_bit p o s i k :
  normed p -> o < 3 -> s < 243 -> i < 3 -> k < 243 -> ubit (rotate p o s i) k = sbit p ((243 * i + k + (243 * o + s)) mod 729).
Proof.
  intros [Hl Hp] Ho Hs Hi Hk. unfold rotate. assert (H3 : forall x, x mod 3 < 3) by (intros x; apply Nat.mod_upper_bound; lia).
  destruct (Hp _ (H3 (i + o))) as [Hw Hz], (Hp _ (H3 (i + 1 + o))) as [Hw' _].
  rewrite shl_into_bit, shr_into_bit, default_bit by (try done; try lia; try apply shr_into_length; try done; try apply Hw; lia). rewrite orb_false_l.
  assert (Hmod : forall j, 243 * j mod 729 = 243 * (j mod 3)) by (intros j; replace 729 with (243 * 3) by lia; apply Nat.Div0.mul_mod_distr_l).
  destruct (Nat.leb_spec (243 - s) k) as [Hc|Hc].
  - rewrite Hz, orb_false_l by lia. replace (243 * i + k + (243 * o + s)) with ((k + s - 243) + 243 * (i + 1 + o)) by lia.
    rewrite <- (Nat.Div0.add_mod_idemp_r (k + s - 243)), Hmod, (Nat.mod_small (_ + _) 729) by (specialize (H3 (i + 1 + o)); lia). rewrite (Nat.add_comm (k + s - 243)), sbit_at by lia. f_equal. lia.
  - rewrite orb_false_r. replace (243 * i + k + (243 * o + s)) with ((k + s) + 243 * (i + o)) by lia.
    rewrite <- (Nat.Div0.add_mod_idemp_r (k + s)), Hmod, (Nat.mod_small (_ + _) 729) by (specialize (H3 (i + o)); lia). by rewrite (Nat.add_comm (k + s)), sbit_at by lia.
Qed.

(** *** Words keep their width *)

Lemma fits_bits x : (0 <= x)%Z -> (forall b, 64 <= b -> Z.testbit x (Z.of_nat b) = false) -> fits 64 x.
Proof.
  intros Hx Hb. split; [done|]. destruct (Z.eq_dec x 0) as [->|]; [lia|]. destruct (Z.lt_ge_cases x (2 ^ 64)) as [|Hge]; [done|]. exfalso.
  assert (64 <= Z.log2 x)%Z by (apply Z.log2_le_pow2; lia). specialize (Hb (Z.to_nat (Z.log2 x)) ltac:(lia)). rewrite Z2Nat.id, Z.bit_log2 in Hb by lia. done.
Qed.

Lemma fits_lor x y : fits 64 x -> fits 64 y -> fits 64 (Z.lor x y).
Proof.
  intros Hx Hy. apply fits_bits; [apply Z.lor_nonneg; split; [apply Hx | apply Hy]|]. intros b Hb. by rewrite Z.lor_spec, !testbit_high.
Qed.
Lemma fits_land x y : (0 <= x)%Z -> fits 64 y -> fits 64 (Z.land x y).
Proof. intros Hx Hy. apply fits_bits; [apply Z.land_nonneg; by left|]. intros b Hb. by rewrite Z.land_spec, (testbit_high y), andb_false_r. Qed.
Lemma fits_lxor x y : fits 64 x -> fits 64 y -> fits 64 (Z.lxor x y).
Proof.
  intros Hx Hy. apply fits_bits; [apply Z.lxor_nonneg; split; intros; [apply Hy | apply Hx]|]. intros b Hb. by rewrite Z.lxor_spec, !testbit_high.
Qed.
Lemma fits_not x : fits 64 x -> fits 64 (u64_not x).
Proof. intros Hx. apply fits_lxor; [unfold fits; lia | done]. Qed.
Lemma fits_shl x n : fits 64 (u64_shl x n).
Proof. unfold u64_shl, as_u, fits. apply Z.mod_pos_bound. lia. Qed.
Lemma fits_shr x n : fits 64 x -> fits 64 (u64_shr x n).
Proof.
  intros Hx. apply fits_bits; [apply Z.shiftr_nonneg, Hx|]. intros b Hb. rewrite testbit_shr. apply testbit_high; [done | lia].
Qed.
Lemma fits_0 : fits 64 0.
Proof. unfold fits. lia. Qed.

Lemma shr_word_fits x i r : wf256 x -> fits 64 (shr_word x i r).
Proof. intros Hx. unfold shr_word. destruct (r =? 0); [by apply word_fits|]. apply fits_lor; [by apply fits_shr, word_fits | apply fits_shl]. Qed.
Lemma shl_word_fits x i o l : wf256 x -> fits 64 (shl_word x i o l).
Proof.
  intros Hx. unfold shl_word. destruct (i <? o); [apply fits_0|]. destruct (l =? 0); [by apply word_fits|]. apply fits_lor; [apply fits_shl|].
  destruct (i =? o); [apply fits_0 | by apply fits_shr, word_fits].
Qed.

Lemma wf256_words x : length x = 4 -> (forall a, a < 4 -> fits 64 (word x a)) -> wf256 x.
Proof.
  intros Hl Hw. split; [done|]. apply Forall_lookup. intros a y Hy. pose proof (lookup_lt_Some _ _ _ Hy). specialize (Hw a ltac:(lia)).
  unfold word in Hw. by rewrite (nth_lookup_Some _ _ _ _ Hy) in Hw.
Qed.

Lemma shr_into_wf self x shift : wf256 self -> wf256 x -> shift < 256 -> wf256 (shr_into self x shift).
Proof.
  intros Hs Hx Hsh. apply wf256_words; [apply shr_into_length; [apply Hs | apply Hx | done]|]. intros a Ha.
  destruct (shr_into_words self x shift a) as [_ ->]; [apply Hs | apply Hx | done | done|]. apply fits_lor; [by apply word_fits | by apply shr_word_fits].
Qed.
Lemma shl_into_wf self x shift : wf256 self -> wf256 x -> shift < 256 -> wf256 (shl_into self x shift).
Proof.
  intros Hs Hx Hsh. apply wf256_words; [apply shl_into_length; [apply Hs | apply Hx | done]|]. intros a Ha.
  destruct (shl_into_words self x shift a) as [_ ->]; [apply Hs | apply Hx | done | done|]. apply fits_lor; [by apply word_fits | by apply shl_word_fits].
Qed.

Lemma default_wf : wf256 U256_default.
Proof. split; [done|]. repeat constructor; unfold fits; lia. Qed.

Lemma rotate_wf p o s i : normed p -> s < 243 -> wf256 (rotate p o s i).
Proof.
  intros [Hl Hp] Hs. assert (H3 : forall x, x mod 3 < 3) by (intros x; apply Nat.mod_upper_bound; lia).
  apply shl_into_wf; [apply shr_into_wf; [apply default_wf | by apply Hp | lia] | by apply Hp | lia].
Qed.

(** *** A round *)

Lemma testbit_u64_not x b : b < 64 -> Z.testbit (u64_not x) (Z.of_nat b) = negb (Z.testbit x (Z.of_nat b)).
Proof.
  intros Hb. unfold u64_not. rewrite Z.lxor_spec. change (2 ^ 64 - 1)%Z with (Z.ones 64). rewrite Z.ones_spec_low by lia. by destruct (Z.testbit x _).
Qed.

Lemma batch_box_sbox xp xn yp yn b x y :
  b < 64 -> Z.testbit xp (Z.of_nat b) = is_plus x -> Z.testbit xn (Z.of_nat b) = is_neg x ->
  Z.testbit yp (Z.of_nat b) = is_plus y -> Z.testbit yn (Z.of_nat b) = is_neg y ->
  Z.testbit (batch_box xp xn yp yn).1 (Z.of_nat b) = is_plus (sbox x y) /\ Z.testbit (batch_box xp xn yp yn).2 (Z.of_nat b) = is_neg (sbox x y).
Proof.
  intros Hb H1 H2 H3 H4. unfold batch_box. cbn [fst snd]. rewrite !Z.land_spec, !testbit_u64_not, !Z.lxor_spec, H1, H2, H3, H4 by done. by destruct x, y.
Qed.

Lemma norm243_spec x : wf256 x ->
  wf256 (norm243 x) /\ (forall k, k < 243 -> ubit (norm243 x) k = ubit x k) /\ forall k, 243 <= k -> ubit (norm243 x) k = false.
Proof.
  intros [Hl Hf]. list4 x Hl. unfold norm243. cbn [insert list_insert lookup_total list_lookup_total]. rewrite !Forall_cons in Hf. destruct Hf as (F0 & F1 & F2 & F3 & _).
  split_and!.
  - split; [done|]. repeat constructor; try apply F0; try apply F1; try apply F2; apply fits_land; try apply F3; unfold fits; lia.
  - intros k Hk. destruct (split_64 k) as (a & b & Hb & ->). rewrite !ubit_at by done. unfold word. destruct a as [|[|[|[|]]]]; [done..| |lia]. cbn [nth].
    rewrite Z.land_spec. change (2 ^ 51 - 1)%Z with (Z.ones 51). rewrite Z.ones_spec_low by lia. apply andb_true_r.
  - intros k Hk. destruct (split_64 k) as (a & b & Hb & ->). rewrite !ubit_at by done. unfold word. destruct a as [|[|[|[|a]]]]; [lia..| |by destruct a; apply Z.bits_0]. cbn [nth].
    rewrite Z.land_spec. change (2 ^ 51 - 1)%Z with (Z.ones 51). rewrite Z.ones_spec_high by lia. apply andb_false_r.
Qed.

(** One third of the state: the trits [x k] and the ones they are combined with, [y k]. *)
Lemma compute_third_spec p n p2 n2 (x y : nat -> Btrit) :
  wf256 p -> wf256 n -> wf256 p2 -> wf256 n2 ->
  (forall k, k < 243 -> ubit p k = is_plus (x k) /\ ubit n k = is_neg (x k) /\ ubit p2 k = is_plus (y k) /\ ubit n2 k = is_neg (y k)) ->
  let '(p', n') := compute_third p n p2 n2 in
  wf256 p' /\ wf256 n' /\ (forall k, 243 <= k -> ubit p' k = false /\ ubit n' k = false)
  /\ forall k, k < 243 -> ubit p' k = is_plus (sbox (x k) (y k)) /\ ubit n' k = is_neg (sbox (x k) (y k)).
Proof.
  intros Hp Hn Hp2 Hn2 Hb. unfold compute_third. set (r := _ <$> [0; 1; 2; 3]).
  assert (Hw : forall a, a < 4 -> r !! a = Some (batch_box (word p a) (word n a) (word p2 a) (word n2 a))).
  { intros a Ha. unfold r. rewrite !list_lookup_fmap. rewrite <- !word_total by (apply Hp || apply Hn || apply Hp2 || apply Hn2 || done).
    by destruct a as [|[|[|[|]]]]; [..|lia]. }
  assert (H1 : forall a, a < 4 -> word r.*1 a = (batch_box (word p a) (word n a) (word p2 a) (word n2 a)).1).
  { intros a Ha. unfold word at 1. erewrite nth_lookup_Some; [done|]. by rewrite list_lookup_fmap, Hw. }
  assert (H2 : forall a, a < 4 -> word r.*2 a = (batch_box (word p a) (word n a) (word p2 a) (word n2 a)).2).
  { intros a Ha. unfold word at 1. erewrite nth_lookup_Some; [done|]. by rewrite list_lookup_fmap, Hw. }
  assert (Hx : forall a, fits 64 (Z.lxor (word n a) (word p2 a)) /\ fits 64 (Z.lxor (word p a) (word n2 a))).
  { intros a. split; apply fits_lxor; by apply word_fits. }
  assert (W1 : wf256 r.*1).
  { apply wf256_words; [done|]. intros a Ha. rewrite H1 by done. apply fits_land; [apply Hx | by apply fits_not, word_fits]. }
  assert (W2 : wf256 r.*2).
  { apply wf256_words; [done|]. intros a Ha. rewrite H2 by done. apply fits_land; [apply fits_not, Hx | apply fits_not, Hx]. }
  clearbody r. destruct (norm243_spec _ W1) as (N1 & L1 & Z1), (norm243_spec _ W2) as (N2 & L2 & Z2). split_and!; [done | done | auto|].
  intros k Hk. rewrite L1, L2 by done. specialize (Hb k Hk). destruct (split_64 k) as (a & b & Hb64 & ->). rewrite !ubit_at in * by done.
  rewrite H1, H2 by lia. destruct Hb as (B1 & B2 & B3 & B4). by apply batch_box_sbox.
Qed.

Lemma lookup_total_3 {A} `{Inhabited A} (f : nat -> A) i : i < 3 -> (f <$> [0; 1; 2]) !!! i = f i.
Proof. intros Hi. by destruct i as [|[|[|]]]; [..|lia]. Qed.

Lemma split_243 m : m < 729 -> exists i k, i < 3 /\ k < 243 /\ m = 243 * i + k.
Proof.
  intros Hm. exists (m / 243), (m mod 243). split; [apply Nat.Div0.div_lt_upper_bound; lia|]. split; [apply Nat.mod_upper_bound; lia|].
  apply Nat.div_mod. lia.
Qed.

Lemma transform_round_holds p n s rotation :
  holds p n s -> rotation < 729 ->
  let '(p', n') := transform_round p n (mkStateRotation (rotation / 243) (rotation mod 243)) in holds p' n' (uround rotation s).
Proof.
  intros [Gp Gn Gl G1 G2] Hrot. destruct (split_243 rotation Hrot) as (o & sh & Ho & Hsh & ->). destruct (div_mod_243 o sh Hsh) as [-> ->].
  unfold transform_round, rotate_state. cbn [rotation_offset rotation_shift].
  set (third := fun i => compute_third (p !!! i) (n !!! i) ((rotate p o sh <$> [0; 1; 2]) !!! i) ((rotate n o sh <$> [0; 1; 2]) !!! i)).
  assert (Hm : forall i k, i < 3 -> k < 243 -> (243 * i + k + (243 * o + sh)) mod 729 < 729) by (intros; apply Nat.mod_upper_bound; lia).
  assert (Hthird : forall i, i < 3 -> let '(p', n') := third i in wf256 p' /\ wf256 n' /\ (forall k, 243 <= k -> ubit p' k = false /\ ubit n' k = false)
    /\ forall k, k < 243 -> ubit p' k = is_plus (uround (243 * o + sh) s !!! (243 * i + k)) /\ ubit n' k = is_neg (uround (243 * o + sh) s !!! (243 * i + k))).
  { intros i Hi. pose proof (compute_third_spec (p !!! i) (n !!! i) (rotate p o sh i) (rotate n o sh i) (fun k => s !!! (243 * i + k))
      (fun k => s !!! ((243 * i + k + (243 * o + sh)) mod 729))) as Hc. unfold third. rewrite !lookup_total_3 by done.
    destruct (compute_third _ _ _ _) as [p' n']. destruct Hc as (W1 & W2 & Hz & Hb); [by apply Gp | by apply Gn | by apply rotate_wf | by apply rotate_wf | |].
    - intros k Hk. rewrite !rotate_bit by done. rewrite <- !(sbit_at _ i) by done. rewrite G1, G2 by lia. rewrite G1, G2 by by apply Hm. done.
    - split_and!; [done.. |]. intros k Hk. unfold uround. rewrite (list_lookup_total_correct _ _ (sbox (s !!! (243 * i + k)) (s !!! ((243 * i + k + (243 * o + sh)) mod 729)))).
      + by apply Hb.
      + by rewrite list_lookup_fmap, lookup_seq_lt by lia. }
  assert (Hp : forall i, i < 3 -> (third <$> [0; 1; 2]).*1 !!! i = (third i).1) by (intros i Hi; by destruct i as [|[|[|]]]; [..|lia]).
  assert (Hn : forall i, i < 3 -> (third <$> [0; 1; 2]).*2 !!! i = (third i).2) by (intros i Hi; by destruct i as [|[|[|]]]; [..|lia]).
  split.
  - split; [done|]. intros i Hi. rewrite Hp by done. specialize (Hthird i Hi). destruct (third i) as [p' n']. destruct Hthird as (? & _ & Hz & _). split; [done|]. intros k Hk. by apply Hz.
  - split; [done|]. intros i Hi. rewrite Hn by done. specialize (Hthird i Hi). destruct (third i) as [p' n']. destruct Hthird as (_ & ? & Hz & _). split; [done|]. intros k Hk. by apply Hz.
  - unfold uround. by rewrite length_fmap, length_seq.
  - intros m Hlt. destruct (split_243 m Hlt) as (i & k & Hi & Hk & ->). rewrite sbit_at, Hp by done. specialize (Hthird i Hi). destruct (third i) as [p' n']. by apply Hthird.
  - intros m Hlt. destruct (split_243 m Hlt) as (i & k & Hi & Hk & ->). rewrite sbit_at, Hn by done. specialize (Hthird i Hi). destruct (third i) as [p' n']. by apply Hthird.
Qed.

(** *** The permutation *)

(** The state in another order. *)
Definition perm (c : nat) (s : list Btrit) : list Btrit := (fun i => s !!! ((c * i) mod 729)) <$> seq 0 729.

Lemma perm_length c s : length (perm c s) = 729.
Proof. unfold perm. by rewrite length_fmap, length_seq. Qed.

Lemma perm_lookup c s i : i < 729 -> perm c s !!! i = s !!! ((c * i) mod 729).
Proof. intros Hi. apply list_lookup_total_correct. unfold perm. by rewrite list_lookup_fmap, lookup_seq_lt. Qed.

Lemma uround_lookup rotation s m : m < 729 -> uround rotation s !!! m = sbox (s !!! m) (s !!! ((m + rotation) mod 729)).
Proof. intros Hm. apply list_lookup_total_correct. unfold uround. by rewrite list_lookup_fmap, lookup_seq_lt. Qed.

Lemma perm_1 s : length s = 729 -> perm 1 s = s.
Proof.
  intros Hl. apply list_eq_same_length with (n := 729); [done | apply perm_length|]. intros i x y Hi Hx Hy.
  rewrite <- (list_lookup_total_correct _ _ _ Hx), perm_lookup, Nat.mul_1_l, Nat.mod_small by done. by apply list_lookup_total_correct.
Qed.

(** A round of the state in one order is a rotated round of it in another one. *)
Lemma round_perm c s : round sbox (perm c s) = perm ((c * 364) mod 729) (uround ((c * 364) mod 729) s).
Proof.
  apply list_eq_same_length with (n := 729); [apply perm_length | apply round_length|]. intros i x y Hi Hx Hy.
  rewrite round_lookup in Hx by done. injection Hx as <-. rewrite <- (list_lookup_total_correct _ _ _ Hy). rewrite (perm_lookup ((c * 364) mod 729)) by done.
  rewrite uround_lookup by (apply Nat.mod_upper_bound; lia). rewrite !perm_lookup by apply order_lt. unfold order.
  rewrite !Nat.Div0.mul_mod_idemp_r, !Nat.Div0.mul_mod_idemp_l, Nat.Div0.add_mod_idemp_l, Nat.Div0.add_mod_idemp_r. do 2 f_equal; f_equal; lia.
Qed.

(** The factor after some rounds. *)
Definition factor (n c : nat) : nat := Nat.iter n (fun c => (c * 364) mod 729) c.

Lemma rounds_holds k c p n s u :
  holds p n u -> s = perm c u ->
  let '(p', n') := foldl (fun '(p, n) rotation => transform_round p n rotation) (p, n) (state_rotations k (Z.of_nat ((c * 364) mod 729))) in
  exists u', holds p' n' u' /\ rounds k sbox s = perm (factor k c) u'.
Proof.
  revert c p n s u. induction k as [|k IH]; intros c p n s u Hh ->; cbn [state_rotations foldl]; [by exists u|].
  assert (Hrot : (c * 364) mod 729 < 729) by (apply Nat.mod_upper_bound; lia). pose proof (transform_round_holds p n u _ Hh Hrot) as Hr.
  rewrite <- (Nat2Z.inj_div _ 243), <- (Nat2Z.inj_mod _ 243), !Nat2Z.id. destruct (transform_round p n _) as [p1 n1].
  specialize (IH ((c * 364) mod 729) p1 n1 _ _ Hr eq_refl). replace ((Z.of_nat ((c * 364) mod 729) * ROTATION_OFFSET) mod STATE_SIZE)%Z
    with (Z.of_nat (((c * 364) mod 729 * 364) mod 729)) by (rewrite Nat2Z.inj_mod, Nat2Z.inj_mul; done).
  destruct (foldl _ _ _) as [p' n']. destruct IH as (u' & Hh' & He). exists u'. split; [done|].
  unfold rounds, factor in *. rewrite !Nat.iter_succ_r. rewrite round_perm. exact He.
Qed.

Lemma factor_81 : factor 81 1 = 244.
Proof.
  assert (Hz : forall n, Z.of_nat (factor n 1) = Nat.iter n (fun c => (c * 364) mod 729)%Z 1%Z).
  { induction n as [|n IH]; [done|]. unfold factor in *. rewrite !Nat.iter_succ, Nat2Z.inj_mod, Nat2Z.inj_mul, IH. done. }
  apply Nat2Z.inj. rewrite Hz. vm_compute. reflexivity.
Qed.

(** The masks pick the bits by their remainder. *)
Lemma mask_bits b : b < 64 ->
  Z.testbit M0 (Z.of_nat b) = (b mod 3 =? 0) /\ Z.testbit M1 (Z.of_nat b) = (b mod 3 =? 1) /\ Z.testbit M2 (Z.of_nat b) = (b mod 3 =? 2).
Proof.
  intros Hb. assert (Hall : Forall (fun b => Z.testbit M0 (Z.of_nat b) = (b mod 3 =? 0) /\ Z.testbit M1 (Z.of_nat b) = (b mod 3 =? 1)
    /\ Z.testbit M2 (Z.of_nat b) = (b mod 3 =? 2)) (seq 0 64)) by (repeat constructor).
  rewrite Forall_forall in Hall. apply Hall, elem_of_seq. lia.
Qed.

Lemma mod_3 x c : c < 3 -> (x mod 3 =? c) = true -> exists q, x = 3 * q + c.
Proof. intros Hc He%Nat.eqb_eq. exists (x / 3). rewrite <- He. apply Nat.div_mod. lia. Qed.

(** The bit of a word of the new state: it comes from the third that the remainder of its place picks. *)
Lemma reorder_word_bit p i j b m0 m1 m2 :
  (forall i, i < 3 -> length (p !!! i) = 4) -> i < 3 -> j < 4 -> b < 64 ->
  Z.testbit m0 (Z.of_nat b) = ((j + b) mod 3 =? 0) -> Z.testbit m1 (Z.of_nat b) = ((j + b) mod 3 =? 1) -> Z.testbit m2 (Z.of_nat b) = ((j + b) mod 3 =? 2) ->
  Z.testbit (reorder_word p i j m0 m1 m2) (Z.of_nat b) = ubit (p !!! (((j + b) mod 3 + i) mod 3)) (64 * j + b).
Proof.
  intros Hp Hi Hj Hb E0 E1 E2. assert (H3 : forall x, x mod 3 < 3) by (intros x; apply Nat.mod_upper_bound; lia).
  unfold reorder_word. rewrite !Z.lor_spec, !Z.land_spec, E0, E1, E2, ubit_at, !word_total by (by try apply Hp; try apply H3).
  pose proof (H3 (j + b)) as Hc. destruct ((j + b) mod 3) as [|[|[|]]]; [..|lia]; cbn [Nat.eqb]; rewrite ?andb_true_r, ?andb_false_r, ?orb_false_r, ?orb_false_l; try done.
  by rewrite Nat.add_0_l, Nat.mod_small.
Qed.

Lemma reorder_third_bit p i k :
  (forall i, i < 3 -> length (p !!! i) = 4) -> i < 3 -> k < 256 -> ubit (reorder_third p i) k = ubit (p !!! ((k mod 3 + i) mod 3)) k.
Proof.
  intros Hp Hi Hk. destruct (split_64 k) as (j & b & Hb & ->). destruct (mask_bits b Hb) as (E0 & E1 & E2).
  assert (Hm : (64 * j + b) mod 3 = (j + b) mod 3).
  { replace (64 * j + b) with (j + b + (21 * j) * 3) by lia. apply Nat.Div0.mod_add. }
  rewrite Hm, ubit_at by done. assert (Hb3 : b mod 3 < 3) by (apply Nat.mod_upper_bound; lia).
  assert (Hj : (j + b) mod 3 = (j + b mod 3) mod 3) by by rewrite Nat.Div0.add_mod_idemp_r.
  assert (Hj4 : j < 4) by lia.
  destruct j as [|[|[|[|]]]]; [..|lia]; unfold word, reorder_third; cbn [nth];
    apply reorder_word_bit; try done; rewrite ?E0, ?E1, ?E2, Hj; destruct (b mod 3) as [|[|[|]]]; done || lia.
Qed.

Lemma reorder_word_fits p i j m0 m1 m2 :
  (forall i, i < 3 -> wf256 (p !!! i)) -> i < 3 -> j < 4 -> fits 64 m0 -> fits 64 m1 -> fits 64 m2 -> fits 64 (reorder_word p i j m0 m1 m2).
Proof.
  intros Hp Hi Hj F0 F1 F2. assert (H3 : forall x, x mod 3 < 3) by (intros x; apply Nat.mod_upper_bound; lia).
  assert (Hn : forall i, i < 3 -> (0 <= (p !!! i) !!! j)%Z) by (intros x Hx; rewrite word_total by (by try apply Hp); apply word_fits; by apply Hp).
  apply fits_lor; [apply fits_lor|]; apply fits_land; try done; apply Hn; done || apply H3.
Qed.

Lemma reorder_third_wf p i : (forall i, i < 3 -> wf256 (p !!! i)) -> i < 3 -> wf256 (reorder_third p i).
Proof.
  intros Hp Hi. assert (F0 : fits 64 M0) by (unfold fits, M0; lia). assert (F1 : fits 64 M1) by apply fits_shl. assert (F2 : fits 64 M2) by apply fits_shl.
  split; [done|]. unfold reorder_third. repeat constructor; apply reorder_word_fits; done || lia.
Qed.

Lemma reorder_normed p : normed p -> normed (reorder_third p <$> [0; 1; 2]).
Proof.
  intros [Hl Hp]. assert (H3 : forall x, x mod 3 < 3) by (intros x; apply Nat.mod_upper_bound; lia).
  split; [done|]. intros i Hi. rewrite lookup_total_3 by done. split; [apply reorder_third_wf; [intros; by apply Hp | done]|]. intros k Hk.
  destruct (Nat.lt_ge_cases k 256); [|by apply ubit_high]. rewrite reorder_third_bit; [by apply Hp | intros; by apply Hp | done | done].
Qed.

Lemma index_244 i k : k < 243 -> i < 3 -> (244 * (243 * i + k)) mod 729 = 243 * ((k mod 3 + i) mod 3) + k.
Proof.
  intros Hk Hi. rewrite Nat.Div0.add_mod_idemp_l. replace (244 * (243 * i + k)) with (k + 243 * (k + i) + (81 * i) * 729) by lia.
  rewrite Nat.Div0.mod_add. rewrite <- Nat.Div0.add_mod_idemp_r. replace 729 with (243 * 3) by lia. rewrite Nat.Div0.mul_mod_distr_l.
  assert ((k + i) mod 3 < 3) by (apply Nat.mod_upper_bound; lia). rewrite Nat.mod_small by lia. lia.
Qed.

Lemma reorder_sbit p m : normed p -> m < 729 -> sbit (reorder_third p <$> [0; 1; 2]) m = sbit p ((244 * m) mod 729).
Proof.
  intros [Hl Hp] Hm. destruct (split_243 m Hm) as (i & k & Hi & Hk & ->). rewrite index_244, !sbit_at, lookup_total_3 by done.
  apply reorder_third_bit; [intros; by apply Hp | done | lia].
Qed.

Lemma reorder_holds p n u : holds p n u -> holds (reorder_third p <$> [0; 1; 2]) (reorder_third n <$> [0; 1; 2]) (perm 244 u).
Proof.
  intros [Gp Gn Gl G1 G2]. assert (Hlt : forall m, (244 * m) mod 729 < 729) by (intros m; apply Nat.mod_upper_bound; lia).
  split; [by apply reorder_normed | by apply reorder_normed | apply perm_length|..]; intros m Hm; rewrite reorder_sbit, perm_lookup by done.
  - by apply G1.
  - by apply G2.
Qed.

(** The transformation is 81 rounds. *)
Lemma transform_holds p n s : holds p n s -> let '(p', n') := transform p n in holds p' n' (rounds 81 sbox s).
Proof.
  intros Hh. unfold transform. pose proof (rounds_holds 81 1 p n s s Hh) as Hr. rewrite perm_1 in Hr by apply Hh. specialize (Hr eq_refl).
  change (Z.of_nat ((1 * 364) mod 729)) with ROTATION_OFFSET in Hr. fold STATE_ROTATIONS in Hr. change (state_rotations 81 ROTATION_OFFSET) with STATE_ROTATIONS in Hr.
  destruct (foldl _ _ STATE_ROTATIONS) as [p1 n1]. destruct Hr as (u & Hu & ->). rewrite factor_81. by apply reorder_holds.
Qed.

(** ** The sponge computes the same hashes *)

Lemma set_bit_spec x i : wf256 x -> i < 256 -> wf256 (U256_set_bit x i) /\ forall k, ubit (U256_set_bit x i) k = ubit x k || (k =? i).
Proof.
  intros Hx Hi. destruct (split_64 i) as (a & b & Hb & ->). unfold U256_set_bit. destruct (div_mod_64 a b Hb) as [-> ->]. rewrite (Nat.mod_small a 4) by lia.
  assert (Ha : a < 4) by lia. assert (Hl : length x = 4) by apply Hx. unfold or_word. rewrite word_total by done.
  assert (Hw : forall c, word (<[a := Z.lor (word x a) (u64_shl 1 b)]> x) c = if c =? a then Z.lor (word x a) (u64_shl 1 b) else word x c).
  { intros c. destruct (Nat.eqb_spec c a) as [->|Hne].
    - unfold word at 1. erewrite nth_lookup_Some; [done|]. apply list_lookup_insert_eq. lia.
    - unfold word. rewrite !nth_lookup. f_equal. by apply list_lookup_insert_ne. }
  split.
  - apply wf256_words; [by rewrite length_insert|]. intros c Hc. rewrite Hw. destruct (c =? a); [apply fits_lor; [by apply word_fits | apply fits_shl] | by apply word_fits].
  - intros k. destruct (split_64 k) as (c & d & Hd & ->). rewrite !ubit_at, Hw by done. destruct (Nat.eqb_spec c a) as [->|Hne].
    + rewrite Z.lor_spec, testbit_shl by done. f_equal. destruct (Nat.eqb_spec (64 * a + d) (64 * a + b)) as [He|He].
      * assert (d = b) as -> by lia. rewrite Nat.ltb_irrefl, Nat.sub_diag. done.
      * destruct (Nat.ltb_spec d b); [done|]. apply (Z.bits_above_log2 1); cbn; lia.
    + rewrite (proj2 (Nat.eqb_neq _ _)) by lia. by rewrite orb_false_r.
Qed.

Lemma chunk_bits_spec chunk : length chunk <= 243 ->
  let '(p, n) := chunk_bits chunk in
  wf256 p /\ wf256 n /\ forall k, ubit p k = (k <? length chunk) && is_plus (chunk !!! k) /\ ubit n k = (k <? length chunk) && is_neg (chunk !!! k).
Proof.
  intros Hl. unfold chunk_bits. assert (Hn : forall m, m <= length chunk ->
    let '(p, n) := foldl (fun '(p, n) i => match chunk !!! i with PlusOne => (U256_set_bit p i, n) | Zero => (p, n) | NegOne => (p, U256_set_bit n i) end)
                     (U256_default, U256_default) (seq 0 m) in
    wf256 p /\ wf256 n /\ forall k, ubit p k = (k <? m) && is_plus (chunk !!! k) /\ ubit n k = (k <? m) && is_neg (chunk !!! k)).
  { induction m as [|m IH]; intros Hm; [cbn [seq foldl]; split_and!; [apply default_wf | apply default_wf | intros k; by rewrite default_bit]|].
    rewrite seq_S, foldl_app. cbn [foldl Nat.add]. destruct (foldl _ _ (seq 0 m)) as [p n]. destruct IH as (Hp & Hn & Hb); [lia|].
    assert (Hk : forall k, (k <? S m) = (k <? m) || (k =? m)) by (intros k; destruct (Nat.ltb_spec k (S m)), (Nat.ltb_spec k m), (Nat.eqb_spec k m); done || lia).
    destruct (set_bit_spec p m Hp ltac:(lia)) as [Sp Bp], (set_bit_spec n m Hn ltac:(lia)) as [Sn Bn].
    destruct (chunk !!! m) eqn:E; (split_and!; [done | done|]); intros k; destruct (Hb k) as [Hb1 Hb2]; rewrite ?Bp, ?Bn, Hb1, Hb2, Hk;
      destruct (Nat.eqb_spec k m) as [->|]; rewrite ?E, ?orb_false_r, ?Nat.ltb_irrefl; done. }
  specialize (Hn (length chunk) (le_n _)). by destruct (foldl _ _ _).
Qed.

Lemma copy_holds p n s chunk cp cn :
  holds p n s -> length chunk = 243 -> chunk_bits chunk = (cp, cn) -> holds (<[0 := cp]> p) (<[0 := cn]> n) (copy_chunk chunk s).
Proof.
  intros [Gp Gn Gl G1 G2] Hl Hc. pose proof (chunk_bits_spec chunk) as Hs. rewrite Hc in Hs. destruct Hs as (Wp & Wn & Hb); [lia|].
  assert (Hnorm : forall q c, normed q -> wf256 c -> (forall k, 243 <= k -> ubit c k = false) -> normed (<[0 := c]> q)).
  { intros q c [Hq Hi] Hw Hz. split; [by rewrite length_insert|]. intros [|i] Hlt; [rewrite list_lookup_total_insert_eq by lia; by split|].
    rewrite list_lookup_total_insert_ne by lia. by apply Hi. }
  assert (Hz : forall k, 243 <= k -> (k <? length chunk) = false) by (intros k Hk; apply Nat.ltb_ge; lia).
  assert (Hs : forall q c f, length q = 3 -> (forall k, ubit c k = (k <? length chunk) && f (chunk !!! k)) -> (forall m, m < 729 -> sbit q m = f (s !!! m)) ->
    forall m, m < 729 -> sbit (<[0 := c]> q) m = f (copy_chunk chunk s !!! m)).
  { intros q c f Hq Hcb Hqb m Hm. unfold copy_chunk. destruct (Nat.lt_ge_cases m 243) as [Hlt|Hge].
    - rewrite lookup_total_app_l by lia. replace m with (243 * 0 + m) at 1 by lia. rewrite sbit_at by done.
      rewrite list_lookup_total_insert_eq by lia. rewrite Hcb, (proj2 (Nat.ltb_lt _ _)) by lia. done.
    - rewrite lookup_total_app_r, lookup_total_drop by lia. replace (length chunk + (m - length chunk)) with m by lia. rewrite <- Hqb by done. unfold sbit.
      rewrite list_lookup_total_insert_ne; [done|]. intros He. assert (m / 243 >= 1) by (apply Nat.div_le_lower_bound; lia). lia. }
  split.
  - apply Hnorm; [done | done|]. intros k Hk. destruct (Hb k) as [-> _]. by rewrite Hz.
  - apply Hnorm; [done | done|]. intros k Hk. destruct (Hb k) as [_ ->]. by rewrite Hz.
  - rewrite copy_chunk_length; lia.
  - apply Hs; [apply Gp | intros k; apply Hb | done].
  - apply Hs; [apply Gn | intros k; apply Hb | done].
Qed.

Definition sponge_holds (self : UnrolledCurlP81) (s : list Btrit) : Prop := holds (unrolled_p self) (unrolled_n self) s.

Lemma unrolled_transform_holds self s : sponge_holds self s ->
  sponge_holds (unrolled_transform self) (rounds 81 sbox s) /\ unrolled_direction (unrolled_transform self) = unrolled_direction self.
Proof. intros Hh. unfold unrolled_transform. pose proof (transform_holds _ _ _ Hh) as Ht. by destruct (transform _ _). Qed.

Lemma absorb_chunk_holds self s chunk : sponge_holds self s -> length chunk = 243 ->
  sponge_holds (unrolled_absorb_chunk self chunk) (absorb_chunk 81 sbox s chunk) /\ unrolled_direction (unrolled_absorb_chunk self chunk) = unrolled_direction self.
Proof.
  intros Hh Hl. unfold unrolled_absorb_chunk. destruct (chunk_bits chunk) as [cp cn] eqn:Hc.
  apply (unrolled_transform_holds (mkUnrolled (<[0 := cp]> (unrolled_p self)) (<[0 := cn]> (unrolled_n self)) (unrolled_direction self))).
  by apply copy_holds.
Qed.

(** A slice whose length is a multiple has chunks of the same length. *)
Lemma chunks_exact {A} n m fuel (l : list A) : 0 < n -> length l = m * n -> length l <= fuel -> Forall (fun c => length c = n) (chunks fuel n l).
Proof.
  intros Hn. revert m l. induction fuel as [|fuel IH]; intros m [|x l] Hm Hl; cbn [chunks]; [constructor | cbn in Hl; lia | constructor|].
  destruct m as [|m]; [cbn in Hm; lia|]. cbn [length] in *. constructor; [rewrite length_take; cbn [length]; lia|].
  apply (IH m); rewrite length_drop; cbn [length]; lia.
Qed.

Lemma absorb_holds self s cs : sponge_holds self s -> Forall (fun c => length c = 243) cs ->
  sponge_holds (foldl unrolled_absorb_chunk self cs) (foldl (absorb_chunk 81 sbox) s cs)
  /\ unrolled_direction (foldl unrolled_absorb_chunk self cs) = unrolled_direction self.
Proof.
  intros Hh Hc. revert self s Hh. induction Hc as [|c cs Hl _ IH]; intros self s Hh; [done|]. cbn [foldl].
  destruct (absorb_chunk_holds self s c Hh Hl) as [Hh' Hd]. destruct (IH _ _ Hh') as [? ->]. by split.
Qed.

Lemma bit_b2z x i : wf256 x -> i < 256 -> U256_bit x i = Z.b2z (ubit x i).
Proof.
  intros Hx Hi. unfold U256_bit, ubit. assert (i / 64 < 4) by (apply Nat.Div0.div_lt_upper_bound; lia). rewrite (Nat.mod_small (i / 64)) by done.
  rewrite word_total by (by try apply Hx). change 1%Z with (Z.ones 1) at 1. rewrite Z.land_ones by lia. change (2 ^ 1)%Z with 2%Z.
  rewrite <- Z.bit0_mod. unfold u64_shr. by rewrite Z.shiftr_spec by lia.
Qed.

Lemma hash_trits self s : sponge_holds self s ->
  (fun i => trit_of_bits (U256_bit (unrolled_p self !!! 0) i) (U256_bit (unrolled_n self !!! 0) i)) <$> seq 0 HASH_LENGTH = take HASH_LENGTH s.
Proof.
  intros [Gp Gn Gl G1 G2]. change HASH_LENGTH with 243. apply list_eq_same_length with (n := 243);
    [rewrite length_take; lia | by rewrite length_fmap, length_seq|]. intros i x y Hi Hx Hy.
  rewrite list_lookup_fmap, lookup_seq_lt in Hx by done. injection Hx as <-. rewrite lookup_take_lt in Hy by done.
  rewrite !bit_b2z by (try apply Gp; try apply Gn; lia). replace i with (243 * 0 + i) by lia. rewrite <- !sbit_at, G1, G2 by lia.
  cbn [Nat.mul Nat.add]. rewrite (list_lookup_total_correct _ _ _ Hy). by destruct y.
Qed.

(** The hashes that are squeezed out of a state. *)
Fixpoint squeezes (m : nat) (s : list Btrit) : list Btrit :=
  match m with O => [] | S m => take HASH_LENGTH s ++ squeezes m (rounds 81 sbox s) end.

(** The state that is read. *)
Definition ready (d : SpongeDirection) (s : list Btrit) : list Btrit := match d with Absorb => s | Squeeze => rounds 81 sbox s end.

Lemma squeeze_aux_spec self s : sponge_holds self s ->
  exists self', squeeze_aux self = (self', take HASH_LENGTH (ready (unrolled_direction self) s))
    /\ sponge_holds self' (ready (unrolled_direction self) s) /\ unrolled_direction self' = Squeeze.
Proof.
  intros Hh. unfold squeeze_aux. set (self1 := match unrolled_direction self with Squeeze => _ | Absorb => _ end).
  assert (H1 : sponge_holds self1 (ready (unrolled_direction self) s)).
  { unfold self1, ready. destruct (unrolled_direction self); [done | by apply unrolled_transform_holds]. }
  clearbody self1. exists (mkUnrolled (unrolled_p self1) (unrolled_n self1) Squeeze).
  split; [|split; [exact H1 | done]]. f_equal. exact (hash_trits (mkUnrolled (unrolled_p self1) (unrolled_n self1) Squeeze) _ H1).
Qed.

Lemma unrolled_squeezes buf : forall self s,
  sponge_holds self s -> (unrolled_squeeze_chunks self buf).2 = squeezes (length buf) (ready (unrolled_direction self) s).
Proof.
  induction buf as [|c buf IH]; intros self s Hh; [done|]. cbn [unrolled_squeeze_chunks length squeezes].
  destruct (squeeze_aux_spec self s Hh) as (self1 & -> & H1 & Hd). specialize (IH self1 _ H1). rewrite Hd in IH.
  destruct (unrolled_squeeze_chunks self1 buf) as [self2 rest]. cbn [snd] in *. rewrite IH. reflexivity.
Qed.

Lemma curlp_squeezes self buf :
  wf_CurlP self -> curlp_rounds self = Rounds81 -> Forall (fun c => length c = 243) buf -> (CurlP_squeeze_chunks self buf).2 = squeezes (length buf) (curlp_state self).
Proof.
  intros Hw Hr Hb. revert self Hw Hr. induction Hb as [|c buf Hc _ IH]; intros self Hw Hr; [done|]. cbn [CurlP_squeeze_chunks length squeezes].
  destruct (transform_spec self Hw) as (Hw1 & Hr1 & Hs1). specialize (IH _ Hw1 ltac:(congruence)). rewrite Hs1, Hr in IH.
  destruct (CurlP_squeeze_chunks _ buf) as [self2 rest]. cbn [snd] in *. rewrite IH, Hc. done.
Qed.

Lemma new_holds : sponge_holds UnrolledCurlP81_new (repeat Zero STATE_LENGTH).
Proof.
  assert (Hn : normed (repeat U256_default 3)).
  { split; [done|]. intros i Hi. assert (Hd : repeat U256_default 3 !!! i = U256_default) by (by destruct i as [|[|[|]]]; [..|lia]). rewrite Hd.
    split; [apply default_wf|]. intros k _. apply default_bit. }
  assert (Hb : forall m, m < 729 -> sbit (repeat U256_default 3) m = false /\ repeat Zero STATE_LENGTH !!! m = Zero).
  { intros m Hm. split.
    - destruct (split_243 m Hm) as (i & k & Hi & Hk & ->). rewrite sbit_at by done. by destruct i as [|[|[|]]]; [apply default_bit..|lia].
    - apply list_lookup_total_correct. destruct (lookup_lt_is_Some_2 (repeat Zero STATE_LENGTH) m) as [z Hz]; [by rewrite repeat_length|].
      rewrite Hz. by apply list_elem_of_lookup_2, list_elem_of_In, repeat_spec in Hz as ->. }
  split; [done | done | apply repeat_length|..]; intros m Hm; destruct (Hb m Hm) as [Hs Hz]; rewrite Hz; exact Hs.
Qed.

Lemma squeezes_length m : forall s, length s = 729 -> length (squeezes m s) = m * HASH_LENGTH.
Proof.
  induction m as [|m IH]; intros s Hs; [done|]. cbn [squeezes]. rewrite length_app, length_take, Hs, IH by (by apply rounds_length).
  unfold HASH_LENGTH. lia.
Qed.

Lemma chunks_count {A} n m fuel (l : list A) : 0 < n -> length l = m * n -> length l <= fuel -> length (chunks fuel n l) = m.
Proof.
  intros Hn. revert m l. induction fuel as [|fuel IH]; intros m [|x l] Hm Hl; cbn [chunks length] in *; [nia | lia | nia|].
  destruct m as [|m]; [lia|]. f_equal. apply IH; rewrite length_drop; cbn [length]; lia.
Qed.

(** The digest of an input in chunks of 243 trits, from the first trits of the states of [CurlP]. *)
Definition digest81 (m : nat) (input : list Btrit) : list Btrit := squeezes m (absorb_all 81 sbox input (repeat Zero STATE_LENGTH)).

Lemma unrolled_digest input buf a b :
  0 < a -> length input = a * HASH_LENGTH -> length buf = b * HASH_LENGTH ->
  sponge_digest_into UnrolledCurlP81_new input buf = Ok (UnrolledCurlP81_new, digest81 b input).
Proof.
  intros Ha Hi Hb. unfold sponge_digest_into. cbn [sponge_absorb sponge_squeeze_into sponge_reset Unrolled_sponge].
  unfold unrolled_absorb, unrolled_squeeze_into. rewrite Hi, Hb.
  rewrite !Nat.Div0.mod_mul, (proj2 (Nat.eqb_neq (a * HASH_LENGTH) 0)) by (unfold HASH_LENGTH; lia). rewrite <- Hi, <- Hb.
  cbn [Nat.eqb negb orb unrolled_direction UnrolledCurlP81_new result_bind].
  pose proof (chunks_exact 243 a (length input) input ltac:(lia) Hi ltac:(lia)) as Hci.
  destruct (absorb_holds _ _ _ new_holds Hci) as [Hh Hd]. pose proof (unrolled_squeezes (chunks (length buf) HASH_LENGTH buf) _ _ Hh) as Hs.
  rewrite Hd, (chunks_count HASH_LENGTH b) in Hs by (unfold HASH_LENGTH in *; lia). cbn [ready unrolled_direction UnrolledCurlP81_new] in Hs.
  change 243 with HASH_LENGTH in Hs. unfold UnrolledCurlP81_new in Hs.
  destruct (unrolled_squeeze_chunks _ _) as [self' out]. cbn [snd] in Hs. by rewrite Hs.
Qed.

Lemma curlp81_digest input buf b :
  length buf = b * HASH_LENGTH -> exists curlp, sponge_digest_into CurlP81_new input buf = Ok (curlp, digest81 b input).
Proof.
  intros Hb. unfold sponge_digest_into. cbn [sponge_absorb sponge_squeeze_into sponge_reset CurlP_sponge result_bind].
  assert (Hw : wf_CurlP CurlP81_new) by (split; apply repeat_length). destruct (absorb_spec _ input Hw) as (Hw1 & Hr1 & Hs1).
  pose proof (chunks_exact 243 b (length buf) buf ltac:(lia) Hb ltac:(lia)) as Hcb.
  pose proof (curlp_squeezes _ _ Hw1 Hr1 Hcb) as Hs. rewrite Hs1 in Hs. change 243 with HASH_LENGTH in Hs.
  rewrite (chunks_count HASH_LENGTH b) in Hs by (unfold HASH_LENGTH in *; lia). unfold CurlP_squeeze_into.
  destruct (CurlP_squeeze_chunks _ _) as [self' out]. cbn [snd] in Hs. rewrite Hs. by eexists.
Qed.

(** C8. The unrolled implementation of Curl-P-81 hashes like the plain one: for every input whose length is a positive
    multiple of 243, and every buffer whose length is a multiple of 243, both sponges fill the buffer with the same trits,
    and the unrolled one is as new. *)
Theorem unrolled_equals_curlp81 input buf a b :
  0 < a -> length input = a * HASH_LENGTH -> length buf = b * HASH_LENGTH ->
  exists curlp out, sponge_digest_into UnrolledCurlP81_new input buf = Ok (UnrolledCurlP81_new, out)
    /\ sponge_digest_into CurlP81_new input buf = Ok (curlp, out) /\ length out = length buf.
Proof.
  intros Ha Hi Hb. destruct (curlp81_digest input buf b Hb) as [curlp Hc]. exists curlp, (digest81 b input).
  split_and!; [by apply (unrolled_digest input buf a b) | done|]. rewrite Hb. apply squeezes_length, absorb_all_length, repeat_length.
Qed.

Module Examples.

(** The trits of a string of trytes. *)
Definition trits_of (s : string) : option (list Btrit) :=
  trytes ← TryteBuf_try_from_str ((fun c => Z.of_nat (Ascii.nat_of_ascii c)) <$> String.list_ascii_of_string s);
  ts ← mapM Tryte_as_trits trytes;
  Some (mjoin ts).

Definition digest_of (s : string) : option (list Btrit) :=
  input ← trits_of s;
  match sponge_digest UnrolledCurlP81_new input with Ok (_, output) => Some output | Err _ => None end.

(** A vector of the tests of the crate. *)
Example curlp81_vector :
  digest_of "HHPELNTNJIOKLYDUW9NDULWPHCWFRPTDIUWLYUHQWWJVPAKKGKOAZFJPQJBLNDPALCVXGJLRBFSHATF9C"
  = trits_of "XMJNTUHSDIVRPCBKWPOZWTJFDRSKXZKNJEJSBIHQXQE9YVGTOFF9DMQTFOLCPVLPGMYUGJSTOZZSIGFGH".
Proof. vm_compute. reflexivity. Qed.

Lemma unrolled_equals_curlp81_witness : let input := repeat PlusOne 486 in let buf := repeat Zero 243 in
  exists curlp out, sponge_digest_into UnrolledCurlP81_new input buf = Ok (UnrolledCurlP81_new, out)
    /\ sponge_digest_into CurlP81_new input buf = Ok (curlp, out) /\ length out = length buf.
Proof. intros input buf. apply (unrolled_equals_curlp81 input buf 2 1); [lia | reflexivity | reflexivity]. Defined.
End Examples.
