(* ===== verification/BigInt.v ===== *)
(** * Integers of 384 bits and of 243 trits

    Models [bee-crypto/src/ternary/bigint/]: the unsigned and signed integers of 384 bits, [U384] and [I384], as digits of
    32 or 8 bits in either order, the integers of 242 and 243 trits, [T242] and [T243], and the conversions between them,
    with which Kerl passes from trits to bytes and back.

    An integer is the list of its digits; [_LE] and [_BE] in a name tell whether the lowest or the highest digit comes
    first. The reinterpretations [as_u384] and [as_i384] keep the digits. A panic is [None]. The theorems relate the digits
    to the integers they stand for:
    - [t242_i384_roundtrip]: a number of 242 trits is converted to bytes with the same value, and back to the same trits;
    - [try_from_i384_spec]: the checked conversion accepts exactly the integers of 242 trits;
    - [from_i384_spec]: the conversion that Kerl applies to a hash gives the integer modulo [3 ^ 242], except for the
      integers just below the smallest of 242 trits, for which the comparison of negative numbers is wrong.

    The crate [byteorder], which packs words into bytes, is the class [ByteOrder]. *)

From S2P Require Import Prelude Packable Trits.

Local Open Scope Z_scope.

(** ** The crate [byteorder] *)

Class ByteOrder := {
  be_write_u32_into : list Z -> list Z;
  be_read_u32_into : list Z -> list Z;
  le_write_u32_into : list Z -> list Z;
  le_read_u32_into : list Z -> list Z;
}.

(** The bytes of a word, the lowest first. *)
Definition u32_le_bytes (d : Z) : list Z := (fun k => as_u 8 (Z.shiftr d (8 * k))) <$> [0; 1; 2; 3].

Class ByteOrderOk `{ByteOrder} : Prop := {
  be_write_ok ws : be_write_u32_into ws = mjoin ((fun d => reverse (u32_le_bytes d)) <$> ws);
  le_write_ok ws : le_write_u32_into ws = mjoin (u32_le_bytes <$> ws);
  be_read_ok ws : Forall (fits 32) ws -> be_read_u32_into (mjoin ((fun d => reverse (u32_le_bytes d)) <$> ws)) = ws;
  le_read_ok ws : Forall (fits 32) ws -> le_read_u32_into (mjoin (u32_le_bytes <$> ws)) = ws;
}.

(** ** Digits: [overflowing_add.rs], [split_integer.rs] *)

Definition overflowing_add (x y : Z) : Z * bool := (as_u 32 (x + y), 2 ^ 32 <=? x + y).
Definition overflowing_sub (x y : Z) : Z * bool := (as_u 32 (x - y), x <? y).
Definition overflowing_add_with_carry (self other carry : Z) : Z * bool :=
  let '(sum, first_overflow) := overflowing_add self other in
  let '(sum, second_overflow) := overflowing_add sum carry in
  (sum, first_overflow || second_overflow).
Definition u32_not (x : Z) : Z := Z.lxor (2 ^ 32 - 1) x.
Definition u8_not (x : Z) : Z := Z.lxor (2 ^ 8 - 1) x.

(** The high and the low half of a [u64]. *)
Definition u64_hi (x : Z) : Z := as_u 32 (Z.shiftr x 32).
Definition u64_lo (x : Z) : Z := as_u 32 x.

(** The loops of [add_inplace] and [sub_inplace], the lowest digit first. *)
Fixpoint add_digits (overflown : bool) (self other : list Z) : list Z :=
  match self, other with
  | s :: self, o :: other =>
      let '(sum, overflown) := overflowing_add_with_carry s o (Z.b2z overflown) in sum :: add_digits overflown self other
  | _, _ => self
  end.
Fixpoint sub_digits (borrow : bool) (self other : list Z) : list Z :=
  match self, other with
  | s :: self, o :: other =>
      let '(sum, borrow) := overflowing_add_with_carry s (u32_not o) (Z.b2z borrow) in sum :: sub_digits borrow self other
  | _, _ => self
  end.

(** The comparison of digits, the highest first, up to the first difference. *)
Fixpoint cmp_digits {A} (cmp : A -> A -> comparison) (self other : list A) : comparison :=
  match self, other with
  | s :: self, o :: other => match cmp s o with Eq => cmp_digits cmp self other | c => c end
  | _, _ => Eq
  end.

(** The comparison of signed integers, with the cases of the code; the arrays are not empty. *)
Definition cmp_signed (NEGBIT : Z) (self other : list Z) : comparison :=
  match self, other with
  | s :: self, o :: other =>
      let rest (numbers_negative : bool) :=
        match cmp_digits Z.compare self other with
        | Gt => if numbers_negative then Lt else Gt
        | Lt => if numbers_negative then Gt else Lt
        | Eq => Eq
        end in
      if (NEGBIT <=? s) && (NEGBIT <=? o) && (o <? s) then Gt
      else if (NEGBIT <=? s) && (NEGBIT <=? o) && (s <? o) then Lt
      else if (NEGBIT <=? s) && (NEGBIT <=? o) then rest true
      else if NEGBIT <=? s then Lt
      else if NEGBIT <=? o then Gt
      else if o <? s then Gt
      else if s <? o then Lt
      else rest false
  | _, _ => Eq
  end.

(** The digits from the position [i] on that an overflow reaches. *)
Fixpoint carry_up (fuel : nat) (self : list Z) (i : nat) (overflown : bool) : option (list Z * nat) :=
  if overflown then
    match fuel with
    | O => None
    | S fuel =>
        digit ← self !! i;
        let '(sum, still_overflown) := overflowing_add digit 1 in
        carry_up fuel (<[i := sum]> self) (S i) still_overflown
    end
  else Some (self, i).

(** [divide_by_two] of the digits, the lowest first. *)
Fixpoint halve (self : list Z) : list Z :=
  match self with
  | [] => []
  | l :: rest =>
      match rest with
      | [] => [Z.shiftr l 1]
      | r :: _ => Z.lor (Z.shiftr l 1) (as_u 32 (Z.shiftl r 31)) :: halve rest
      end
  end.

(** ** Integers of trits: [macros.rs], [t243/mod.rs] *)

Inductive BigIntError := BinaryExceedsTernaryRange | TernaryExceedsBinaryRange.

(** The order of [Utrit], and of the integers. *)
Definition Utrit_cmp (s o : Utrit) : comparison := Z.compare (Utrit_into_u8 s) (Utrit_into_u8 o).
Definition T243_cmp (self other : list Utrit) : comparison := cmp_digits Utrit_cmp (reverse self) (reverse other).

Definition T243_zero : list Utrit := repeat UZero 243.
Definition T242_half_max : list Utrit := repeat UOne 242.
Definition T242_max : list Utrit := repeat UTwo 242.

Definition T242_into_t243 {A} (zero : A) (self : list A) : list A := self ++ [zero].
Definition T243_into_t242 {A} (self : list A) : list A := removelast self.

(** The trit that has a remainder as its representation. *)
Definition utrit_of_rem (rem : Z) : Utrit := match rem with 0 => UZero | 1 => UOne | _ => UTwo end.

(** The position of the first digit that is not zero, or of the last digit. *)
Fixpoint first_digit (i first : nat) (ds : list Z) : nat :=
  match ds with
  | [] => first
  | d :: ds => if d =? 0 then first_digit (S i) i ds else i
  end.

(** The division by three, from the highest digit. *)
Fixpoint divide_digits (rem : Z) (ds : list Z) : list Z * Z :=
  match ds with
  | [] => ([], rem)
  | d :: ds =>
      let digit_with_rem := Z.lor (Z.shiftl rem 32) d in
      let '(ds, rem) := divide_digits (as_u 32 (digit_with_rem mod 3)) ds in
      (as_u 32 (digit_with_rem / 3) :: ds, rem)
  end.

Fixpoint u384_trits (n : nat) (u384_inner_slice : list Z) : list Utrit :=
  match n with
  | O => []
  | S n =>
      let u384_inner_slice := drop (first_digit 0 0 u384_inner_slice) u384_inner_slice in
      let '(u384_inner_slice, rem) := divide_digits 0 u384_inner_slice in
      utrit_of_rem rem :: u384_trits n u384_inner_slice
  end.

(** [T243::from_u384] *)
Definition T243_from_u384_BE (value : list Z) : list Utrit := u384_trits 243 value.
Definition T243_from_u384_LE (value : list Z) : list Utrit := T243_from_u384_BE (reverse value).

(** ** Unsigned integers: [u384/mod.rs] *)

Definition U384_LE_zero : list Z := repeat 0 12.
Definition U384_LE_one : list Z := 1 :: repeat 0 11.
Definition U384_LE_max : list Z := repeat (2 ^ 32 - 1) 12.

Definition U384_LE_add_inplace (self other : list Z) : list Z := add_digits false self other.
Definition U384_LE_sub_inplace (self other : list Z) : list Z := sub_digits true self other.
Definition U384_LE_divide_by_two (self : list Z) : list Z := halve self.
Definition U384_LE_cmp (self other : list Z) : comparison := cmp_digits Z.compare (reverse self) (reverse other).

Definition U384_LE_add_digit_inplace (self : list Z) (other : Z) : option (list Z * nat) :=
  digit ← self !! 0%nat;
  let '(sum, overflown) := overflowing_add digit other in
  carry_up (S (length self)) (<[0%nat := sum]> self) 1 overflown.

(** The multiplication of the digits by three. *)
Fixpoint triple_digits (carry : Z) (ds : list Z) : list Z * Z :=
  match ds with
  | [] => ([], carry)
  | d :: ds =>
      let new_digit := 3 * d + carry in
      let '(ds, carry) := triple_digits (u64_hi new_digit) ds in
      (u64_lo new_digit :: ds, carry)
  end.

(** One trit; the unchecked access has to be in range. *)
Definition accumulate (acc : list Z * nat) (binary_trit : Utrit) : option (list Z * nat) :=
  let '(accumulator, accumulator_extent) := acc in
  let '(low, carry) := triple_digits 0 (take accumulator_extent accumulator) in
  let accumulator := low ++ drop accumulator_extent accumulator in
  '(accumulator, accumulator_extent) ←
    (if carry =? 0 then Some (accumulator, accumulator_extent)
     else if (accumulator_extent <? length accumulator)%nat
          then Some (<[accumulator_extent := carry]> accumulator, S accumulator_extent) else None);
  '(accumulator, new_extent) ← U384_LE_add_digit_inplace accumulator (Utrit_into_u8 binary_trit);
  Some (accumulator, if (accumulator_extent <? new_extent)%nat then new_extent else accumulator_extent).

Fixpoint accumulate_all (acc : list Z * nat) (binary_trits : list Utrit) : option (list Z * nat) :=
  match binary_trits with
  | [] => Some acc
  | t :: ts => acc ← accumulate acc t; accumulate_all acc ts
  end.

Fixpoint skip_zeros (ts : list Utrit) : list Utrit :=
  match ts with UZero :: ts => skip_zeros ts | _ => ts end.

Definition UTRIT_U384_MAX : list Utrit := T243_from_u384_LE U384_LE_max.

Definition U384_LE_try_from_t243 (trits : list Utrit) : option (result BigIntError (list Z)) :=
  match T243_cmp trits UTRIT_U384_MAX with
  | Gt => Some (Err TernaryExceedsBinaryRange)
  | _ => '(accumulator, _) ← accumulate_all (U384_LE_zero, 1%nat) (skip_zeros (reverse trits)); Some (Ok accumulator)
  end.

(** [unwrap] of a result *)
Definition unwrap {E A} (r : option (result E A)) : option A := match r with Some (Ok a) => Some a | _ => None end.

Definition U384_LE_from_t242 (trits : list Utrit) : option (list Z) := unwrap (U384_LE_try_from_t243 (T242_into_t243 UZero trits)).

(** *** Constants: [u384/constants.rs] *)

Definition LE_U32_HALF_MAX : list Z := U384_LE_divide_by_two U384_LE_max.
Definition LE_U32_HALF_MAX_T242 : option (list Z) := U384_LE_from_t242 T242_half_max.
Definition LE_U32_NEG_HALF_MAX_T242 : option (list Z) := half ← LE_U32_HALF_MAX_T242; Some (U384_LE_sub_inplace U384_LE_zero half).
Definition LE_U32_ONLY_T243_OCCUPIED : option (list Z) := unwrap (U384_LE_try_from_t243 (<[242%nat := UOne]> T243_zero)).
Definition LE_U32_MAX_T242 : option (list Z) := U384_LE_from_t242 T242_max.

Definition U384_LE_shift_into_i384 (self : list Z) : list Z :=
  U384_LE_sub_inplace (U384_LE_sub_inplace self LE_U32_HALF_MAX) U384_LE_one.

(** ** Signed integers: [i384/mod.rs] *)

Definition I384_LE_add_inplace (self other : list Z) : list Z := add_digits false self other.
Definition I384_LE_sub_inplace (self other : list Z) : list Z := sub_digits true self other.
Definition I384_LE_cmp (self other : list Z) : comparison := cmp_signed (2 ^ 31) (reverse self) (reverse other).
Definition I384_LE_is_negative (self : list Z) : bool := Z.land (nth 11 self 0) (2 ^ 31) =? 2 ^ 31.
Definition I384_LE_is_positive (self : list Z) : bool := Z.land (nth 11 self 0) (2 ^ 31) =? 0.

Definition I384_LE_from_t242 (value : list Btrit) : option (list Z) :=
  let t242_unbalanced := Btrit_shift <$> value in
  let t243_unbalanced := T242_into_t243 UZero t242_unbalanced in
  u384_integer ← unwrap (U384_LE_try_from_t243 t243_unbalanced);
  half ← LE_U32_HALF_MAX_T242;
  Some (U384_LE_sub_inplace u384_integer half).

Definition I384_LE_shift_into_u384 (self : list Z) : list Z :=
  U384_LE_sub_inplace (U384_LE_sub_inplace self LE_U32_HALF_MAX) U384_LE_one.

Definition I384_LE_try_from_t243 (balanced_trits : list Btrit) : option (result BigIntError (list Z)) :=
  r ← U384_LE_try_from_t243 (Btrit_shift <$> balanced_trits);
  Some (let? u384_integer := r in Ok (U384_LE_shift_into_i384 u384_integer)).

Definition zero_most_significant_trit (self : list Z) : option (list Z) :=
  half ← LE_U32_HALF_MAX_T242;
  neg_half ← LE_U32_NEG_HALF_MAX_T242;
  only ← LE_U32_ONLY_T243_OCCUPIED;
  Some (match I384_LE_cmp self half with
        | Gt => I384_LE_sub_inplace self only
        | _ => match I384_LE_cmp self neg_half with Lt => I384_LE_add_inplace self only | _ => self end
        end).

(** *** Digits in the other order *)

Definition I384_BE_add_inplace (self other : list Z) : list Z := reverse (add_digits false (reverse self) (reverse other)).
Definition I384_BE_sub_inplace (self other : list Z) : list Z := reverse (sub_digits true (reverse self) (reverse other)).
Definition I384_BE_cmp (self other : list Z) : comparison := cmp_signed (2 ^ 31) self other.
(** The digit that is tested is the lowest one. *)
Definition I384_BE_is_negative (self : list Z) : bool := Z.land (nth 11 self 0) (2 ^ 31) =? 2 ^ 31.

(** The loop of [divide_by_two], and the function; the condition of the loop is false at once. *)
Fixpoint divide_loop (fuel : nat) (self : list Z) (i : nat) : option (list Z) :=
  if (i <? length self - 1)%nat then
    match fuel with
    | O => None
    | S fuel =>
        l ← self !! i;
        r ← self !! S i;
        divide_loop fuel (<[i := Z.lor (Z.shiftr l 1) (as_u 32 (Z.shiftl r 31))]> self) (i - 1)
    end
  else Some self.
Definition U384_BE_divide_by_two (self : list Z) : option (list Z) :=
  self ← divide_loop (length self) self (length self - 1);
  Some (alter (fun d => Z.shiftr d 1) 0%nat self).

(** *** Bytes *)

Definition I384_BE_U8_cmp (self other : list Z) : comparison := cmp_signed (2 ^ 7) self other.
Definition I384_BE_U8_not_inplace (self : list Z) : list Z := u8_not <$> self.

Section bytes.
Context `{ByteOrder}.

(** [From<T242<Btrit>> for I384<BigEndian, U8Repr>] *)
Definition I384_BE_U8_from_t242 (value : list Btrit) : option (list Z) :=
  i384_le ← I384_LE_from_t242 value;
  let i384_be := reverse i384_le in
  Some (be_write_u32_into i384_be).

(** [TryFrom<T243<Btrit>> for I384<BigEndian, U8Repr>] *)
Definition I384_BE_U8_try_from_t243 (value : list Btrit) : option (result BigIntError (list Z)) :=
  r ← I384_LE_try_from_t243 value;
  Some (let? i384_le := r in Ok (be_write_u32_into (reverse i384_le))).

(** ** Back to trits: [t242/mod.rs], [t243/mod.rs] *)

Definition T242_from_i384_ignoring_mst (value : list Z) : option (list Btrit) :=
  let value := reverse value in
  let value := le_read_u32_into value in
  value ← zero_most_significant_trit value;
  half ← LE_U32_HALF_MAX_T242;
  let unsigned_binary := U384_LE_add_inplace value half in
  let t243_utrit := T243_from_u384_LE unsigned_binary in
  let t243_btrit := Utrit_shift <$> t243_utrit in
  Some (T243_into_t242 t243_btrit).

Definition T242_try_from_i384 (value : list Z) : option (result BigIntError (list Btrit)) :=
  half ← LE_U32_HALF_MAX_T242;
  max ← LE_U32_MAX_T242;
  let unsigned_binary := U384_LE_add_inplace value half in
  Some (match U384_LE_cmp unsigned_binary max with
        | Gt => Err BinaryExceedsTernaryRange
        | _ => Ok (T243_into_t242 (Utrit_shift <$> T243_from_u384_LE unsigned_binary))
        end).

(** [TryFrom<I384<BigEndian, U8Repr>> for T242<Btrit>] *)
Definition T242_try_from_i384_BE_U8 (value : list Z) : option (result BigIntError (list Btrit)) :=
  T242_try_from_i384 (le_read_u32_into (reverse value)).

Definition T243_from_i384_LE (value : list Z) : list Btrit :=
  let u384_value := I384_LE_shift_into_u384 value in
  let t243_unbalanced := T243_from_u384_LE u384_value in
  Utrit_shift <$> t243_unbalanced.
Definition T243_from_i384_BE_U8 (value : list Z) : list Btrit := T243_from_i384_LE (reverse (be_read_u32_into value)).
End bytes.

(** ** Values *)

(** The integer that digits of base [b] stand for, the lowest first. *)
Fixpoint value (b : Z) (ds : list Z) : Z := match ds with [] => 0 | d :: ds => d + b * value b ds end.
Definition digits (b : Z) (ds : list Z) : Prop := Forall (fun d => 0 <= d < b) ds.

Lemma value_app b l l' : value b (l ++ l') = value b l + b ^ len l * value b l'.
Proof.
  unfold len. induction l as [|d l IH]; [cbn [app value length]; change (Z.of_nat 0) with 0; rewrite Z.pow_0_r; lia|].
  cbn [app value length]. rewrite IH, Nat2Z.inj_succ, Z.pow_succ_r by lia. ring.
Qed.

Lemma value_snoc b l d : value b (l ++ [d]) = value b l + b ^ len l * d.
Proof. rewrite value_app. cbn [value]. ring. Qed.

Lemma value_bound b l : 0 < b -> digits b l -> 0 <= value b l < b ^ len l.
Proof.
  intros Hb. unfold len. induction 1 as [|d l Hd _ IH]; [cbn; lia|]. cbn [value length] in *. rewrite Nat2Z.inj_succ, Z.pow_succ_r by lia.
  assert (b * value b l <= b * (b ^ Z.of_nat (length l) - 1)) by (apply Z.mul_le_mono_nonneg_l; lia).
  assert (0 <= b * value b l) by (apply Z.mul_nonneg_nonneg; lia). lia.
Qed.

Lemma value_inj b l : forall l', 0 < b -> digits b l -> digits b l' -> length l = length l' -> value b l = value b l' -> l = l'.
Proof.
  induction l as [|d l IH]; intros [|d' l'] Hb Hl Hl' Hn Hv; try done. apply Forall_cons in Hl as [Hd Hl], Hl' as [Hd' Hl'].
  cbn [value length] in *. assert (value b l = value b l' /\ d = d') as [? ->] by (apply (Z.div_mod_unique b); lia).
  f_equal. apply IH; auto.
Qed.

Lemma value_repeat_zero b n : value b (repeat 0 n) = 0.
Proof. induction n as [|n IH]; [done|]. cbn [repeat value]. rewrite IH. lia. Qed.

(** Digits that are all one less than the base. *)
Lemma value_repeat_max b n : value b (repeat (b - 1) n) = b ^ Z.of_nat n - 1.
Proof. induction n as [|n IH]; [cbn; lia|]. cbn [repeat value]. rewrite IH, Nat2Z.inj_succ, Z.pow_succ_r by lia. ring. Qed.

Lemma value_insert b i d l : (i < length l)%nat -> value b (<[i := d]> l) = value b l + (d - l !!! i) * b ^ Z.of_nat i.
Proof.
  revert i. induction l as [|x l IH]; intros i Hi; [cbn in Hi; lia|]. destruct i as [|i]; cbn [insert list_insert value length] in *.
  - change (<[0%nat := d]> (x :: l)) with (d :: l). cbn [value]. change ((x :: l) !!! 0%nat) with x. rewrite Z.pow_0_r. ring.
  - change (<[S i := d]> (x :: l)) with (x :: <[i := d]> l). cbn [value]. change ((x :: l) !!! S i) with (l !!! i).
    rewrite IH by lia. rewrite Nat2Z.inj_succ, Z.pow_succ_r by lia. ring.
Qed.

Lemma digits_repeat b d n : 0 <= d < b -> digits b (repeat d n).
Proof. intros Hd. apply Forall_forall. intros x Hx%list_elem_of_In%repeat_spec. by subst. Qed.

Lemma digits_reverse b l : digits b l -> digits b (reverse l).
Proof. apply Forall_reverse. Qed.

(** The first difference decides. *)
Lemma cmp_digits_value b l : forall l', 0 < b -> digits b l -> digits b l' -> length l = length l' ->
  cmp_digits Z.compare l l' = Z.compare (value b (reverse l)) (value b (reverse l')).
Proof.
  induction l as [|d l IH]; intros [|d' l'] Hb Hl Hl' Hn; try done. apply Forall_cons in Hl as [Hd Hl], Hl' as [Hd' Hl'].
  cbn [cmp_digits length] in *. rewrite !reverse_cons, !value_snoc. unfold len. rewrite !length_reverse.
  pose proof (value_bound b (reverse l) Hb (digits_reverse _ _ Hl)) as B1. pose proof (value_bound b (reverse l') Hb (digits_reverse _ _ Hl')) as B2.
  unfold len in *. rewrite length_reverse in B1, B2. assert (length l = length l') as E by lia. rewrite E in *. clear E.
  destruct (Z.compare_spec d d') as [->|Hlt|Hgt].
  - rewrite IH by auto. rewrite !(Z.add_comm (value _ _)). symmetry. apply Z.add_compare_mono_l.
  - symmetry. apply Z.compare_lt_iff. nia.
  - symmetry. apply Z.compare_gt_iff. nia.
Qed.

(** ** Addition and subtraction *)

Abbreviation B32 := (2 ^ 32).

Lemma add_with_carry_spec s o (c : bool) : fits 32 s -> fits 32 o ->
  let '(sum, c') := overflowing_add_with_carry s o (Z.b2z c) in fits 32 sum /\ sum + B32 * Z.b2z c' = s + o + Z.b2z c.
Proof.
  intros Hs Ho. unfold overflowing_add_with_carry, overflowing_add, as_u, fits in *.
  assert (Hc : 0 <= Z.b2z c <= 1) by (destruct c; cbn; lia).
  destruct (Z.leb_spec B32 (s + o)) as [H1|H1].
  - replace ((s + o) mod B32) with (s + o - B32) by (apply (Z.mod_unique_pos _ _ 1); lia).
    rewrite (proj2 (Z.leb_gt _ _)) by lia. cbn [orb]. rewrite Z.mod_small by lia. cbn [Z.b2z]. lia.
  - rewrite (Z.mod_small (s + o)) by lia. cbn [orb]. destruct (Z.leb_spec B32 (s + o + Z.b2z c)) as [H2|H2].
    + replace ((s + o + Z.b2z c) mod B32) with (s + o + Z.b2z c - B32) by (apply (Z.mod_unique_pos _ _ 1); lia). cbn [Z.b2z]. lia.
    + rewrite Z.mod_small by lia. cbn [Z.b2z]. lia.
Qed.

Lemma add_digits_value s : forall c o, digits B32 s -> digits B32 o -> length s = length o ->
  digits B32 (add_digits c s o) /\ length (add_digits c s o) = length s
  /\ exists c', value B32 (add_digits c s o) + B32 ^ len s * Z.b2z c' = value B32 s + value B32 o + Z.b2z c.
Proof.
  induction s as [|x s IH]; intros c [|y o] Hs Ho Hl; try done.
  { cbn [add_digits]. split_and!; [done..|]. exists c. cbn [value]. unfold len. cbn [length]. lia. }
  apply Forall_cons in Hs as [Hx Hs], Ho as [Hy Ho]. cbn [add_digits]. pose proof (add_with_carry_spec x y c Hx Hy) as Ha.
  destruct (overflowing_add_with_carry x y (Z.b2z c)) as [sum c1]. destruct Ha as [Hf Ha].
  destruct (IH c1 o Hs Ho ltac:(cbn in Hl; lia)) as (Hd & Hn & c' & Hc). cbn [length value].
  split_and!; [by constructor | by f_equal|]. exists c'. unfold len in *. cbn [length]. rewrite Nat2Z.inj_succ, Z.pow_succ_r by lia. nia.
Qed.

Lemma add_inplace_spec s o : digits B32 s -> digits B32 o -> length s = 12%nat -> length o = 12%nat ->
  digits B32 (add_digits false s o) /\ length (add_digits false s o) = 12%nat
  /\ value B32 (add_digits false s o) = (value B32 s + value B32 o) mod 2 ^ 384.
Proof.
  intros Hs Ho Ls Lo. destruct (add_digits_value s false o Hs Ho ltac:(lia)) as (Hd & Hl & c & Hc). split_and!; [done | lia|].
  pose proof (value_bound B32 _ ltac:(lia) Hd) as Hb. unfold len in *. rewrite Hl, Ls in *. change (B32 ^ Z.of_nat 12) with (2 ^ 384) in *.
  apply (Z.mod_unique_pos _ _ (Z.b2z c)); cbn [Z.b2z] in Hc; lia.
Qed.

Lemma u32_not_value x : fits 32 x -> u32_not x = B32 - 1 - x.
Proof.
  intros Hx. unfold u32_not. change (B32 - 1) with (Z.ones 32). assert (Ho : Z.ldiff x (Z.ones 32) = 0).
  { rewrite Z.ldiff_ones_r, Z.shiftr_div_pow2, Z.div_small by (apply Hx || lia). apply Z.shiftl_0_l. }
  rewrite Z.sub_nocarry_ldiff by exact Ho. apply Z.bits_inj'. intros n Hn. pose proof (f_equal (fun y => Z.testbit y n) Ho) as Hb.
  cbn beta in Hb. rewrite Z.ldiff_spec, Z.bits_0 in Hb. rewrite Z.lxor_spec, Z.ldiff_spec. by destruct (Z.testbit x n), (Z.testbit (Z.ones 32) n).
Qed.

Lemma value_not b f o : (forall d, 0 <= d < b -> f d = b - 1 - d) -> digits b o -> value b (f <$> o) = b ^ len o - 1 - value b o.
Proof.
  intros Hf. unfold len. induction 1 as [|d o Hd _ IH]; [cbn; lia|]. rewrite fmap_cons. cbn [value length].
  rewrite IH, Hf, Nat2Z.inj_succ, Z.pow_succ_r by (done || lia). ring.
Qed.

Lemma sub_digits_add s : forall c o, sub_digits c s o = add_digits c s (u32_not <$> o).
Proof. induction s as [|x s IH]; intros c [|y o]; try done. cbn [sub_digits]. rewrite fmap_cons. cbn [add_digits]. destruct (overflowing_add_with_carry _ _ _). by rewrite IH. Qed.

Lemma sub_inplace_spec s o : digits B32 s -> digits B32 o -> length s = 12%nat -> length o = 12%nat ->
  digits B32 (sub_digits true s o) /\ length (sub_digits true s o) = 12%nat
  /\ value B32 (sub_digits true s o) = (value B32 s - value B32 o) mod 2 ^ 384.
Proof.
  intros Hs Ho Ls Lo. rewrite sub_digits_add. assert (Hn : digits B32 (u32_not <$> o)).
  { apply Forall_fmap. eapply Forall_impl; [exact Ho|]. intros d Hd. unfold compose. cbn beta in *. rewrite u32_not_value by exact Hd. lia. }
  destruct (add_digits_value s true (u32_not <$> o) Hs Hn ltac:(rewrite length_fmap; lia)) as (Hd & Hl & c & Hc). split_and!; [done | lia|].
  rewrite (value_not B32 u32_not o u32_not_value Ho) in Hc. pose proof (value_bound B32 _ ltac:(lia) Hd) as Hb.
  unfold len in *. rewrite Hl, Ls, ?Lo in *. change (B32 ^ Z.of_nat 12) with (2 ^ 384) in *. cbn [Z.b2z] in Hc.
  apply (Z.mod_unique_pos _ _ (Z.b2z c - 1)); lia.
Qed.

(** ** From trits to words *)

Lemma triple_digits_spec ds : forall c, digits B32 ds -> 0 <= c < 3 ->
  let '(out, c') := triple_digits c ds in
  digits B32 out /\ length out = length ds /\ 0 <= c' < 3 /\ value B32 out + B32 ^ len ds * c' = 3 * value B32 ds + c.
Proof.
  intros c Hd. revert c. induction Hd as [|d ds Hd _ IH]; intros c Hc; cbn [triple_digits].
  { split_and!; [constructor | done | lia | lia|]. cbn [value]. unfold len. cbn [length]. change (Z.of_nat 0) with 0. rewrite Z.pow_0_r. lia. }
  cbn beta in Hd. assert (Hh : u64_hi (3 * d + c) = (3 * d + c) / B32).
  { unfold u64_hi, as_u. rewrite Z.shiftr_div_pow2 by lia. apply Z.mod_small. split; [apply Z.div_pos; lia|]. apply Z.div_lt_upper_bound; lia. }
  rewrite Hh. assert (Hr : 0 <= (3 * d + c) / B32 < 3) by (split; [apply Z.div_pos; lia | apply Z.div_lt_upper_bound; lia]).
  specialize (IH _ Hr). destruct (triple_digits _ ds) as [out c']. destruct IH as (Ho & Hl & Hc' & Hv).
  unfold u64_lo, as_u. pose proof (Z.mod_pos_bound (3 * d + c) B32 ltac:(lia)). pose proof (Z.div_mod (3 * d + c) B32 ltac:(lia)).
  split_and!; [by constructor | cbn; lia | lia | lia|]. cbn [value]. unfold len in *. cbn [length].
  rewrite Nat2Z.inj_succ, Z.pow_succ_r by lia. nia.
Qed.

Lemma carry_up_spec fuel : forall self i (overflown : bool),
  digits B32 self -> (i <= length self)%nat -> (length self < fuel + i)%nat ->
  value B32 self + Z.b2z overflown * B32 ^ Z.of_nat i < B32 ^ len self ->
  exists self' i', carry_up fuel self i overflown = Some (self', i') /\ digits B32 self' /\ length self' = length self
    /\ (i <= i' <= length self)%nat /\ drop i' self' = drop i' self
    /\ value B32 self' = value B32 self + Z.b2z overflown * B32 ^ Z.of_nat i.
Proof.
  induction fuel as [|fuel IH]; intros self i [] Hd Hi Hf Hv; cbn [carry_up Z.b2z] in *; [lia | | |].
  - exists self, i. split_and!; try done; lia.
  - destruct (decide (i = length self)) as [->|Hne].
    { pose proof (value_bound B32 self ltac:(lia) Hd). unfold len in *. lia. }
    destruct (lookup_lt_is_Some_2 self i) as [d Ed]; [lia|]. rewrite Ed. cbn [mbind option_bind].
    assert (Hdi : fits 32 d) by exact (proj1 (Forall_lookup _ _) Hd i d Ed).
    pose proof (list_lookup_total_correct _ _ _ Ed) as Et. unfold overflowing_add, as_u, fits in *.
    pose proof (Z.pow_pos_nonneg B32 (Z.of_nat i) ltac:(lia) ltac:(lia)) as Hp.
    set (o := 2 ^ 32 <=? d + 1). assert (Hs : (d + 1) mod B32 + B32 * Z.b2z o = d + 1 /\ 0 <= (d + 1) mod B32 < B32).
    { subst o. destruct (Z.leb_spec B32 (d + 1)); [replace (d + 1) with B32 by lia; rewrite Z.mod_same by lia; cbn [Z.b2z]; lia | rewrite Z.mod_small by lia; cbn [Z.b2z]; lia]. }
    set (sum := (d + 1) mod B32) in *. clearbody o sum.
    assert (Hvi : value B32 (<[i := sum]> self) + Z.b2z o * B32 ^ Z.of_nat (S i) = value B32 self + B32 ^ Z.of_nat i).
    { rewrite value_insert by lia. rewrite Et, Nat2Z.inj_succ, Z.pow_succ_r by lia. nia. }
    destruct (IH (<[i := sum]> self) (S i) o) as (self' & i' & -> & Hd' & Hl' & Hi' & Hdr & Hv').
    + apply Forall_insert; [done|]. lia.
    + rewrite length_insert. lia.
    + rewrite length_insert. lia.
    + unfold len in *. rewrite length_insert. lia.
    + rewrite length_insert in *. exists self', i'. split_and!; try done; try lia. rewrite Hdr. apply drop_insert_lt. lia.
  - exists self, i. split_and!; try done; lia.
Qed.

Abbreviation zeros := (Forall (eq 0)).

Lemma value_zeros b l : zeros l -> value b l = 0.
Proof. induction 1 as [|d l <- _ IH]; [done|]. cbn [value]. rewrite IH. lia. Qed.

Lemma add_digit_spec self t :
  digits B32 self -> (0 < length self)%nat -> 0 <= t < B32 -> value B32 self + t < B32 ^ len self ->
  exists self' i', U384_LE_add_digit_inplace self t = Some (self', i') /\ digits B32 self' /\ length self' = length self
    /\ (1 <= i' <= length self)%nat /\ drop i' self' = drop i' self /\ value B32 self' = value B32 self + t.
Proof.
  intros Hd Hl Ht Hv. unfold U384_LE_add_digit_inplace. destruct self as [|d self]; [cbn in Hl; lia|].
  apply Forall_cons in Hd as [Hd0 Hd]. change ((d :: self) !! 0%nat) with (Some d). cbn [mbind option_bind].
  unfold overflowing_add, as_u. set (o := B32 <=? d + t).
  assert (Hs : (d + t) mod B32 + B32 * Z.b2z o = d + t /\ 0 <= (d + t) mod B32 < B32).
  { split; [|apply Z.mod_pos_bound; lia]. subst o. destruct (Z.leb_spec B32 (d + t)).
    - replace ((d + t) mod B32) with (d + t - B32) by (apply (Z.mod_unique_pos _ _ 1); lia). cbn [Z.b2z]. lia.
    - rewrite Z.mod_small by lia. cbn [Z.b2z]. lia. }
  set (sum := (d + t) mod B32) in *. clearbody o sum. change (<[0%nat := sum]> (d :: self)) with (sum :: self).
  destruct (carry_up_spec (S (length (d :: self))) (sum :: self) 1 o) as (self' & i' & -> & Hd' & Hl' & Hi' & Hdr & Hv').
  - constructor; [lia | done].
  - cbn. lia.
  - cbn. lia.
  - cbn [value] in *. unfold len in *. cbn [length] in *. change (Z.of_nat 1) with 1. rewrite Z.pow_1_r. lia.
  - exists self', i'. cbn [length] in *. split_and!; try done; try lia.
    + rewrite Hdr. destruct i' as [|i']; [lia | done].
    + rewrite Hv'. cbn [value]. change (Z.of_nat 1) with 1. rewrite Z.pow_1_r. lia.
Qed.

Record accumulated (acc : list Z) (extent : nat) (v : Z) : Prop := {
  ac_length : length acc = 12%nat;
  ac_digits : digits B32 acc;
  ac_extent : (1 <= extent <= 12)%nat;
  ac_value : value B32 acc = v;
  ac_zeros : zeros (drop extent acc);
}.

Lemma Utrit_bound t : 0 <= Utrit_into_u8 t < 3.
Proof. destruct t; cbn; lia. Qed.

(** The multiplication, and the digit that it may add. *)
Lemma triple_spec acc extent v :
  accumulated acc extent v -> 3 * v < 2 ^ 384 ->
  let '(low, carry) := triple_digits 0 (take extent acc) in
  exists acc' extent', (if carry =? 0 then Some (low ++ drop extent acc, extent)
    else if (extent <? length (low ++ drop extent acc))%nat then Some (<[extent := carry]> (low ++ drop extent acc), S extent) else None)
    = Some (acc', extent') /\ accumulated acc' extent' (3 * v).
Proof.
  intros [Hl Hd He Hv Hz] Hb. pose proof (triple_digits_spec (take extent acc) 0 (Forall_take _ _ _ Hd) ltac:(lia)) as Ht.
  destruct (triple_digits 0 (take extent acc)) as [low carry]. destruct Ht as (Hlo & Hll & Hc & Hlv).
  assert (Htv : value B32 (take extent acc) = v).
  { rewrite <- (take_drop extent acc), value_app, (value_zeros _ _ Hz) in Hv. lia. }
  rewrite Htv, Z.add_0_r in Hlv. unfold len in Hlv. rewrite length_take, Nat.min_l in Hll, Hlv by lia.
  assert (Hla : length (low ++ drop extent acc) = 12%nat) by (rewrite length_app, length_drop; lia).
  assert (Hda : digits B32 (low ++ drop extent acc)) by (apply Forall_app; split; [done | by apply Forall_drop]).
  assert (Hdr : drop extent (low ++ drop extent acc) = drop extent acc) by (rewrite <- Hll at 1; apply drop_app_length).
  assert (Hva : value B32 (low ++ drop extent acc) = value B32 low) by (rewrite value_app, (value_zeros _ _ Hz); lia).
  destruct (Z.eqb_spec carry 0) as [->|Hc0].
  { eexists _, _. split; [done|]. split; [done | done | done | lia | by rewrite Hdr]. }
  assert (extent <> 12%nat).
  { intros ->. change (B32 ^ Z.of_nat 12) with (2 ^ 384) in Hlv. pose proof (value_bound B32 low ltac:(lia) Hlo). nia. }
  rewrite Hla, (proj2 (Nat.ltb_lt _ _)) by lia. eexists _, _. split; [done|]. split; [by rewrite length_insert | | lia | |].
  - apply Forall_insert; [done|]. lia.
  - rewrite value_insert, Hva by lia. destruct (lookup_lt_is_Some_2 (low ++ drop extent acc) extent) as [d Ed]; [lia|].
    rewrite (list_lookup_total_correct _ _ _ Ed). assert (d = 0) as ->; [|lia].
    pose proof (lookup_drop (low ++ drop extent acc) extent 0) as E0. rewrite Nat.add_0_r, Hdr, Ed in E0.
    symmetry. exact (proj1 (Forall_lookup _ _) Hz _ _ E0).
  - rewrite drop_insert_lt by lia. replace (S extent) with (extent + 1)%nat by lia. rewrite <- drop_drop, Hdr. by apply Forall_drop.
Qed.

Lemma accumulate_spec acc extent v t :
  accumulated acc extent v -> 0 <= v -> 3 * v + Utrit_into_u8 t < 2 ^ 384 ->
  exists acc' extent', accumulate (acc, extent) t = Some (acc', extent') /\ accumulated acc' extent' (3 * v + Utrit_into_u8 t).
Proof.
  intros Ha Hv Hb. pose proof (Utrit_bound t) as Ht. pose proof (triple_spec acc extent v Ha ltac:(lia)) as Hs. unfold accumulate.
  destruct (triple_digits 0 (take extent acc)) as [low carry]. destruct Hs as (acc1 & extent1 & -> & [Hl Hd He Hv1 Hz]). cbn [mbind option_bind].
  destruct (add_digit_spec acc1 (Utrit_into_u8 t) Hd ltac:(lia) ltac:(lia)) as (acc2 & i & -> & Hd2 & Hl2 & Hi & Hdr & Hv2).
  { unfold len. rewrite Hl. change (B32 ^ Z.of_nat 12) with (2 ^ 384). lia. }
  cbn [mbind option_bind]. eexists _, _. split; [done|]. destruct (Nat.ltb_spec extent1 i); split; try done; try lia.
  - rewrite Hdr. replace i with (extent1 + (i - extent1))%nat by lia. rewrite <- drop_drop. by apply Forall_drop.
  - replace extent1 with (i + (extent1 - i))%nat by lia. rewrite <- drop_drop, Hdr, drop_drop. by replace (i + (extent1 - i))%nat with extent1 by lia.
Qed.

(** The integer of unbalanced trits, the lowest first. *)
Definition tval (ts : list Utrit) : Z := value 3 (Utrit_into_u8 <$> ts).

Lemma tval_digits ts : digits 3 (Utrit_into_u8 <$> ts).
Proof. apply Forall_fmap, Forall_forall. intros t _. exact (Utrit_bound t). Qed.

Lemma tval_bound ts : 0 <= tval ts < 3 ^ len ts.
Proof. pose proof (value_bound 3 _ ltac:(lia) (tval_digits ts)) as Hb. unfold len in *. by rewrite length_fmap in Hb. Qed.

Lemma tval_inj ts ts' : length ts = length ts' -> tval ts = tval ts' -> ts = ts'.
Proof.
  intros Hl Hv. assert (Hi : Utrit_into_u8 <$> ts = Utrit_into_u8 <$> ts').
  { apply (value_inj 3); [lia | apply tval_digits..| by rewrite !length_fmap | done]. }
  revert ts' Hl Hi Hv. induction ts as [|t ts IH]; intros [|t' ts'] Hl Hi _; try done. rewrite !fmap_cons in Hi. injection Hi as Ht Hi.
  assert (t = t') as -> by (by destruct t, t'). f_equal. apply IH; [cbn in Hl; lia | done | unfold tval; by rewrite Hi].
Qed.

Lemma tval_snoc ts t : tval (ts ++ [t]) = tval ts + 3 ^ len ts * Utrit_into_u8 t.
Proof. unfold tval. rewrite fmap_app, value_app. unfold len. rewrite length_fmap. cbn. lia. Qed.

Lemma accumulate_all_spec ts : forall acc extent v,
  accumulated acc extent v -> 0 <= v -> v * 3 ^ len ts + tval (reverse ts) < 2 ^ 384 ->
  exists acc' extent', accumulate_all (acc, extent) ts = Some (acc', extent') /\ accumulated acc' extent' (v * 3 ^ len ts + tval (reverse ts)).
Proof.
  induction ts as [|t ts IH]; intros acc extent v Ha Hv Hb.
  { exists acc, extent. split; [done|]. unfold len, tval in *. cbn [length reverse] in *. cbn. by rewrite Z.mul_1_r, Z.add_0_r. }
  cbn [accumulate_all]. rewrite reverse_cons, tval_snoc in *. unfold len in *. rewrite length_reverse in *. cbn [length] in *.
  rewrite Nat2Z.inj_succ, Z.pow_succ_r in * by lia. pose proof (Z.pow_pos_nonneg 3 (Z.of_nat (length ts)) ltac:(lia) ltac:(lia)) as Hp.
  pose proof (tval_bound (reverse ts)) as Ht. pose proof (Utrit_bound t) as Hu.
  destruct (accumulate_spec acc extent v t Ha Hv ltac:(nia)) as (acc1 & extent1 & -> & Ha1). cbn [mbind option_bind].
  destruct (IH acc1 extent1 (3 * v + Utrit_into_u8 t) Ha1 ltac:(lia) ltac:(lia)) as (acc2 & extent2 & -> & Ha2).
  exists acc2, extent2. split; [done|].
  replace (v * (3 * 3 ^ Z.of_nat (length ts)) + (tval (reverse ts) + 3 ^ Z.of_nat (length ts) * Utrit_into_u8 t))
    with ((3 * v + Utrit_into_u8 t) * 3 ^ Z.of_nat (length ts) + tval (reverse ts)) by ring. exact Ha2.
Qed.

Lemma skip_zeros_tval ts : tval (reverse (skip_zeros ts)) = tval (reverse ts).
Proof. induction ts as [|[] ts IH]; [done | | done..]. cbn [skip_zeros]. rewrite IH, reverse_cons, tval_snoc. cbn [Utrit_into_u8]. lia. Qed.

(** ** From words to trits *)

Lemma first_digit_zeros ds : forall i first, first_digit i first ds = first
  \/ (i <= first_digit i first ds)%nat /\ zeros (take (first_digit i first ds - i) ds).
Proof.
  induction ds as [|d ds IH]; intros i first; [by left|]. cbn [first_digit]. destruct (Z.eqb_spec d 0) as [->|Hd].
  - right. destruct (IH (S i) i) as [->|[Hi Hz]]; [split; [lia|]; rewrite Nat.sub_diag; constructor|]. split; [lia|].
    replace (first_digit (S i) i ds - i)%nat with (S (first_digit (S i) i ds - S i)) by lia. cbn [take]. by constructor.
  - right. split; [lia|]. rewrite Nat.sub_diag. constructor.
Qed.

Lemma drop_first_digit b ds : value b (reverse (drop (first_digit 0 0 ds) ds)) = value b (reverse ds).
Proof.
  destruct (first_digit_zeros ds 0 0) as [->|[_ Hz]]; [done|]. rewrite Nat.sub_0_r in Hz.
  rewrite <- (take_drop (first_digit 0 0 ds) ds) at 3. rewrite reverse_app, value_app, (value_zeros b (reverse (take _ _))); [lia|].
  by apply Forall_reverse.
Qed.

Lemma lor_shift rem d : 0 <= rem -> fits 32 d -> Z.lor (Z.shiftl rem 32) d = rem * B32 + d.
Proof.
  intros Hr Hd. rewrite <- Z.add_nocarry_lor; [by rewrite Z.shiftl_mul_pow2 by lia|]. apply Z.bits_inj'. intros n Hn. rewrite Z.land_spec, Z.bits_0.
  destruct (decide (n < 32)); [by rewrite Z.shiftl_spec_low|]. rewrite <- (as_u_id 32 d Hd). unfold as_u.
  rewrite Z.mod_pow2_bits_high by lia. apply andb_false_r.
Qed.

Lemma divide_digits_spec ds : forall rem, digits B32 ds -> 0 <= rem < 3 ->
  let '(out, r) := divide_digits rem ds in
  digits B32 out /\ length out = length ds /\ 0 <= r < 3 /\ rem * B32 ^ len ds + value B32 (reverse ds) = 3 * value B32 (reverse out) + r.
Proof.
  intros rem Hd. revert rem. induction Hd as [|d ds Hd _ IH]; intros rem Hr; cbn [divide_digits].
  { split_and!; [constructor | done | lia | lia|]. unfold len. cbn. lia. }
  cbn beta in Hd. rewrite lor_shift by (unfold fits; lia). set (x := rem * B32 + d). assert (Hx : 0 <= x < 3 * B32) by lia.
  pose proof (Z.mod_pos_bound x 3 ltac:(lia)) as Hm. pose proof (Z.div_mod x 3 ltac:(lia)) as Hdm.
  assert (Hq : 0 <= x / 3 < B32) by (split; [apply Z.div_pos; lia | apply Z.div_lt_upper_bound; lia]).
  unfold as_u. rewrite (Z.mod_small (x mod 3)), (Z.mod_small (x / 3)) by lia. specialize (IH (x mod 3) Hm).
  destruct (divide_digits (x mod 3) ds) as [out r]. destruct IH as (Ho & Hl & Hr' & Hv).
  split_and!; [by constructor | cbn; lia | lia | lia|]. rewrite !reverse_cons, !value_snoc. unfold len in *. rewrite !length_reverse, Hl. cbn [length].
  rewrite Nat2Z.inj_succ, Z.pow_succ_r by lia. subst x. nia.
Qed.

Lemma u384_trits_spec n : forall ds, digits B32 ds -> length (u384_trits n ds) = n /\ tval (u384_trits n ds) = value B32 (reverse ds) mod 3 ^ Z.of_nat n.
Proof.
  induction n as [|n IH]; intros ds Hd. { cbn. by rewrite Z.mod_1_r. }
  cbn [u384_trits]. rewrite <- (drop_first_digit B32 ds). set (ds1 := drop _ ds). assert (Hd1 : digits B32 ds1) by (by apply Forall_drop).
  pose proof (divide_digits_spec ds1 0 Hd1 ltac:(lia)) as Hv. destruct (divide_digits 0 ds1) as [out r]. destruct Hv as (Ho & Hl & Hr & Hv).
  destruct (IH out Ho) as [Hlt Hvt]. split; [cbn; lia|]. rewrite Z.mul_0_l, Z.add_0_l in Hv. rewrite Hv.
  unfold tval in *. rewrite fmap_cons. cbn [value]. rewrite Hvt, Nat2Z.inj_succ, Z.pow_succ_r by lia.
  assert (Hu : Utrit_into_u8 (utrit_of_rem r) = r) by (assert (r = 0 \/ r = 1 \/ r = 2) as [->|[->| ->]] by lia; done). rewrite Hu.
  pose proof (Z.pow_pos_nonneg 3 (Z.of_nat n) ltac:(lia) ltac:(lia)) as Hp. set (v := value B32 (reverse out)).
  pose proof (Z.div_mod v (3 ^ Z.of_nat n) ltac:(lia)). pose proof (Z.mod_pos_bound v (3 ^ Z.of_nat n) ltac:(lia)).
  apply (Z.mod_unique_pos _ _ (v / 3 ^ Z.of_nat n)); nia.
Qed.

Lemma pow_bounds : 3 ^ 242 < 2 ^ 384 < 3 ^ 243 /\ 3 ^ 242 < 2 * 2 ^ 383.
Proof. repeat split. Qed.

Lemma T243_from_u384_spec ds : digits B32 ds -> length ds = 12%nat ->
  length (T243_from_u384_LE ds) = 243%nat /\ tval (T243_from_u384_LE ds) = value B32 ds.
Proof.
  intros Hd Hl. unfold T243_from_u384_LE, T243_from_u384_BE. destruct (u384_trits_spec 243 (reverse ds) (digits_reverse _ _ Hd)) as [Hn Hv].
  split; [done|]. rewrite Hv, reverse_involutive. apply Z.mod_small. pose proof (value_bound B32 ds ltac:(lia) Hd) as Hb. unfold len in Hb.
  rewrite Hl in Hb. change (B32 ^ Z.of_nat 12) with (2 ^ 384) in Hb. change (Z.of_nat 243) with 243. pose proof pow_bounds. lia.
Qed.

Lemma T243_cmp_spec ts ts' : length ts = length ts' -> T243_cmp ts ts' = Z.compare (tval ts) (tval ts').
Proof.
  intros Hl. unfold T243_cmp, tval.
  assert (Hc : forall l l', length l = length l' -> cmp_digits Utrit_cmp l l' = cmp_digits Z.compare (Utrit_into_u8 <$> l) (Utrit_into_u8 <$> l')).
  { intros l. induction l as [|t l IH]; intros [|t' l'] Hll; try done. rewrite !fmap_cons. cbn [cmp_digits]. by rewrite IH by (cbn in Hll; lia). }
  rewrite Hc by (by rewrite !length_reverse). rewrite !fmap_reverse.
  rewrite (cmp_digits_value 3), !reverse_involutive; [done | lia | apply digits_reverse, tval_digits..| by rewrite !length_reverse, !length_fmap].
Qed.

Lemma U384_max_value : value B32 U384_LE_max = 2 ^ 384 - 1 /\ digits B32 U384_LE_max.
Proof. split; [apply (value_repeat_max B32 12) | apply digits_repeat; lia]. Qed.

(** The unsigned conversion succeeds exactly if the number has 384 bits, and keeps it. *)
Lemma U384_LE_try_from_t243_spec ts : length ts = 243%nat ->
  if tval ts <? 2 ^ 384
  then exists ds, U384_LE_try_from_t243 ts = Some (Ok ds) /\ digits B32 ds /\ length ds = 12%nat /\ value B32 ds = tval ts
  else U384_LE_try_from_t243 ts = Some (Err TernaryExceedsBinaryRange).
Proof.
  intros Hl. destruct U384_max_value as [Hm Hmd]. destruct (T243_from_u384_spec U384_LE_max Hmd eq_refl) as [Hln Hvm].
  fold UTRIT_U384_MAX in Hln, Hvm. unfold U384_LE_try_from_t243. rewrite T243_cmp_spec by lia. rewrite Hvm, Hm.
  destruct (Z.ltb_spec (tval ts) (2 ^ 384)) as [Hlt|Hge]; [|by rewrite (proj2 (Z.compare_gt_iff _ _)) by lia].
  destruct (accumulate_all_spec (skip_zeros (reverse ts)) U384_LE_zero 1 0) as (acc & extent & Ha & [G1 G2 _ G3 _]).
  - split; [done | apply digits_repeat; lia | lia | apply value_repeat_zero | apply Forall_drop, Forall_forall; by intros x Hx%list_elem_of_In%repeat_spec].
  - lia.
  - rewrite skip_zeros_tval, reverse_involutive. lia.
  - rewrite skip_zeros_tval, reverse_involutive, Z.mul_0_l, Z.add_0_l in G3. exists acc. rewrite Ha. cbn [mbind option_bind].
    destruct (Z.compare_spec (tval ts) (2 ^ 384 - 1)); [| |lia]; (split; [reflexivity|]; split; [exact G2|]; split; [exact G1 | exact G3]).
Qed.

(** ** Signed integers *)

(** The largest integer of 242 balanced trits. *)
Definition half : Z := value 3 (repeat 1 242).

Lemma value_ones n : 2 * value 3 (repeat 1 n) + 1 = 3 ^ Z.of_nat n.
Proof. induction n as [|n IH]; [done|]. cbn [repeat value]. rewrite Nat2Z.inj_succ, Z.pow_succ_r by lia. lia. Qed.

Lemma half_pow : 2 * half + 1 = 3 ^ 242.
Proof. exact (value_ones 242). Qed.

Lemma half_bounds : 2 ^ 352 < half < 2 ^ 383 /\ 2 ^ 384 - 2 ^ 383 < 3 ^ 242 /\ 2 ^ 383 < 3 ^ 242 + half /\ 3 ^ 242 + 2 ^ 352 < 2 ^ 384.
Proof.
  assert (2 ^ 353 + 1 < 3 ^ 242 < 2 ^ 384 /\ 2 ^ 384 - 2 ^ 383 < 3 ^ 242 /\ 2 * 2 ^ 383 < 3 * 3 ^ 242 - 1 /\ 3 ^ 242 + 2 ^ 352 < 2 ^ 384)
    by (repeat split; vm_compute; reflexivity).
  pose proof half_pow. assert (2 ^ 353 = 2 * 2 ^ 352) by reflexivity. assert (2 ^ 384 = 2 * 2 ^ 383) by reflexivity. lia.
Qed.

#[local] Opaque half.

(** Balanced trits. *)
Definition bval (ts : list Btrit) : Z := value 3 (Btrit_into_i8 <$> ts).

Lemma bval_shift ts : tval (Btrit_shift <$> ts) = bval ts + value 3 (repeat 1 (length ts)).
Proof.
  unfold tval, bval. induction ts as [|t ts IH]; [done|]. rewrite !fmap_cons. cbn [value length repeat]. rewrite IH. destruct t; cbn [Btrit_shift Utrit_into_u8 Btrit_into_i8]; lia.
Qed.

Lemma shift_shift (ts : list Btrit) : Utrit_shift <$> (Btrit_shift <$> ts) = ts.
Proof. induction ts as [|[] ts IH]; [done|..]; rewrite !fmap_cons, IH; done. Qed.
Lemma shift_shift' (ts : list Utrit) : Btrit_shift <$> (Utrit_shift <$> ts) = ts.
Proof. induction ts as [|[] ts IH]; [done|..]; rewrite !fmap_cons, IH; done. Qed.

Lemma bval_242 ts : length ts = 242%nat -> tval (Btrit_shift <$> ts) = bval ts + half /\ - half <= bval ts <= half.
Proof.
  intros Hl. pose proof (bval_shift ts) as Hs. rewrite Hl in Hs. change (value 3 (repeat 1 242)) with half in Hs. split; [done|].
  pose proof (tval_bound (Btrit_shift <$> ts)) as Hb. unfold len in Hb. rewrite length_fmap, Hl in Hb. change (Z.of_nat 242) with 242 in Hb.
  pose proof half_pow. lia.
Qed.

(** Twelve words that hold an unsigned integer. *)
Record words (ds : list Z) (v : Z) : Prop := { wo_digits : digits B32 ds; wo_length : length ds = 12%nat; wo_value : value B32 ds = v }.

Lemma words_bound ds v : words ds v -> 0 <= v < 2 ^ 384.
Proof. intros [Hd Hl <-]. pose proof (value_bound B32 ds ltac:(lia) Hd) as Hb. unfold len in Hb. rewrite Hl in Hb. exact Hb. Qed.

Lemma words_add ds v ds' v' : words ds v -> words ds' v' -> words (add_digits false ds ds') ((v + v') mod 2 ^ 384).
Proof. intros [Hd Hl <-] [Hd' Hl' <-]. destruct (add_inplace_spec ds ds' Hd Hd' Hl Hl') as (? & ? & ?). by split. Qed.

Lemma words_sub ds v ds' v' : words ds v -> words ds' v' -> words (sub_digits true ds ds') ((v - v') mod 2 ^ 384).
Proof. intros [Hd Hl <-] [Hd' Hl' <-]. destruct (sub_inplace_spec ds ds' Hd Hd' Hl Hl') as (? & ? & ?). by split. Qed.

Lemma from_t243_words ts : length ts = 243%nat -> tval ts < 2 ^ 384 -> exists ds, U384_LE_try_from_t243 ts = Some (Ok ds) /\ words ds (tval ts).
Proof.
  intros Hl Hv. pose proof (U384_LE_try_from_t243_spec ts Hl) as Hs. rewrite (proj2 (Z.ltb_lt _ _) Hv) in Hs.
  destruct Hs as (ds & Hs & Hd & Hn & Hval). exists ds. split; [exact Hs | by split].
Qed.

Lemma tval_pad ts : tval (T242_into_t243 UZero ts) = tval ts.
Proof. unfold T242_into_t243. rewrite tval_snoc. cbn [Utrit_into_u8]. lia. Qed.

Lemma from_t242_words ts : length ts = 242%nat -> exists ds, U384_LE_from_t242 ts = Some ds /\ words ds (tval ts).
Proof.
  intros Hl. pose proof (tval_bound ts) as Hb. unfold len in Hb. rewrite Hl in Hb. change (Z.of_nat 242) with 242 in Hb. pose proof pow_bounds.
  destruct (from_t243_words (T242_into_t243 UZero ts)) as (ds & Hs & Hw).
  - unfold T242_into_t243. rewrite length_app, Hl. reflexivity.
  - rewrite tval_pad. lia.
  - exists ds. unfold U384_LE_from_t242. rewrite Hs. rewrite tval_pad in Hw. by split.
Qed.

Lemma fmap_repeat {A A'} (f : A -> A') a n : f <$> repeat a n = repeat (f a) n.
Proof. induction n as [|n IH]; [done|]. cbn [repeat]. by rewrite fmap_cons, IH. Qed.

Lemma half_words : exists ds, LE_U32_HALF_MAX_T242 = Some ds /\ words ds half.
Proof.
  destruct (from_t242_words T242_half_max (repeat_length _ _)) as (ds & Hs & Hw). exists ds. split; [exact Hs|].
  unfold tval, T242_half_max in Hw. rewrite fmap_repeat in Hw. exact Hw.
Qed.

Lemma max_words : exists ds, LE_U32_MAX_T242 = Some ds /\ words ds (2 * half).
Proof.
  destruct (from_t242_words T242_max (repeat_length _ _)) as (ds & Hs & Hw). exists ds. split; [exact Hs|].
  unfold tval, T242_max in Hw. rewrite fmap_repeat in Hw. change (Utrit_into_u8 UTwo) with (3 - 1) in Hw. rewrite value_repeat_max in Hw.
  replace (2 * half) with (3 ^ Z.of_nat 242 - 1); [exact Hw|]. change (Z.of_nat 242) with 242. pose proof half_pow. lia.
Qed.

Lemma neg_half_words : exists ds, LE_U32_NEG_HALF_MAX_T242 = Some ds /\ words ds (2 ^ 384 - half).
Proof.
  destruct half_words as (ds & Hs & Hw). unfold LE_U32_NEG_HALF_MAX_T242. rewrite Hs. cbn [mbind option_bind]. eexists. split; [reflexivity|].
  replace (2 ^ 384 - half) with ((0 - half) mod 2 ^ 384); [apply words_sub; [|exact Hw] | symmetry; apply (Z.mod_unique_pos _ _ (-1)); pose proof half_bounds; lia].
  split; [apply digits_repeat; lia | reflexivity | apply value_repeat_zero].
Qed.

Lemma only_words : exists ds, LE_U32_ONLY_T243_OCCUPIED = Some ds /\ words ds (3 ^ 242).
Proof.
  assert (Ht : <[242%nat := UOne]> T243_zero = repeat UZero 242 ++ [UOne]) by reflexivity.
  assert (Hv : tval (repeat UZero 242 ++ [UOne]) = 3 ^ 242).
  { rewrite tval_snoc. unfold tval, len. rewrite fmap_repeat, value_repeat_zero, repeat_length. cbn [Utrit_into_u8]. lia. }
  destruct (from_t243_words (repeat UZero 242 ++ [UOne])) as (ds & Hs & Hw).
  - by rewrite length_app, repeat_length.
  - rewrite Hv. pose proof pow_bounds. lia.
  - exists ds. unfold LE_U32_ONLY_T243_OCCUPIED. rewrite Ht, Hs. rewrite Hv in Hw. by split.
Qed.

#[local] Opaque LE_U32_HALF_MAX_T242 LE_U32_MAX_T242 LE_U32_NEG_HALF_MAX_T242 LE_U32_ONLY_T243_OCCUPIED U384_LE_try_from_t243.

(** The integer in two's complement. *)
Definition sval (u : Z) : Z := if u <? 2 ^ 383 then u else u - 2 ^ 384.

Lemma sval_mod v : - 2 ^ 383 <= v < 2 ^ 383 -> sval (v mod 2 ^ 384) = v.
Proof.
  intros Hv. unfold sval. destruct (Z.leb_spec 0 v).
  - rewrite Z.mod_small by lia. by rewrite (proj2 (Z.ltb_lt _ _)) by lia.
  - replace (v mod 2 ^ 384) with (v + 2 ^ 384) by (apply (Z.mod_unique_pos _ _ (-1)); lia).
    rewrite (proj2 (Z.ltb_ge _ _)) by lia. lia.
Qed.

(** The highest word. *)
Definition top (u : Z) : Z := u / 2 ^ 352.

Lemma words_top ds v : words ds v -> exists lo t, ds = lo ++ [t] /\ digits B32 lo /\ length lo = 11%nat /\ t = top v /\ v = value B32 lo + 2 ^ 352 * t
  /\ 0 <= value B32 lo < 2 ^ 352.
Proof.
  intros [Hd Hl <-]. destruct (exists_last (l := ds)) as (lo & t & ->); [by intros ->|]. apply Forall_app in Hd as [Hlo Ht].
  rewrite length_app in Hl. cbn in Hl. assert (Hn : length lo = 11%nat) by lia. exists lo, t. pose proof (value_bound B32 lo ltac:(lia) Hlo) as Hb.
  rewrite value_snoc. unfold len in *. rewrite Hn in *. change (B32 ^ Z.of_nat 11) with (2 ^ 352) in *.
  split_and!; try done; try lia. unfold top. rewrite (Z.mul_comm (2 ^ 352)), Z.div_add by lia. rewrite Z.div_small by lia. lia.
Qed.

(** The comparison is that of the integers, unless both are negative and have the same highest word: then it is
    reversed. *)
Lemma I384_LE_cmp_spec a u b w : words a u -> words b w ->
  I384_LE_cmp a b = if (2 ^ 383 <=? u) && (top u =? top w) then Z.compare w u else Z.compare (sval u) (sval w).
Proof.
  intros Ha Hb. pose proof (words_bound _ _ Ha). pose proof (words_bound _ _ Hb). destruct (words_top a u Ha) as (la & s & -> & Hla & Lla & Hs & Hu & Bu). destruct (words_top b w Hb) as (lb & o & -> & Hlb & Llb & Ho & Hw & Bw).
  unfold I384_LE_cmp. rewrite !reverse_app. cbn [reverse app]. unfold reverse at 1 3. cbn [rev_append app cmp_signed].
  rewrite (cmp_digits_value B32), !reverse_involutive by (lia || (by apply digits_reverse) || (rewrite !length_reverse; lia)).
  rewrite <- Hs, <- Ho. set (x := value B32 la) in *. set (y := value B32 lb) in *. clearbody x y.
  assert (E1 : (2 ^ 31 <=? s) = (2 ^ 383 <=? u)) by (apply Bool.eq_iff_eq_true; rewrite !Z.leb_le; lia).
  assert (E2 : (2 ^ 31 <=? o) = (2 ^ 383 <=? w)) by (apply Bool.eq_iff_eq_true; rewrite !Z.leb_le; lia).
  rewrite E1, E2. unfold sval. rewrite !Z.ltb_antisym. clear E1 E2 Hs Ho Ha Hb Hla Hlb.
  assert (Hs : s = o -> (x ?= y) = (u ?= w)) by (intros ->; rewrite Hu, Hw, !(Z.add_comm _ (2 ^ 352 * o)); symmetry; apply Z.add_compare_mono_l).
  assert (Hop : (w ?= u) = CompOpp (u ?= w)) by apply Z.compare_antisym. rewrite Hop. clear Hop.
  destruct (Z.leb_spec (2 ^ 383) u), (Z.leb_spec (2 ^ 383) w), (Z.leb_spec s o), (Z.leb_spec o s), (Z.eqb_spec s o); cbn [andb negb]; try lia;
    try (rewrite Hs by done); try (symmetry; first [apply Z.compare_lt_iff | apply Z.compare_gt_iff]; lia).
  all: destruct (u ?= w) eqn:E; cbn; try done.
Qed.

(** The highest word of the smallest integer of 242 trits. *)
Definition in_band (u : Z) : Prop := top u = top (2 ^ 384 - half).
#[export] Instance in_band_dec u : Decision (in_band u).
Proof. unfold in_band. apply _. Defined.

Lemma in_band_bounds u : 0 <= u < 2 ^ 384 -> in_band u -> 2 ^ 383 <= u /\ - half - 2 ^ 352 < sval u < - half + 2 ^ 352.
Proof.
  intros Hu Hb. unfold in_band, top in Hb. pose proof half_bounds. pose proof (Z.div_mod u (2 ^ 352) ltac:(lia)). pose proof (Z.mod_pos_bound u (2 ^ 352) ltac:(lia)).
  pose proof (Z.div_mod (2 ^ 384 - half) (2 ^ 352) ltac:(lia)). pose proof (Z.mod_pos_bound (2 ^ 384 - half) (2 ^ 352) ltac:(lia)).
  assert (2 ^ 31 <= (2 ^ 384 - half) / 2 ^ 352) by (apply Z.div_le_lower_bound; lia).
  assert (2 ^ 383 <= u) by lia. split; [done|]. unfold sval. rewrite (proj2 (Z.ltb_ge _ _)) by lia. lia.
Qed.

(** What [zero_most_significant_trit] adds. *)
Definition mst_shift (u : Z) : Z :=
  if half <? sval u then - 3 ^ 242
  else if decide (in_band u) then (if - half <? sval u then 3 ^ 242 else 0)
  else if sval u <? - half then 3 ^ 242 else 0.

Lemma zero_mst_words ds u : words ds u -> exists ds', zero_most_significant_trit ds = Some ds' /\ words ds' ((u + mst_shift u) mod 2 ^ 384).
Proof.
  intros Hw. unfold zero_most_significant_trit. destruct half_words as (h & -> & Hh), neg_half_words as (n & -> & Hn), only_words as (o & -> & Ho).
  cbn [mbind option_bind]. eexists. split; [reflexivity|]. pose proof (words_bound _ _ Hw) as Hu. pose proof half_bounds.
  rewrite (I384_LE_cmp_spec ds u h half), (I384_LE_cmp_spec ds u n (2 ^ 384 - half)) by done.
  assert (E1 : (2 ^ 383 <=? u) && (top u =? top half) = false).
  { destruct (Z.leb_spec (2 ^ 383) u) as [Hle|]; [|done]. apply Z.eqb_neq. unfold top.
    assert (2 ^ 31 <= u / 2 ^ 352) by (apply Z.div_le_lower_bound; lia). assert (half / 2 ^ 352 < 2 ^ 31) by (apply Z.div_lt_upper_bound; lia). lia. }
  assert (E2 : (2 ^ 383 <=? u) && (top u =? top (2 ^ 384 - half)) = bool_decide (in_band u)).
  { case_bool_decide as Hb; unfold in_band in Hb; [|by rewrite (proj2 (Z.eqb_neq _ _) Hb), andb_false_r].
    rewrite Hb, Z.eqb_refl, andb_true_r. apply Z.leb_le. by apply in_band_bounds. }
  assert (E3 : sval half = half) by (unfold sval; by rewrite (proj2 (Z.ltb_lt _ _)) by lia).
  assert (E4 : sval (2 ^ 384 - half) = - half) by (unfold sval; rewrite (proj2 (Z.ltb_ge _ _)) by lia; lia).
  assert (Hid : words ds ((u + 0) mod 2 ^ 384)) by (rewrite Z.add_0_r, Z.mod_small by lia; exact Hw).
  pose proof (words_add _ _ _ _ Hw Ho) as Ha. pose proof (words_sub _ _ _ _ Hw Ho) as Hs.
  rewrite E1, E2, E3, E4. unfold mst_shift. destruct (Z.compare_spec (sval u) half), (Z.ltb_spec half (sval u)); try lia; try exact Hs.
  all: destruct (decide (in_band u)) as [Hb|Hb]; [rewrite (bool_decide_eq_true_2 _ Hb) | rewrite (bool_decide_eq_false_2 _ Hb)].
  2, 4: destruct (Z.compare_spec (sval u) (- half)), (Z.ltb_spec (sval u) (- half)); first [lia | exact Ha | exact Hid].
  all: destruct (in_band_bounds u Hu Hb) as [Hn' _]; assert (Hsv : sval u = u - 2 ^ 384) by (unfold sval; by rewrite (proj2 (Z.ltb_ge _ _)) by lia).
  all: destruct (Z.compare_spec (2 ^ 384 - half) u), (Z.ltb_spec (- half) (sval u)); first [lia | exact Ha | exact Hid].
Qed.

(** The lowest 242 trits. *)
Lemma tval_removelast ts : length ts = 243%nat -> tval (removelast ts) = tval ts mod 3 ^ 242 /\ length (removelast ts) = 242%nat.
Proof.
  intros Hl. destruct (exists_last (l := ts)) as (lo & t & ->); [by intros ->|]. rewrite removelast_last. rewrite length_app in Hl. cbn in Hl.
  assert (Hn : length lo = 242%nat) by lia. split; [|done]. pose proof (tval_bound lo) as Hb. rewrite tval_snoc. unfold len in *. rewrite Hn in *.
  change (Z.of_nat 242) with 242 in *. rewrite Z.mul_comm, Z.mod_add by lia. symmetry. by apply Z.mod_small.
Qed.

Lemma fmap_removelast {A A'} (f : A -> A') l : f <$> removelast l = removelast (f <$> l).
Proof. induction l as [|a [|a' l] IH]; [done | done|]. cbn [removelast]. rewrite !fmap_cons in *. cbn [removelast] in *. by rewrite IH. Qed.

(** The remainder modulo [3 ^ 242] of the smallest absolute value. *)
Definition balanced (v : Z) : Z := (v + half) mod 3 ^ 242 - half.

Lemma balanced_id v : - half <= v <= half -> balanced v = v.
Proof. intros Hv. unfold balanced. pose proof half_pow. rewrite Z.mod_small; lia. Qed.

Lemma balanced_shift v k : balanced (v + k * 3 ^ 242) = balanced v.
Proof. unfold balanced. replace (v + k * 3 ^ 242 + half) with (v + half + k * 3 ^ 242) by ring. by rewrite Z.mod_add by lia. Qed.

(** The trits of an unsigned integer, with the highest one dropped. *)
Lemma trits_of_words ds u :
  words ds u -> let ts := T243_into_t242 (Utrit_shift <$> T243_from_u384_LE ds) in length ts = 242%nat /\ bval ts = balanced (u - half).
Proof.
  intros [Hd Hl Hv] ts. destruct (T243_from_u384_spec ds Hd Hl) as [Hn Ht]. destruct (tval_removelast _ Hn) as [Hr Hrl].
  assert (Hts : Btrit_shift <$> ts = removelast (T243_from_u384_LE ds)) by (unfold ts, T243_into_t242; by rewrite fmap_removelast, shift_shift').
  assert (Hlen : length ts = 242%nat) by (rewrite <- (length_fmap Btrit_shift), Hts; exact Hrl). split; [exact Hlen|].
  destruct (bval_242 ts Hlen) as [Hb _]. rewrite Hts, Hr, Ht, Hv in Hb. unfold balanced. replace (u - half + half) with u by ring. lia.
Qed.

(** What the conversion of a hash reads. *)
Definition read_value (u : Z) : Z := if decide (in_band u /\ sval u < - half) then sval u + 2 ^ 384 else sval u.

Lemma mst_shift_value u : 0 <= u < 2 ^ 384 ->
  balanced (((u + mst_shift u) mod 2 ^ 384 + half) mod 2 ^ 384 - half) = balanced (read_value u).
Proof.
  intros Hu. pose proof half_bounds as Hhb. pose proof half_pow as Hhp. assert (Hs : - 2 ^ 383 <= sval u < 2 ^ 383 /\ exists k, u = sval u + k * 2 ^ 384).
  { unfold sval. destruct (Z.ltb_spec u (2 ^ 383)); (split; [lia|]); [exists 0 | exists 1]; lia. }
  destruct Hs as [Hs [k Hk]]. rewrite Zplus_mod_idemp_l.
  assert (Hm : forall v, 0 <= v + half < 2 ^ 384 -> (exists j, v = u + mst_shift u + j * 2 ^ 384) -> (exists i, v = read_value u + i * 3 ^ 242) ->
    balanced ((u + mst_shift u + half) mod 2 ^ 384 - half) = balanced (read_value u)).
  { intros v Hv [j ->] [i Hi]. replace ((u + mst_shift u + half) mod 2 ^ 384) with (u + mst_shift u + j * 2 ^ 384 + half).
    - rewrite <- (balanced_shift (read_value u) i), <- Hi. f_equal. ring.
    - apply (Z.mod_unique_pos _ _ (- j)); lia. }
  unfold mst_shift, read_value in *. destruct (Z.ltb_spec half (sval u)).
  { destruct (decide (in_band u /\ sval u < - half)); [lia|]. apply (Hm (sval u - 3 ^ 242)); [lia | exists (- k); lia | exists (-1); lia]. }
  destruct (decide (in_band u)) as [Hb|Hb].
  - destruct (in_band_bounds u Hu Hb) as [_ Hbb]. destruct (Z.ltb_spec (- half) (sval u)).
    + destruct (decide (in_band u /\ sval u < - half)); [lia|]. apply (Hm (sval u + 3 ^ 242)); [lia | exists (- k); lia | exists 1; lia].
    + destruct (decide (in_band u /\ sval u < - half)) as [[_ Hlt]|Hn].
      * apply (Hm (sval u + 2 ^ 384)); [lia | exists (1 - k); lia | exists 0; lia].
      * assert (~ sval u < - half) by (intros Hx; exact (Hn (conj Hb Hx))). apply (Hm (sval u)); [lia | exists (- k); lia | exists 0; lia].
  - destruct (decide (in_band u /\ sval u < - half)) as [[Hb' _]|_]; [destruct (Hb Hb')|]. destruct (Z.ltb_spec (sval u) (- half)).
    + apply (Hm (sval u + 3 ^ 242)); [lia | exists (- k); lia | exists 1; lia].
    + apply (Hm (sval u)); [lia | exists (- k); lia | exists 0; lia].
Qed.

(** ** Bytes *)

(** The word of four bytes, the lowest first. *)
Lemma u32_le_bytes_word b0 b1 b2 b3 : fits 8 b0 -> fits 8 b1 -> fits 8 b2 -> fits 8 b3 ->
  let d := value (2 ^ 8) [b0; b1; b2; b3] in fits 32 d /\ u32_le_bytes d = [b0; b1; b2; b3].
Proof.
  intros G0 G1 G2 G3. cbn [value]. unfold u32_le_bytes, fits in *. cbn [fmap list_fmap]. split; [lia|].
  assert (Hq : forall k r x, 0 <= k -> 0 <= r < 2 ^ k -> Z.shiftr (r + 2 ^ k * x) k = x).
  { intros k r x Hk Hr. rewrite Z.shiftr_div_pow2 by done. rewrite (Z.mul_comm (2 ^ k)), Z.div_add, Z.div_small by lia. lia. }
  assert (Hm : forall r x, 0 <= r < 2 ^ 8 -> as_u 8 (r + 2 ^ 8 * x) = r).
  { intros r x Hr. unfold as_u. rewrite (Z.mul_comm (2 ^ 8)), Z.mod_add by lia. by apply Z.mod_small. }
  f_equal; [|f_equal; [|f_equal; [|f_equal]]].
  - rewrite Z.mul_0_r, Z.shiftr_0_r. by apply Hm.
  - rewrite Z.mul_1_r, Hq by lia. by apply Hm.
  - change (8 * 2) with 16. replace (b0 + 2 ^ 8 * (b1 + 2 ^ 8 * (b2 + 2 ^ 8 * (b3 + 2 ^ 8 * 0)))) with (b0 + 2 ^ 8 * b1 + 2 ^ 16 * (b2 + 2 ^ 8 * b3)) by lia.
    rewrite Hq by lia. by apply Hm.
  - change (8 * 3) with 24. replace (b0 + 2 ^ 8 * (b1 + 2 ^ 8 * (b2 + 2 ^ 8 * (b3 + 2 ^ 8 * 0)))) with (b0 + 2 ^ 8 * b1 + 2 ^ 16 * b2 + 2 ^ 24 * b3) by lia.
    rewrite Hq by lia. unfold as_u. by apply Z.mod_small.
Qed.

Lemma mjoin_cons {A} (l : list A) (ls : list (list A)) : mjoin (l :: ls) = l ++ mjoin ls.
Proof. reflexivity. Qed.

(** Bytes are those of words with the same value. *)
Lemma words_of_bytes n : forall bs, digits (2 ^ 8) bs -> length bs = (4 * n)%nat ->
  exists ws, digits B32 ws /\ length ws = n /\ bs = mjoin (u32_le_bytes <$> ws) /\ value B32 ws = value (2 ^ 8) bs.
Proof.
  induction n as [|n IH]; intros bs Hb Hl.
  { destruct bs; [|cbn in Hl; lia]. exists []. split_and!; [constructor | reflexivity..]. }
  destruct bs as [|b0 [|b1 [|b2 [|b3 bs]]]]; cbn [length] in Hl; try lia.
  apply Forall_cons in Hb as [G0 Hb], Hb as [G1 Hb], Hb as [G2 Hb], Hb as [G3 Hb].
  destruct (IH bs Hb ltac:(lia)) as (ws & Hd & Hn & -> & Hv). destruct (u32_le_bytes_word b0 b1 b2 b3 G0 G1 G2 G3) as [Hf Hw].
  set (d := value (2 ^ 8) [b0; b1; b2; b3]) in *. exists (d :: ws). split_and!; [by constructor | by cbn; f_equal | by rewrite fmap_cons, mjoin_cons, Hw|].
  cbn [value] in *. rewrite Hv. subst d. cbn [value]. change B32 with (2 ^ 8 * (2 ^ 8 * (2 ^ 8 * 2 ^ 8))). ring.
Qed.

Lemma u32_le_bytes_value d : fits 32 d -> value (2 ^ 8) (u32_le_bytes d) = d /\ digits (2 ^ 8) (u32_le_bytes d).
Proof.
  intros Hd. split; [|apply Forall_fmap, Forall_forall; intros k _; by apply as_u_fits].
  unfold u32_le_bytes, as_u, fits in *. cbn [fmap list_fmap value]. rewrite !Z.shiftr_div_pow2 by lia. change (8 * 0) with 0. change (8 * 1) with 8.
  change (8 * 2) with 16. change (8 * 3) with 24. rewrite Z.pow_0_r, Z.div_1_r.
  assert (E1 : d / 2 ^ 16 = d / 2 ^ 8 / 2 ^ 8) by (by rewrite Z.div_div by lia).
  assert (E2 : d / 2 ^ 24 = d / 2 ^ 8 / 2 ^ 8 / 2 ^ 8) by (by rewrite !Z.div_div by lia).
  rewrite E1, E2. set (x := d / 2 ^ 8). set (y := x / 2 ^ 8). set (z := y / 2 ^ 8).
  pose proof (Z.div_mod d (2 ^ 8) ltac:(lia)) as D1. pose proof (Z.div_mod x (2 ^ 8) ltac:(lia)) as D2. pose proof (Z.div_mod y (2 ^ 8) ltac:(lia)) as D3.
  fold x in D1. fold y in D2. fold z in D3. pose proof (Z.mod_pos_bound d (2 ^ 8) ltac:(lia)). pose proof (Z.mod_pos_bound x (2 ^ 8) ltac:(lia)).
  pose proof (Z.mod_pos_bound y (2 ^ 8) ltac:(lia)). rewrite (Z.mod_small z) by lia. lia.
Qed.

Lemma bytes_of_words ws : digits B32 ws ->
  digits (2 ^ 8) (mjoin (u32_le_bytes <$> ws)) /\ length (mjoin (u32_le_bytes <$> ws)) = (4 * length ws)%nat
  /\ value (2 ^ 8) (mjoin (u32_le_bytes <$> ws)) = value B32 ws.
Proof.
  induction 1 as [|d ws Hd _ (G1 & G2 & G3)]; [split_and!; [constructor | reflexivity..]|]. destruct (u32_le_bytes_value d Hd) as [Hv Hb].
  rewrite fmap_cons, mjoin_cons.
  split_and!; [by apply Forall_app | rewrite length_app, G2; cbn; lia|]. rewrite value_app, Hv, G3. reflexivity.
Qed.

Lemma reverse_mjoin {A} (ls : list (list A)) : mjoin ((fun l => reverse l) <$> reverse ls) = reverse (mjoin ls).
Proof.
  induction ls as [|l ls IH]; [done|]. rewrite reverse_cons, fmap_app, join_app, IH, fmap_cons, !mjoin_cons, reverse_app. cbn. by rewrite app_nil_r.
Qed.

(** Forty-eight bytes, the highest first, that hold an unsigned integer. *)
Record be_bytes (bs : list Z) (v : Z) : Prop := { bb_digits : digits (2 ^ 8) bs; bb_length : length bs = 48%nat; bb_value : value (2 ^ 8) (reverse bs) = v }.

Section conversions.
Context `{ByteOrderOk}.

Lemma write_words ds v : words ds v -> be_bytes (be_write_u32_into (reverse ds)) v /\ le_read_u32_into (reverse (be_write_u32_into (reverse ds))) = ds.
Proof.
  intros [Hd Hl Hv]. rewrite be_write_ok. replace ((fun d => reverse (u32_le_bytes d)) <$> reverse ds) with ((fun l => reverse l) <$> reverse (u32_le_bytes <$> ds))
    by (rewrite <- fmap_reverse, <- list_fmap_compose; reflexivity).
  rewrite reverse_mjoin. destruct (bytes_of_words ds Hd) as (G1 & G2 & G3). rewrite Hl in G2. rewrite Hv in G3.
  split; [split; [by apply digits_reverse | by rewrite length_reverse | by rewrite reverse_involutive]|]. rewrite reverse_involutive. by apply le_read_ok.
Qed.

Lemma read_words bs v : be_bytes bs v -> exists ds, le_read_u32_into (reverse bs) = ds /\ words ds v.
Proof.
  intros [Hd Hl Hv]. destruct (words_of_bytes 12 (reverse bs) (digits_reverse _ _ Hd)) as (ws & Hw & Hn & Hb & Hvw); [by rewrite length_reverse|].
  exists ws. rewrite Hb, le_read_ok by exact Hw. split; [done|]. split; [done | done | congruence].
Qed.

Lemma from_t242_spec ts : length ts = 242%nat -> exists ds, I384_LE_from_t242 ts = Some ds /\ words ds (bval ts mod 2 ^ 384).
Proof.
  intros Hl. destruct (bval_242 ts Hl) as [Hb Hr]. pose proof half_bounds. unfold I384_LE_from_t242.
  destruct (from_t243_words (T242_into_t243 UZero (Btrit_shift <$> ts))) as (u & Hu & Hw).
  - unfold T242_into_t243. by rewrite length_app, length_fmap, Hl.
  - rewrite tval_pad, Hb. pose proof half_pow. pose proof pow_bounds. lia.
  - rewrite Hu. cbn [unwrap mbind option_bind]. destruct half_words as (h & -> & Hh). cbn [mbind option_bind]. eexists. split; [reflexivity|].
    rewrite tval_pad, Hb in Hw. pose proof (words_sub _ _ _ _ Hw Hh) as Hs. by replace (bval ts + half - half) with (bval ts) in Hs by ring.
Qed.

Lemma from_i384_words bs u : be_bytes bs u ->
  exists ts, T242_from_i384_ignoring_mst bs = Some ts /\ length ts = 242%nat /\ bval ts = balanced (read_value u).
Proof.
  intros Hb. destruct (read_words bs u Hb) as (ds & Hr & Hw). pose proof (words_bound _ _ Hw) as Hu. unfold T242_from_i384_ignoring_mst. rewrite Hr.
  destruct (zero_mst_words ds u Hw) as (ds1 & -> & Hw1). destruct half_words as (h & -> & Hh). cbn [mbind option_bind]. eexists. split; [reflexivity|].
  destruct (trits_of_words _ _ (words_add _ _ _ _ Hw1 Hh)) as [Hl Hv]. split; [exact Hl|]. rewrite <- (mst_shift_value u Hu). exact Hv.
Qed.

Lemma bval_inj ts ts' : length ts = 242%nat -> length ts' = 242%nat -> bval ts = bval ts' -> ts = ts'.
Proof.
  intros Hl Hl' Hv. destruct (bval_242 ts Hl) as [H1 _]. destruct (bval_242 ts' Hl') as [H2 _].
  rewrite <- (shift_shift ts), <- (shift_shift ts'). f_equal. apply tval_inj; [rewrite !length_fmap; lia | lia].
Qed.

Lemma try_from_words ds u : words ds u -> let v := sval u in
  (- half <= v <= half -> exists ts, T242_try_from_i384 ds = Some (Ok ts) /\ length ts = 242%nat /\ bval ts = v)
  /\ (v < - half \/ half < v -> T242_try_from_i384 ds = Some (Err BinaryExceedsTernaryRange)).
Proof.
  intros Hw v. pose proof (words_bound _ _ Hw) as Hu. pose proof half_bounds. pose proof half_pow. unfold T242_try_from_i384.
  destruct half_words as (h & -> & Hh), max_words as (m & -> & Hm). cbn [mbind option_bind]. pose proof (words_add _ _ _ _ Hw Hh) as Ha.
  set (w := add_digits false ds h) in *. change (U384_LE_add_inplace ds h) with w.
  assert (Hc : U384_LE_cmp w m = Z.compare ((u + half) mod 2 ^ 384) (2 * half)).
  { destruct Ha as [D1 L1 V1], Hm as [D2 L2 V2]. unfold U384_LE_cmp. rewrite (cmp_digits_value B32), !reverse_involutive, V1, V2; [done | lia | by apply digits_reverse..|].
    rewrite !length_reverse. congruence. }
  rewrite Hc. assert (Hv : (u = v /\ v < 2 ^ 383) \/ (u = v + 2 ^ 384 /\ 2 ^ 383 <= u)) by (unfold v, sval; destruct (Z.ltb_spec u (2 ^ 383)); lia). clearbody v.
  destruct (trits_of_words _ _ Ha) as [Hl Hb]. split; intros Hr.
  - assert (E : (u + half) mod 2 ^ 384 = v + half).
    { symmetry. destruct Hv as [[-> ?]|[-> ?]]; [apply (Z.mod_unique_pos _ _ 0) | apply (Z.mod_unique_pos _ _ 1)]; lia. }
    rewrite E in *. replace (v + half - half) with v in Hb by ring. rewrite balanced_id in Hb by lia.
    exists (T243_into_t242 (Utrit_shift <$> T243_from_u384_LE w)). destruct (Z.compare_spec (v + half) (2 * half)); [| |lia]; (split; [reflexivity | by split]).
  - assert (E : 2 * half < (u + half) mod 2 ^ 384).
    { destruct Hv as [[-> ?]|[-> ?]]; [rewrite Z.mod_small by lia; lia|]. destruct (decide (v + half < 0)); [rewrite Z.mod_small by lia; lia|].
      lia. }
    by rewrite (proj2 (Z.compare_gt_iff _ _)) by lia.
Qed.

Lemma balanced_spec v : - half <= balanced v <= half /\ exists k, v = balanced v + k * 3 ^ 242.
Proof.
  unfold balanced. pose proof half_pow. pose proof (Z.mod_pos_bound (v + half) (3 ^ 242) ltac:(lia)). pose proof (Z.div_mod (v + half) (3 ^ 242) ltac:(lia)).
  split; [lia|]. exists ((v + half) / 3 ^ 242). lia.
Qed.

(** The checked conversion accepts exactly the integers of 242 trits, and keeps them. *)
Theorem try_from_i384_spec bs :
  digits (2 ^ 8) bs -> length bs = 48%nat ->
  let v := sval (value (2 ^ 8) (reverse bs)) in
  (- half <= v <= half -> exists ts, T242_try_from_i384_BE_U8 bs = Some (Ok ts) /\ length ts = 242%nat /\ bval ts = v)
  /\ (v < - half \/ half < v -> T242_try_from_i384_BE_U8 bs = Some (Err BinaryExceedsTernaryRange)).
Proof.
  intros Hd Hl v. destruct (read_words bs (value (2 ^ 8) (reverse bs))) as (ds & Hr & Hw); [by split|].
  unfold T242_try_from_i384_BE_U8. rewrite Hr. exact (try_from_words ds _ Hw).
Qed.

(** C10. A number of 242 trits is converted to 48 bytes that hold the same integer in two's complement, and both conversions
    back, the checked one and the one that Kerl applies to hashes, return the same trits. *)
Theorem t242_i384_roundtrip ts :
  length ts = 242%nat ->
  exists bs, I384_BE_U8_from_t242 ts = Some bs /\ digits (2 ^ 8) bs /\ length bs = 48%nat /\ sval (value (2 ^ 8) (reverse bs)) = bval ts
    /\ T242_from_i384_ignoring_mst bs = Some ts /\ T242_try_from_i384_BE_U8 bs = Some (Ok ts).
Proof.
  intros Hl. destruct (from_t242_spec ts Hl) as (ds & Hf & Hw). destruct (write_words ds _ Hw) as [Hb Hr]. destruct (bval_242 ts Hl) as [_ Hv].
  pose proof half_bounds as Hh. assert (Hs : sval (bval ts mod 2 ^ 384) = bval ts) by (apply sval_mod; lia).
  exists (be_write_u32_into (reverse ds)). unfold I384_BE_U8_from_t242. rewrite Hf. cbn [mbind option_bind].
  split; [reflexivity|]. split; [apply Hb|]. split; [apply Hb|]. split; [by rewrite (bb_value _ _ Hb)|]. split.
  - destruct (from_i384_words _ _ Hb) as (ts' & -> & Hl' & Hv'). f_equal. apply bval_inj; [done..|]. rewrite Hv'. unfold read_value. rewrite Hs.
    rewrite decide_False by lia. by apply balanced_id.
  - destruct (proj1 (try_from_words ds _ Hw)) as (ts' & Ht & Hl' & Hv'); [by rewrite Hs|]. unfold T242_try_from_i384_BE_U8. rewrite Hr, Ht.
    do 2 f_equal. apply bval_inj; [done..|]. by rewrite Hv'.
Qed.

(** C11. The conversion of a hash to trits returns, for every hash, 242 trits. They stand for the hash modulo [3 ^ 242]
    exactly if the hash is not one of the integers below the smallest one of 242 trits that have the same highest word:
    the comparison of signed integers is reversed for negative numbers with the same highest word, so that for these
    hashes the most significant trit is not removed, and the trits are wrong. *)
Theorem from_i384_spec bs :
  digits (2 ^ 8) bs -> length bs = 48%nat ->
  let u := value (2 ^ 8) (reverse bs) in
  exists ts, T242_from_i384_ignoring_mst bs = Some ts /\ length ts = 242%nat /\ - half <= bval ts <= half
    /\ ((3 ^ 242 | bval ts - sval u) <-> ~ (in_band u /\ sval u < - half)).
Proof.
  intros Hd Hl u. destruct (from_i384_words bs u) as (ts & Ht & Hn & Hv); [by split|]. exists ts. split; [done|]. split; [done|].
  destruct (balanced_spec (read_value u)) as [Hb [k Hk]]. rewrite <- Hv in Hb, Hk. split; [done|]. unfold read_value in Hk.
  destruct (decide (in_band u /\ sval u < - half)) as [Hx|Hx]; split; intros Hc; [| destruct (Hc Hx) | exact Hx|].
  - exfalso. assert (Hdiv : (3 ^ 242 | 2 ^ 384)).
    { destruct Hc as [j Hj]. exists (j + k). lia. }
    apply Z.mod_divide in Hdiv; [|lia]. vm_compute in Hdiv. discriminate Hdiv.
  - exists (- k). lia.
Qed.
End conversions.

Module Examples.

Fixpoint read_le (fuel : nat) (bs : list Z) : list Z :=
  match fuel, bs with
  | S fuel, b0 :: b1 :: b2 :: b3 :: bs => value (2 ^ 8) [b0; b1; b2; b3] :: read_le fuel bs
  | _, _ => []
  end.
Fixpoint read_be (fuel : nat) (bs : list Z) : list Z :=
  match fuel, bs with
  | S fuel, b0 :: b1 :: b2 :: b3 :: bs => value (2 ^ 8) [b3; b2; b1; b0] :: read_be fuel bs
  | _, _ => []
  end.
#[local] Instance byteorder : ByteOrder := {
  be_write_u32_into ws := mjoin ((fun d => reverse (u32_le_bytes d)) <$> ws);
  be_read_u32_into bs := read_be (length bs) bs;
  le_write_u32_into ws := mjoin (u32_le_bytes <$> ws);
  le_read_u32_into bs := read_le (length bs) bs;
}.

Lemma read_be_ok fuel : forall ws, Forall (fits 32) ws -> (length ws <= fuel)%nat -> read_be fuel (mjoin ((fun d => reverse (u32_le_bytes d)) <$> ws)) = ws.
Proof.
  induction fuel as [|fuel IH]; intros [|d ws] Hf Hl; try done; [cbn in Hl; lia|]. apply Forall_cons in Hf as [Hd Hf].
  destruct (u32_le_bytes_value d Hd) as [Hv _]. rewrite fmap_cons, mjoin_cons. unfold u32_le_bytes in *. cbn [fmap list_fmap] in *.
  cbn [reverse rev_append app read_be]. unfold reverse. cbn [rev_append app read_be]. rewrite Hv. f_equal. apply IH; [done | cbn in Hl; lia].
Qed.

Lemma read_le_ok fuel : forall ws, Forall (fits 32) ws -> (length ws <= fuel)%nat -> read_le fuel (mjoin (u32_le_bytes <$> ws)) = ws.
Proof.
  induction fuel as [|fuel IH]; intros [|d ws] Hf Hl; try done; [cbn in Hl; lia|]. apply Forall_cons in Hf as [Hd Hf].
  destruct (u32_le_bytes_value d Hd) as [Hv _]. rewrite fmap_cons, mjoin_cons. unfold u32_le_bytes in *. cbn [fmap list_fmap] in *.
  cbn [app read_le]. rewrite Hv. f_equal. apply IH; [done | cbn in Hl; lia].
Qed.

Lemma length_mjoin_4 {A} (f : A -> list Z) l : (forall a, length (f a) = 4%nat) -> (length l <= length (mjoin (f <$> l)))%nat.
Proof. intros Hf. induction l as [|a l IH]; [done|]. rewrite fmap_cons, mjoin_cons, length_app, Hf. cbn. lia. Qed.

#[local] Instance byteorder_ok : ByteOrderOk.
Proof.
  split; [done | done | |]; intros ws Hw; cbn [be_read_u32_into le_read_u32_into byteorder].
  - apply read_be_ok; [done|]. apply length_mjoin_4. intros a. by rewrite length_reverse.
  - apply read_le_ok; [done|]. by apply length_mjoin_4.
Qed.

(** With the highest digit first, [divide_by_two] divides only that digit: half of two is two; and [is_negative] looks at
    the lowest digit: the smallest integer is not negative. *)
Example divide_by_two_be_wrong : U384_BE_divide_by_two (repeat 0 11 ++ [2]) = Some (repeat 0 11 ++ [2]).
Proof. reflexivity. Qed.
Example is_negative_be_wrong : I384_BE_is_negative (2 ^ 31 :: repeat 0 11) = false.
Proof. reflexivity. Qed.

Lemma t242_i384_roundtrip_witness : let ts := repeat NegOne 242 in
  exists bs, I384_BE_U8_from_t242 ts = Some bs /\ T242_from_i384_ignoring_mst bs = Some ts.
Proof.
  intros ts. destruct (t242_i384_roundtrip ts eq_refl) as (bs & H1 & _ & _ & _ & H2 & _). exists bs. split; [exact H1 | exact H2].
Defined.

(** The integer below the smallest one of 242 trits. *)
Lemma misread_bytes : exists bs, be_bytes bs (2 ^ 384 - half - 1).
Proof.
  destruct neg_half_words as (n & _ & Hn). assert (Ho : words U384_LE_one 1).
  { split; [constructor; [lia | apply digits_repeat; lia] | reflexivity | reflexivity]. }
  pose proof (words_sub _ _ _ _ Hn Ho) as Hs. rewrite Z.mod_small in Hs by (pose proof half_bounds; lia).
  destruct (write_words _ _ Hs) as [Hb _]. by eexists.
Qed.

Lemma misread_in_band : in_band (2 ^ 384 - half - 1) /\ sval (2 ^ 384 - half - 1) = - half - 1.
Proof.
  pose proof half_pow as Hp. assert (Hh : half = (3 ^ 242 - 1) / 2) by (rewrite <- Hp; replace (2 * half + 1 - 1) with (half * 2) by ring; by rewrite Z.div_mul).
  unfold in_band, top, sval. rewrite Hh. split; vm_compute; reflexivity.
Qed.

(** A hash that the conversion reads wrongly. *)
Lemma from_i384_spec_witness : exists bs ts, T242_from_i384_ignoring_mst bs = Some ts /\ sval (value (2 ^ 8) (reverse bs)) = - half - 1
  /\ ~ (3 ^ 242 | bval ts - (- half - 1)).
Proof.
  destruct misread_bytes as [bs [Hd Hl Hv]]. destruct (from_i384_spec bs Hd Hl) as (ts & Ht & _ & _ & Hi). rewrite Hv in *.
  destruct misread_in_band as [Hb Hs]. rewrite Hs in *. exists bs, ts. split; [exact Ht|]. split; [rewrite Hv; exact Hs|].
  intros Hc. apply Hi in Hc. apply Hc. split; [exact Hb | lia].
Defined.
End Examples.
