(* ===== verification/TangleTypes.v ===== *)
(** * Types of the tangle

    Models the data of [bee-tangle/src]: the flags and metadata of a message, the reasons for a conflict, solid entry
    points, unreferenced messages, and the vertices of the tangle with their children ([flags.rs], [conflict.rs],
    [metadata.rs], [solid_entry_point.rs], [unreferenced_message.rs], [vec_set.rs], [vertex.rs]), with their [Packable]
    implementations. *)

From S2P Require Import Prelude Packable External MessageTypes Payload Message.

Local Open Scope Z_scope.

(** ** Flags *)

Record Flags := mkFlags { flags_bits : Z }.

Definition SOLID : Z := 1.
Definition MILESTONE : Z := 2.
Definition REFERENCED : Z := 4.
Definition VALID : Z := 8.
Definition REQUESTED : Z := 16.

Section flags.
Context `{Bitflags}.
Implicit Types self : Flags.

Definition is_solid self : bool := flags_contains (flags_bits self) SOLID.
Definition set_solid self (b : bool) : Flags := mkFlags (flags_set (flags_bits self) SOLID b).
Definition is_milestone self : bool := flags_contains (flags_bits self) MILESTONE.
Definition set_milestone self (b : bool) : Flags := mkFlags (flags_set (flags_bits self) MILESTONE b).
Definition is_referenced self : bool := flags_contains (flags_bits self) REFERENCED.
Definition set_referenced self (b : bool) : Flags := mkFlags (flags_set (flags_bits self) REFERENCED b).
Definition is_valid self : bool := flags_contains (flags_bits self) VALID.
Definition set_valid self (b : bool) : Flags := mkFlags (flags_set (flags_bits self) VALID b).
Definition was_requested self : bool := flags_contains (flags_bits self) REQUESTED.
Definition set_requested self (b : bool) : Flags := mkFlags (flags_set (flags_bits self) REQUESTED b).
End flags.

Definition Flags_packable : Packable io_error Flags := {|
  packed_len self := packed_len u8 (flags_bits self);
  pack self := pack u8 (flags_bits self);
  unpack_inner CHECK := let! bits := unpack_inner u8 CHECK in rret (mkFlags bits);
|}.

(** ** Conflicts *)

Inductive ConflictError :=
| ConflictError_Io (e : io_error)
| InvalidConflict (byte : Z).
#[export] Instance From_io_conflict : From io_error ConflictError := ConflictError_Io.

Inductive ConflictReason :=
| ConflictReason_None
| InputUtxoAlreadySpent
| InputUtxoAlreadySpentInThisMilestone
| InputUtxoNotFound
| InputOutputSumMismatch
| ConflictReason_InvalidSignature
| InvalidDustAllowance
| SemanticValidationFailed.

#[export] Instance ConflictReason_eq_dec : EqDecision ConflictReason.
Proof. solve_decision. Defined.

Definition ConflictReason_default : ConflictReason := ConflictReason_None.

(** [self as u8] *)
Definition conflict_byte (self : ConflictReason) : Z :=
  match self with
  | ConflictReason_None => 0
  | InputUtxoAlreadySpent => 1
  | InputUtxoAlreadySpentInThisMilestone => 2
  | InputUtxoNotFound => 3
  | InputOutputSumMismatch => 4
  | ConflictReason_InvalidSignature => 5
  | InvalidDustAllowance => 6
  | SemanticValidationFailed => 255
  end.

Definition ConflictReason_try_from (c : Z) : result ConflictError ConflictReason :=
  if c =? 0 then Ok ConflictReason_None
  else if c =? 1 then Ok InputUtxoAlreadySpent
  else if c =? 2 then Ok InputUtxoAlreadySpentInThisMilestone
  else if c =? 3 then Ok InputUtxoNotFound
  else if c =? 4 then Ok InputOutputSumMismatch
  else if c =? 5 then Ok ConflictReason_InvalidSignature
  else if c =? 6 then Ok InvalidDustAllowance
  else if c =? 255 then Ok SemanticValidationFailed
  else Err (InvalidConflict c).

Definition ConflictReason_packable : Packable ConflictError ConflictReason := {|
  packed_len self := packed_len u8 (conflict_byte self);
  pack self := pack u8 (conflict_byte self);
  unpack_inner CHECK := let! c := unpack_inner u8 CHECK in rlift (ConflictReason_try_from c);
|}.

(** ** Metadata *)

Inductive IndexIdError :=
| IndexIdError_Io (e : io_error)
| IndexIdError_MessageId (e : MessageError).
#[export] Instance From_io_index_id : From io_error IndexIdError := IndexIdError_Io.
#[export] Instance From_message_index_id : From MessageError IndexIdError := IndexIdError_MessageId.

Record IndexId := IndexId_new { index_id_index : MilestoneIndex; index_id_id : MessageId }.

Definition IndexId_set_index (self : IndexId) (index : MilestoneIndex) : IndexId := IndexId_new index (index_id_id self).

(** [Ord] and [PartialEq] compare the milestone indexes only. *)
Definition IndexId_cmp (self other : IndexId) : comparison :=
  milestone_index (index_id_index self) ?= milestone_index (index_id_index other).
Definition IndexId_eqb (self other : IndexId) : bool :=
  milestone_index (index_id_index self) =? milestone_index (index_id_index other).

Definition IndexId_packable : Packable IndexIdError IndexId := {|
  packed_len self := packed_len MilestoneIndex_packable (index_id_index self) + packed_len MessageId_packable (index_id_id self);
  pack self := pack MilestoneIndex_packable (index_id_index self) ++ pack MessageId_packable (index_id_id self);
  unpack_inner CHECK :=
    let! index := unpack_inner MilestoneIndex_packable CHECK in
    let! id := unpack_inner MessageId_packable CHECK in
    rret (IndexId_new index id);
|}.

Inductive MessageMetadataError :=
| MetadataError_Io (e : io_error)
| MetadataError_OptionIndex (e : OptionError io_error)
| MetadataError_OptionIndexId (e : OptionError IndexIdError)
| MetadataError_Conflict (e : ConflictError).
#[export] Instance From_io_metadata : From io_error MessageMetadataError := MetadataError_Io.
#[export] Instance From_option_index : From (OptionError io_error) MessageMetadataError := MetadataError_OptionIndex.
#[export] Instance From_option_index_id : From (OptionError IndexIdError) MessageMetadataError := MetadataError_OptionIndexId.

Record MessageMetadata := MessageMetadata_new {
  metadata_flags : Flags;
  metadata_milestone_index : option MilestoneIndex;
  arrival_timestamp : Z;
  solidification_timestamp : Z;
  reference_timestamp : Z;
  metadata_omrsi : option IndexId;
  metadata_ymrsi : option IndexId;
  metadata_conflict : ConflictReason;
}.

Definition MessageMetadata_default : MessageMetadata :=
  MessageMetadata_new (mkFlags 0) None 0 0 0 None None ConflictReason_default.

(** The clock is an argument: the milliseconds since the epoch. *)
Definition arrived (now : Z) : MessageMetadata :=
  MessageMetadata_new (mkFlags 0) None (as_u 64 now) 0 0 None None ConflictReason_default.

Section metadata.
Context `{Bitflags}.
Implicit Types self : MessageMetadata.

Definition with_flags self (f : Flags -> Flags) : MessageMetadata :=
  let 'MessageMetadata_new flags i a s r o y c := self in MessageMetadata_new (f flags) i a s r o y c.
Definition set_milestone_index self (index : MilestoneIndex) : MessageMetadata :=
  let 'MessageMetadata_new f _ a s r o y c := self in MessageMetadata_new f (Some index) a s r o y c.
Definition set_omrsi self (omrsi : IndexId) : MessageMetadata :=
  let 'MessageMetadata_new f i a s r _ y c := self in MessageMetadata_new f i a s r (Some omrsi) y c.
Definition set_ymrsi self (ymrsi : IndexId) : MessageMetadata :=
  let 'MessageMetadata_new f i a s r o _ c := self in MessageMetadata_new f i a s r o (Some ymrsi) c.
Definition mark_solid (now : Z) self : MessageMetadata :=
  let 'MessageMetadata_new f i a _ r o y c := self in MessageMetadata_new (set_solid f true) i a (as_u 64 now) r o y c.
Definition reference self (timestamp : Z) : MessageMetadata :=
  let 'MessageMetadata_new f i a s _ o y c := self in MessageMetadata_new (set_referenced f true) i a s timestamp o y c.
Definition set_conflict self (conflict : ConflictReason) : MessageMetadata :=
  let 'MessageMetadata_new f i a s r o y _ := self in MessageMetadata_new f i a s r o y conflict.
End metadata.

Definition MessageMetadata_packable : Packable MessageMetadataError MessageMetadata := {|
  packed_len self :=
    packed_len Flags_packable (metadata_flags self)
    + packed_len (option_packable MilestoneIndex_packable) (metadata_milestone_index self)
    + packed_len u64 (arrival_timestamp self) + packed_len u64 (solidification_timestamp self)
    + packed_len u64 (reference_timestamp self)
    + packed_len (option_packable IndexId_packable) (metadata_omrsi self)
    + packed_len (option_packable IndexId_packable) (metadata_ymrsi self)
    + packed_len ConflictReason_packable (metadata_conflict self);
  pack self :=
    pack Flags_packable (metadata_flags self)
    ++ pack (option_packable MilestoneIndex_packable) (metadata_milestone_index self)
    ++ pack u64 (arrival_timestamp self) ++ pack u64 (solidification_timestamp self)
    ++ pack u64 (reference_timestamp self)
    ++ pack (option_packable IndexId_packable) (metadata_omrsi self)
    ++ pack (option_packable IndexId_packable) (metadata_ymrsi self)
    ++ pack ConflictReason_packable (metadata_conflict self);
  unpack_inner CHECK :=
    let! flags := unpack_inner Flags_packable CHECK in
    let! milestone_index := unpack_inner (option_packable MilestoneIndex_packable) CHECK in
    let! arrival_timestamp := unpack_inner u64 CHECK in
    let! solidification_timestamp := unpack_inner u64 CHECK in
    let! reference_timestamp := unpack_inner u64 CHECK in
    let! omrsi := unpack_inner (option_packable IndexId_packable) CHECK in
    let! ymrsi := unpack_inner (option_packable IndexId_packable) CHECK in
    let! conflict := rmap_err MetadataError_Conflict (unpack_inner ConflictReason_packable CHECK) in
    rret (MessageMetadata_new flags milestone_index arrival_timestamp solidification_timestamp reference_timestamp
            omrsi ymrsi conflict);
|}.

(** ** Solid entry points and unreferenced messages *)

Record SolidEntryPoint := SolidEntryPoint_new { sep_message_id : MessageId }.
Record UnreferencedMessage := UnreferencedMessage_new { unreferenced_message_id : MessageId }.

#[export] Instance SolidEntryPoint_eq_dec : EqDecision SolidEntryPoint.
Proof. solve_decision. Defined.
#[export] Instance SolidEntryPoint_countable : Countable SolidEntryPoint.
Proof. refine (inj_countable' sep_message_id SolidEntryPoint_new _). by intros []. Defined.

#[export] Instance UnreferencedMessage_eq_dec : EqDecision UnreferencedMessage.
Proof. solve_decision. Defined.
#[export] Instance UnreferencedMessage_countable : Countable UnreferencedMessage.
Proof. refine (inj_countable' unreferenced_message_id UnreferencedMessage_new _). by intros []. Defined.

Definition SolidEntryPoint_null : SolidEntryPoint := SolidEntryPoint_new MessageId_null.

Definition SolidEntryPoint_packable : Packable MessageError SolidEntryPoint := {|
  packed_len self := packed_len MessageId_packable (sep_message_id self);
  pack self := pack MessageId_packable (sep_message_id self);
  unpack_inner CHECK := let! id := unpack_inner MessageId_packable CHECK in rret (SolidEntryPoint_new id);
|}.

Definition UnreferencedMessage_packable : Packable MessageError UnreferencedMessage := {|
  packed_len self := packed_len MessageId_packable (unreferenced_message_id self);
  pack self := pack MessageId_packable (unreferenced_message_id self);
  unpack_inner CHECK := let! id := unpack_inner MessageId_packable CHECK in rret (UnreferencedMessage_new id);
|}.

(** ** Vertices *)

(** [VecSet::insert], with whether the item is new. *)
Definition VecSet_insert `{EqDecision T} (items : list T) (item : T) : list T * bool :=
  if bool_decide (item ∈ items) then (items, false) else (items ++ [item], true).

Record Vertex := mkVertex {
  vertex_message : option (Message * MessageMetadata);
  vertex_children : list MessageId;
  vertex_exhaustive : bool;
  eviction_blocks : Z;
}.

Definition Vertex_empty : Vertex := mkVertex None [] false 0.
Definition Vertex_new (message : Message) (metadata : MessageMetadata) : Vertex :=
  mkVertex (Some (message, metadata)) [] false 0.
Definition message_and_metadata (self : Vertex) : option (Message * MessageMetadata) := vertex_message self.
Definition Vertex_message (self : Vertex) : option Message := fst <$> message_and_metadata self.
Definition Vertex_metadata (self : Vertex) : option MessageMetadata := snd <$> message_and_metadata self.
Definition add_child (self : Vertex) (child : MessageId) : Vertex :=
  let 'mkVertex m c x e := self in mkVertex m (VecSet_insert c child).1 x e.
Definition set_exhaustive (self : Vertex) : Vertex :=
  let 'mkVertex m c _ e := self in mkVertex m c true e.
Definition insert_message_and_metadata (self : Vertex) (message : Message) (metadata : MessageMetadata) : Vertex :=
  let 'mkVertex _ c x e := self in mkVertex (Some (message, metadata)) c x e.
Definition prevent_eviction (self : Vertex) : Vertex :=
  let 'mkVertex m c x e := self in mkVertex m c x (e + 1).
(** [None] stands for the failed assertion. *)
Definition allow_eviction (self : Vertex) : option Vertex :=
  let 'mkVertex m c x e := self in if 0 <=? e - 1 then Some (mkVertex m c x (e - 1)) else None.
Definition can_evict (self : Vertex) : bool := eviction_blocks self =? 0.

(** ** Well-formed values *)

Definition wf_Flags (f : Flags) : Prop := fits 8 (flags_bits f).
Definition wf_IndexId (i : IndexId) : Prop := wf_MilestoneIndex (index_id_index i) /\ wf_MessageId (index_id_id i).
Definition wf_MessageMetadata (m : MessageMetadata) : Prop :=
  wf_Flags (metadata_flags m)
  /\ match metadata_milestone_index m with Some i => wf_MilestoneIndex i | None => True end
  /\ fits 64 (arrival_timestamp m) /\ fits 64 (solidification_timestamp m) /\ fits 64 (reference_timestamp m)
  /\ match metadata_omrsi m with Some i => wf_IndexId i | None => True end
  /\ match metadata_ymrsi m with Some i => wf_IndexId i | None => True end.
Definition wf_SolidEntryPoint (s : SolidEntryPoint) : Prop := wf_MessageId (sep_message_id s).
Definition wf_UnreferencedMessage (u : UnreferencedMessage) : Prop := wf_MessageId (unreferenced_message_id u).

(** ** Flags *)

Section flag_laws.
Context `{BitflagsOk}.

Lemma land_pow2 f n : 0 <= n -> (Z.land f (2 ^ n) =? 2 ^ n) = Z.testbit f n.
Proof.
  intros Hn. assert (E : Z.land f (2 ^ n) = if Z.testbit f n then 2 ^ n else 0).
  { apply Z.bits_inj'. intros k Hk. rewrite Z.land_spec, Z.pow2_bits_eqb by done.
    destruct (Z.eqb_spec n k) as [<-|Hne]; rewrite ?andb_true_r, ?andb_false_r; destruct (Z.testbit f n);
      by rewrite ?Z.pow2_bits_true, ?Z.pow2_bits_false, ?Z.bits_0. }
  rewrite E. destruct (Z.testbit f n); [apply Z.eqb_refl|]. apply Z.eqb_neq. pose proof (Z.pow_pos_nonneg 2 n). lia.
Qed.

(** Setting a flag changes that flag and no other one. *)
Lemma flags_contains_set f n k b :
  0 <= n -> 0 <= k ->
  flags_contains (flags_set f (2 ^ n) b) (2 ^ k) = if n =? k then b else flags_contains f (2 ^ k).
Proof.
  intros Hn Hk. rewrite !flags_contains_ok, flags_set_ok, !land_pow2 by done.
  destruct b; rewrite ?Z.lor_spec, ?Z.ldiff_spec, Z.pow2_bits_eqb by done;
    destruct (Z.eqb_spec n k) as [->|]; cbn; by rewrite ?orb_true_r, ?orb_false_r, ?andb_false_r, ?andb_true_r.
Qed.

(** A referenced message is recognised as such, and keeps its other flags. *)
Lemma reference_flags m timestamp :
  is_referenced (metadata_flags (reference m timestamp)) = true
  /\ is_solid (metadata_flags (reference m timestamp)) = is_solid (metadata_flags m)
  /\ is_milestone (metadata_flags (reference m timestamp)) = is_milestone (metadata_flags m)
  /\ is_valid (metadata_flags (reference m timestamp)) = is_valid (metadata_flags m)
  /\ was_requested (metadata_flags (reference m timestamp)) = was_requested (metadata_flags m).
Proof.
  destruct m as [f i a s r o y c]. unfold is_referenced, is_solid, is_milestone, is_valid, was_requested. cbn.
  split_and!; [apply (flags_contains_set _ 2 2)|apply (flags_contains_set _ 2 0)|apply (flags_contains_set _ 2 1)|
    apply (flags_contains_set _ 2 3)|apply (flags_contains_set _ 2 4)]; lia.
Qed.
End flag_laws.

(** ** The implementations of [Packable] *)

#[export] Instance Flags_ok : PackableOk Flags_packable wf_Flags.
Proof. unfold Flags_packable, wf_Flags. packable_ok @Ok_inj. Qed.

Lemma ConflictReason_try_from_Ok c r : ConflictReason_try_from c = Ok r <-> c = conflict_byte r.
Proof.
  unfold ConflictReason_try_from. split.
  - repeat match goal with |- context[?x =? ?y] => destruct (Z.eqb_spec x y) end; intros E; inv_ok; done.
  - intros ->. by destruct r.
Qed.

Lemma conflict_byte_fits r : fits 8 (conflict_byte r).
Proof. destruct r; unfold fits; cbn; lia. Qed.

#[export] Instance ConflictReason_ok : PackableOk ConflictReason_packable (fun _ => True).
Proof.
  split; cbn [ConflictReason_packable packed_len pack unpack_inner].
  - intros r _. apply packed_len_ok, conflict_byte_fits.
  - intros CHECK r rest _. rewrite (rbind_run _ _ _ (conflict_byte r) rest); [|apply unpack_pack, conflict_byte_fits].
    apply rlift_Ok. by rewrite ConflictReason_try_from_Ok.
  - done.
  - intros CHECK bs r rest Hr. inv_read. apply ConflictReason_try_from_Ok in H0 as ->. by eapply unpack_len.
Qed.

#[export] Instance IndexId_ok : PackableOk IndexId_packable wf_IndexId.
Proof. unfold IndexId_packable, wf_IndexId. packable_ok @Ok_inj. Qed.
#[export] Instance SolidEntryPoint_ok : PackableOk SolidEntryPoint_packable wf_SolidEntryPoint.
Proof. unfold SolidEntryPoint_packable, wf_SolidEntryPoint. packable_ok @Ok_inj. Qed.
#[export] Instance UnreferencedMessage_ok : PackableOk UnreferencedMessage_packable wf_UnreferencedMessage.
Proof. unfold UnreferencedMessage_packable, wf_UnreferencedMessage. packable_ok @Ok_inj. Qed.

#[export] Instance MessageMetadata_ok : PackableOk MessageMetadata_packable wf_MessageMetadata.
Proof.
  unfold MessageMetadata_packable, wf_MessageMetadata. split; cbn [packed_len pack unpack_inner].
  - intros m (? & ? & ? & ? & ? & ? & ?). rewrite !len_app, !packed_len_ok by done. lia.
  - intros CHECK m rest (? & ? & ? & ? & ? & ? & ?). run_unpack.
    rewrite (rbind_run _ _ _ (metadata_conflict m) rest); [by destruct m|]. by apply rmap_err_Ok, unpack_pack.
  - intros bs m rest Hm. inv_read. wf_read. cbn. split_and!; done.
  - intros CHECK bs m rest Hm. inv_read. solve_read.
Qed.

(** ** Claims *)

(** The records the tangle stores keep the contract of [Packable]; a conflict byte decodes exactly if it is one of the
    eight reasons. *)
Theorem tangle_codecs :
  PackableOk MessageMetadata_packable wf_MessageMetadata /\ PackableOk ConflictReason_packable (fun _ => True)
  /\ PackableOk IndexId_packable wf_IndexId /\ PackableOk SolidEntryPoint_packable wf_SolidEntryPoint
  /\ PackableOk UnreferencedMessage_packable wf_UnreferencedMessage
  /\ (forall c r, ConflictReason_try_from c = Ok r <-> c = conflict_byte r).
Proof. split_and!; try apply _. apply ConflictReason_try_from_Ok. Qed.
