(* ===== verification/LedgerTypes.v ===== *)
(** * Ledger types

    Models [bee-ledger/src/types]: balances and balance differences, created, consumed and unspent outputs, treasury
    outputs, receipts, migrations and the differences a milestone makes, with their [Packable] implementations. A
    [HashMap] keyed by addresses is a [gmap]. *)

From S2P Require Import Prelude Packable Trits External MessageTypes Payload PayloadKeys PayloadCodec.

Local Open Scope Z_scope.

(** ** Data *)

Inductive LedgerError :=
| Ledger_Io (e : io_error)
| Ledger_Message (e : MessageError)
| UnsupportedOutputKind (k : Z)
| UnsupportedInputKind (k : Z)
| UnsupportedPayloadKind (k : Z)
| Ledger_InvalidPayloadKind (k : Z)
| TreasuryAmountMismatch (created treasury : Z)
| MigratedFundsAmountOverflow (amount : Z)
| InvalidMigratedFundsAmount (amount : Z)
| ConsumedTreasuryOutputMismatch (expected actual : MilestoneId)
| NegativeBalance (amount : Z)
| NegativeDustAllowance (amount : Z)
| NegativeDustOutputs (n : Z)
| BalanceOverflow (amount : Z)
| InvalidBalance (amount : Z)
| BalanceDiffOverflow (amount : Z)
| InvalidBalanceDiff (amount : Z)
| PackableOption
| InvalidSnapshotKind (k : Z)
| UnsupportedVersion (supported read : Z)
| MissingConsumedTreasury
| MilestoneLengthMismatch (expected actual : Z).

#[export] Instance From_io_ledger : From io_error LedgerError := Ledger_Io.
#[export] Instance From_message_ledger : From MessageError LedgerError := Ledger_Message.

Record Balance := mkBalance { balance_amount : Z; balance_dust_allowance : Z; balance_dust_outputs : Z }.
Record BalanceDiff := mkBalanceDiff { diff_amount : Z; diff_dust_allowance : Z; diff_dust_outputs : Z }.
Abbreviation BalanceDiffs := (gmap Address BalanceDiff).

Record Unspent := Unspent_new { unspent_id : OutputId }.
Record CreatedOutput := CreatedOutput_new { created_message_id : MessageId; created_inner : Output }.
Record ConsumedOutput := ConsumedOutput_new { consumed_target : TransactionId; consumed_index : MilestoneIndex }.
Record LedgerTreasuryOutput := LedgerTreasuryOutput_new {
  ledger_treasury_inner : TreasuryOutput;
  ledger_treasury_milestone_id : MilestoneId;
}.
Record TreasuryDiff := TreasuryDiff_new { treasury_created : MilestoneId; treasury_consumed : MilestoneId }.
Record OutputDiff := OutputDiff_new {
  diff_created_outputs : list OutputId;
  diff_consumed_outputs : list OutputId;
  diff_treasury : option TreasuryDiff;
}.
Record Receipt := Receipt_new { receipt_inner : ReceiptPayload; receipt_included_in : MilestoneIndex }.
Record Migration := Migration_new {
  migration_receipt : Receipt;
  migration_consumed_treasury : LedgerTreasuryOutput;
  migration_created_treasury : LedgerTreasuryOutput;
}.
Record LedgerIndex := LedgerIndex_new { ledger_index : MilestoneIndex }.
Record SnapshotInfo := SnapshotInfo_new {
  network_id : Z;
  snapshot_index : MilestoneIndex;
  entry_point_index : MilestoneIndex;
  pruning_index : MilestoneIndex;
  snapshot_timestamp : Z;
}.

#[export] Instance Balance_eq_dec : EqDecision Balance.
Proof. solve_decision. Defined.
#[export] Instance BalanceDiff_eq_dec : EqDecision BalanceDiff.
Proof. solve_decision. Defined.
#[export] Instance CreatedOutput_eq_dec : EqDecision CreatedOutput.
Proof. solve_decision. Defined.
#[export] Instance ConsumedOutput_eq_dec : EqDecision ConsumedOutput.
Proof. solve_decision. Defined.
#[export] Instance LedgerTreasuryOutput_eq_dec : EqDecision LedgerTreasuryOutput.
Proof. solve_decision. Defined.
#[export] Instance Unspent_eq_dec : EqDecision Unspent.
Proof. solve_decision. Defined.
#[export] Instance Receipt_eq_dec : EqDecision Receipt.
Proof. solve_decision. Defined.

#[export] Instance Unspent_countable : Countable Unspent.
Proof. refine (inj_countable' unspent_id Unspent_new _). by intros []. Defined.
#[export] Instance LedgerTreasuryOutput_countable : Countable LedgerTreasuryOutput.
Proof.
  refine (inj_countable' (fun t => (treasury_amount (ledger_treasury_inner t), ledger_treasury_milestone_id t))
            (fun p => LedgerTreasuryOutput_new (mkTreasuryOutput p.1) p.2) _).
  by intros [[] ?].
Defined.
#[export] Instance Receipt_countable : Countable Receipt.
Proof.
  refine (inj_countable' (fun r => (receipt_inner r, receipt_included_in r)) (fun p => Receipt_new p.1 p.2) _).
  by intros [].
Defined.

(** ** Operations *)

(** *** Balances *)

Definition Balance_default : Balance := mkBalance 0 0 0.

Definition Balance_new (amount dust_allowance dust_outputs : Z) : result LedgerError Balance :=
  if IOTA_SUPPLY <? amount then Err (InvalidBalance amount)
  else if IOTA_SUPPLY <? dust_allowance then Err (InvalidBalance dust_allowance)
  else if IOTA_SUPPLY <? dust_outputs then Err (InvalidBalance dust_outputs)
  else Ok (mkBalance amount dust_allowance dust_outputs).

Definition dust_allowed (self : Balance) : bool :=
  balance_dust_outputs self <? dust_outputs_max (balance_dust_allowance self).

Definition apply_diff (self : Balance) (diff : BalanceDiff) : result LedgerError Balance :=
  let? amount := ok_or (i_checked_add 64 (as_i 64 (balance_amount self)) (diff_amount diff))
                   (BalanceOverflow (balance_amount self + diff_amount diff)) in
  let? dust_allowance := ok_or (i_checked_add 64 (as_i 64 (balance_dust_allowance self)) (diff_dust_allowance diff))
                           (BalanceOverflow (balance_dust_allowance self + diff_dust_allowance diff)) in
  let? dust_outputs := ok_or (i_checked_add 64 (as_i 64 (balance_dust_outputs self)) (diff_dust_outputs diff))
                         (BalanceOverflow (balance_dust_outputs self + diff_dust_outputs diff)) in
  let? _ := ensure (0 <=? amount) (NegativeBalance amount) in
  let? _ := ensure (0 <=? dust_allowance) (NegativeDustAllowance dust_allowance) in
  let? _ := ensure (0 <=? dust_outputs) (NegativeDustOutputs dust_outputs) in
  Ok (mkBalance (as_u 64 amount) (as_u 64 dust_allowance) (as_u 64 dust_outputs)).

(** *** Balance differences *)

Definition BalanceDiff_default : BalanceDiff := mkBalanceDiff 0 0 0.

(** [x.abs() as u64] for an [i64]; the absolute value of the least [i64] wraps around. *)
Definition i64_abs_as_u64 (x : Z) : Z := as_u 64 (as_i 64 (Z.abs x)).

Definition BalanceDiff_new (amount dust_allowance dust_outputs : Z) : result LedgerError BalanceDiff :=
  if IOTA_SUPPLY <? i64_abs_as_u64 amount then Err (InvalidBalanceDiff amount)
  else if IOTA_SUPPLY <? i64_abs_as_u64 dust_allowance then Err (InvalidBalanceDiff dust_allowance)
  else if IOTA_SUPPLY <? i64_abs_as_u64 dust_outputs then Err (InvalidBalanceDiff dust_outputs)
  else Ok (mkBalanceDiff amount dust_allowance dust_outputs).

Definition is_dust_mutating (self : BalanceDiff) : bool :=
  (diff_dust_allowance self <? 0) || (0 <? diff_dust_outputs self).

(** [-x] on [i64] wraps around in a release build. *)
Definition BalanceDiff_negate (self : BalanceDiff) : BalanceDiff :=
  mkBalanceDiff (as_i 64 (- diff_amount self)) (as_i 64 (- diff_dust_allowance self))
    (as_i 64 (- diff_dust_outputs self)).

Definition BalanceDiffs_new : BalanceDiffs := ∅.

(** [self.0.entry(address).or_default()] *)
Definition entry_or_default (self : BalanceDiffs) (address : Address) : BalanceDiff :=
  default BalanceDiff_default (self !! address).

Definition BalanceDiffs_get (self : BalanceDiffs) (address : Address) : option BalanceDiff := self !! address.

(** The body of the loop of [merge]. *)
Definition merge_entry (self : BalanceDiffs) (address : Address) (diff : BalanceDiff)
    : result LedgerError BalanceDiffs :=
  let e := entry_or_default self address in
  let? amount := ok_or (i_checked_add 64 (diff_amount e) (diff_amount diff))
                   (BalanceDiffOverflow (diff_amount e + diff_amount diff)) in
  let? dust_allowance := ok_or (i_checked_add 64 (diff_dust_allowance e) (diff_dust_allowance diff))
                           (BalanceDiffOverflow (diff_dust_allowance e + diff_dust_allowance diff)) in
  let? dust_outputs := ok_or (i_checked_add 64 (diff_dust_outputs e) (diff_dust_outputs diff))
                         (BalanceDiffOverflow (diff_dust_outputs e + diff_dust_outputs diff)) in
  Ok (<[address := mkBalanceDiff amount dust_allowance dust_outputs]> self).

Fixpoint merge_entries (self : BalanceDiffs) (other : list (Address * BalanceDiff))
    : result LedgerError BalanceDiffs :=
  match other with
  | [] => Ok self
  | (address, diff) :: other =>
      let? self := merge_entry self address diff in
      merge_entries self other
  end.

Definition BalanceDiffs_merge `{HashOrder} (self other : BalanceDiffs) : result LedgerError BalanceDiffs :=
  merge_entries self (hash_iter other).

Definition BalanceDiffs_negate (self : BalanceDiffs) : BalanceDiffs := BalanceDiff_negate <$> self.
Definition BalanceDiffs_negated (self : BalanceDiffs) : BalanceDiffs := BalanceDiffs_negate self.

Definition amount_add (self : BalanceDiffs) (address : Address) (amount : Z) : result LedgerError BalanceDiffs :=
  let e := entry_or_default self address in
  let? x := ok_or (i_checked_add 64 (diff_amount e) (as_i 64 amount)) (BalanceDiffOverflow (diff_amount e + amount)) in
  Ok (<[address := mkBalanceDiff x (diff_dust_allowance e) (diff_dust_outputs e)]> self).

Definition amount_sub (self : BalanceDiffs) (address : Address) (amount : Z) : result LedgerError BalanceDiffs :=
  let e := entry_or_default self address in
  let? x := ok_or (i_checked_sub 64 (diff_amount e) (as_i 64 amount)) (BalanceDiffOverflow (diff_amount e + amount)) in
  Ok (<[address := mkBalanceDiff x (diff_dust_allowance e) (diff_dust_outputs e)]> self).

Definition dust_allowance_add (self : BalanceDiffs) (address : Address) (amount : Z)
    : result LedgerError BalanceDiffs :=
  let e := entry_or_default self address in
  let? x := ok_or (i_checked_add 64 (diff_dust_allowance e) (as_i 64 amount))
              (BalanceDiffOverflow (diff_dust_allowance e + amount)) in
  Ok (<[address := mkBalanceDiff (diff_amount e) x (diff_dust_outputs e)]> self).

Definition dust_allowance_sub (self : BalanceDiffs) (address : Address) (amount : Z)
    : result LedgerError BalanceDiffs :=
  let e := entry_or_default self address in
  let? x := ok_or (i_checked_sub 64 (diff_dust_allowance e) (as_i 64 amount))
              (BalanceDiffOverflow (diff_dust_allowance e + amount)) in
  Ok (<[address := mkBalanceDiff (diff_amount e) x (diff_dust_outputs e)]> self).

Definition dust_outputs_inc (self : BalanceDiffs) (address : Address) : result LedgerError BalanceDiffs :=
  let e := entry_or_default self address in
  let? x := ok_or (i_checked_add 64 (diff_dust_outputs e) 1) (BalanceDiffOverflow (diff_dust_outputs e + 1)) in
  Ok (<[address := mkBalanceDiff (diff_amount e) (diff_dust_allowance e) x]> self).

Definition dust_outputs_dec (self : BalanceDiffs) (address : Address) : result LedgerError BalanceDiffs :=
  let e := entry_or_default self address in
  let? x := ok_or (i_checked_sub 64 (diff_dust_outputs e) 1) (BalanceDiffOverflow (diff_dust_outputs e + 1)) in
  Ok (<[address := mkBalanceDiff (diff_amount e) (diff_dust_allowance e) x]> self).

Definition output_add (self : BalanceDiffs) (output : Output) : result LedgerError BalanceDiffs :=
  match output with
  | Output_SignatureLockedSingle output =>
      let? self := amount_add self (single_address output) (single_amount output) in
      if single_amount output <? DUST_THRESHOLD then dust_outputs_inc self (single_address output) else Ok self
  | Output_SignatureLockedDustAllowance output =>
      let? self := amount_add self (dust_address output) (dust_amount output) in
      dust_allowance_add self (dust_address output) (dust_amount output)
  | Output_Treasury _ => Err (UnsupportedOutputKind (Output_kind output))
  end.

Definition output_sub (self : BalanceDiffs) (output : Output) : result LedgerError BalanceDiffs :=
  match output with
  | Output_SignatureLockedSingle output =>
      let? self := amount_sub self (single_address output) (single_amount output) in
      if single_amount output <? DUST_THRESHOLD then dust_outputs_dec self (single_address output) else Ok self
  | Output_SignatureLockedDustAllowance output =>
      let? self := amount_sub self (dust_address output) (dust_amount output) in
      dust_allowance_sub self (dust_address output) (dust_amount output)
  | Output_Treasury _ => Err (UnsupportedOutputKind (Output_kind output))
  end.

(** *** Receipts *)

(** The loop of [validate] over the migrated funds. *)
Fixpoint migrated_amount (acc : Z) (funds : list MigratedFundsEntry) : result LedgerError Z :=
  match funds with
  | [] => Ok acc
  | f :: funds =>
      let amount := single_amount (migrated_output f) in
      let? acc := ok_or (u_checked_add 64 acc amount) (MigratedFundsAmountOverflow (acc + amount)) in
      migrated_amount acc funds
  end.

Definition Receipt_validate (self : Receipt) (consumed_treasury_output : LedgerTreasuryOutput)
    : result LedgerError unit :=
  let? transaction :=
    match receipt_transaction (receipt_inner self) with
    | Payload_TreasuryTransaction transaction => Ok transaction
    | p => Err (UnsupportedPayloadKind (Payload_kind p))
    end in
  let? migrated_amount := migrated_amount 0 (receipt_funds (receipt_inner self)) in
  let? _ := ensure (migrated_amount <=? IOTA_SUPPLY) (InvalidMigratedFundsAmount migrated_amount) in
  let? _ :=
    match treasury_input transaction with
    | Input_Treasury input =>
        ensure (bool_decide (treasury_milestone_id input = ledger_treasury_milestone_id consumed_treasury_output))
          (ConsumedTreasuryOutputMismatch (treasury_milestone_id input)
             (ledger_treasury_milestone_id consumed_treasury_output))
    | Input_Utxo _ => Err (UnsupportedInputKind (Input_kind (treasury_input transaction)))
    end in
  let? created_treasury_output :=
    match treasury_output transaction with
    | Output_Treasury output => Ok output
    | _ => Err (UnsupportedOutputKind (Output_kind (treasury_output transaction)))
    end in
  let consumed := treasury_amount (ledger_treasury_inner consumed_treasury_output) in
  let? created_amount :=
    ok_or (u_checked_sub 64 consumed migrated_amount)
      (MigratedFundsAmountOverflow (as_u 128 (consumed - migrated_amount))) in
  ensure (created_amount =? treasury_amount created_treasury_output)
    (TreasuryAmountMismatch created_amount (treasury_amount created_treasury_output)).

(** *** Packable *)

Definition Balance_packable : Packable LedgerError Balance := {|
  packed_len self :=
    packed_len u64 (balance_amount self) + packed_len u64 (balance_dust_allowance self)
    + packed_len u64 (balance_dust_outputs self);
  pack self :=
    pack u64 (balance_amount self) ++ pack u64 (balance_dust_allowance self)
    ++ pack u64 (balance_dust_outputs self);
  unpack_inner CHECK :=
    let! amount := unpack_inner u64 CHECK in
    let! dust_allowance := unpack_inner u64 CHECK in
    let! dust_outputs := unpack_inner u64 CHECK in
    rlift (Balance_new amount dust_allowance dust_outputs);
|}.

Definition Unspent_packable : Packable LedgerError Unspent := {|
  packed_len self := packed_len OutputId_packable (unspent_id self);
  pack self := pack OutputId_packable (unspent_id self);
  unpack_inner CHECK := let! o := unpack_inner OutputId_packable CHECK in rret (Unspent_new o);
|}.

Definition CreatedOutput_packable : Packable LedgerError CreatedOutput := {|
  packed_len self :=
    packed_len MessageId_packable (created_message_id self) + packed_len Output_packable (created_inner self);
  pack self := pack MessageId_packable (created_message_id self) ++ pack Output_packable (created_inner self);
  unpack_inner CHECK :=
    let! message_id := unpack_inner MessageId_packable CHECK in
    let! inner := unpack_inner Output_packable CHECK in
    rret (CreatedOutput_new message_id inner);
|}.

Definition ConsumedOutput_packable : Packable LedgerError ConsumedOutput := {|
  packed_len self :=
    packed_len TransactionId_packable (consumed_target self) + packed_len MilestoneIndex_packable (consumed_index self);
  pack self := pack TransactionId_packable (consumed_target self) ++ pack MilestoneIndex_packable (consumed_index self);
  unpack_inner CHECK :=
    let! target := unpack_inner TransactionId_packable CHECK in
    let! index := unpack_inner MilestoneIndex_packable CHECK in
    rret (ConsumedOutput_new target index);
|}.

Definition LedgerTreasuryOutput_packable : Packable LedgerError LedgerTreasuryOutput := {|
  packed_len self :=
    packed_len TreasuryOutput_packable (ledger_treasury_inner self)
    + packed_len MilestoneId_packable (ledger_treasury_milestone_id self);
  pack self :=
    pack TreasuryOutput_packable (ledger_treasury_inner self)
    ++ pack MilestoneId_packable (ledger_treasury_milestone_id self);
  unpack_inner CHECK :=
    let! inner := unpack_inner TreasuryOutput_packable CHECK in
    let! milestone_id := unpack_inner MilestoneId_packable CHECK in
    rret (LedgerTreasuryOutput_new inner milestone_id);
|}.

Definition TreasuryDiff_packable : Packable LedgerError TreasuryDiff := {|
  packed_len self :=
    packed_len MilestoneId_packable (treasury_created self) + packed_len MilestoneId_packable (treasury_consumed self);
  pack self := pack MilestoneId_packable (treasury_created self) ++ pack MilestoneId_packable (treasury_consumed self);
  unpack_inner CHECK :=
    let! created := unpack_inner MilestoneId_packable CHECK in
    let! consumed := unpack_inner MilestoneId_packable CHECK in
    rret (TreasuryDiff_new created consumed);
|}.

(** The lengths are those of [Vec], whose encoding has a prefix of eight bytes; [pack] writes prefixes of four. *)
Definition OutputDiff_packable : Packable LedgerError OutputDiff := {|
  packed_len self :=
    packed_len (vec_packable OutputId_packable) (diff_created_outputs self)
    + packed_len (vec_packable OutputId_packable) (diff_consumed_outputs self)
    + packed_len (option_packable TreasuryDiff_packable) (diff_treasury self);
  pack self :=
    pack u32 (as_u 32 (len (diff_created_outputs self)))
    ++ pack_all OutputId_packable (diff_created_outputs self)
    ++ pack u32 (as_u 32 (len (diff_consumed_outputs self)))
    ++ pack_all OutputId_packable (diff_consumed_outputs self)
    ++ pack (option_packable TreasuryDiff_packable) (diff_treasury self);
  unpack_inner CHECK :=
    let! created_outputs_len := unpack_inner u32 CHECK in
    let! created_outputs := unpack_n OutputId_packable CHECK (Z.to_nat created_outputs_len) in
    let! consumed_outputs_len := unpack_inner u32 CHECK in
    let! consumed_outputs := unpack_n OutputId_packable CHECK (Z.to_nat consumed_outputs_len) in
    let! treasury_diff :=
      rmap_err (fun _ => PackableOption) (unpack_inner (option_packable TreasuryDiff_packable) CHECK) in
    rret (OutputDiff_new created_outputs consumed_outputs treasury_diff);
|}.

Definition Receipt_packable `{IteratorSorted} : Packable LedgerError Receipt := {|
  packed_len self :=
    packed_len (ReceiptPayload_packable Payload_packable) (receipt_inner self)
    + packed_len MilestoneIndex_packable (receipt_included_in self);
  pack self :=
    pack (ReceiptPayload_packable Payload_packable) (receipt_inner self)
    ++ pack MilestoneIndex_packable (receipt_included_in self);
  unpack_inner CHECK :=
    let! inner := unpack_inner (ReceiptPayload_packable Payload_packable) CHECK in
    let! included_in := unpack_inner MilestoneIndex_packable CHECK in
    rret (Receipt_new inner included_in);
|}.

Definition LedgerIndex_packable : Packable io_error LedgerIndex := {|
  packed_len self := packed_len MilestoneIndex_packable (ledger_index self);
  pack self := pack MilestoneIndex_packable (ledger_index self);
  unpack_inner CHECK := let! i := unpack_inner MilestoneIndex_packable CHECK in rret (LedgerIndex_new i);
|}.

Definition SnapshotInfo_packable : Packable LedgerError SnapshotInfo := {|
  packed_len self :=
    packed_len u64 (network_id self) + packed_len MilestoneIndex_packable (snapshot_index self)
    + packed_len MilestoneIndex_packable (entry_point_index self)
    + packed_len MilestoneIndex_packable (pruning_index self) + packed_len u64 (snapshot_timestamp self);
  pack self :=
    pack u64 (network_id self) ++ pack MilestoneIndex_packable (snapshot_index self)
    ++ pack MilestoneIndex_packable (entry_point_index self)
    ++ pack MilestoneIndex_packable (pruning_index self) ++ pack u64 (snapshot_timestamp self);
  unpack_inner CHECK :=
    let! network_id := unpack_inner u64 CHECK in
    let! snapshot_index := unpack_inner MilestoneIndex_packable CHECK in
    let! entry_point_index := unpack_inner MilestoneIndex_packable CHECK in
    let! pruning_index := unpack_inner MilestoneIndex_packable CHECK in
    let! timestamp := unpack_inner u64 CHECK in
    rret (SnapshotInfo_new network_id snapshot_index entry_point_index pruning_index timestamp);
|}.

(** ** Well-formed values *)

Definition wf_Balance (b : Balance) : Prop :=
  0 <= balance_amount b <= IOTA_SUPPLY /\ 0 <= balance_dust_allowance b <= IOTA_SUPPLY
  /\ 0 <= balance_dust_outputs b <= IOTA_SUPPLY.
Definition wf_Unspent (u : Unspent) : Prop := wf_OutputId (unspent_id u).
Definition wf_CreatedOutput (c : CreatedOutput) : Prop :=
  wf_MessageId (created_message_id c) /\ wf_Output (created_inner c).
Definition wf_ConsumedOutput (c : ConsumedOutput) : Prop :=
  wf_TransactionId (consumed_target c) /\ wf_MilestoneIndex (consumed_index c).
Definition wf_LedgerTreasuryOutput (t : LedgerTreasuryOutput) : Prop :=
  wf_TreasuryOutput (ledger_treasury_inner t) /\ wf_MilestoneId (ledger_treasury_milestone_id t).
Definition wf_TreasuryDiff (t : TreasuryDiff) : Prop :=
  wf_MilestoneId (treasury_created t) /\ wf_MilestoneId (treasury_consumed t).
Definition wf_OutputDiff (d : OutputDiff) : Prop :=
  Forall wf_OutputId (diff_created_outputs d) /\ Forall wf_OutputId (diff_consumed_outputs d)
  /\ fits 32 (len (diff_created_outputs d)) /\ fits 32 (len (diff_consumed_outputs d))
  /\ match diff_treasury d with Some t => wf_TreasuryDiff t | None => True end.
Definition wf_Receipt (r : Receipt) : Prop :=
  wf_ReceiptPayload wf_Payload (receipt_inner r) /\ wf_MilestoneIndex (receipt_included_in r).
Definition wf_LedgerIndex (i : LedgerIndex) : Prop := wf_MilestoneIndex (ledger_index i).
Definition wf_SnapshotInfo (i : SnapshotInfo) : Prop :=
  fits 64 (network_id i) /\ wf_MilestoneIndex (snapshot_index i) /\ wf_MilestoneIndex (entry_point_index i)
  /\ wf_MilestoneIndex (pruning_index i) /\ fits 64 (snapshot_timestamp i).

(** ** The implementations of [Packable] *)

Lemma Balance_new_Ok a d o b :
  Balance_new a d o = Ok b <-> a <= IOTA_SUPPLY /\ d <= IOTA_SUPPLY /\ o <= IOTA_SUPPLY /\ b = mkBalance a d o.
Proof.
  unfold Balance_new. destruct (Z.ltb_spec IOTA_SUPPLY a), (Z.ltb_spec IOTA_SUPPLY d), (Z.ltb_spec IOTA_SUPPLY o);
    rewrite ?Ok_inj; (split; [try done | intros (? & ? & ? & ->)]); try lia; done.
Qed.

#[export] Instance Unspent_ok : PackableOk Unspent_packable wf_Unspent.
Proof. unfold Unspent_packable, wf_Unspent. packable_ok @Ok_inj. Qed.
#[export] Instance CreatedOutput_ok : PackableOk CreatedOutput_packable wf_CreatedOutput.
Proof. unfold CreatedOutput_packable, wf_CreatedOutput. packable_ok @Ok_inj. Qed.
#[export] Instance ConsumedOutput_ok : PackableOk ConsumedOutput_packable wf_ConsumedOutput.
Proof. unfold ConsumedOutput_packable, wf_ConsumedOutput. packable_ok @Ok_inj. Qed.
#[export] Instance LedgerTreasuryOutput_ok : PackableOk LedgerTreasuryOutput_packable wf_LedgerTreasuryOutput.
Proof. unfold LedgerTreasuryOutput_packable, wf_LedgerTreasuryOutput. packable_ok @Ok_inj. Qed.
#[export] Instance TreasuryDiff_ok : PackableOk TreasuryDiff_packable wf_TreasuryDiff.
Proof. unfold TreasuryDiff_packable, wf_TreasuryDiff. packable_ok @Ok_inj. Qed.
#[export] Instance LedgerIndex_ok : PackableOk LedgerIndex_packable wf_LedgerIndex.
Proof. unfold LedgerIndex_packable, wf_LedgerIndex. packable_ok @Ok_inj. Qed.
#[export] Instance SnapshotInfo_ok : PackableOk SnapshotInfo_packable wf_SnapshotInfo.
Proof. unfold SnapshotInfo_packable, wf_SnapshotInfo. packable_ok @Ok_inj. Qed.
#[export] Instance Balance_ok : PackableOk Balance_packable wf_Balance.
Proof. unfold Balance_packable, wf_Balance. packable_ok Balance_new_Ok. Qed.
#[export] Instance Receipt_ok `{IteratorSortedOk} : PackableOk Receipt_packable wf_Receipt.
Proof.
  pose proof (ReceiptPayload_ok Payload_packable wf_Payload Payload_prefix_bound).
  unfold Receipt_packable, wf_Receipt. packable_ok @Ok_inj.
Qed.

(** *** Output differences *)

Lemma OutputDiff_unpack_pack CHECK d rest :
  wf_OutputDiff d -> unpack_inner OutputDiff_packable CHECK (pack OutputDiff_packable d ++ rest) = Ok (d, rest).
Proof.
  destruct d as [cr co t]. intros (Hcr & Hco & Hlcr & Hlco & Ht).
  cbn [diff_created_outputs diff_consumed_outputs diff_treasury] in *.
  cbn [OutputDiff_packable pack unpack_inner diff_created_outputs diff_consumed_outputs diff_treasury].
  rewrite !as_u_id by done. rewrite <- !app_assoc. run_step.
  rewrite (rbind_unpack_n _ wf_OutputId); [|done|unfold len; lia]. run_step.
  rewrite (rbind_unpack_n _ wf_OutputId); [|done|unfold len; lia].
  rewrite (rbind_run _ _ _ t rest); [done|]. apply rmap_err_Ok, unpack_pack. by destruct t.
Qed.

Lemma OutputDiff_len d :
  wf_OutputDiff d -> packed_len OutputDiff_packable d = len (pack OutputDiff_packable d) + 8.
Proof.
  intros (Hcr & Hco & Hlcr & Hlco & Ht). cbn [OutputDiff_packable pack packed_len].
  rewrite !len_app, !(pack_all_len _ wf_OutputId), !packed_len_ok by (done || (by apply as_u_fits) || by destruct (diff_treasury d)).
  cbn [vec_packable packed_len]. autorewrite with bee. lia.
Qed.

Lemma OutputDiff_unpack_wf bs d rest :
  unpack_inner OutputDiff_packable true bs = Ok (d, rest) -> wf_OutputDiff d.
Proof.
  cbn [OutputDiff_packable unpack_inner]. intros H. inv_read. wf_read. unfold wf_OutputDiff, fits, len in *.
  cbn [diff_created_outputs diff_consumed_outputs diff_treasury]. repeat (split; [first [done | lia]|]). done.
Qed.

(** ** Balance differences as vectors *)

Definition diff_plus (d e : BalanceDiff) : BalanceDiff :=
  mkBalanceDiff (diff_amount d + diff_amount e) (diff_dust_allowance d + diff_dust_allowance e)
    (diff_dust_outputs d + diff_dust_outputs e).
Definition diff_opp (d : BalanceDiff) : BalanceDiff :=
  mkBalanceDiff (- diff_amount d) (- diff_dust_allowance d) (- diff_dust_outputs d).

Lemma diff_eq d e :
  diff_amount d = diff_amount e -> diff_dust_allowance d = diff_dust_allowance e ->
  diff_dust_outputs d = diff_dust_outputs e -> d = e.
Proof. destruct d, e; cbn; intros; by subst. Qed.

Ltac diff_solve := apply diff_eq; cbn [diff_plus diff_opp diff_amount diff_dust_allowance diff_dust_outputs BalanceDiff_default]; lia.

Lemma diff_plus_comm d e : diff_plus d e = diff_plus e d.
Proof. diff_solve. Qed.
Lemma diff_plus_assoc d e f : diff_plus d (diff_plus e f) = diff_plus (diff_plus d e) f.
Proof. diff_solve. Qed.
Lemma diff_plus_0_l d : diff_plus BalanceDiff_default d = d.
Proof. diff_solve. Qed.
Lemma diff_plus_0_r d : diff_plus d BalanceDiff_default = d.
Proof. diff_solve. Qed.
Lemma diff_plus_opp d : diff_plus d (diff_opp d) = BalanceDiff_default.
Proof. diff_solve. Qed.

(** The components of a difference are [i64]. *)
Definition wf_BalanceDiff (d : BalanceDiff) : Prop :=
  sfits 64 (diff_amount d) /\ sfits 64 (diff_dust_allowance d) /\ sfits 64 (diff_dust_outputs d).
#[export] Instance wf_BalanceDiff_dec d : Decision (wf_BalanceDiff d).
Proof. unfold wf_BalanceDiff. apply _. Defined.

Definition wf_BalanceDiffs (m : BalanceDiffs) : Prop := forall a, wf_BalanceDiff (entry_or_default m a).

(** What an output adds to the balance of an address. *)
Definition output_contrib (a : Address) (o : Output) : BalanceDiff :=
  match o with
  | Output_SignatureLockedSingle s =>
      if bool_decide (single_address s = a)
      then mkBalanceDiff (single_amount s) 0 (if single_amount s <? DUST_THRESHOLD then 1 else 0)
      else BalanceDiff_default
  | Output_SignatureLockedDustAllowance s =>
      if bool_decide (dust_address s = a) then mkBalanceDiff (dust_amount s) (dust_amount s) 0
      else BalanceDiff_default
  | Output_Treasury _ => BalanceDiff_default
  end.

Lemma entry_insert (m : BalanceDiffs) a b d :
  entry_or_default (<[a := d]> m) b = if decide (a = b) then d else entry_or_default m b.
Proof.
  unfold entry_or_default. case_decide as E; [subst; by rewrite lookup_insert_eq | by rewrite lookup_insert_ne].
Qed.

Lemma i_checked_Some w x y : i_checked w x = Some y <-> y = x /\ sfits w x.
Proof. unfold i_checked. case_bool_decide; naive_solver. Qed.

Lemma supply_as_i x : 0 <= x <= IOTA_SUPPLY -> as_i 64 x = x.
Proof. intros. apply as_i_id; [lia|]. unfold sfits, IOTA_SUPPLY in *. lia. Qed.

(** Inverts the operations on entries. *)
Ltac inv_entry :=
  repeat (inv_ok; match goal with
  | H : i_checked_add _ _ _ = Some _ |- _ => apply i_checked_add_Some in H as [-> ?]
  | H : i_checked_sub _ _ _ = Some _ |- _ => apply i_checked_sub_Some in H as [-> ?]
  end); inv_ok.

Lemma output_add_entry m o m' a :
  wf_Output o -> output_add m o = Ok m' ->
  entry_or_default m' a = diff_plus (entry_or_default m a) (output_contrib a o).
Proof.
  intros Ho Hm. pose proof (wf_output_amount o Ho) as Ha. destruct o as [s|s|s]; cbn in Hm, Ha; [| |done].
  - unfold amount_add, dust_outputs_inc in Hm. inv_entry. rewrite supply_as_i in * by done.
    cbn [output_contrib]. case_bool_decide as E; destruct (single_amount s <? DUST_THRESHOLD) eqn:Hd; inv_entry;
      rewrite !entry_insert, ?decide_True, ?decide_False by congruence; subst; diff_solve.
  - unfold amount_add, dust_allowance_add in Hm. inv_entry. rewrite supply_as_i in * by done.
    cbn [output_contrib]. rewrite !entry_insert. case_bool_decide as E; rewrite ?decide_True, ?decide_False by congruence;
      subst; diff_solve.
Qed.

Lemma output_sub_entry m o m' a :
  wf_Output o -> output_sub m o = Ok m' ->
  entry_or_default m' a = diff_plus (entry_or_default m a) (diff_opp (output_contrib a o)).
Proof.
  intros Ho Hm. pose proof (wf_output_amount o Ho) as Ha. destruct o as [s|s|s]; cbn in Hm, Ha; [| |done].
  - unfold amount_sub, dust_outputs_dec in Hm. inv_entry. rewrite supply_as_i in * by done.
    cbn [output_contrib]. case_bool_decide as E; destruct (single_amount s <? DUST_THRESHOLD) eqn:Hd; inv_entry;
      rewrite !entry_insert, ?decide_True, ?decide_False by congruence; subst; diff_solve.
  - unfold amount_sub, dust_allowance_sub in Hm. inv_entry. rewrite supply_as_i in * by done.
    cbn [output_contrib]. rewrite !entry_insert. case_bool_decide as E; rewrite ?decide_True, ?decide_False by congruence;
      subst; diff_solve.
Qed.

Lemma merge_entry_entry m k d m' a :
  merge_entry m k d = Ok m' ->
  entry_or_default m' a = diff_plus (entry_or_default m a) (if decide (k = a) then d else BalanceDiff_default).
Proof.
  unfold merge_entry. intros Hm. inv_entry. rewrite entry_insert. case_decide; subst; [done | diff_solve].
Qed.

Lemma merge_entries_entry l m m' a :
  NoDup l.*1 -> merge_entries m l = Ok m' ->
  entry_or_default m' a = diff_plus (entry_or_default m a) (entry_or_default (list_to_map l) a).
Proof.
  revert m. induction l as [|[k d] l IH]; intros m; cbn [merge_entries fmap list_fmap fst].
  - intros _ Hm. inv_ok. symmetry. apply diff_plus_0_r.
  - intros [Hk Hd]%NoDup_cons Hm. inv_ok. apply IH in H0 as ->; [|done].
    rewrite (merge_entry_entry _ _ _ _ _ H), <- diff_plus_assoc. f_equal. rewrite list_to_map_cons.
    rewrite entry_insert. case_decide as E; [subst k|apply diff_plus_0_l].
    unfold entry_or_default. rewrite (not_elem_of_list_to_map_1 l a Hk). apply diff_plus_0_r.
Qed.

Lemma merge_entry_lookup `{HashOrderOk} m other m' a :
  BalanceDiffs_merge m other = Ok m' ->
  entry_or_default m' a = diff_plus (entry_or_default m a) (entry_or_default other a).
Proof.
  unfold BalanceDiffs_merge. intros Hm. apply (merge_entries_entry _ _ _ a) in Hm as ->.
  - by rewrite list_to_map_hash_iter.
  - apply hash_iter_NoDup.
Qed.

(** The absolute values of the differences the ledger handles are at most the supply. *)
Definition small_diff (d : BalanceDiff) : Prop :=
  Z.abs (diff_amount d) < 2 ^ 63 /\ Z.abs (diff_dust_allowance d) < 2 ^ 63 /\ Z.abs (diff_dust_outputs d) < 2 ^ 63.

Lemma negate_opp d : small_diff d -> BalanceDiff_negate d = diff_opp d.
Proof.
  intros (Ha & Hd & Ho). unfold BalanceDiff_negate, diff_opp. rewrite !as_i_id by (unfold sfits; lia). done.
Qed.

Lemma negated_entry m a :
  (forall b, small_diff (entry_or_default m b)) ->
  entry_or_default (BalanceDiffs_negated m) a = diff_opp (entry_or_default m a).
Proof.
  intros Hm. unfold BalanceDiffs_negated, BalanceDiffs_negate. specialize (Hm a). revert Hm. unfold entry_or_default.
  rewrite lookup_fmap. destruct (m !! a) as [d|]; cbn; [by apply negate_opp | done].
Qed.

(** ** Balances *)

Definition balance_plus (b : Balance) (d : BalanceDiff) : Balance :=
  mkBalance (balance_amount b + diff_amount d) (balance_dust_allowance b + diff_dust_allowance d)
    (balance_dust_outputs b + diff_dust_outputs d).

Definition nonneg_Balance (b : Balance) : Prop :=
  0 <= balance_amount b < 2 ^ 63 /\ 0 <= balance_dust_allowance b < 2 ^ 63 /\ 0 <= balance_dust_outputs b < 2 ^ 63.

Lemma i64_sum x y : 0 <= x < 2 ^ 63 -> i_checked_add 64 (as_i 64 x) y = if bool_decide (sfits 64 (x + y)) then Some (x + y) else None.
Proof. intros. rewrite as_i_id by (unfold sfits; lia). done. Qed.

Lemma apply_diff_Ok b d b' :
  nonneg_Balance b -> apply_diff b d = Ok b' <-> b' = balance_plus b d /\ nonneg_Balance (balance_plus b d).
Proof.
  intros (Ha & Hd & Ho). unfold apply_diff, nonneg_Balance. rewrite !i64_sum by done. split.
  - intros H. inv_ok. repeat case_bool_decide; inv_ok; bool_to_prop. unfold sfits in *.
    rewrite !as_u_id by (unfold fits; lia). unfold balance_plus. cbn. split; [done | lia].
  - intros [-> Hs]. unfold balance_plus in *. cbn in Hs. rewrite !bool_decide_true by (unfold sfits; lia).
    cbn [ok_or result_bind]. rewrite !(proj2 (Z.leb_le 0 _)) by lia. cbn [ensure result_bind].
    by rewrite !as_u_id by (unfold fits; lia).
Qed.

(** Applying a difference and then its negation gives the balance back. *)
Lemma apply_diff_undo b d b' :
  nonneg_Balance b -> small_diff d -> apply_diff b d = Ok b' -> apply_diff b' (BalanceDiff_negate d) = Ok b.
Proof.
  intros Hb Hd [-> Hn]%apply_diff_Ok; [|done]. rewrite negate_opp by done. apply apply_diff_Ok; [done|].
  assert (balance_plus (balance_plus b d) (diff_opp d) = b) as ->; [|done].
  destruct b; unfold balance_plus, diff_opp; cbn. f_equal; lia.
Qed.

(** ** Receipts *)

Lemma migrated_amount_Ok acc funds x :
  migrated_amount acc funds = Ok x -> x = acc + sum_Z (fun f => single_amount (migrated_output f)) funds.
Proof.
  revert acc. induction funds as [|f funds IH]; intros acc; cbn [migrated_amount].
  - intros H. inv_ok. cbn. lia.
  - intros H. inv_ok. apply u_checked_add_Some in H as [-> _]. apply IH in H0 as ->. rewrite sum_Z_cons. lia.
Qed.

Definition receipt_migrated (r : Receipt) : Z :=
  sum_Z (fun f => single_amount (migrated_output f)) (receipt_funds (receipt_inner r)).

Lemma migrated_amount_total acc funds :
  0 <= acc -> Forall wf_MigratedFundsEntry funds -> acc + 127 * IOTA_SUPPLY < 2 ^ 63 ->
  len funds <= 127 -> acc + sum_Z (fun f => single_amount (migrated_output f)) funds <= acc + len funds * IOTA_SUPPLY
  /\ 0 <= sum_Z (fun f => single_amount (migrated_output f)) funds
  /\ migrated_amount acc funds = Ok (acc + sum_Z (fun f => single_amount (migrated_output f)) funds).
Proof.
  intros Hacc Hf Hb Hl.
  assert (Hs : Forall (fun f => 0 <= single_amount (migrated_output f) <= IOTA_SUPPLY) funds).
  { eapply Forall_impl; [exact Hf|]. intros f (_ & _ & ?). unfold DUST_THRESHOLD in *. lia. }
  pose proof (sum_Z_bound _ _ _ Hs). split; [lia|]. split; [lia|]. clear Hf.
  assert (Hn : acc + IOTA_SUPPLY * len funds < 2 ^ 63) by (unfold IOTA_SUPPLY in *; lia).
  clear Hb Hl H. revert acc Hacc Hn.
  induction Hs as [|f funds Hx Hs IH]; intros acc Hacc Hn; cbn [migrated_amount]; [cbn; f_equal; lia|].
  rewrite len_cons in Hn. pose proof (len_nonneg funds).
  assert (0 <= IOTA_SUPPLY * len funds) by (unfold IOTA_SUPPLY; lia).
  rewrite (proj2 (u_checked_add_Some 64 acc _ _)) by (split; [reflexivity | lia]).
  cbn [ok_or result_bind]. rewrite IH by lia. rewrite sum_Z_cons. f_equal. lia.
Qed.

(** A valid receipt moves tokens from the treasury to the migrated outputs. *)
Lemma Receipt_validate_Ok r t :
  wf_Receipt r -> wf_TreasuryOutput (ledger_treasury_inner t) ->
  Receipt_validate r t = Ok tt
  <-> exists i o, receipt_transaction (receipt_inner r)
        = Payload_TreasuryTransaction (mkTreasuryTransactionPayload (Input_Treasury i) (Output_Treasury o))
      /\ treasury_milestone_id i = ledger_treasury_milestone_id t
      /\ treasury_amount (ledger_treasury_inner t) = receipt_migrated r + treasury_amount o.
Proof.
  intros [(_ & Hf & (Hl & [tx Htx] & _) & Hw) _] Ht. unfold receipt_migrated, wf_TreasuryOutput in *.
  destruct (migrated_amount_total 0 (receipt_funds (receipt_inner r))) as (Hub & Hlb & Hm);
    [lia | done | unfold IOTA_SUPPLY; lia | unfold INPUT_OUTPUT_COUNT_MAX in *; lia|].
  rewrite Z.add_0_l in Hm, Hub. rewrite Htx in *. cbn in Hw. destruct Hw as (_ & Hwo & Hi & Ho).
  destruct tx as [[|i] [| |o]]; cbn [treasury_input treasury_output is_treasury_input is_treasury_output] in *; try done.
  unfold Receipt_validate. rewrite Htx, Hm. cbn [result_bind treasury_input treasury_output].
  rewrite !ensure_bind_Ok, Z.leb_le, bool_decide_eq_true, result_bind_Ok. cbn in Hwo. unfold wf_TreasuryOutput in Hwo.
  setoid_rewrite ok_or_Ok. setoid_rewrite u_checked_sub_Some. setoid_rewrite ensure_Ok. setoid_rewrite Z.eqb_eq. split.
  - intros (Hs & Hid & x & (-> & Hle) & Hx). exists i, o. split; [done|]. split; [done|]. lia.
  - intros (i' & o' & [= <- <-] & Hid & Hc). split; [lia|]. split; [done|]. eexists. split; [split; [reflexivity|]|]; lia.
Qed.

(** ** Claims *)

(** [Balance::apply_diff] adds the difference exactly when no component becomes negative or overflows, and applying
    the negated difference afterwards gives the balance back. *)
Theorem balance_apply_undo b d :
  nonneg_Balance b -> small_diff d ->
  (forall b', apply_diff b d = Ok b' <-> b' = balance_plus b d /\ nonneg_Balance (balance_plus b d))
  /\ (forall b', apply_diff b d = Ok b' -> apply_diff b' (BalanceDiff_negate d) = Ok b).
Proof. intros Hb Hd. split; [by intros; apply apply_diff_Ok | by intros; eapply apply_diff_undo]. Qed.

(** The differences record, for each address, the sum of what was added: an added output contributes its amount, its
    dust allowance and its dust count, a removed output the opposite, and merging adds pointwise. *)
Theorem balance_diffs_spec `{HashOrderOk} m a :
  (forall o m', wf_Output o -> output_add m o = Ok m' ->
     entry_or_default m' a = diff_plus (entry_or_default m a) (output_contrib a o))
  /\ (forall o m', wf_Output o -> output_sub m o = Ok m' ->
     entry_or_default m' a = diff_plus (entry_or_default m a) (diff_opp (output_contrib a o)))
  /\ (forall other m', BalanceDiffs_merge m other = Ok m' ->
     entry_or_default m' a = diff_plus (entry_or_default m a) (entry_or_default other a)).
Proof.
  split; [by intros; apply output_add_entry|]. split; [by intros; apply output_sub_entry|].
  by intros; apply merge_entry_lookup.
Qed.

(** A valid receipt conserves the treasury: it consumes the current treasury output, and what it migrates plus the
    new treasury amount is the old treasury amount; every well-formed receipt with these properties is valid. *)
Theorem receipt_validate_conserves r t :
  wf_Receipt r -> wf_LedgerTreasuryOutput t ->
  Receipt_validate r t = Ok tt
  <-> exists i o, receipt_transaction (receipt_inner r)
        = Payload_TreasuryTransaction (mkTreasuryTransactionPayload (Input_Treasury i) (Output_Treasury o))
      /\ treasury_milestone_id i = ledger_treasury_milestone_id t
      /\ treasury_amount (ledger_treasury_inner t) = receipt_migrated r + treasury_amount o.
Proof. intros Hr [Ht _]. by apply Receipt_validate_Ok. Qed.

(** The encoding of an output difference decodes to it, but [packed_len] announces eight bytes more than [pack]
    writes: it counts the eight-byte prefixes of [Vec] where [pack] writes four-byte ones. *)
Theorem output_diff_packed_len d :
  wf_OutputDiff d ->
  packed_len OutputDiff_packable d = len (pack_new OutputDiff_packable d) + 8
  /\ unpack OutputDiff_packable (pack_new OutputDiff_packable d) = Ok (d, []).
Proof.
  intros Hd. split; [by apply OutputDiff_len|]. unfold unpack, pack_new. rewrite <- (app_nil_r (pack _ d)).
  by apply OutputDiff_unpack_pack.
Qed.

(** The records of the ledger keep the contract of [Packable]. *)
Theorem ledger_codecs `{IteratorSortedOk} :
  PackableOk Balance_packable wf_Balance /\ PackableOk Unspent_packable wf_Unspent
  /\ PackableOk CreatedOutput_packable wf_CreatedOutput /\ PackableOk ConsumedOutput_packable wf_ConsumedOutput
  /\ PackableOk LedgerTreasuryOutput_packable wf_LedgerTreasuryOutput /\ PackableOk TreasuryDiff_packable wf_TreasuryDiff
  /\ PackableOk Receipt_packable wf_Receipt /\ PackableOk LedgerIndex_packable wf_LedgerIndex
  /\ PackableOk SnapshotInfo_packable wf_SnapshotInfo.
Proof. split_and!; apply _. Qed.

(** ** Evaluation *)

Module Examples.
Import Concrete.

Lemma balance_apply_undo_witness :
  exists b', apply_diff (mkBalance 5 1 2) (mkBalanceDiff (-3) 4 (-2)) = Ok b'
    /\ apply_diff b' (BalanceDiff_negate (mkBalanceDiff (-3) 4 (-2))) = Ok (mkBalance 5 1 2).
Proof.
  eexists. split; [vm_compute; reflexivity|].
  apply (balance_apply_undo (mkBalance 5 1 2) (mkBalanceDiff (-3) 4 (-2))); [..|vm_compute; reflexivity];
    repeat split; cbn; lia.
Defined.

Definition gain : BalanceDiffs := {[Payload.Examples.address Byte.x01 := mkBalanceDiff 3 0 1]}.
Definition loss : BalanceDiffs := {[Payload.Examples.address Byte.x01 := mkBalanceDiff (-4) 0 1]}.

Lemma balance_diffs_spec_witness :
  match BalanceDiffs_merge gain loss with
  | Ok m => entry_or_default m (Payload.Examples.address Byte.x01) = mkBalanceDiff (-1) 0 2
  | Err _ => False
  end.
Proof.
  destruct (BalanceDiffs_merge gain loss) as [m|e] eqn:E.
  - rewrite (proj2 (proj2 (balance_diffs_spec gain (Payload.Examples.address Byte.x01))) loss m E).
    vm_compute. reflexivity.
  - exfalso. assert (is_ok (BalanceDiffs_merge gain loss) = true) as Hok by (vm_compute; reflexivity).
    by rewrite E in Hok.
Defined.

Definition output_id (b : Byte.byte) : OutputId := mkOutputId (TransactionId_new (repeat b 32)) 1.

Lemma output_diff_packed_len_witness :
  let d := OutputDiff_new [output_id Byte.x01] [output_id Byte.x02] None in
  packed_len OutputDiff_packable d = len (pack_new OutputDiff_packable d) + 8.
Proof.
  apply (output_diff_packed_len (OutputDiff_new [output_id Byte.x01] [output_id Byte.x02] None)).
  split; [repeat constructor; vm_compute; congruence|]. split; [repeat constructor; vm_compute; congruence|].
  repeat split; vm_compute; congruence.
Defined.

Lemma ledger_codecs_witness : PackableOk Balance_packable wf_Balance.
Proof. exact (proj1 ledger_codecs). Defined.

Definition receipt : Receipt :=
  Receipt_new
    (mkReceiptPayload (MilestoneIndex_new 3) true [Payload.Examples.fund Zero]
       (Payload_TreasuryTransaction (mkTreasuryTransactionPayload
          (Input_Treasury (TreasuryInput_new (MilestoneId_new (repeat Byte.x05 32))))
          (Output_Treasury (mkTreasuryOutput 100))))) (MilestoneIndex_new 9).
Definition treasury : LedgerTreasuryOutput :=
  LedgerTreasuryOutput_new (mkTreasuryOutput 2000100) (MilestoneId_new (repeat Byte.x05 32)).

Lemma receipt_validate_conserves_witness : Receipt_validate receipt treasury = Ok tt.
Proof.
  apply (receipt_validate_conserves receipt treasury).
  - split; [|vm_compute; intuition congruence]. split; [vm_compute; intuition congruence|].
    split; [repeat constructor; apply Payload.Examples.fund_wf|]. split; [|vm_compute; intuition congruence].
    split; [vm_compute; intuition congruence|]. split; [eexists; reflexivity|].
    split; [repeat constructor | repeat constructor; set_solver].
  - vm_compute. intuition congruence.
  - do 2 eexists. split; [reflexivity|]. split; vm_compute; reflexivity.
Defined.
End Examples.
