(* ===== verification/Snapshot.v ===== *)
(** * Snapshot types

    Models [bee-ledger/src/types/snapshot]: the kind and the headers of a snapshot file and the changes of a milestone,
    with their [Packable] implementations. [MilestoneDiff::pack] is the only implementation that can fail, and the only
    one that [unpack] does not undo, so it is a function of its own. *)

From S2P Require Import Prelude Packable Trits External MessageTypes Payload PayloadKeys PayloadCodec LedgerTypes.

Local Open Scope Z_scope.

(** ** Data *)

Inductive SnapshotKind := SnapshotKind_Full | SnapshotKind_Delta.

Record SnapshotHeader := mkSnapshotHeader {
  header_kind : SnapshotKind;
  header_timestamp : Z;
  header_network_id : Z;
  header_sep_index : MilestoneIndex;
  header_ledger_index : MilestoneIndex;
}.

Record FullSnapshotHeader := mkFullSnapshotHeader {
  full_sep_count : Z;
  full_output_count : Z;
  full_milestone_diff_count : Z;
  treasury_output_milestone_id : MilestoneId;
  treasury_output_amount : Z;
}.

Record DeltaSnapshotHeader := mkDeltaSnapshotHeader {
  delta_sep_count : Z;
  delta_milestone_diff_count : Z;
}.

Record MilestoneDiff := mkMilestoneDiff {
  diff_milestone : MilestonePayload;
  diff_consumed_treasury : option (TreasuryOutput * MilestoneId);
  milestone_created : gmap OutputId CreatedOutput;
  milestone_consumed : gmap OutputId (CreatedOutput * ConsumedOutput);
}.

#[export] Instance SnapshotKind_eq_dec : EqDecision SnapshotKind.
Proof. solve_decision. Defined.

(** The errors of [bee-ledger/src/workers/snapshot/error.rs]. *)
Inductive SnapshotError :=
| Snapshot_Io
| Snapshot_Types (e : LedgerError)
| UnexpectedSnapshotKind (expected read : SnapshotKind)
| DownloadingFailed
| NoDownloadSourceAvailable
| InvalidFilePath (path : string)
| NetworkIdMismatch (expected read : Z)
| LedgerSepIndexesInconsistency (ledger_index sep_index : MilestoneIndex)
| InvalidMilestoneDiffsCount (expected read : Z)
| OnlyDeltaSnapshotFileExists
| UnexpectedMilestoneDiffIndex (index : MilestoneIndex)
| Snapshot_MissingConsumedTreasury
| RemainingBytes.

Definition SNAPSHOT_VERSION : Z := 1.
Definition SnapshotHeader_LENGTH : Z := 26.

(** ** Kinds and headers *)

(** [*self as u8] *)
Definition SnapshotKind_u8 (self : SnapshotKind) : Z :=
  match self with SnapshotKind_Full => 0 | SnapshotKind_Delta => 1 end.

Definition SnapshotKind_packable : Packable LedgerError SnapshotKind := {|
  packed_len self := packed_len u8 (SnapshotKind_u8 self);
  pack self := pack u8 (SnapshotKind_u8 self);
  unpack_inner CHECK :=
    let! k := unpack_inner u8 CHECK in
    if k =? 0 then rret SnapshotKind_Full
    else if k =? 1 then rret SnapshotKind_Delta
    else rlift (Err (InvalidSnapshotKind k));
|}.

Definition SnapshotHeader_packable : Packable LedgerError SnapshotHeader := {|
  packed_len self :=
    packed_len u8 SNAPSHOT_VERSION + packed_len SnapshotKind_packable (header_kind self)
    + packed_len u64 (header_timestamp self) + packed_len u64 (header_network_id self)
    + packed_len MilestoneIndex_packable (header_sep_index self)
    + packed_len MilestoneIndex_packable (header_ledger_index self);
  pack self :=
    pack u8 SNAPSHOT_VERSION ++ pack SnapshotKind_packable (header_kind self) ++ pack u64 (header_timestamp self)
    ++ pack u64 (header_network_id self) ++ pack MilestoneIndex_packable (header_sep_index self)
    ++ pack MilestoneIndex_packable (header_ledger_index self);
  unpack_inner CHECK :=
    let! version := unpack_inner u8 CHECK in
    let! _ := rensure (negb (CHECK && negb (SNAPSHOT_VERSION =? version))) (UnsupportedVersion SNAPSHOT_VERSION version) in
    let! kind := unpack_inner SnapshotKind_packable CHECK in
    let! timestamp := unpack_inner u64 CHECK in
    let! network_id := unpack_inner u64 CHECK in
    let! sep_index := unpack_inner MilestoneIndex_packable CHECK in
    let! ledger_index := unpack_inner MilestoneIndex_packable CHECK in
    rret (mkSnapshotHeader kind timestamp network_id sep_index ledger_index);
|}.

Definition FullSnapshotHeader_packable : Packable LedgerError FullSnapshotHeader := {|
  packed_len self :=
    packed_len u64 (full_sep_count self) + packed_len u64 (full_output_count self)
    + packed_len u64 (full_milestone_diff_count self)
    + packed_len MilestoneId_packable (treasury_output_milestone_id self) + packed_len u64 (treasury_output_amount self);
  pack self :=
    pack u64 (full_sep_count self) ++ pack u64 (full_output_count self) ++ pack u64 (full_milestone_diff_count self)
    ++ pack MilestoneId_packable (treasury_output_milestone_id self) ++ pack u64 (treasury_output_amount self);
  unpack_inner CHECK :=
    let! sep_count := unpack_inner u64 CHECK in
    let! output_count := unpack_inner u64 CHECK in
    let! milestone_diff_count := unpack_inner u64 CHECK in
    let! treasury_output_milestone_id := unpack_inner MilestoneId_packable CHECK in
    let! treasury_output_amount := unpack_inner u64 CHECK in
    rret (mkFullSnapshotHeader sep_count output_count milestone_diff_count treasury_output_milestone_id treasury_output_amount);
|}.

Definition DeltaSnapshotHeader_packable : Packable LedgerError DeltaSnapshotHeader := {|
  packed_len self := packed_len u64 (delta_sep_count self) + packed_len u64 (delta_milestone_diff_count self);
  pack self := pack u64 (delta_sep_count self) ++ pack u64 (delta_milestone_diff_count self);
  unpack_inner CHECK :=
    let! sep_count := unpack_inner u64 CHECK in
    let! milestone_diff_count := unpack_inner u64 CHECK in
    rret (mkDeltaSnapshotHeader sep_count milestone_diff_count);
|}.

(** ** The changes of a milestone *)

(** A loop over a count. *)
Fixpoint read_n {E A} (r : reader E A) (n : nat) : reader E (list A) :=
  match n with
  | O => rret []
  | S n =>
      let! a := r in
      let! l := read_n r n in
      rret (a :: l)
  end.

(** The maps the loops fill: a later entry replaces an earlier one. *)
Definition fill {K A} `{Countable K} (l : list (K * A)) : gmap K A := foldl (fun m e => <[e.1 := e.2]> m) ∅ l.

(** [size_of_val(&MilestonePayload::KIND)] *)
Definition MILESTONE_KIND_SIZE : Z := 4.

Section milestone_diff.
Context `{IteratorSorted} `{HashOrder}.

Definition milestone_packed_len (m : MilestonePayload) : Z := packed_len (MilestonePayload_packable Payload_packable) m.

Definition MilestoneDiff_packed_len (self : MilestoneDiff) : Z :=
  packed_len u32 0 + MILESTONE_KIND_SIZE + milestone_packed_len (diff_milestone self)
  + match diff_consumed_treasury self with
    | Some (treasury_output, milestone_id) =>
        packed_len MilestoneId_packable milestone_id + packed_len TreasuryOutput_packable treasury_output
    | None => 0
    end
  + packed_len u64 0
  + sum_Z (fun '(output_id, created) => packed_len OutputId_packable output_id + packed_len CreatedOutput_packable created)
      (hash_iter (milestone_created self))
  + packed_len u64 0
  + sum_Z (fun '(output_id, (created, consumed)) =>
             packed_len OutputId_packable output_id + packed_len CreatedOutput_packable created
             + packed_len TransactionId_packable (consumed_target consumed))
      (hash_iter (milestone_consumed self)).

Definition MilestoneDiff_pack (self : MilestoneDiff) : result LedgerError bytes :=
  let milestone := diff_milestone self in
  let head := pack u32 (as_u 32 (as_u 32 (milestone_packed_len milestone) + MilestonePayload_KIND))
              ++ pack u32 MilestonePayload_KIND ++ pack (MilestonePayload_packable Payload_packable) milestone in
  let? treasury :=
    match essence_receipt (milestone_essence milestone) with
    | Some _ =>
        match diff_consumed_treasury self with
        | Some (treasury_output, milestone_id) =>
            Ok (pack MilestoneId_packable milestone_id ++ pack TreasuryOutput_packable treasury_output)
        | None => Err MissingConsumedTreasury
        end
    | None => Ok []
    end in
  Ok (head ++ treasury
      ++ pack u64 (as_u 64 (Z.of_nat (size (milestone_created self))))
      ++ mjoin ((fun '(output_id, created) =>
           pack MessageId_packable (created_message_id created) ++ pack OutputId_packable output_id
           ++ pack CreatedOutput_packable created) <$> hash_iter (milestone_created self))
      ++ pack u64 (as_u 64 (Z.of_nat (size (milestone_consumed self))))
      ++ mjoin ((fun '(output_id, (created, consumed)) =>
           pack MessageId_packable (created_message_id created) ++ pack OutputId_packable output_id
           ++ pack Output_packable (created_inner created) ++ pack TransactionId_packable (consumed_target consumed))
           <$> hash_iter (milestone_consumed self))).

(** The bodies of the loops of [unpack]. *)
Definition read_created (CHECK : bool) : reader LedgerError (OutputId * CreatedOutput) :=
  let! message_id := unpack_inner MessageId_packable CHECK in
  let! output_id := unpack_inner OutputId_packable CHECK in
  let! output := unpack_inner Output_packable CHECK in
  rret (output_id, CreatedOutput_new message_id output).

Definition read_consumed (CHECK : bool) (index : MilestoneIndex) : reader LedgerError (OutputId * (CreatedOutput * ConsumedOutput)) :=
  let! message_id := unpack_inner MessageId_packable CHECK in
  let! output_id := unpack_inner OutputId_packable CHECK in
  let! output := unpack_inner Output_packable CHECK in
  let! target := unpack_inner TransactionId_packable CHECK in
  rret (output_id, (CreatedOutput_new message_id output, ConsumedOutput_new target index)).

(** The maps are created with room for as many entries as the count says; a count for which there is no room makes the
    program panic, where the definition goes on and fails when the bytes end. *)
Definition MilestoneDiff_unpack_inner (CHECK : bool) : reader LedgerError MilestoneDiff :=
  let! milestone_len := unpack_inner u32 CHECK in
  let! payload := unpack_inner Payload_packable CHECK in
  let! milestone :=
    rlift (match payload with
           | Payload_Milestone milestone => Ok milestone
           | _ => Err (Ledger_InvalidPayloadKind (Payload_kind payload))
           end) in
  let! _ := rensure (milestone_len =? milestone_packed_len milestone + MILESTONE_KIND_SIZE)
              (MilestoneLengthMismatch milestone_len (milestone_packed_len milestone + MILESTONE_KIND_SIZE)) in
  let! consumed_treasury :=
    match essence_receipt (milestone_essence milestone) with
    | Some _ =>
        let! milestone_id := unpack_inner MilestoneId_packable CHECK in
        let! amount := unpack_inner u64 CHECK in
        let! treasury := rlift (TreasuryOutput_new amount) in
        rret (Some (treasury, milestone_id))
    | None => rret None
    end in
  let! created_count := unpack_inner u64 CHECK in
  let! created := read_n (read_created CHECK) (Z.to_nat created_count) in
  let! consumed_count := unpack_inner u64 CHECK in
  let! consumed := read_n (read_consumed CHECK (essence_index (milestone_essence milestone))) (Z.to_nat consumed_count) in
  rret (mkMilestoneDiff milestone consumed_treasury (fill created) (fill consumed)).

Definition MilestoneDiff_unpack (bs : bytes) : result LedgerError (MilestoneDiff * bytes) := MilestoneDiff_unpack_inner true bs.
End milestone_diff.

(** ** Well-formed values *)

Definition wf_SnapshotHeader (h : SnapshotHeader) : Prop :=
  fits 64 (header_timestamp h) /\ fits 64 (header_network_id h) /\ wf_MilestoneIndex (header_sep_index h)
  /\ wf_MilestoneIndex (header_ledger_index h).
Definition wf_FullSnapshotHeader (h : FullSnapshotHeader) : Prop :=
  fits 64 (full_sep_count h) /\ fits 64 (full_output_count h) /\ fits 64 (full_milestone_diff_count h)
  /\ wf_MilestoneId (treasury_output_milestone_id h) /\ fits 64 (treasury_output_amount h).
Definition wf_DeltaSnapshotHeader (h : DeltaSnapshotHeader) : Prop :=
  fits 64 (delta_sep_count h) /\ fits 64 (delta_milestone_diff_count h).

Lemma SnapshotKind_fits k : fits 8 (SnapshotKind_u8 k).
Proof. by destruct k. Qed.

#[export] Instance SnapshotKind_ok : PackableOk SnapshotKind_packable (fun _ => True).
Proof.
  split; cbn [SnapshotKind_packable packed_len pack unpack_inner].
  - intros k _. exact (packed_len_ok (P := u8) _ (SnapshotKind_fits k)).
  - intros CHECK k rest _. rewrite (rbind_run _ _ _ (SnapshotKind_u8 k) rest); [by destruct k | apply unpack_pack, SnapshotKind_fits].
  - done.
  - intros CHECK bs k rest Hr. apply rbind_Ok in Hr as (x & rest' & Hx & Hr).
    destruct (x =? 0); [|destruct (x =? 1); [|by apply rlift_Ok in Hr as [? _]]]; injection Hr as <- <-;
      apply (unpack_len (P := u8)) in Hx as (u & -> & Hu); by exists u.
Qed.
#[export] Instance SnapshotHeader_ok : PackableOk SnapshotHeader_packable wf_SnapshotHeader.
Proof. unfold SnapshotHeader_packable, wf_SnapshotHeader. packable_ok @Ok_inj. Qed.
#[export] Instance FullSnapshotHeader_ok : PackableOk FullSnapshotHeader_packable wf_FullSnapshotHeader.
Proof. unfold FullSnapshotHeader_packable, wf_FullSnapshotHeader. packable_ok @Ok_inj. Qed.
#[export] Instance DeltaSnapshotHeader_ok : PackableOk DeltaSnapshotHeader_packable wf_DeltaSnapshotHeader.
Proof. unfold DeltaSnapshotHeader_packable, wf_DeltaSnapshotHeader. packable_ok @Ok_inj. Qed.

(** ** Proofs about milestone differences *)

Section claims.
Context `{IteratorSortedOk} `{HashOrderOk}.

Lemma milestone_bytes ms : wf_Payload (Payload_Milestone ms) ->
  pack Payload_packable (Payload_Milestone ms) = pack u32 MilestonePayload_KIND ++ pack (MilestonePayload_packable Payload_packable) ms
  /\ 0 <= milestone_packed_len ms < 72001.
Proof.
  intros Hw. pose proof (Payload_len_bound _ Hw) as Hb. rewrite Payload_packed_len_eq in Hb.
  cbn [Payload_step packed_len] in Hb. autorewrite with bee in Hb. unfold milestone_packed_len. split; [|lia].
  change (pack Payload_packable (Payload_Milestone ms)) with (Payload_pack (Payload_Milestone ms)).
  rewrite <- (Payload_pack_step (unpack_inner Payload_packable)). unfold Payload_step at 1. cbn [pack]. reflexivity.
Qed.

(** What [MilestoneDiff::pack] writes cannot be read back: the length it writes counts the number of the payload kind
    instead of its four bytes, and [unpack] rejects it, for every milestone. *)
Theorem milestone_diff_pack_unreadable d bs rest :
  wf_Payload (Payload_Milestone (diff_milestone d)) -> MilestoneDiff_pack d = Ok bs ->
  MilestoneDiff_unpack (bs ++ rest)
  = Err (MilestoneLengthMismatch (milestone_packed_len (diff_milestone d) + 1) (milestone_packed_len (diff_milestone d) + 4)).
Proof.
  intros Hw. destruct (milestone_bytes _ Hw) as [Hb Hlen]. unfold MilestoneDiff_pack. intros (tr & _ & Hp)%result_bind_Ok.
  rewrite Ok_inj in Hp. subst bs. rewrite (as_u_id 32 (milestone_packed_len _)) by (unfold fits; lia).
  rewrite (as_u_id 32) by (unfold fits, MilestonePayload_KIND; lia). rewrite <- !app_assoc, (app_assoc (pack u32 MilestonePayload_KIND)), <- Hb.
  unfold MilestoneDiff_unpack, MilestoneDiff_unpack_inner.
  rewrite (rbind_pack u32 _) by (unfold fits, MilestonePayload_KIND; lia). rewrite (rbind_pack Payload_packable _) by done.
  rewrite (rbind_lift _ _ (diff_milestone d)) by done. unfold MILESTONE_KIND_SIZE, MilestonePayload_KIND.
  unfold rbind at 1, rensure, rlift, ensure. by replace (_ =? _) with false by lia.
Qed.
End claims.

(** ** Evaluation *)

Module Examples.
Import Concrete.

Definition sample_milestone : MilestonePayload :=
  mkMilestonePayload
    (mkMilestonePayloadEssence (MilestoneIndex_new 7) 100 (mkParents [MessageId_new (repeat Byte.x01 32)]) (repeat Byte.x05 32) 0 0
       [repeat Byte.x01 32] None)
    [repeat Byte.x02 64].

Lemma sample_milestone_wf : wf_Payload (Payload_Milestone sample_milestone).
Proof.
  apply (unpack_wf (P := Payload_packable) (pack Payload_packable (Payload_Milestone sample_milestone)) _ []). vm_compute. reflexivity.
Qed.

Lemma milestone_diff_pack_unreadable_witness :
  exists bs n, MilestoneDiff_pack (mkMilestoneDiff sample_milestone None ∅ ∅) = Ok bs
    /\ MilestoneDiff_unpack bs = Err (MilestoneLengthMismatch (n + 1) (n + 4)).
Proof.
  destruct (MilestoneDiff_pack (mkMilestoneDiff sample_milestone None ∅ ∅)) as [bs|e] eqn:Hp; [|vm_compute in Hp; discriminate Hp].
  exists bs, (milestone_packed_len sample_milestone). split; [reflexivity|]. rewrite <- (app_nil_r bs).
  exact (milestone_diff_pack_unreadable (mkMilestoneDiff sample_milestone None ∅ ∅) bs [] sample_milestone_wf Hp).
Defined.
End Examples.
