(* ===== verification/Vertices.v ===== *)
(** * The cache of vertices

    Models [bee-tangle/src/vertices.rs]: the vertices the tangle keeps in memory, distributed over hash tables each with
    its own lock, and the eviction of a vertex that nothing pins. The lemmas show that the tables together are one finite
    map, that a vertex that is pinned is not evicted, and that [len] counts the vertices.

    [get_unchecked] is the lookup of the list of tables; [table_index_lt] shows that it stays within the bounds. *)

From S2P Require Import Prelude External MessageTypes Message TangleTypes.

Local Open Scope Z_scope.

(** One table; [len] is an [AtomicUsize]. *)
Record Vertices := mkVertices {
  v_tables : list (gmap MessageId Vertex);
  v_len : Z;
}.

(** [num_partitions] is not zero. *)
Definition Vertices_new (num_partitions : Z) : Vertices := mkVertices (repeat ∅ (Z.to_nat num_partitions)) 0.

Section vertices.
Context `{TableHasher MessageId} `{HashOrder} `{Environment}.
Implicit Types (self : Vertices) (message_id : MessageId) (e : env).

(** The index [get_table] computes from the hash. *)
Definition table_index self message_id : nat := Z.to_nat (make_hash message_id mod len (v_tables self)).

Definition Vertices_get self message_id : option Vertex := v_tables self !! table_index self message_id ≫= lookup message_id.

(** Writes a vertex back that was changed through a guard. *)
Definition write_vertex self message_id (v : Vertex) : Vertices :=
  mkVertices (alter <[message_id := v]> (table_index self message_id) (v_tables self)) (v_len self).

(** [get_mut], followed by a use [f] of the guard. *)
Definition Vertices_get_mut {R} message_id (f : st Vertex R) : st Vertices (option R) := fun self =>
  match Vertices_get self message_id with
  | Some v =>
      match f v with
      | Some (r, v) => Some (Some r, write_vertex self message_id v)
      | None => None
      end
  | None => Some (None, self)
  end.

(** [get_mut_or_empty], followed by a use [f] of the guard. *)
Definition Vertices_get_mut_or_empty {R} message_id (f : st Vertex R) : st Vertices R := fun self =>
  match Vertices_get self message_id with
  | Some v =>
      match f v with
      | Some (r, v) => Some (r, write_vertex self message_id v)
      | None => None
      end
  | None =>
      match f Vertex_empty with
      | Some (r, v) => Some (r, mkVertices (v_tables (write_vertex self message_id v)) (as_u 64 (v_len self + 1)))
      | None => None
      end
  end.

(** The first bucket of a table that can be evicted. *)
Fixpoint find_evictable (buckets : list (MessageId * Vertex)) : option (MessageId * Vertex) :=
  match buckets with
  | [] => None
  | (id, vertex) :: buckets => if can_evict vertex then Some (id, vertex) else find_evictable buckets
  end.

Fixpoint pop_random (max_retries : nat) self e : option Vertex * Vertices * env :=
  match max_retries with
  | O => (None, self, e)
  | S max_retries =>
      let '(index, e) := gen_range (len (v_tables self)) e in
      let '(free, e) := try_write e in
      match (if free then v_tables self !! Z.to_nat index ≫= (fun table => find_evictable (hash_iter table)) else None) with
      | Some (id, vertex) =>
          (Some vertex, mkVertices (alter (delete id) (Z.to_nat index) (v_tables self)) (as_u 64 (v_len self - 1)), e)
      | None => pop_random max_retries self e
      end
  end.
End vertices.

(** ** The tables are one finite map *)

Definition vertices_count (self : Vertices) : Z := sum_Z (fun t : gmap MessageId Vertex => Z.of_nat (size t)) (v_tables self).

Section lemmas.
Context `{TableHasherOk MessageId} `{HashOrderOk} `{EnvironmentOk}.
Implicit Types (self : Vertices) (id : MessageId) (v : Vertex).

(** Every vertex is in the table of its hash, and [len] is the number of vertices modulo the width of [usize]. *)
Record vertices_wf self : Prop := {
  vw_nonempty : v_tables self <> [];
  vw_table i t id v : v_tables self !! i = Some t -> t !! id = Some v -> i = table_index self id;
  vw_len : v_len self = as_u 64 (vertices_count self);
}.

Lemma table_index_lt self id : v_tables self <> [] -> (table_index self id < length (v_tables self))%nat.
Proof.
  intros Hn. unfold table_index. pose proof (Z.mod_pos_bound (make_hash id) (len (v_tables self))). unfold len in *.
  destruct (v_tables self); [done|]. cbn [length] in *. lia.
Qed.

Lemma table_index_is_Some self id : v_tables self <> [] -> exists t, v_tables self !! table_index self id = Some t.
Proof. intros Hn. by apply lookup_lt_is_Some, table_index_lt. Qed.

Lemma Vertices_new_wf n : 0 < n -> vertices_wf (Vertices_new n).
Proof.
  intros Hn. split; unfold Vertices_new; cbn.
  - destruct (Z.to_nat n) eqn:E; [lia | done].
  - intros i t id v Ht%list_elem_of_lookup_2%list_elem_of_In%repeat_spec. subst t. by rewrite lookup_empty.
  - unfold vertices_count. cbn. induction (Z.to_nat n) as [|k IH]; cbn; [done|]. rewrite map_size_empty. exact IH.
Qed.

Lemma Vertices_get_new n id : Vertices_get (Vertices_new n) id = None.
Proof.
  unfold Vertices_get. destruct (v_tables (Vertices_new n) !! _) as [t|] eqn:E; [|done].
  apply list_elem_of_lookup_2, list_elem_of_In, repeat_spec in E as ->. cbn. apply lookup_empty.
Qed.

(** *** Writing *)

Lemma table_index_alter self id f i n :
  table_index (mkVertices (alter f i (v_tables self)) n) id = table_index self id.
Proof. unfold table_index, len. cbn. by rewrite length_alter. Qed.

Lemma write_vertex_get self id v id' :
  v_tables self <> [] -> Vertices_get (write_vertex self id v) id' = if decide (id = id') then Some v else Vertices_get self id'.
Proof.
  intros Hn. unfold Vertices_get, write_vertex. rewrite table_index_alter. cbn.
  destruct (decide (table_index self id = table_index self id')) as [E|E].
  - rewrite <- E, list_lookup_alter_eq. destruct (table_index_is_Some self id Hn) as [t ->]. cbn.
    case_decide as D; [subst; apply lookup_insert_eq | by apply lookup_insert_ne].
  - rewrite list_lookup_alter_ne by done. case_decide as D; [by subst | done].
Qed.

Lemma sum_Z_alter {A} (f : A -> Z) g i (l : list A) x :
  l !! i = Some x -> sum_Z f (alter g i l) = sum_Z f l + f (g x) - f x.
Proof.
  revert i. induction l as [|y l IH]; intros [|i] Hx; try done.
  - injection Hx as ->. cbn. lia.
  - change (f y + sum_Z f (alter g i l) = f y + sum_Z f l + f (g x) - f x). rewrite (IH i Hx). lia.
Qed.

Lemma count_alter self g i t n :
  v_tables self !! i = Some t ->
  vertices_count (mkVertices (alter g i (v_tables self)) n)
  = vertices_count self + Z.of_nat (size (g t)) - Z.of_nat (size t).
Proof. apply (sum_Z_alter (fun t : gmap MessageId Vertex => Z.of_nat (size t))). Qed.

Lemma alter_wf self g i n :
  vertices_wf self ->
  (forall t id v, v_tables self !! i = Some t -> g t !! id = Some v -> is_Some (t !! id) \/ i = table_index self id) ->
  n = as_u 64 (vertices_count (mkVertices (alter g i (v_tables self)) n)) ->
  vertices_wf (mkVertices (alter g i (v_tables self)) n).
Proof.
  intros [Hn Ht Hl] Hg Hc. split; cbn [v_tables v_len]; [| |done].
  - intros E. apply Hn. apply (f_equal length) in E. rewrite length_alter in E. by destruct (v_tables self).
  - intros j t id v. rewrite table_index_alter. destruct (decide (i = j)) as [->|Hij].
    + rewrite list_lookup_alter_eq. intros Hj Hv. destruct (v_tables self !! j) as [t0|] eqn:E; [|done].
      injection Hj as <-. destruct (Hg t0 id v eq_refl Hv) as [[v' Hv']|?]; [|done]. by eapply Ht.
    + rewrite list_lookup_alter_ne by done. apply Ht.
Qed.

Lemma write_vertex_wf self id v v' :
  vertices_wf self -> Vertices_get self id = Some v -> vertices_wf (write_vertex self id v').
Proof.
  intros Hw Hg. apply alter_wf; [done|..].
  - intros t id' x Ht [[-> ->]|[Hne Hx]]%lookup_insert_Some; [by right | by left; eexists].
  - unfold Vertices_get in Hg. destruct (v_tables self !! table_index self id) as [t|] eqn:E; [|done]. cbn in Hg.
    rewrite (count_alter self _ _ t) by done. rewrite map_size_insert_Some by done. rewrite (vw_len self Hw).
    f_equal. lia.
Qed.

Lemma write_new_wf self id v :
  vertices_wf self -> Vertices_get self id = None ->
  vertices_wf (mkVertices (v_tables (write_vertex self id v)) (as_u 64 (v_len self + 1))).
Proof.
  intros Hw Hg. apply alter_wf; [done|..].
  - intros t id' x Ht [[-> ->]|[Hne Hx]]%lookup_insert_Some; [by right | by left; eexists].
  - destruct (table_index_is_Some self id (vw_nonempty self Hw)) as [t Ht]. unfold Vertices_get in Hg. rewrite Ht in Hg.
    cbn in Hg. rewrite (count_alter self _ _ t) by done. rewrite map_size_insert_None by done. rewrite (vw_len self Hw).
    unfold as_u. rewrite Zplus_mod_idemp_l. f_equal. lia.
Qed.

(** What a use of a guard does to the finite map. *)
Lemma get_mut_spec {R} self id (f : st Vertex R) v r v' :
  vertices_wf self -> Vertices_get self id = Some v -> f v = Some (r, v') ->
  exists self', Vertices_get_mut id f self = Some (Some r, self') /\ vertices_wf self'
    /\ forall id', Vertices_get self' id' = if decide (id = id') then Some v' else Vertices_get self id'.
Proof.
  intros Hw Hg Hf. unfold Vertices_get_mut. rewrite Hg, Hf. eexists. split; [done|].
  split; [by eapply write_vertex_wf|]. intros id'. by apply write_vertex_get, Hw.
Qed.

Lemma get_mut_None {R} self id (f : st Vertex R) :
  Vertices_get self id = None -> Vertices_get_mut id f self = Some (None, self).
Proof. intros Hg. unfold Vertices_get_mut. by rewrite Hg. Qed.

Lemma get_mut_or_empty_spec {R} self id (f : st Vertex R) r v' :
  vertices_wf self -> f (default Vertex_empty (Vertices_get self id)) = Some (r, v') ->
  exists self', Vertices_get_mut_or_empty id f self = Some (r, self') /\ vertices_wf self'
    /\ forall id', Vertices_get self' id' = if decide (id = id') then Some v' else Vertices_get self id'.
Proof.
  intros Hw Hf. unfold Vertices_get_mut_or_empty. destruct (Vertices_get self id) as [v|] eqn:E; cbn in Hf; rewrite Hf;
    (eexists; split; [done|]); (split; [|intros id'; exact (write_vertex_get self id v' id' (vw_nonempty self Hw))]).
  - by eapply write_vertex_wf.
  - by apply write_new_wf.
Qed.

(** *** Eviction *)

Lemma find_evictable_Some buckets id v :
  find_evictable buckets = Some (id, v) -> (id, v) ∈ buckets /\ can_evict v = true.
Proof.
  induction buckets as [|[id' v'] buckets IH]; cbn; [done|]. destruct (can_evict v') eqn:E.
  - intros [= -> ->]. split; [by left | done].
  - intros [? ?]%IH. split; [by right | done].
Qed.

Lemma delete_table_wf self i t id v :
  vertices_wf self -> v_tables self !! i = Some t -> t !! id = Some v ->
  vertices_wf (mkVertices (alter (delete id) i (v_tables self)) (as_u 64 (v_len self - 1))).
Proof.
  intros Hw Ht Hv. apply alter_wf; [done|..].
  - intros t' id' x _ [_ Hx]%lookup_delete_Some. left. by eexists.
  - rewrite (count_alter self _ _ t) by done. rewrite map_size_delete_Some by by eexists.
    assert (size t <> 0%nat) by (apply map_size_non_empty_iff; intros ->; by rewrite lookup_empty in Hv).
    rewrite (vw_len self Hw). unfold as_u. rewrite Zminus_mod_idemp_l. f_equal. lia.
Qed.

(** A popped vertex is not pinned and is the only one that disappears. *)
Lemma pop_random_spec n self e :
  vertices_wf self ->
  let '(r, self', _) := pop_random n self e in
  match r with
  | Some v => exists id, Vertices_get self id = Some v /\ can_evict v = true /\ vertices_wf self'
      /\ v_len self' = as_u 64 (v_len self - 1)
      /\ forall id', Vertices_get self' id' = if decide (id = id') then None else Vertices_get self id'
  | None => self' = self
  end.
Proof.
  intros Hw. revert e. induction n as [|n IH]; intros e; cbn [pop_random]; [done|].
  destruct (gen_range (len (v_tables self)) e) as [i e1]. destruct (try_write e1) as [free e2].
  destruct free; [|apply IH]. destruct (v_tables self !! Z.to_nat i) as [t|] eqn:Ht; cbn [mbind option_bind]; [|apply IH].
  destruct (find_evictable (hash_iter t)) as [[id v]|] eqn:Ef; [|apply IH].
  apply find_evictable_Some in Ef as [Hin%elem_of_hash_iter Hc].
  pose proof (vw_table self Hw _ _ _ _ Ht Hin) as Hi. exists id. split_and!; [|done| |done|].
  - unfold Vertices_get. by rewrite <- Hi, Ht.
  - by eapply delete_table_wf.
  - intros id'. unfold Vertices_get. rewrite table_index_alter. cbn [v_tables].
    destruct (decide (Z.to_nat i = table_index self id')) as [E|E].
    + rewrite <- E, list_lookup_alter_eq, Ht. cbn. case_decide as D; [subst; apply lookup_delete_eq | by apply lookup_delete_ne].
    + rewrite list_lookup_alter_ne by done. case_decide as D; [subst; by rewrite Hi in E | done].
Qed.
End lemmas.
