(* ===== verification/StorageSystem.v ===== *)
(** * The state of the storage itself

    Models [bee-storage/bee-storage/src/system]: the version and the health of a storage and their codecs. *)

From S2P Require Import Prelude Packable.

Local Open Scope Z_scope.

Record StorageVersion := mkStorageVersion { storage_version : Z }.

Inductive StorageHealth :=
| Healthy
| Idle
| Corrupted.

Inductive System :=
| System_Version (version : StorageVersion)
| System_Health (health : StorageHealth).

Inductive StorageHealthError :=
| HealthError_Io (e : io_error)
| UnknownHealth (h : Z).
#[export] Instance From_io_health : From io_error StorageHealthError := HealthError_Io.

Inductive SystemError :=
| SystemError_Io (e : io_error)
| SystemError_Health (e : StorageHealthError)
| UnknownSystemKey (s : Z).
#[export] Instance From_io_system : From io_error SystemError := SystemError_Io.
#[export] Instance From_health_system : From StorageHealthError SystemError := SystemError_Health.

#[export] Instance StorageVersion_eq_dec : EqDecision StorageVersion.
Proof. solve_decision. Defined.
#[export] Instance StorageHealth_eq_dec : EqDecision StorageHealth.
Proof. solve_decision. Defined.

Definition SYSTEM_VERSION_KEY : Z := 0.
Definition SYSTEM_HEALTH_KEY : Z := 1.

(** [self as u8] *)
Definition health_byte (self : StorageHealth) : Z :=
  match self with Healthy => 0 | Idle => 1 | Corrupted => 2 end.

Definition StorageVersion_packable : Packable io_error StorageVersion := {|
  packed_len self := packed_len u64 (storage_version self);
  pack self := pack u64 (storage_version self);
  unpack_inner CHECK := let! version := unpack_inner u64 CHECK in rret (mkStorageVersion version);
|}.

Definition StorageHealth_packable : Packable StorageHealthError StorageHealth := {|
  packed_len self := packed_len u8 0;
  pack self := pack u8 (health_byte self);
  unpack_inner CHECK :=
    let! h := unpack_inner u8 CHECK in
    rlift (match h with 0 => Ok Healthy | 1 => Ok Idle | 2 => Ok Corrupted | h => Err (UnknownHealth h) end);
|}.

Definition System_packable : Packable SystemError System := {|
  packed_len self :=
    match self with
    | System_Version version => packed_len u8 SYSTEM_VERSION_KEY + packed_len StorageVersion_packable version
    | System_Health health => packed_len u8 SYSTEM_HEALTH_KEY + packed_len StorageHealth_packable health
    end;
  pack self :=
    match self with
    | System_Version version => pack u8 SYSTEM_VERSION_KEY ++ pack StorageVersion_packable version
    | System_Health health => pack u8 SYSTEM_HEALTH_KEY ++ pack StorageHealth_packable health
    end;
  unpack_inner CHECK :=
    let! key := unpack_inner u8 CHECK in
    if key =? SYSTEM_VERSION_KEY then
      let! version := unpack_inner StorageVersion_packable CHECK in rret (System_Version version)
    else if key =? SYSTEM_HEALTH_KEY then
      let! health := unpack_inner StorageHealth_packable CHECK in rret (System_Health health)
    else rlift (Err (UnknownSystemKey key));
|}.

(** ** Round trips *)

Definition wf_StorageVersion (v : StorageVersion) : Prop := fits 64 (storage_version v).
Definition wf_System (s : System) : Prop := match s with System_Version v => wf_StorageVersion v | System_Health _ => True end.

#[export] Instance StorageVersion_ok : PackableOk StorageVersion_packable wf_StorageVersion.
Proof. unfold StorageVersion_packable, wf_StorageVersion. packable_ok @Ok_inj. Qed.

Lemma health_byte_fits h : fits 8 (health_byte h).
Proof. unfold fits. destruct h; cbn; lia. Qed.

#[export] Instance StorageHealth_ok : PackableOk StorageHealth_packable (fun _ => True).
Proof.
  split; cbn [StorageHealth_packable packed_len pack unpack_inner].
  - intros h _. exact (packed_len_ok (P := u8) _ (health_byte_fits h)).
  - intros CHECK h rest _. rewrite (rbind_run _ _ _ (health_byte h) rest); [|apply unpack_pack, health_byte_fits].
    apply rlift_Ok. by destruct h.
  - done.
  - intros CHECK bs h rest Hr. inv_read. solve_read.
Qed.

#[export] Instance System_ok : PackableOk System_packable wf_System.
Proof. unfold System_packable, wf_System. packable_ok @Ok_inj. Qed.
