(* ===== verification/Storage.v ===== *)
(** * The storage layer

    Models the access traits of [bee-storage/bee-storage/src] and the helper traits [StorageBackend] of
    [bee-tangle/src/storage.rs] and of [bee-ledger/src/workers/storage.rs]: what a backend offers to the tangle and to the
    ledger. An operation that changes the storage returns its new state.

    [LedgerModel] and [LedgerBackendOk] are the contract between a backend and the ledger: a backend that works stores
    one finite map per table, and a batch applies its operations in order, all of them at once, when it is committed.
    The fetches of the children of a message and of the outputs of an address may have a limit.
    [StorageMemory] shows that the backend [bee-storage-memory] keeps the contract; [LedgerStorage] and what builds on it
    is proved against the contract only. *)

From S2P Require Import Prelude External MessageTypes Payload PayloadKeys Message TangleTypes LedgerTypes StorageSystem.

Local Open Scope Z_scope.

(** ** The traits *)

(** The errors of a backend, which the ledger boxes and only displays. *)
Class StorageBackend (B : Type) := {
  storage_error : Type;
  storage_error_display : storage_error -> string;
}.
Arguments storage_error B {_}.

(** [set_health] of the trait. *)
Class HealthBackend (B : Type) `{StorageBackend B} := storage_set_health : B -> StorageHealth -> result (storage_error B) B.
Arguments storage_set_health {B _ _} storage health.

Class BatchBuilder (B : Type) `{StorageBackend B} := {
  storage_batch : Type;
  batch_begin : storage_batch;
  batch_commit : B -> storage_batch -> bool -> result (storage_error B) B;
}.
Arguments storage_batch B {_ _}.
Arguments batch_begin B {_ _}.

Class Batch (B K V : Type) `{BatchBuilder B} := {
  batch_insert : B -> storage_batch B -> K -> V -> result (storage_error B) (storage_batch B);
  batch_delete : B -> storage_batch B -> K -> result (storage_error B) (storage_batch B);
}.
Arguments batch_insert {B K V _ _ _} storage batch key value.
Arguments batch_delete {B K} V {_ _ _} storage batch key.

Class Fetch (B K V : Type) `{StorageBackend B} := fetch : B -> K -> result (storage_error B) (option V).
Arguments fetch {B K} V {_ _} storage key.

Class Exist (B K V : Type) `{StorageBackend B} := exist : B -> K -> result (storage_error B) bool.
Arguments exist {B K} V {_ _} storage key.

Class StorageInsert (B K V : Type) `{StorageBackend B} := storage_insert : B -> K -> V -> result (storage_error B) B.
Arguments storage_insert {B K V _ _} storage key value.

Class StorageDelete (B K V : Type) `{StorageBackend B} := storage_delete : B -> K -> result (storage_error B) B.
Arguments storage_delete {B K} V {_ _} storage key.

Class Truncate (B K V : Type) `{StorageBackend B} := storage_truncate : B -> result (storage_error B) B.
Arguments storage_truncate {B} K V {_ _} storage.

Class MultiFetch (B K V : Type) `{StorageBackend B} :=
  multi_fetch : B -> list K -> result (storage_error B) (list (result (storage_error B) (option V))).
Arguments multi_fetch {B K} V {_ _} storage keys.

Class AsIterator (B K V : Type) `{StorageBackend B} :=
  storage_iter : B -> result (storage_error B) (list (result (storage_error B) (K * V))).
Arguments storage_iter {B} K V {_ _} storage.

(** The helper trait of the tangle. *)
Class TangleBackend (B : Type) `{StorageBackend B} := {
  insert_message :: StorageInsert B MessageId Message;
  insert_metadata :: StorageInsert B MessageId MessageMetadata;
  insert_edge :: StorageInsert B (MessageId * MessageId) unit;
  insert_milestone :: StorageInsert B MilestoneIndex Milestone;
  insert_sep :: StorageInsert B SolidEntryPoint MilestoneIndex;
  fetch_message :: Fetch B MessageId Message;
  fetch_metadata :: Fetch B MessageId MessageMetadata;
  fetch_edges :: Fetch B MessageId (list MessageId);
  fetch_milestone :: Fetch B MilestoneIndex Milestone;
}.

(** The helper trait of the ledger. *)
Class LedgerBackend (B : Type) := {
  ledger_backend :: StorageBackend B;
  ledger_batch :: BatchBuilder B;
  batch_created :: Batch B OutputId CreatedOutput;
  batch_consumed :: Batch B OutputId ConsumedOutput;
  batch_unspent :: Batch B Unspent unit;
  batch_index :: Batch B unit LedgerIndex;
  batch_diff :: Batch B MilestoneIndex OutputDiff;
  batch_address :: Batch B (Ed25519Address * OutputId) unit;
  batch_balance :: Batch B Address Balance;
  batch_receipt :: Batch B (MilestoneIndex * Receipt) unit;
  batch_treasury :: Batch B (bool * LedgerTreasuryOutput) unit;
  batch_sep :: Batch B SolidEntryPoint MilestoneIndex;
  batch_unreferenced :: Batch B (MilestoneIndex * UnreferencedMessage) unit;
  batch_indexation :: Batch B (PaddedIndex * MessageId) unit;
  batch_edge :: Batch B (MessageId * MessageId) unit;
  batch_message :: Batch B MessageId Message;
  batch_metadata :: Batch B MessageId MessageMetadata;
  batch_milestone :: Batch B MilestoneIndex Milestone;
  exist_unspent :: Exist B Unspent unit;
  fetch_info :: Fetch B unit SnapshotInfo;
  fetch_created :: Fetch B OutputId CreatedOutput;
  fetch_index :: Fetch B unit LedgerIndex;
  fetch_balances :: Fetch B Address Balance;
  fetch_treasury :: Fetch B bool (list LedgerTreasuryOutput);
  fetch_addresses :: Fetch B Ed25519Address (list OutputId);
  fetch_receipts :: Fetch B MilestoneIndex (list Receipt);
  fetch_unreferenced :: Fetch B MilestoneIndex (list UnreferencedMessage);
  fetch_diff :: Fetch B MilestoneIndex OutputDiff;
  insert_info :: StorageInsert B unit SnapshotInfo;
  insert_index :: StorageInsert B unit LedgerIndex;
  insert_treasury :: StorageInsert B (bool * LedgerTreasuryOutput) unit;
  truncate_sep :: Truncate B SolidEntryPoint MilestoneIndex;
  iter_unspent :: AsIterator B Unspent unit;
  iter_balance :: AsIterator B Address Balance;
  iter_sep :: AsIterator B SolidEntryPoint MilestoneIndex;
  ledger_tangle :: TangleBackend B;
}.

(** ** Fields of records *)

(** The field of a record [R] that is found by its type [T]. *)
Class Field (R T : Type) := {
  get_field : R -> T;
  set_field : T -> R -> R;
}.

Class FieldOk (R T : Type) `{Field R T} : Prop := get_set_field (t : T) (r : R) : get_field (set_field t r) = t.

(** ** The contract of a backend *)

(** The tables a backend represents: one finite map per pair of a key type and a value type. The tables of the messages
    and of the node itself come first, the ones of the ledger after them. *)
Record NodeTables := mkNodeTables {
  t_system : gmap Z System;
  t_message : gmap MessageId Message;
  t_metadata : gmap MessageId MessageMetadata;
  t_edge : gmap (MessageId * MessageId) unit;
  t_indexation : gmap (PaddedIndex * MessageId) unit;
  t_milestone : gmap MilestoneIndex Milestone;
  t_sep : gmap SolidEntryPoint MilestoneIndex;
  t_unreferenced : gmap (MilestoneIndex * UnreferencedMessage) unit;
}.
Record LedgerTables := mkLedgerTables {
  t_created : gmap OutputId CreatedOutput;
  t_consumed : gmap OutputId ConsumedOutput;
  t_unspent : gmap Unspent unit;
  t_address : gmap (Ed25519Address * OutputId) unit;
  t_index : gmap unit LedgerIndex;
  t_info : gmap unit SnapshotInfo;
  t_diff : gmap MilestoneIndex OutputDiff;
  t_balance : gmap Address Balance;
  t_receipt : gmap (MilestoneIndex * Receipt) unit;
  t_treasury : gmap (bool * LedgerTreasuryOutput) unit;
  t_node : NodeTables;
}.

#[export] Instance field_created : Field LedgerTables (gmap OutputId CreatedOutput) :=
  {| get_field := t_created; set_field x '(mkLedgerTables a b c d e f g h i j n) := mkLedgerTables x b c d e f g h i j n |}.
#[export] Instance field_consumed : Field LedgerTables (gmap OutputId ConsumedOutput) :=
  {| get_field := t_consumed; set_field x '(mkLedgerTables a b c d e f g h i j n) := mkLedgerTables a x c d e f g h i j n |}.
#[export] Instance field_unspent : Field LedgerTables (gmap Unspent unit) :=
  {| get_field := t_unspent; set_field x '(mkLedgerTables a b c d e f g h i j n) := mkLedgerTables a b x d e f g h i j n |}.
#[export] Instance field_address : Field LedgerTables (gmap (Ed25519Address * OutputId) unit) :=
  {| get_field := t_address; set_field x '(mkLedgerTables a b c d e f g h i j n) := mkLedgerTables a b c x e f g h i j n |}.
#[export] Instance field_index : Field LedgerTables (gmap unit LedgerIndex) :=
  {| get_field := t_index; set_field x '(mkLedgerTables a b c d e f g h i j n) := mkLedgerTables a b c d x f g h i j n |}.
#[export] Instance field_info : Field LedgerTables (gmap unit SnapshotInfo) :=
  {| get_field := t_info; set_field x '(mkLedgerTables a b c d e f g h i j n) := mkLedgerTables a b c d e x g h i j n |}.
#[export] Instance field_diff : Field LedgerTables (gmap MilestoneIndex OutputDiff) :=
  {| get_field := t_diff; set_field x '(mkLedgerTables a b c d e f g h i j n) := mkLedgerTables a b c d e f x h i j n |}.
#[export] Instance field_balance : Field LedgerTables (gmap Address Balance) :=
  {| get_field := t_balance; set_field x '(mkLedgerTables a b c d e f g h i j n) := mkLedgerTables a b c d e f g x i j n |}.
#[export] Instance field_receipt : Field LedgerTables (gmap (MilestoneIndex * Receipt) unit) :=
  {| get_field := t_receipt; set_field x '(mkLedgerTables a b c d e f g h i j n) := mkLedgerTables a b c d e f g h x j n |}.
#[export] Instance field_treasury : Field LedgerTables (gmap (bool * LedgerTreasuryOutput) unit) :=
  {| get_field := t_treasury; set_field x '(mkLedgerTables a b c d e f g h i j n) := mkLedgerTables a b c d e f g h i x n |}.
#[export] Instance field_node : Field LedgerTables NodeTables :=
  {| get_field := t_node; set_field x '(mkLedgerTables a b c d e f g h i j n) := mkLedgerTables a b c d e f g h i j x |}.
#[export] Instance field_system : Field LedgerTables (gmap Z System) :=
  {| get_field t := t_system (t_node t);
     set_field x t := set_field (let '(mkNodeTables k l m o p q r s) := t_node t in mkNodeTables x l m o p q r s) t |}.
#[export] Instance field_message : Field LedgerTables (gmap MessageId Message) :=
  {| get_field t := t_message (t_node t);
     set_field x t := set_field (let '(mkNodeTables k l m o p q r s) := t_node t in mkNodeTables k x m o p q r s) t |}.
#[export] Instance field_metadata : Field LedgerTables (gmap MessageId MessageMetadata) :=
  {| get_field t := t_metadata (t_node t);
     set_field x t := set_field (let '(mkNodeTables k l m o p q r s) := t_node t in mkNodeTables k l x o p q r s) t |}.
#[export] Instance field_edge : Field LedgerTables (gmap (MessageId * MessageId) unit) :=
  {| get_field t := t_edge (t_node t);
     set_field x t := set_field (let '(mkNodeTables k l m o p q r s) := t_node t in mkNodeTables k l m x p q r s) t |}.
#[export] Instance field_indexation : Field LedgerTables (gmap (PaddedIndex * MessageId) unit) :=
  {| get_field t := t_indexation (t_node t);
     set_field x t := set_field (let '(mkNodeTables k l m o p q r s) := t_node t in mkNodeTables k l m o x q r s) t |}.
#[export] Instance field_milestone : Field LedgerTables (gmap MilestoneIndex Milestone) :=
  {| get_field t := t_milestone (t_node t);
     set_field x t := set_field (let '(mkNodeTables k l m o p q r s) := t_node t in mkNodeTables k l m o p x r s) t |}.
#[export] Instance field_sep : Field LedgerTables (gmap SolidEntryPoint MilestoneIndex) :=
  {| get_field t := t_sep (t_node t);
     set_field x t := set_field (let '(mkNodeTables k l m o p q r s) := t_node t in mkNodeTables k l m o p q x s) t |}.
#[export] Instance field_unreferenced : Field LedgerTables (gmap (MilestoneIndex * UnreferencedMessage) unit) :=
  {| get_field t := t_unreferenced (t_node t);
     set_field x t := set_field (let '(mkNodeTables k l m o p q r s) := t_node t in mkNodeTables k l m o p q r x) t |}.

(** The effect of an operation on the table of its types. *)
Definition insert_table `{Countable K} {V} `{Field LedgerTables (gmap K V)} (k : K) (v : V) (t : LedgerTables)
    : LedgerTables :=
  set_field (<[k := v]> (get_field t)) t.
Definition delete_table `{Countable K} V `{Field LedgerTables (gmap K V)} (k : K) (t : LedgerTables) : LedgerTables :=
  set_field (delete k (get_field t : gmap K V)) t.
Definition truncate_table K V `{Countable K} `{Field LedgerTables (gmap K V)} (t : LedgerTables) : LedgerTables :=
  set_field (∅ : gmap K V) t.

(** What a backend represents: whether it works, its tables, and what committing a batch does to them. The backends on
    disk return at most as many children of a message and outputs of an address as their configuration says
    ([fetch_edge_limit] and [fetch_output_id_limit], 1000 by default); the backend in memory returns all of them. *)
Class LedgerModel (B : Type) `{LedgerBackend B} := {
  healthy : B -> Prop;
  tables : B -> LedgerTables;
  pending : storage_batch B -> LedgerTables -> LedgerTables;
  edge_limit : option nat;
  output_id_limit : option nat;
}.
Arguments edge_limit B {_ _}.
Arguments output_id_limit B {_ _}.

(** At most [limit] values, the first ones; and that a property has no more values than that. *)
Definition limited {A} (limit : option nat) (l : list A) : list A :=
  match limit with Some n => take n l | None => l end.
Definition within {A} (limit : option nat) (P : A -> Prop) : Prop :=
  match limit with
  | Some n => forall l, NoDup l -> (forall x, x ∈ l -> P x) -> (length l <= n)%nat
  | None => True
  end.

Lemma within_mono {A} limit (P Q : A -> Prop) : (forall x, P x -> Q x) -> within limit Q -> within limit P.
Proof. destruct limit as [n|]; cbn; [|done]. intros HPQ HQ l Hd Hl. apply HQ; [done|]. intros x Hx. by apply HPQ, Hl. Qed.

Lemma limited_within {A} limit (P : A -> Prop) l :
  NoDup l -> (forall x, x ∈ l <-> P x) ->
  NoDup (limited limit l) /\ (forall x, x ∈ limited limit l -> P x) /\ (within limit P -> forall x, P x -> x ∈ limited limit l).
Proof.
  intros Hd Hl. destruct limit as [n|]; cbn; [|split_and!; [done|..]; intros; by apply Hl].
  split_and!; [rewrite <- (take_drop n l) in Hd; by destruct (proj1 (NoDup_app _ _) Hd)
    | intros x Hx; by eapply Hl, elem_of_sublist, sublist_take|].
  intros Hn x Hx. rewrite take_ge; [by apply Hl|]. apply Hn; [done|]. intros y. apply Hl.
Qed.

Class BatchOk (B K V : Type) `{LedgerModel B} `{Countable K} `{!Batch B K V} `{Field LedgerTables (gmap K V)} : Prop := {
  batch_insert_ok s b k v : healthy s ->
    exists b', batch_insert s b k v = Ok b' /\ forall t, pending b' t = insert_table k v (pending b t);
  batch_delete_ok s b k : healthy s ->
    exists b', batch_delete V s b k = Ok b' /\ forall t, pending b' t = delete_table V k (pending b t);
}.

Class FetchOk (B K V : Type) `{LedgerModel B} `{Countable K} `{!Fetch B K V} `{Field LedgerTables (gmap K V)} : Prop :=
  fetch_ok s k : healthy s -> fetch V s k = Ok ((get_field (tables s) : gmap K V) !! k).

(** A table of pairs fetches the second components, each once and at most [limit] of them; there is always a vector. *)
Class FetchVecOk (B K V : Type) (limit : option nat) `{LedgerModel B} `{Countable K} `{Countable V} `{!Fetch B K (list V)}
    `{Field LedgerTables (gmap (K * V) unit)} : Prop :=
  fetch_vec_ok s k : healthy s ->
    exists l, fetch (list V) s k = Ok (Some (limited limit l)) /\ NoDup l
      /\ forall v, v ∈ l <-> (get_field (tables s) : gmap (K * V) unit) !! (k, v) = Some tt.

Class ExistOk (B K V : Type) `{LedgerModel B} `{Countable K} `{!Exist B K V} `{Field LedgerTables (gmap K V)} : Prop :=
  exist_ok s k : healthy s -> exist V s k = Ok (bool_decide (is_Some ((get_field (tables s) : gmap K V) !! k))).

Class InsertOk (B K V : Type) `{LedgerModel B} `{Countable K} `{!StorageInsert B K V} `{Field LedgerTables (gmap K V)}
    : Prop :=
  insert_ok s k v : healthy s ->
    exists s', storage_insert s k v = Ok s' /\ healthy s' /\ tables s' = insert_table k v (tables s).

Class TruncateOk (B K V : Type) `{LedgerModel B} `{Countable K} `{!Truncate B K V} `{Field LedgerTables (gmap K V)}
    : Prop :=
  truncate_ok s : healthy s ->
    exists s', storage_truncate K V s = Ok s' /\ healthy s' /\ tables s' = truncate_table K V (tables s).

Class IterOk (B K V : Type) `{LedgerModel B} `{Countable K} `{!AsIterator B K V} `{Field LedgerTables (gmap K V)}
    : Prop :=
  iter_ok s : healthy s ->
    exists l, storage_iter K V s = Ok (Ok <$> l) /\ Permutation l (map_to_list (get_field (tables s) : gmap K V)).

Class LedgerBackendOk (B : Type) `{LedgerModel B} : Prop := {
  pending_begin t : pending (batch_begin B) t = t;
  batch_commit_ok s b d : healthy s ->
    exists s', batch_commit s b d = Ok s' /\ healthy s' /\ tables s' = pending b (tables s);
  batch_created_ok :: BatchOk B OutputId CreatedOutput;
  batch_consumed_ok :: BatchOk B OutputId ConsumedOutput;
  batch_unspent_ok :: BatchOk B Unspent unit;
  batch_index_ok :: BatchOk B unit LedgerIndex;
  batch_diff_ok :: BatchOk B MilestoneIndex OutputDiff;
  batch_address_ok :: BatchOk B (Ed25519Address * OutputId) unit;
  batch_balance_ok :: BatchOk B Address Balance;
  batch_receipt_ok :: BatchOk B (MilestoneIndex * Receipt) unit;
  batch_treasury_ok :: BatchOk B (bool * LedgerTreasuryOutput) unit;
  batch_sep_ok :: BatchOk B SolidEntryPoint MilestoneIndex;
  batch_unreferenced_ok :: BatchOk B (MilestoneIndex * UnreferencedMessage) unit;
  batch_indexation_ok :: BatchOk B (PaddedIndex * MessageId) unit;
  batch_edge_ok :: BatchOk B (MessageId * MessageId) unit;
  batch_message_ok :: BatchOk B MessageId Message;
  batch_metadata_ok :: BatchOk B MessageId MessageMetadata;
  batch_milestone_ok :: BatchOk B MilestoneIndex Milestone;
  exist_unspent_ok :: ExistOk B Unspent unit;
  fetch_info_ok :: FetchOk B unit SnapshotInfo;
  fetch_created_ok :: FetchOk B OutputId CreatedOutput;
  fetch_index_ok :: FetchOk B unit LedgerIndex;
  fetch_balance_ok :: FetchOk B Address Balance;
  fetch_treasury_ok :: FetchVecOk B bool LedgerTreasuryOutput None;
  fetch_address_ok :: FetchVecOk B Ed25519Address OutputId (output_id_limit B);
  fetch_receipts_ok :: FetchVecOk B MilestoneIndex Receipt None;
  fetch_unreferenced_ok :: FetchVecOk B MilestoneIndex UnreferencedMessage None;
  fetch_diff_ok :: FetchOk B MilestoneIndex OutputDiff;
  insert_info_ok :: InsertOk B unit SnapshotInfo;
  insert_index_ok :: InsertOk B unit LedgerIndex;
  insert_treasury_ok :: InsertOk B (bool * LedgerTreasuryOutput) unit;
  truncate_sep_ok :: TruncateOk B SolidEntryPoint MilestoneIndex;
  iter_unspent_ok :: IterOk B Unspent unit;
  iter_balance_ok :: IterOk B Address Balance;
  iter_sep_ok :: IterOk B SolidEntryPoint MilestoneIndex;
  insert_message_ok :: InsertOk B MessageId Message;
  insert_metadata_ok :: InsertOk B MessageId MessageMetadata;
  insert_edge_ok :: InsertOk B (MessageId * MessageId) unit;
  insert_milestone_ok :: InsertOk B MilestoneIndex Milestone;
  insert_sep_ok :: InsertOk B SolidEntryPoint MilestoneIndex;
  fetch_message_ok :: FetchOk B MessageId Message;
  fetch_metadata_ok :: FetchOk B MessageId MessageMetadata;
  fetch_edges_ok :: FetchVecOk B MessageId MessageId (edge_limit B);
  fetch_milestone_ok :: FetchOk B MilestoneIndex Milestone;
}.

Lemma fetch_limited `{FetchVecOk B K V limit} s k :
  healthy s ->
  exists l, fetch (list V) s k = Ok (Some l) /\ NoDup l
    /\ (forall v, v ∈ l -> (get_field (tables s) : gmap (K * V) unit) !! (k, v) = Some tt)
    /\ (within limit (fun v => (get_field (tables s) : gmap (K * V) unit) !! (k, v) = Some tt) ->
        forall v, (get_field (tables s) : gmap (K * V) unit) !! (k, v) = Some tt -> v ∈ l).
Proof.
  intros Hs. destruct (fetch_vec_ok s k Hs) as (l & Hf & Hd & Hl). exists (limited limit l). split; [done|].
  by apply limited_within.
Qed.
