(* ===== verification/StorageTables.v ===== *)
(** * The tables of the in-memory backend

    Models [bee-storage/bee-storage-memory/src/table.rs]: the four kinds of tables, with their batches. The claim is that
    every kind of table refines a finite map.

    [[T]::binary_search] of the standard library is only specified on sorted slices, where it finds the element or the
    position at which to insert it; [binary_search] computes that. The tables keep their slices sorted. *)

From S2P Require Import Prelude External MessageTypes.
From Stdlib Require Import Sorting.Sorted.

Local Open Scope Z_scope.

(** ** Total orders *)

(** [Ord::cmp] *)
Class Ord (A : Type) := ord_cmp : A -> A -> comparison.

Class OrdOk (A : Type) `{Ord A} : Prop := {
  ord_cmp_eq (x y : A) : ord_cmp x y = Eq <-> x = y;
  ord_cmp_antisym (x y : A) : ord_cmp y x = CompOpp (ord_cmp x y);
  ord_cmp_trans (x y z : A) : ord_cmp x y = Lt -> ord_cmp y z = Lt -> ord_cmp x z = Lt;
}.

(** The derived order of [OutputId]: the transaction, then the index. *)
#[export] Instance OutputId_ord : Ord OutputId := fun x y =>
  match lex_compare (transaction_id_bytes (output_transaction_id x)) (transaction_id_bytes (output_transaction_id y)) with
  | Eq => output_index x ?= output_index y
  | c => c
  end.

(** The derived order of [MessageId]. *)
#[export] Instance MessageId_ord : Ord MessageId := fun x y => lex_compare (message_id_bytes x) (message_id_bytes y).

(** ** Tables: [table.rs] *)

Inductive BatchOp (K V : Type) :=
| BatchOp_Insert (k : K) (v : V)
| BatchOp_Delete (k : K).
Arguments BatchOp_Insert {K V} k v.
Arguments BatchOp_Delete {K V} k.

Record TableBatch (K V : Type) := mkTableBatch { batch_ops : list (BatchOp K V) }.
Arguments mkTableBatch {K V} batch_ops.
Arguments batch_ops {K V} _.

Definition TableBatch_default {K V} : TableBatch K V := mkTableBatch [].
Definition TableBatch_insert {K V} (self : TableBatch K V) (k : K) (v : V) : TableBatch K V :=
  mkTableBatch (batch_ops self ++ [BatchOp_Insert k v]).
Definition TableBatch_delete {K V} (self : TableBatch K V) (k : K) : TableBatch K V :=
  mkTableBatch (batch_ops self ++ [BatchOp_Delete k]).

(** *** [Table] *)

Record Table (K V : Type) `{Countable K} := mkTable { table_inner : gmap K V }.
Arguments mkTable {K V _ _} table_inner.
Arguments table_inner {K V _ _} _.

Section table.
Context `{Countable K} {V : Type}.
Implicit Types (self : Table K V) (k : K) (v : V).

Definition Table_default : Table K V := mkTable ∅.
Definition Table_fetch self k : option V := table_inner self !! k.
Definition Table_exist self k : bool := bool_decide (is_Some (table_inner self !! k)).
Definition Table_insert self k v : Table K V := mkTable (<[k := v]> (table_inner self)).
Definition Table_delete self k : Table K V := mkTable (delete k (table_inner self)).
Definition Table_truncate self : Table K V := mkTable ∅.
Definition Table_iter {E} `{HashOrder} self : list (result E (K * V)) := Ok <$> hash_iter (table_inner self).
Definition Table_batch_commit self (batch : TableBatch K V) : Table K V :=
  foldl (fun self op =>
           match op with
           | BatchOp_Insert k v => mkTable (<[k := v]> (table_inner self))
           | BatchOp_Delete k => mkTable (delete k (table_inner self))
           end) self (batch_ops batch).
Definition Table_multi_fetch {E} self (ks : list K) : list (result E (option V)) :=
  (fun k => Ok (table_inner self !! k)) <$> ks.
End table.

(** *** [VecTable] *)

Record VecTable (K V : Type) `{Countable K} := mkVecTable { vec_inner : gmap K (list V) }.
Arguments mkVecTable {K V _ _} vec_inner.
Arguments vec_inner {K V _ _} _.

(** [vs.contains(v)] *)
Definition contains `{EqDecision V} (vs : list V) (v : V) : bool := existsb (fun x => bool_decide (x = v)) vs.

(** The loop of [delete]: removes the first element that equals [v]. *)
Fixpoint remove_first `{EqDecision V} (v : V) (vs : list V) : list V :=
  match vs with
  | [] => []
  | found :: vs => if decide (found = v) then vs else found :: remove_first v vs
  end.

(** [vs.pop()] *)
Definition vec_pop {V} (vs : list V) : option (V * list V) :=
  match reverse vs with
  | [] => None
  | v :: vs => Some (v, reverse vs)
  end.

Record VecTableIter (K V : Type) := mkVecTableIter {
  iter_head : option (K * list V);
  iter_tail : list (K * list V);
}.
Arguments mkVecTableIter {K V} iter_head iter_tail.
Arguments iter_head {K V} _.
Arguments iter_tail {K V} _.

Definition VecTableIter_new {K V} (entries : list (K * list V)) : VecTableIter K V :=
  mkVecTableIter (head entries) (tail entries).

(** [next] after the head is exhausted: takes the next vector as the head and calls itself. *)
Fixpoint VecTableIter_advance {K V} (tail : list (K * list V)) : option (K * V * VecTableIter K V) :=
  match tail with
  | [] => None
  | (k, vs) :: tail =>
      match vec_pop vs with
      | Some (v, vs) => Some (k, v, mkVecTableIter (Some (k, vs)) tail)
      | None => VecTableIter_advance tail
      end
  end.

Definition VecTableIter_next {K V} (self : VecTableIter K V) : option (K * V * VecTableIter K V) :=
  match iter_head self with
  | Some (k, vs) =>
      match vec_pop vs with
      | Some (v, vs) => Some (k, v, mkVecTableIter (Some (k, vs)) (iter_tail self))
      | None => VecTableIter_advance (iter_tail self)
      end
  | None => VecTableIter_advance (iter_tail self)
  end.

(** The elements of [n] calls of [next]. *)
Fixpoint VecTableIter_take {K V} (n : nat) (self : VecTableIter K V) : list (K * V) :=
  match n with
  | O => []
  | S n => match VecTableIter_next self with
           | Some (k, v, self) => (k, v) :: VecTableIter_take n self
           | None => []
           end
  end.

Section vec_table.
Context `{Countable K} `{EqDecision V}.
Implicit Types (self : VecTable K V) (k : K) (v : V).

Definition VecTable_default : VecTable K V := mkVecTable ∅.
Definition VecTable_fetch self k : option (list V) := Some (default [] (vec_inner self !! k)).
Definition VecTable_exist self '(k, v) : bool :=
  match vec_inner self !! k with
  | Some vs => contains vs v
  | None => false
  end.
Definition VecTable_insert self '(k, v) (_ : unit) : VecTable K V :=
  let vs := default [] (vec_inner self !! k) in
  mkVecTable (<[k := if contains vs v then vs else vs ++ [v]]> (vec_inner self)).
Definition VecTable_delete self '(k, v) : VecTable K V :=
  match vec_inner self !! k with
  | Some vs => mkVecTable (<[k := remove_first v vs]> (vec_inner self))
  | None => self
  end.
Definition VecTable_truncate self : VecTable K V := mkVecTable ∅.
Definition VecTable_iter `{HashOrder} self : VecTableIter K V := VecTableIter_new (hash_iter (vec_inner self)).
Definition VecTable_batch_commit self (batch : TableBatch (K * V) unit) : VecTable K V :=
  foldl (fun self op =>
           match op with
           | BatchOp_Insert (k, v) _ =>
               let vs := default [] (vec_inner self !! k) in
               mkVecTable (<[k := if contains vs v then vs else vs ++ [v]]> (vec_inner self))
           | BatchOp_Delete (k, v) =>
               match vec_inner self !! k with
               | Some vs => mkVecTable (<[k := remove_first v vs]> (vec_inner self))
               | None => self
               end
           end) self (batch_ops batch).
End vec_table.

(** *** [VecBinTable] *)

Record VecBinTable (K V : Type) `{Countable K} := mkVecBinTable { bin_inner : gmap K (list V) }.
Arguments mkVecBinTable {K V _ _} bin_inner.
Arguments bin_inner {K V _ _} _.

(** The position of [v] in a sorted slice, or as an error the position at which inserting it keeps the slice sorted. *)
Fixpoint binary_search `{Ord V} (vs : list V) (v : V) : result nat nat :=
  match vs with
  | [] => Err 0%nat
  | x :: vs =>
      match ord_cmp x v with
      | Eq => Ok 0%nat
      | Gt => Err 0%nat
      | Lt => match binary_search vs v with Ok i => Ok (S i) | Err i => Err (S i) end
      end
  end.

(** [vs.insert(i, v)] and [vs.remove(i)], at positions that are in range. *)
Definition vec_insert {V} (i : nat) (v : V) (vs : list V) : list V := take i vs ++ v :: drop i vs.
Definition vec_remove {V} (i : nat) (vs : list V) : list V := take i vs ++ drop (S i) vs.

Section vec_bin_table.
Context `{Countable K} `{Ord V}.
Implicit Types (self : VecBinTable K V) (k : K) (v : V).

Definition VecBinTable_default : VecBinTable K V := mkVecBinTable ∅.
Definition VecBinTable_fetch self k : option (list V) := Some (default [] (bin_inner self !! k)).
Definition VecBinTable_exist self '(k, v) : bool :=
  match bin_inner self !! k with
  | Some vs => is_ok (binary_search vs v)
  | None => false
  end.
Definition VecBinTable_insert self '(k, v) (_ : unit) : VecBinTable K V :=
  let vs := default [] (bin_inner self !! k) in
  mkVecBinTable (<[k := match binary_search vs v with Err i => vec_insert i v vs | Ok _ => vs end]> (bin_inner self)).
Definition VecBinTable_delete self '(k, v) : VecBinTable K V :=
  match bin_inner self !! k with
  | Some vs =>
      mkVecBinTable (<[k := match binary_search vs v with Ok i => vec_remove i vs | Err _ => vs end]> (bin_inner self))
  | None => self
  end.
Definition VecBinTable_truncate self : VecBinTable K V := mkVecBinTable ∅.
Definition VecBinTable_iter `{HashOrder} self : VecTableIter K V := VecTableIter_new (hash_iter (bin_inner self)).
Definition VecBinTable_batch_commit self (batch : TableBatch (K * V) unit) : VecBinTable K V :=
  foldl (fun self op =>
           match op with
           | BatchOp_Insert (k, v) _ =>
               let vs := default [] (bin_inner self !! k) in
               mkVecBinTable
                 (<[k := match binary_search vs v with Err i => vec_insert i v vs | Ok _ => vs end]> (bin_inner self))
           | BatchOp_Delete (k, v) =>
               match bin_inner self !! k with
               | Some vs =>
                   mkVecBinTable
                     (<[k := match binary_search vs v with Ok i => vec_remove i vs | Err _ => vs end]> (bin_inner self))
               | None => self
               end
           end) self (batch_ops batch).
End vec_bin_table.

(** *** [SingletonTable] *)

Record SingletonTable (V : Type) := mkSingletonTable { singleton_inner : option V }.
Arguments mkSingletonTable {V} singleton_inner.
Arguments singleton_inner {V} _.

Section singleton_table.
Context {V : Type}.
Implicit Types (self : SingletonTable V) (v : V).

Definition SingletonTable_default : SingletonTable V := mkSingletonTable None.
Definition SingletonTable_fetch self (_ : unit) : option V := singleton_inner self.
Definition SingletonTable_exist self (_ : unit) : bool := bool_decide (is_Some (singleton_inner self)).
Definition SingletonTable_insert self (_ : unit) v : SingletonTable V := mkSingletonTable (Some v).
Definition SingletonTable_delete self (_ : unit) : SingletonTable V := mkSingletonTable None.
Definition SingletonTable_truncate self : SingletonTable V := mkSingletonTable None.
Definition SingletonTable_iter {E} self : list (result E (unit * V)) :=
  match singleton_inner self with Some v => [Ok (tt, v)] | None => [] end.
Definition SingletonTable_batch_commit self (batch : TableBatch unit V) : SingletonTable V :=
  foldl (fun self op =>
           match op with
           | BatchOp_Insert _ v => mkSingletonTable (Some v)
           | BatchOp_Delete _ => mkSingletonTable None
           end) self (batch_ops batch).
End singleton_table.

(** What the macros use of a table: [$field.insert], [$field.delete], [$field.exist], [$field.truncate] and
    [$field.batch_commit]. *)
Class TableLike (T K V : Type) := {
  tl_insert : T -> K -> V -> T;
  tl_delete : T -> K -> T;
  tl_exist : T -> K -> bool;
  tl_truncate : T -> T;
  tl_commit : T -> TableBatch K V -> T;
}.
#[export] Instance Table_like `{Countable K} V : TableLike (Table K V) K V :=
  {| tl_insert := Table_insert; tl_delete := Table_delete; tl_exist := Table_exist;
     tl_truncate := Table_truncate; tl_commit := Table_batch_commit |}.
#[export] Instance VecTable_like `{Countable K} `{EqDecision V} : TableLike (VecTable K V) (K * V) unit :=
  {| tl_insert := VecTable_insert; tl_delete := VecTable_delete; tl_exist := VecTable_exist; tl_truncate := VecTable_truncate;
     tl_commit := VecTable_batch_commit |}.
#[export] Instance VecBinTable_like `{Countable K} `{Ord V} : TableLike (VecBinTable K V) (K * V) unit :=
  {| tl_insert := VecBinTable_insert; tl_delete := VecBinTable_delete; tl_exist := VecBinTable_exist; tl_truncate := VecBinTable_truncate;
     tl_commit := VecBinTable_batch_commit |}.
#[export] Instance SingletonTable_like V : TableLike (SingletonTable V) unit V :=
  {| tl_insert := SingletonTable_insert; tl_delete := SingletonTable_delete; tl_exist := SingletonTable_exist; tl_truncate := SingletonTable_truncate;
     tl_commit := SingletonTable_batch_commit |}.

(** ** Orders *)

Lemma lex_compare_antisym l l' : lex_compare l' l = CompOpp (lex_compare l l').
Proof.
  revert l'. induction l as [|b l IH]; intros [|b' l']; cbn; try done.
  rewrite (Z.compare_antisym (u8_of_byte b) (u8_of_byte b')). destruct (u8_of_byte b ?= u8_of_byte b'); cbn; auto.
Qed.

#[export] Instance OutputId_ord_ok : OrdOk OutputId.
Proof.
  split; unfold ord_cmp, OutputId_ord.
  - intros [[x] i] [[y] j]; cbn. split.
    + destruct (lex_compare x y) eqn:E; try done. apply lex_compare_eq in E as ->. by intros ->%Z.compare_eq.
    + intros [= -> ->]. by rewrite lex_compare_refl, Z.compare_refl.
  - intros [[x] i] [[y] j]; cbn. rewrite (lex_compare_antisym x y), (Z.compare_antisym i j).
    by destruct (lex_compare x y), (i ?= j).
  - intros [[x] i] [[y] j] [[z] k]; cbn.
    destruct (lex_compare x y) eqn:E, (lex_compare y z) eqn:F; try done.
    + apply lex_compare_eq in E as ->, F as ->. rewrite lex_compare_refl, !Z.compare_lt_iff. lia.
    + apply lex_compare_eq in E as ->. by rewrite F.
    + apply lex_compare_eq in F as ->. by rewrite E.
    + by rewrite (lex_lt_trans x y z E F).
Qed.

#[export] Instance MessageId_ord_ok : OrdOk MessageId.
Proof.
  split; unfold ord_cmp, MessageId_ord.
  - intros [x] [y]; cbn. split; [by intros ->%lex_compare_eq | intros [= ->]; apply lex_compare_refl].
  - intros [x] [y]. apply lex_compare_antisym.
  - intros [x] [y] [z]. apply lex_lt_trans.
Qed.

(** ** Vectors *)

Section vectors.
Context `{EqDecision V}.
Implicit Types (vs : list V) (v x : V).

Lemma contains_true vs v : contains vs v = true <-> v ∈ vs.
Proof.
  unfold contains. rewrite existsb_exists. setoid_rewrite bool_decide_eq_true. setoid_rewrite <- list_elem_of_In.
  naive_solver.
Qed.

Lemma push_new_spec vs v :
  NoDup vs ->
  let vs' := if contains vs v then vs else vs ++ [v] in
  NoDup vs' /\ forall x, x ∈ vs' <-> x = v \/ x ∈ vs.
Proof.
  intros Hd. cbn. destruct (contains vs v) eqn:E.
  - apply contains_true in E. naive_solver.
  - assert (v ∉ vs) by (rewrite <- contains_true; congruence). split.
    + apply NoDup_app. split_and!; [done | set_solver | apply NoDup_singleton].
    + set_solver.
Qed.

Lemma remove_first_spec vs v :
  NoDup vs -> NoDup (remove_first v vs) /\ forall x, x ∈ remove_first v vs <-> x <> v /\ x ∈ vs.
Proof.
  induction 1 as [|y vs Hy Hd [IHd IH]]; cbn; [split; [constructor | set_solver]|].
  case_decide as E; [subst; split; [done | set_solver]|]. split; [constructor; [|done]|]; set_solver.
Qed.
End vectors.

(** Membership in lists given by cases. *)
Ltac elem_case := let y := fresh in intros y; rewrite ?elem_of_cons, ?elem_of_nil in *; naive_solver.

Definition ord_lt `{Ord V} (x y : V) : Prop := ord_cmp x y = Lt.

Section sorted.
Context `{OrdOk V}.
Implicit Types (vs : list V) (v x : V).

Lemma ord_cmp_gt x y : ord_cmp x y = Gt -> ord_lt y x.
Proof. unfold ord_lt. rewrite (ord_cmp_antisym x y). by intros ->. Qed.

Lemma ord_lt_irrefl x : ~ ord_lt x x.
Proof. unfold ord_lt. by rewrite (proj2 (ord_cmp_eq x x)). Qed.

Lemma ord_lt_Forall x y vs : ord_lt x y -> Forall (ord_lt y) vs -> Forall (ord_lt x) vs.
Proof. intros Hx Hv. eapply Forall_impl; [exact Hv|]. intros z. by apply ord_cmp_trans. Qed.

Lemma sorted_NoDup vs : StronglySorted ord_lt vs -> NoDup vs.
Proof.
  induction 1 as [|x vs _ IH Hx]; constructor; [|done]. intros Hin. rewrite Forall_forall in Hx.
  by eapply ord_lt_irrefl, Hx.
Qed.

Lemma binary_search_ok vs v : StronglySorted ord_lt vs -> is_ok (binary_search vs v) = true <-> v ∈ vs.
Proof.
  induction 1 as [|x vs Hs IH Hx]; cbn; [set_solver|]. rewrite elem_of_cons, <- IH. rewrite Forall_forall in Hx.
  destruct (ord_cmp x v) eqn:E; cbn.
  - apply ord_cmp_eq in E as ->. naive_solver.
  - destruct (binary_search vs v); cbn; (split; [naive_solver|]); intros [->|?]; try done;
      by apply ord_lt_irrefl in E.
  - split; [done|]. apply ord_cmp_gt in E. intros [->|Hv].
    + by apply ord_lt_irrefl in E.
    + exfalso. apply IH, Hx in Hv. eapply ord_lt_irrefl, ord_cmp_trans; eassumption.
Qed.

Lemma search_insert_spec vs v :
  StronglySorted ord_lt vs ->
  let vs' := match binary_search vs v with Err i => vec_insert i v vs | Ok _ => vs end in
  StronglySorted ord_lt vs' /\ forall x, x ∈ vs' <-> x = v \/ x ∈ vs.
Proof.
  cbn zeta. induction 1 as [|x vs Hs [IHs IH] Hx]; cbn [binary_search].
  - unfold vec_insert. cbn. split; [repeat constructor | elem_case].
  - destruct (ord_cmp x v) eqn:E.
    + apply ord_cmp_eq in E as ->. split; [by constructor | elem_case].
    + destruct (binary_search vs v) as [i|i]; [split; [by constructor | elem_case]|].
      change (vec_insert (S i) v (x :: vs)) with (x :: vec_insert i v vs). split; [|elem_case].
      constructor; [done|]. rewrite Forall_forall in *. intros y [->|Hy]%IH; [done | by apply Hx].
    + unfold vec_insert. cbn. apply ord_cmp_gt in E. split; [|elem_case].
      constructor; [by constructor|]. constructor; [done|]. by eapply ord_lt_Forall.
Qed.

Lemma search_remove_spec vs v :
  StronglySorted ord_lt vs ->
  let vs' := match binary_search vs v with Ok i => vec_remove i vs | Err _ => vs end in
  StronglySorted ord_lt vs' /\ forall x, x ∈ vs' <-> x <> v /\ x ∈ vs.
Proof.
  cbn zeta. induction 1 as [|x vs Hs [IHs IH] Hx]; [cbn; split; [constructor | elem_case]|]; cbn [binary_search].
  destruct (ord_cmp x v) eqn:E.
  - apply ord_cmp_eq in E as ->. unfold vec_remove. cbn. split; [done|].
    rewrite Forall_forall in Hx. intros y. rewrite elem_of_cons. split; [|naive_solver].
    intros Hy. split; [|by right]. intros ->. by eapply ord_lt_irrefl, Hx.
  - assert (x <> v) by (intros ->; by apply ord_lt_irrefl in E).
    destruct (binary_search vs v) as [i|i]; [|split; [by constructor | elem_case]].
    change (vec_remove (S i) (x :: vs)) with (x :: vec_remove i vs). split; [|elem_case].
    constructor; [done|]. rewrite Forall_forall in *. intros y [? Hy]%IH. by apply Hx.
  - apply ord_cmp_gt in E. rewrite Forall_forall in Hx.
    assert (v ∉ x :: vs).
    { rewrite not_elem_of_cons. split; [intros ->; by apply ord_lt_irrefl in E|].
      intros Hv%Hx. eapply ord_lt_irrefl, ord_cmp_trans; eassumption. }
    split; [constructor; [done | by rewrite Forall_forall] | elem_case].
Qed.
End sorted.

(** ** Tables as finite maps *)

Class TableView (T K V : Type) `{Countable K} := {
  tl_wf : T -> Prop;
  tl_view : T -> gmap K V;
}.

(** The operations of a table are those of the finite map it represents, and a batch is a sequence of operations. *)
Class TableLikeOk (T K V : Type) `{Countable K} `{TableLike T K V} `{!TableView T K V} : Prop := {
  tl_insert_ok t k v : tl_wf t -> tl_wf (tl_insert t k v) /\ tl_view (tl_insert t k v) = <[k := v]> (tl_view t);
  tl_delete_ok t k : tl_wf t -> tl_wf (tl_delete t k) /\ tl_view (tl_delete t k) = delete k (tl_view t);
  tl_exist_ok t k : tl_wf t -> tl_exist t k = bool_decide (is_Some (tl_view t !! k));
  tl_truncate_ok t : tl_wf (tl_truncate t) /\ tl_view (tl_truncate t) = ∅;
  tl_commit_ops t b :
    tl_commit t b = foldl (fun t op => match op with
                                       | BatchOp_Insert k v => tl_insert t k v
                                       | BatchOp_Delete k => tl_delete t k
                                       end) t (batch_ops b);
}.

(** What a batch does to a finite map. *)
Definition replay `{Countable K} {V} (b : TableBatch K V) (m : gmap K V) : gmap K V :=
  foldl (fun m op => match op with
                     | BatchOp_Insert k v => <[k := v]> m
                     | BatchOp_Delete k => delete k m
                     end) m (batch_ops b).

#[global] Arguments replay : simpl never.
#[global] Arguments TableBatch_insert : simpl never.
#[global] Arguments TableBatch_delete : simpl never.

Lemma replay_insert `{Countable K} {V} (b : TableBatch K V) k v m :
  replay (TableBatch_insert b k v) m = <[k := v]> (replay b m).
Proof. unfold replay, TableBatch_insert. cbn. by rewrite foldl_app. Qed.
Lemma replay_delete `{Countable K} {V} (b : TableBatch K V) k m :
  replay (TableBatch_delete b k) m = delete k (replay b m).
Proof. unfold replay, TableBatch_delete. cbn. by rewrite foldl_app. Qed.

Lemma tl_commit_ok `{TableLikeOk T K V} t b :
  tl_wf t -> tl_wf (tl_commit t b) /\ tl_view (tl_commit t b) = replay b (tl_view t).
Proof.
  rewrite tl_commit_ops. unfold replay. revert t. induction (batch_ops b) as [|[k v|k] ops IH]; intros t Ht; [done|..];
    cbn [foldl].
  - destruct (tl_insert_ok t k v Ht) as [? <-]. by apply IH.
  - destruct (tl_delete_ok t k Ht) as [? <-]. by apply IH.
Qed.

#[export] Instance Table_view `{Countable K} V : TableView (Table K V) K V :=
  {| tl_wf _ := True; tl_view := table_inner |}.
#[export] Instance Table_like_ok `{Countable K} V : TableLikeOk (Table K V) K V.
Proof. by split. Qed.

#[export] Instance SingletonTable_view V : TableView (SingletonTable V) unit V :=
  {| tl_wf _ := True; tl_view t := match singleton_inner t with Some v => {[tt := v]} | None => ∅ end |}.
#[export] Instance SingletonTable_like_ok V : TableLikeOk (SingletonTable V) unit V.
Proof.
  split; cbn.
  - intros t [] v _. split; [done|]. destruct (singleton_inner t) as [x|]; [by rewrite insert_singleton_eq | done].
  - intros t [] _. split; [done|]. destruct (singleton_inner t) as [x|]; [by rewrite delete_singleton_eq | by rewrite delete_empty].
  - intros [[v|]] [] _; cbn; [by rewrite lookup_singleton_eq | by rewrite lookup_empty].
  - done.
  - intros t [ops]; revert t; induction ops as [|[]]; cbn; auto.
Qed.

(** *** Tables of pairs *)

Definition pairs `{Countable K} {V} (m : gmap K (list V)) : list (K * V) :=
  concat ((fun e : K * list V => (fun v => (e.1, v)) <$> e.2) <$> map_to_list m).
Definition pairs_view `{Countable K} `{Countable V} (m : gmap K (list V)) : gmap (K * V) unit :=
  mark (pairs m).

Section pairs.
Context `{Countable K} `{Countable V}.
Implicit Types (m : gmap K (list V)) (k : K) (v : V) (vs : list V).

Lemma elem_of_pairs m k v : (k, v) ∈ pairs m <-> v ∈ default [] (m !! k).
Proof.
  unfold pairs. rewrite list_elem_of_In, in_concat. setoid_rewrite <- list_elem_of_In.
  setoid_rewrite list_elem_of_fmap. split.
  - intros (l & ((k' & vs) & -> & Hm) & (v' & [= -> ->] & Hv)%list_elem_of_fmap).
    apply elem_of_map_to_list in Hm. by rewrite Hm.
  - destruct (m !! k) as [vs|] eqn:E; cbn; [|set_solver]. intros Hv. eexists. split.
    + exists (k, vs). split; [done|]. by apply elem_of_map_to_list.
    + apply list_elem_of_fmap. eauto.
Qed.

Lemma pairs_view_lookup m k v : pairs_view m !! (k, v) = Some tt <-> v ∈ default [] (m !! k).
Proof. rewrite <- elem_of_pairs. apply mark_lookup. Qed.

Lemma pairs_view_empty : pairs_view (∅ : gmap K (list V)) = ∅.
Proof. unfold pairs_view, pairs. by rewrite map_to_list_empty. Qed.

Lemma pairs_view_insert m k v vs :
  (forall x, x ∈ vs <-> x = v \/ x ∈ default [] (m !! k)) ->
  pairs_view (<[k := vs]> m) = <[(k, v) := tt]> (pairs_view m).
Proof.
  intros E. apply unit_map_eq. intros [k' v']. rewrite pairs_view_lookup, lookup_insert_Some, pairs_view_lookup.
  destruct (decide (k = k')) as [->|Hk]; [rewrite lookup_insert_eq | rewrite lookup_insert_ne by done];
    cbn; rewrite ?E; destruct (decide (v = v')); naive_solver.
Qed.

Lemma pairs_view_delete m k v vs :
  (forall x, x ∈ vs <-> x <> v /\ x ∈ default [] (m !! k)) ->
  pairs_view (<[k := vs]> m) = delete (k, v) (pairs_view m).
Proof.
  intros E. apply unit_map_eq. intros [k' v']. rewrite pairs_view_lookup, lookup_delete_Some, pairs_view_lookup.
  destruct (decide (k = k')) as [->|Hk]; [rewrite lookup_insert_eq | rewrite lookup_insert_ne by done];
    cbn; rewrite ?E; destruct (decide (v = v')); naive_solver.
Qed.

Lemma pairs_view_delete_absent m k v : m !! k = None -> pairs_view m = delete (k, v) (pairs_view m).
Proof.
  intros E. symmetry. apply delete_id. apply eq_None_not_Some. intros [[] Hs%pairs_view_lookup]. rewrite E in Hs.
  by apply not_elem_of_nil in Hs.
Qed.

Lemma pairs_view_exist m k v (b : bool) :
  (b = true <-> v ∈ default [] (m !! k)) -> b = bool_decide (is_Some (pairs_view m !! (k, v))).
Proof.
  rewrite <- pairs_view_lookup. intros E. case_bool_decide as D.
  - destruct D as [[] D]. by apply E.
  - apply not_true_is_false. rewrite E. naive_solver.
Qed.
End pairs.

#[export] Instance VecTable_view `{Countable K} `{Countable V} : TableView (VecTable K V) (K * V) unit :=
  {| tl_wf t := forall k vs, vec_inner t !! k = Some vs -> NoDup vs; tl_view t := pairs_view (vec_inner t) |}.
#[export] Instance VecBinTable_view `{Countable K} `{Countable V} `{Ord V} : TableView (VecBinTable K V) (K * V) unit :=
  {| tl_wf t := forall k vs, bin_inner t !! k = Some vs -> StronglySorted ord_lt vs; tl_view t := pairs_view (bin_inner t) |}.

(** Replacing one vector keeps what holds of all of them. *)
Lemma all_insert `{Countable K} {V} (P : list V -> Prop) (m : gmap K (list V)) k vs :
  (forall k vs, m !! k = Some vs -> P vs) -> P vs -> forall k' vs', <[k := vs]> m !! k' = Some vs' -> P vs'.
Proof. intros Hm Hvs k' vs' [[-> ->]|[_ ?]]%lookup_insert_Some; eauto. Qed.

Lemma all_default `{Countable K} {V} (P : list V -> Prop) (m : gmap K (list V)) k :
  P [] -> (forall k vs, m !! k = Some vs -> P vs) -> P (default [] (m !! k)).
Proof. intros H0 Hm. destruct (m !! k) eqn:E; cbn; eauto. Qed.

#[export] Instance VecTable_like_ok `{Countable K} `{Countable V} : TableLikeOk (VecTable K V) (K * V) unit.
Proof.
  split; cbn [tl_wf tl_view VecTable_view tl_insert tl_delete tl_exist tl_truncate tl_commit VecTable_like].
  - intros [m] [k v] [] Hm. cbn in *. destruct (push_new_spec (default [] (m !! k)) v) as [Hd Hv].
    { apply all_default; [constructor | done]. }
    split; [by apply all_insert | by apply pairs_view_insert].
  - intros [m] [k v] Hm. cbn in *. destruct (m !! k) as [vs|] eqn:E; cbn.
    + destruct (remove_first_spec vs v) as [Hd Hv]; [by eapply Hm|].
      split; [by apply all_insert | apply pairs_view_delete; by rewrite E].
    + split; [done | by apply pairs_view_delete_absent].
  - intros [m] [k v] Hm. cbn in *. apply pairs_view_exist. destruct (m !! k); cbn; [apply contains_true | set_solver].
  - intros t. split; [by intros ? ? ? | apply pairs_view_empty].
  - intros t [ops]. unfold VecTable_batch_commit. cbn. revert t.
    induction ops as [|[[k v] []|[k v]] ops IH]; intros t; cbn; [done | apply IH | apply IH].
Qed.

#[export] Instance VecBinTable_like_ok `{Countable K} `{Countable V} `{OrdOk V} :
  TableLikeOk (VecBinTable K V) (K * V) unit.
Proof.
  split; cbn [tl_wf tl_view VecBinTable_view tl_insert tl_delete tl_exist tl_truncate tl_commit
    VecBinTable_like].
  - intros [m] [k v] [] Hm. cbn in *. destruct (search_insert_spec (default [] (m !! k)) v) as [Hd Hv].
    { apply all_default; [constructor | done]. }
    split; [by apply all_insert | by apply pairs_view_insert].
  - intros [m] [k v] Hm. cbn in *. destruct (m !! k) as [vs|] eqn:E; cbn.
    + destruct (search_remove_spec vs v) as [Hd Hv]; [by eapply Hm|].
      split; [by apply all_insert | apply pairs_view_delete; by rewrite E].
    + split; [done | by apply pairs_view_delete_absent].
  - intros [m] [k v] Hm. cbn in *. apply pairs_view_exist. specialize (Hm k).
    destruct (m !! k); cbn; [apply binary_search_ok; auto | set_solver].
  - intros t. split; [by intros ? ? ? | apply pairs_view_empty].
  - intros t [ops]. unfold VecBinTable_batch_commit. cbn. revert t.
    induction ops as [|[[k v] []|[k v]] ops IH]; intros t; cbn; [done | apply IH | apply IH].
Qed.

(** ** Iteration *)

Section iteration.
Context {K V : Type}.
Implicit Types (it : VecTableIter K V) (entries : list (K * list V)).

(** What an iterator still yields. *)
Definition entry_elems (e : K * list V) : list (K * V) := (fun v => (e.1, v)) <$> reverse e.2.
Arguments entry_elems : simpl never.
Definition iter_elems it : list (K * V) :=
  from_option entry_elems [] (iter_head it) ++ concat (entry_elems <$> iter_tail it).

Lemma entry_elems_pop (k : K) (vs : list V) :
  match vec_pop vs with
  | Some (v, vs') => entry_elems (k, vs) = (k, v) :: entry_elems (k, vs')
  | None => entry_elems (k, vs) = []
  end.
Proof.
  unfold vec_pop, entry_elems. cbn [fst snd]. destruct (reverse vs) as [|v vs']; [done|].
  cbn [fst snd]. by rewrite reverse_involutive.
Qed.

Lemma VecTableIter_advance_elems entries :
  match VecTableIter_advance entries with
  | Some (k, v, it') => concat (entry_elems <$> entries) = (k, v) :: iter_elems it'
  | None => concat (entry_elems <$> entries) = []
  end.
Proof.
  induction entries as [|[k vs] entries IH]; cbn; [done|]. pose proof (entry_elems_pop k vs) as Hp.
  destruct (vec_pop vs) as [[v vs']|]; [by rewrite Hp | by rewrite Hp].
Qed.

Lemma VecTableIter_next_elems it :
  match VecTableIter_next it with
  | Some (k, v, it') => iter_elems it = (k, v) :: iter_elems it'
  | None => iter_elems it = []
  end.
Proof.
  destruct it as [[[k vs]|] tail]; unfold VecTableIter_next, iter_elems; cbn.
  - pose proof (entry_elems_pop k vs) as Hp. destruct (vec_pop vs) as [[v vs']|]; cbn; rewrite Hp; [done|].
    apply VecTableIter_advance_elems.
  - apply VecTableIter_advance_elems.
Qed.

Lemma VecTableIter_take_elems n it : VecTableIter_take n it = take n (iter_elems it).
Proof.
  revert it. induction n as [|n IH]; intros it; [done|]. cbn [VecTableIter_take].
  pose proof (VecTableIter_next_elems it) as Hn. destruct (VecTableIter_next it) as [[[k v] it']|]; rewrite Hn; [|done].
  cbn. by rewrite IH.
Qed.

Lemma iter_elems_new entries :
  Permutation (iter_elems (VecTableIter_new entries))
    (concat ((fun e : K * list V => (fun v => (e.1, v)) <$> e.2) <$> entries)).
Proof.
  assert (iter_elems (VecTableIter_new entries) = concat (entry_elems <$> entries)) as -> by by destruct entries.
  induction entries as [|e entries IH]; [done|]. cbn. rewrite IH. unfold entry_elems. by rewrite reverse_Permutation.
Qed.
End iteration.

Lemma pairs_NoDup `{Countable K} {V} (m : gmap K (list V)) :
  (forall k vs, m !! k = Some vs -> NoDup vs) -> NoDup (pairs m).
Proof.
  unfold pairs. intros Hm. assert (Hl : Forall (fun e => NoDup e.2) (map_to_list m)).
  { apply Forall_forall. intros [k vs] Hin%elem_of_map_to_list. by eapply Hm. }
  pose proof (NoDup_fst_map_to_list m) as Hd. revert Hl Hd. generalize (map_to_list m) as l. clear Hm m.
  induction l as [|[k vs] l IH]; cbn; [constructor|]. intros [Hvs Hl]%Forall_cons [Hk Hd]%NoDup_cons.
  apply NoDup_app. split_and!; [|intros [k' v]|by apply IH].
  - apply NoDup_fmap_2; [|done]. by intros ? ? [= ->].
  - intros (v' & [= -> ->] & _)%list_elem_of_fmap. rewrite list_elem_of_In, in_concat. setoid_rewrite <- list_elem_of_In.
    intros (x & (e & -> & He)%list_elem_of_fmap & (v'' & [= -> ->] & _)%list_elem_of_fmap).
    apply Hk. apply list_elem_of_fmap. by exists e.
Qed.

(** ** Claims *)

(** Every kind of table refines a finite map: inserting, deleting and testing for a key of the table are those of the
    map it represents, for tables of vectors (searched linearly or, sorted, by binary search) a map keyed by pairs, and
    the representation invariant (no duplicates, sortedness) is kept; committing a batch replays its operations in the
    order in which they were added. *)
Theorem tables_refine_maps `{Countable K} `{Countable V} `{OrdOk V} :
  TableLikeOk (Table K V) K V /\ TableLikeOk (SingletonTable V) unit V
  /\ TableLikeOk (VecTable K V) (K * V) unit /\ TableLikeOk (VecBinTable K V) (K * V) unit
  /\ (forall (t : VecBinTable K V) b, tl_wf t ->
        tl_wf (VecBinTable_batch_commit t b) /\ tl_view (VecBinTable_batch_commit t b) = replay b (tl_view t)).
Proof. split_and!; try apply _. intros t b Ht. exact (tl_commit_ok (K := K * V) (V := unit) t b Ht). Qed.

(** Iterating over a table of vectors yields every pair of the table exactly once and then ends, also where deletions
    have left empty vectors behind. *)
Theorem vec_table_iteration `{HashOrderOk} `{Countable K} `{Countable V} (t : VecTable K V) n :
  tl_wf t -> (length (pairs (vec_inner t)) <= n)%nat ->
  NoDup (VecTableIter_take n (VecTable_iter t))
  /\ forall k v, (k, v) ∈ VecTableIter_take n (VecTable_iter t) <-> VecTable_exist t (k, v) = true.
Proof.
  intros Ht Hn. rewrite VecTableIter_take_elems.
  assert (Hp : Permutation (iter_elems (VecTable_iter t)) (pairs (vec_inner t))).
  { unfold VecTable_iter. rewrite iter_elems_new. unfold pairs. by rewrite hash_iter_perm. }
  rewrite take_ge by by rewrite Hp. split; [rewrite Hp; by apply pairs_NoDup|].
  intros k v. rewrite Hp, elem_of_pairs. unfold VecTable_exist. destruct (vec_inner t !! k) as [vs|]; cbn.
  - by rewrite contains_true.
  - set_solver.
Qed.

(** ** Evaluation *)

Module Examples.
Import Concrete.

Definition id (b : Byte.byte) (i : Z) : OutputId := mkOutputId (TransactionId_new (repeat b 32)) i.
Definition vec_example : VecTable MilestoneIndex OutputId :=
  VecTable_insert (VecTable_insert VecTable_default (MilestoneIndex_new 1, id Byte.x02 0) tt)
    (MilestoneIndex_new 1, id Byte.x01 7) tt.

Definition batch_example : TableBatch (Z * OutputId) unit :=
  TableBatch_insert (TableBatch_insert TableBatch_default (1, id Byte.x02 0) tt) (1, id Byte.x01 7) tt.

Lemma tables_refine_maps_witness :
  tl_view (VecBinTable_batch_commit VecBinTable_default batch_example) !! (1, id Byte.x02 0) = Some tt.
Proof.
  pose proof (tables_refine_maps (K := Z) (V := OutputId)) as (_ & _ & _ & _ & Hc).
  destruct (Hc VecBinTable_default batch_example) as [_ ->]; [by intros ? ? ?|].
  unfold batch_example. rewrite !replay_insert. by rewrite lookup_insert_ne, lookup_insert_eq.
Defined.

Lemma vec_table_iteration_witness : NoDup (VecTableIter_take 5 (VecTable_iter vec_example)).
Proof.
  apply (vec_table_iteration vec_example 5); [|vm_compute; repeat constructor].
  refine (proj1 (tl_insert_ok (T := VecTable MilestoneIndex OutputId) _ _ tt
                   (proj1 (tl_insert_ok (T := VecTable MilestoneIndex OutputId) _ _ tt _)))). by intros ? ? ?.
Defined.

End Examples.
