(* ===== verification/StorageMemory.v ===== *)
(** * The in-memory backend

    Models [bee-storage/bee-storage-memory/src]: the storage and its lock, starting and stopping it, and the
    implementations of the access traits, which the source generates with macros. The claim is that the backend keeps the
    contract of [Storage]: each table of the backend represents one table of the contract ([MemoryTable]), from which the
    law of every operation follows. *)

From S2P Require Import Prelude External MessageTypes Payload PayloadKeys Message TangleTypes LedgerTypes.
From S2P Require Import StorageSystem Storage StorageTables.
From stdpp Require Import pretty.
From Stdlib Require Import Sorting.Sorted.

Local Open Scope Z_scope.

(** ** The storage: [storage.rs] *)

Inductive StorageMemoryError :=
| PoisonedLock
| VersionMismatch (found expected : StorageVersion)
| UnhealthyStorage (health : StorageHealth).

(** [RwLock]: a lock is poisoned when a thread has panicked while writing. *)
Record RwLock (A : Type) := mkRwLock { lock_poisoned : bool; lock_value : A }.
Arguments mkRwLock {A} lock_poisoned lock_value.
Arguments lock_poisoned {A} _.
Arguments lock_value {A} _.

Definition RwLock_read {A} (l : RwLock A) : result StorageMemoryError A :=
  if lock_poisoned l then Err PoisonedLock else Ok (lock_value l).
Definition RwLock_write {A} (l : RwLock A) (f : A -> A) : result StorageMemoryError (RwLock A) :=
  if lock_poisoned l then Err PoisonedLock else Ok (mkRwLock false (f (lock_value l))).

Record InnerStorage := mkInnerStorage {
  memory_system : Table Z System;
  message_id_to_message : Table MessageId Message;
  message_id_to_metadata : Table MessageId MessageMetadata;
  message_id_to_message_id : VecBinTable MessageId MessageId;
  index_to_message_id : VecBinTable PaddedIndex MessageId;
  output_id_to_created_output : Table OutputId CreatedOutput;
  output_id_to_consumed_output : Table OutputId ConsumedOutput;
  output_id_unspent : Table Unspent unit;
  ed25519_address_to_output_id : VecBinTable Ed25519Address OutputId;
  memory_ledger_index : SingletonTable LedgerIndex;
  milestone_index_to_milestone : Table MilestoneIndex Milestone;
  memory_snapshot_info : SingletonTable SnapshotInfo;
  solid_entry_point_to_milestone_index : Table SolidEntryPoint MilestoneIndex;
  milestone_index_to_output_diff : Table MilestoneIndex OutputDiff;
  address_to_balance : Table Address Balance;
  milestone_index_to_unreferenced_message : VecTable MilestoneIndex UnreferencedMessage;
  milestone_index_to_receipt : VecTable MilestoneIndex Receipt;
  spent_to_treasury_output : VecTable bool LedgerTreasuryOutput;
}.

Definition InnerStorage_default : InnerStorage :=
  mkInnerStorage Table_default Table_default Table_default VecBinTable_default VecBinTable_default
    Table_default Table_default Table_default VecBinTable_default SingletonTable_default
    Table_default SingletonTable_default Table_default Table_default Table_default
    VecTable_default VecTable_default VecTable_default.

Record Storage := mkStorage { storage_inner : RwLock InnerStorage }.
Definition Storage_new : Storage := mkStorage (mkRwLock false InnerStorage_default).

Definition STORAGE_VERSION : StorageVersion := mkStorageVersion 0.

Record StorageBatch := mkStorageBatch {
  b_message : TableBatch MessageId Message;
  b_metadata : TableBatch MessageId MessageMetadata;
  b_edge : TableBatch (MessageId * MessageId) unit;
  b_indexation : TableBatch (PaddedIndex * MessageId) unit;
  b_created : TableBatch OutputId CreatedOutput;
  b_consumed : TableBatch OutputId ConsumedOutput;
  b_unspent : TableBatch Unspent unit;
  b_address : TableBatch (Ed25519Address * OutputId) unit;
  b_index : TableBatch unit LedgerIndex;
  b_milestone : TableBatch MilestoneIndex Milestone;
  b_info : TableBatch unit SnapshotInfo;
  b_sep : TableBatch SolidEntryPoint MilestoneIndex;
  b_diff : TableBatch MilestoneIndex OutputDiff;
  b_balance : TableBatch Address Balance;
  b_unreferenced : TableBatch (MilestoneIndex * UnreferencedMessage) unit;
  b_receipt : TableBatch (MilestoneIndex * Receipt) unit;
  b_treasury : TableBatch (bool * LedgerTreasuryOutput) unit;
}.

Definition StorageBatch_default : StorageBatch :=
  mkStorageBatch TableBatch_default TableBatch_default TableBatch_default TableBatch_default TableBatch_default
    TableBatch_default TableBatch_default TableBatch_default TableBatch_default TableBatch_default
    TableBatch_default TableBatch_default TableBatch_default TableBatch_default TableBatch_default
    TableBatch_default TableBatch_default.

(** The fields the macros name. *)
#[export] Instance memory_field_system : Field InnerStorage (Table Z System) :=
  {| get_field := memory_system;
     set_field x '(mkInnerStorage _ b c d e f g h i j k l m n o p q r) := mkInnerStorage x b c d e f g h i j k l m n o p q r |}.
#[export] Instance memory_field_message : Field InnerStorage (Table MessageId Message) :=
  {| get_field := message_id_to_message;
     set_field x '(mkInnerStorage a _ c d e f g h i j k l m n o p q r) := mkInnerStorage a x c d e f g h i j k l m n o p q r |}.
#[export] Instance memory_field_metadata : Field InnerStorage (Table MessageId MessageMetadata) :=
  {| get_field := message_id_to_metadata;
     set_field x '(mkInnerStorage a b _ d e f g h i j k l m n o p q r) := mkInnerStorage a b x d e f g h i j k l m n o p q r |}.
#[export] Instance memory_field_edge : Field InnerStorage (VecBinTable MessageId MessageId) :=
  {| get_field := message_id_to_message_id;
     set_field x '(mkInnerStorage a b c _ e f g h i j k l m n o p q r) := mkInnerStorage a b c x e f g h i j k l m n o p q r |}.
#[export] Instance memory_field_indexation : Field InnerStorage (VecBinTable PaddedIndex MessageId) :=
  {| get_field := index_to_message_id;
     set_field x '(mkInnerStorage a b c d _ f g h i j k l m n o p q r) := mkInnerStorage a b c d x f g h i j k l m n o p q r |}.
#[export] Instance memory_field_created : Field InnerStorage (Table OutputId CreatedOutput) :=
  {| get_field := output_id_to_created_output;
     set_field x '(mkInnerStorage a b c d e _ g h i j k l m n o p q r) := mkInnerStorage a b c d e x g h i j k l m n o p q r |}.
#[export] Instance memory_field_consumed : Field InnerStorage (Table OutputId ConsumedOutput) :=
  {| get_field := output_id_to_consumed_output;
     set_field x '(mkInnerStorage a b c d e f _ h i j k l m n o p q r) := mkInnerStorage a b c d e f x h i j k l m n o p q r |}.
#[export] Instance memory_field_unspent : Field InnerStorage (Table Unspent unit) :=
  {| get_field := output_id_unspent;
     set_field x '(mkInnerStorage a b c d e f g _ i j k l m n o p q r) := mkInnerStorage a b c d e f g x i j k l m n o p q r |}.
#[export] Instance memory_field_address : Field InnerStorage (VecBinTable Ed25519Address OutputId) :=
  {| get_field := ed25519_address_to_output_id;
     set_field x '(mkInnerStorage a b c d e f g h _ j k l m n o p q r) := mkInnerStorage a b c d e f g h x j k l m n o p q r |}.
#[export] Instance memory_field_index : Field InnerStorage (SingletonTable LedgerIndex) :=
  {| get_field := memory_ledger_index;
     set_field x '(mkInnerStorage a b c d e f g h i _ k l m n o p q r) := mkInnerStorage a b c d e f g h i x k l m n o p q r |}.
#[export] Instance memory_field_milestone : Field InnerStorage (Table MilestoneIndex Milestone) :=
  {| get_field := milestone_index_to_milestone;
     set_field x '(mkInnerStorage a b c d e f g h i j _ l m n o p q r) := mkInnerStorage a b c d e f g h i j x l m n o p q r |}.
#[export] Instance memory_field_info : Field InnerStorage (SingletonTable SnapshotInfo) :=
  {| get_field := memory_snapshot_info;
     set_field x '(mkInnerStorage a b c d e f g h i j k _ m n o p q r) := mkInnerStorage a b c d e f g h i j k x m n o p q r |}.
#[export] Instance memory_field_sep : Field InnerStorage (Table SolidEntryPoint MilestoneIndex) :=
  {| get_field := solid_entry_point_to_milestone_index;
     set_field x '(mkInnerStorage a b c d e f g h i j k l _ n o p q r) := mkInnerStorage a b c d e f g h i j k l x n o p q r |}.
#[export] Instance memory_field_diff : Field InnerStorage (Table MilestoneIndex OutputDiff) :=
  {| get_field := milestone_index_to_output_diff;
     set_field x '(mkInnerStorage a b c d e f g h i j k l m _ o p q r) := mkInnerStorage a b c d e f g h i j k l m x o p q r |}.
#[export] Instance memory_field_balance : Field InnerStorage (Table Address Balance) :=
  {| get_field := address_to_balance;
     set_field x '(mkInnerStorage a b c d e f g h i j k l m n _ p q r) := mkInnerStorage a b c d e f g h i j k l m n x p q r |}.
#[export] Instance memory_field_unreferenced : Field InnerStorage (VecTable MilestoneIndex UnreferencedMessage) :=
  {| get_field := milestone_index_to_unreferenced_message;
     set_field x '(mkInnerStorage a b c d e f g h i j k l m n o _ q r) := mkInnerStorage a b c d e f g h i j k l m n o x q r |}.
#[export] Instance memory_field_receipt : Field InnerStorage (VecTable MilestoneIndex Receipt) :=
  {| get_field := milestone_index_to_receipt;
     set_field x '(mkInnerStorage a b c d e f g h i j k l m n o p _ r) := mkInnerStorage a b c d e f g h i j k l m n o p x r |}.
#[export] Instance memory_field_treasury : Field InnerStorage (VecTable bool LedgerTreasuryOutput) :=
  {| get_field := spent_to_treasury_output;
     set_field x '(mkInnerStorage a b c d e f g h i j k l m n o p q _) := mkInnerStorage a b c d e f g h i j k l m n o p q x |}.
#[export] Instance batch_field_message : Field StorageBatch (TableBatch MessageId Message) :=
  {| get_field := b_message;
     set_field x '(mkStorageBatch _ b c d e f g h i j k l m n o p q) := mkStorageBatch x b c d e f g h i j k l m n o p q |}.
#[export] Instance batch_field_metadata : Field StorageBatch (TableBatch MessageId MessageMetadata) :=
  {| get_field := b_metadata;
     set_field x '(mkStorageBatch a _ c d e f g h i j k l m n o p q) := mkStorageBatch a x c d e f g h i j k l m n o p q |}.
#[export] Instance batch_field_edge : Field StorageBatch (TableBatch (MessageId * MessageId) unit) :=
  {| get_field := b_edge;
     set_field x '(mkStorageBatch a b _ d e f g h i j k l m n o p q) := mkStorageBatch a b x d e f g h i j k l m n o p q |}.
#[export] Instance batch_field_indexation : Field StorageBatch (TableBatch (PaddedIndex * MessageId) unit) :=
  {| get_field := b_indexation;
     set_field x '(mkStorageBatch a b c _ e f g h i j k l m n o p q) := mkStorageBatch a b c x e f g h i j k l m n o p q |}.
#[export] Instance batch_field_created : Field StorageBatch (TableBatch OutputId CreatedOutput) :=
  {| get_field := b_created;
     set_field x '(mkStorageBatch a b c d _ f g h i j k l m n o p q) := mkStorageBatch a b c d x f g h i j k l m n o p q |}.
#[export] Instance batch_field_consumed : Field StorageBatch (TableBatch OutputId ConsumedOutput) :=
  {| get_field := b_consumed;
     set_field x '(mkStorageBatch a b c d e _ g h i j k l m n o p q) := mkStorageBatch a b c d e x g h i j k l m n o p q |}.
#[export] Instance batch_field_unspent : Field StorageBatch (TableBatch Unspent unit) :=
  {| get_field := b_unspent;
     set_field x '(mkStorageBatch a b c d e f _ h i j k l m n o p q) := mkStorageBatch a b c d e f x h i j k l m n o p q |}.
#[export] Instance batch_field_address : Field StorageBatch (TableBatch (Ed25519Address * OutputId) unit) :=
  {| get_field := b_address;
     set_field x '(mkStorageBatch a b c d e f g _ i j k l m n o p q) := mkStorageBatch a b c d e f g x i j k l m n o p q |}.
#[export] Instance batch_field_index : Field StorageBatch (TableBatch unit LedgerIndex) :=
  {| get_field := b_index;
     set_field x '(mkStorageBatch a b c d e f g h _ j k l m n o p q) := mkStorageBatch a b c d e f g h x j k l m n o p q |}.
#[export] Instance batch_field_milestone : Field StorageBatch (TableBatch MilestoneIndex Milestone) :=
  {| get_field := b_milestone;
     set_field x '(mkStorageBatch a b c d e f g h i _ k l m n o p q) := mkStorageBatch a b c d e f g h i x k l m n o p q |}.
#[export] Instance batch_field_info : Field StorageBatch (TableBatch unit SnapshotInfo) :=
  {| get_field := b_info;
     set_field x '(mkStorageBatch a b c d e f g h i j _ l m n o p q) := mkStorageBatch a b c d e f g h i j x l m n o p q |}.
#[export] Instance batch_field_sep : Field StorageBatch (TableBatch SolidEntryPoint MilestoneIndex) :=
  {| get_field := b_sep;
     set_field x '(mkStorageBatch a b c d e f g h i j k _ m n o p q) := mkStorageBatch a b c d e f g h i j k x m n o p q |}.
#[export] Instance batch_field_diff : Field StorageBatch (TableBatch MilestoneIndex OutputDiff) :=
  {| get_field := b_diff;
     set_field x '(mkStorageBatch a b c d e f g h i j k l _ n o p q) := mkStorageBatch a b c d e f g h i j k l x n o p q |}.
#[export] Instance batch_field_balance : Field StorageBatch (TableBatch Address Balance) :=
  {| get_field := b_balance;
     set_field x '(mkStorageBatch a b c d e f g h i j k l m _ o p q) := mkStorageBatch a b c d e f g h i j k l m x o p q |}.
#[export] Instance batch_field_unreferenced : Field StorageBatch (TableBatch (MilestoneIndex * UnreferencedMessage) unit) :=
  {| get_field := b_unreferenced;
     set_field x '(mkStorageBatch a b c d e f g h i j k l m n _ p q) := mkStorageBatch a b c d e f g h i j k l m n x p q |}.
#[export] Instance batch_field_receipt : Field StorageBatch (TableBatch (MilestoneIndex * Receipt) unit) :=
  {| get_field := b_receipt;
     set_field x '(mkStorageBatch a b c d e f g h i j k l m n o _ q) := mkStorageBatch a b c d e f g h i j k l m n o x q |}.
#[export] Instance batch_field_treasury : Field StorageBatch (TableBatch (bool * LedgerTreasuryOutput) unit) :=
  {| get_field := b_treasury;
     set_field x '(mkStorageBatch a b c d e f g h i j k l m n o p _) := mkStorageBatch a b c d e f g h i j k l m n o p x |}.

(** [{:?}] of the version and of the health. *)
Definition version_debug (v : StorageVersion) : string := "StorageVersion(" +:+ pretty (storage_version v) +:+ ")".
Definition health_debug (h : StorageHealth) : string :=
  match h with Healthy => "Healthy" | Idle => "Idle" | Corrupted => "Corrupted" end.

#[export] Instance Storage_backend : StorageBackend Storage := {|
  storage_error := StorageMemoryError;
  storage_error_display e :=
    match e with
    | PoisonedLock => "A lock is poisoned"
    | VersionMismatch found expected =>
        "Storage version mismatch, " +:+ version_debug found +:+ " != " +:+ version_debug expected
          +:+ ", remove storage folder and restart"
    | UnhealthyStorage health =>
        "Unhealthy storage: " +:+ health_debug health +:+ ", remove storage folder and restart"
    end%string;
|}.

(** ** The access traits: [access/] *)

(** [batch_commit]: one [apply_batch!] per table. *)
Definition apply_batch (batch : StorageBatch) (inner : InnerStorage) : InnerStorage :=
  mkInnerStorage
    (memory_system inner)
    (tl_commit (message_id_to_message inner) (b_message batch))
    (tl_commit (message_id_to_metadata inner) (b_metadata batch))
    (tl_commit (message_id_to_message_id inner) (b_edge batch))
    (tl_commit (index_to_message_id inner) (b_indexation batch))
    (tl_commit (output_id_to_created_output inner) (b_created batch))
    (tl_commit (output_id_to_consumed_output inner) (b_consumed batch))
    (tl_commit (output_id_unspent inner) (b_unspent batch))
    (tl_commit (ed25519_address_to_output_id inner) (b_address batch))
    (tl_commit (memory_ledger_index inner) (b_index batch))
    (tl_commit (milestone_index_to_milestone inner) (b_milestone batch))
    (tl_commit (memory_snapshot_info inner) (b_info batch))
    (tl_commit (solid_entry_point_to_milestone_index inner) (b_sep batch))
    (tl_commit (milestone_index_to_output_diff inner) (b_diff batch))
    (tl_commit (address_to_balance inner) (b_balance batch))
    (tl_commit (milestone_index_to_unreferenced_message inner) (b_unreferenced batch))
    (tl_commit (milestone_index_to_receipt inner) (b_receipt batch))
    (tl_commit (spent_to_treasury_output inner) (b_treasury batch)).

#[export] Instance Storage_batch_builder : BatchBuilder Storage := {|
  storage_batch := StorageBatch;
  batch_begin := StorageBatch_default;
  batch_commit self batch _ :=
    let? inner := RwLock_write (storage_inner self) (apply_batch batch) in
    Ok (mkStorage inner);
|}.

(** [impl_batch!] *)
Definition impl_batch {K V} `{Field StorageBatch (TableBatch K V)} : Batch Storage K V := {|
  batch_insert (_ : Storage) (batch : storage_batch Storage) k v :=
    Ok (set_field (TableBatch_insert (get_field (batch : StorageBatch)) k v) (batch : StorageBatch));
  batch_delete (_ : Storage) (batch : storage_batch Storage) k :=
    Ok (set_field (TableBatch_delete (get_field (batch : StorageBatch)) k) (batch : StorageBatch));
|}.

(** [impl_insert!] *)
Definition impl_insert {K V} T `{TableLike T K V} `{Field InnerStorage T} : StorageInsert Storage K V :=
  fun self k v =>
    let? inner := RwLock_write (storage_inner self) (fun inner => set_field (tl_insert (get_field inner) k v) inner) in
    Ok (mkStorage inner).

(** [impl_exist!] *)
Definition impl_exist {K V} T `{TableLike T K V} `{Field InnerStorage T} : Exist Storage K V :=
  fun self k => let? inner := RwLock_read (storage_inner self) in Ok (tl_exist (get_field inner) k).

(** [impl_fetch!], for a table whose method [fetch] is [f]. *)
Definition impl_fetch {K V} T (f : T -> K -> option V) `{Field InnerStorage T} : Fetch Storage K V :=
  fun self k => let? inner := RwLock_read (storage_inner self) in Ok (f (get_field inner) k).

(** [impl_delete!] *)
Definition impl_delete {K V} T `{TableLike T K V} `{Field InnerStorage T} : StorageDelete Storage K V :=
  fun self k =>
    let? inner := RwLock_write (storage_inner self) (fun inner => set_field (tl_delete (get_field inner) k) inner) in
    Ok (mkStorage inner).

(** [impl_truncate!] *)
Definition impl_truncate {K V} T `{TableLike T K V} `{Field InnerStorage T} : Truncate Storage K V :=
  fun self =>
    let? inner := RwLock_write (storage_inner self) (fun inner => set_field (tl_truncate (get_field inner)) inner) in
    Ok (mkStorage inner).

(** [impl_multi_fetch!], which is used for the tables of the kind [Table]. *)
Definition impl_multi_fetch `{Countable K} {V} `{Field InnerStorage (Table K V)} : MultiFetch Storage K V :=
  fun self ks => let? inner := RwLock_read (storage_inner self) in Ok (Table_multi_fetch (get_field inner) ks).

(** [impl_iter!], for the tables of the kind [Table]. *)
Definition impl_iter `{Countable K} {V} `{HashOrder} `{Field InnerStorage (Table K V)} : AsIterator Storage K V :=
  fun self => let? inner := RwLock_read (storage_inner self) in Ok (Table_iter (get_field inner)).

#[export] Instance Storage_tangle_backend : TangleBackend Storage := {|
  insert_message := impl_insert (Table MessageId Message);
  insert_metadata := impl_insert (Table MessageId MessageMetadata);
  insert_edge := impl_insert (VecBinTable MessageId MessageId);
  insert_milestone := impl_insert (Table MilestoneIndex Milestone);
  insert_sep := impl_insert (Table SolidEntryPoint MilestoneIndex);
  fetch_message := impl_fetch (Table MessageId Message) Table_fetch;
  fetch_metadata := impl_fetch (Table MessageId MessageMetadata) Table_fetch;
  fetch_edges := impl_fetch (VecBinTable MessageId MessageId) VecBinTable_fetch;
  fetch_milestone := impl_fetch (Table MilestoneIndex Milestone) Table_fetch;
|}.

#[export] Instance Storage_ledger_backend `{HashOrder} : LedgerBackend Storage := {|
  batch_created := impl_batch;
  batch_consumed := impl_batch;
  batch_unspent := impl_batch;
  batch_index := impl_batch;
  batch_diff := impl_batch;
  batch_address := impl_batch;
  batch_balance := impl_batch;
  batch_receipt := impl_batch;
  batch_treasury := impl_batch;
  batch_sep := impl_batch;
  batch_unreferenced := impl_batch;
  batch_indexation := impl_batch;
  batch_edge := impl_batch;
  batch_message := impl_batch;
  batch_metadata := impl_batch;
  batch_milestone := impl_batch;
  exist_unspent := impl_exist (Table Unspent unit);
  fetch_info := impl_fetch (SingletonTable SnapshotInfo) SingletonTable_fetch;
  fetch_created := impl_fetch (Table OutputId CreatedOutput) Table_fetch;
  fetch_index := impl_fetch (SingletonTable LedgerIndex) SingletonTable_fetch;
  fetch_balances := impl_fetch (Table Address Balance) Table_fetch;
  fetch_treasury := impl_fetch (VecTable bool LedgerTreasuryOutput) VecTable_fetch;
  fetch_addresses := impl_fetch (VecBinTable Ed25519Address OutputId) VecBinTable_fetch;
  fetch_receipts := impl_fetch (VecTable MilestoneIndex Receipt) VecTable_fetch;
  fetch_unreferenced := impl_fetch (VecTable MilestoneIndex UnreferencedMessage) VecTable_fetch;
  fetch_diff := impl_fetch (Table MilestoneIndex OutputDiff) Table_fetch;
  insert_info := impl_insert (SingletonTable SnapshotInfo);
  insert_index := impl_insert (SingletonTable LedgerIndex);
  insert_treasury := impl_insert (VecTable bool LedgerTreasuryOutput);
  truncate_sep := impl_truncate (Table SolidEntryPoint MilestoneIndex);
  iter_unspent := impl_iter;
  iter_balance := impl_iter;
  iter_sep := impl_iter;
|}.

(** ** Starting and stopping *)

#[export] Instance fetch_system : Fetch Storage Z System := impl_fetch (Table Z System) Table_fetch.
#[export] Instance insert_system : StorageInsert Storage Z System := impl_insert (Table Z System).

(** [None] is a panic. *)
Definition get_health (self : Storage) : option (result StorageMemoryError (option StorageHealth)) :=
  match fetch System self SYSTEM_HEALTH_KEY with
  | Err e => Some (Err e)
  | Ok (Some (System_Health health)) => Some (Ok (Some health))
  | Ok None => Some (Ok None)
  | Ok _ => None
  end.

Definition set_health (self : Storage) (health : StorageHealth) : result StorageMemoryError Storage :=
  storage_insert self SYSTEM_HEALTH_KEY (System_Health health).

#[export] Instance Storage_health : HealthBackend Storage := set_health.

(** The checks of [start] on the storage it has opened. *)
Definition start_on (storage : Storage) : option (result StorageMemoryError Storage) :=
  let check_health (storage : Storage) :=
    match get_health storage with
    | None => None
    | Some (Err e) => Some (Err e)
    | Some (Ok (Some health)) =>
        if decide (health <> Healthy) then Some (Err (UnhealthyStorage health)) else Some (set_health storage Idle)
    | Some (Ok None) => Some (set_health storage Idle)
    end in
  match fetch System storage SYSTEM_VERSION_KEY with
  | Err e => Some (Err e)
  | Ok (Some (System_Version version)) =>
      if decide (version <> STORAGE_VERSION) then Some (Err (VersionMismatch version STORAGE_VERSION))
      else check_health storage
  | Ok None =>
      match storage_insert storage SYSTEM_VERSION_KEY (System_Version STORAGE_VERSION) with
      | Err e => Some (Err e)
      | Ok storage => check_health storage
      end
  | Ok _ => None
  end.
Definition start : option (result StorageMemoryError Storage) := start_on Storage_new.

Definition shutdown (self : Storage) : result StorageMemoryError Storage := set_health self Healthy.

(** ** The contract *)

(** The representation invariant of the tables of vectors. *)
Definition inner_wf (i : InnerStorage) : Prop :=
  tl_wf (message_id_to_message_id i)
  /\ tl_wf (index_to_message_id i)
  /\ tl_wf (ed25519_address_to_output_id i)
  /\ tl_wf (milestone_index_to_unreferenced_message i)
  /\ tl_wf (milestone_index_to_receipt i)
  /\ tl_wf (spent_to_treasury_output i).

(** The tables the storage represents. *)
Definition inner_tables (i : InnerStorage) : LedgerTables :=
  mkLedgerTables
    (tl_view (output_id_to_created_output i))
    (tl_view (output_id_to_consumed_output i))
    (tl_view (output_id_unspent i))
    (tl_view (ed25519_address_to_output_id i))
    (tl_view (memory_ledger_index i))
    (tl_view (memory_snapshot_info i))
    (tl_view (milestone_index_to_output_diff i))
    (tl_view (address_to_balance i))
    (tl_view (milestone_index_to_receipt i))
    (tl_view (spent_to_treasury_output i))
    (mkNodeTables
      (tl_view (memory_system i))
      (tl_view (message_id_to_message i))
      (tl_view (message_id_to_metadata i))
      (tl_view (message_id_to_message_id i))
      (tl_view (index_to_message_id i))
      (tl_view (milestone_index_to_milestone i))
      (tl_view (solid_entry_point_to_milestone_index i))
      (tl_view (milestone_index_to_unreferenced_message i))).

(** What committing a batch does to the tables. *)
Definition replay_all (b : StorageBatch) (t : LedgerTables) : LedgerTables :=
  mkLedgerTables
    (replay (b_created b) (t_created t))
    (replay (b_consumed b) (t_consumed t))
    (replay (b_unspent b) (t_unspent t))
    (replay (b_address b) (t_address t))
    (replay (b_index b) (t_index t))
    (replay (b_info b) (t_info t))
    (replay (b_diff b) (t_diff t))
    (replay (b_balance b) (t_balance t))
    (replay (b_receipt b) (t_receipt t))
    (replay (b_treasury b) (t_treasury t))
    (let t := t_node t in mkNodeTables
      (t_system t)
      (replay (b_message b) (t_message t))
      (replay (b_metadata b) (t_metadata t))
      (replay (b_edge b) (t_edge t))
      (replay (b_indexation b) (t_indexation t))
      (replay (b_milestone b) (t_milestone t))
      (replay (b_sep b) (t_sep t))
      (replay (b_unreferenced b) (t_unreferenced t))).

#[export] Instance Storage_model `{HashOrder} : LedgerModel Storage := {|
  healthy s := lock_poisoned (storage_inner s) = false /\ inner_wf (lock_value (storage_inner s));
  tables s := inner_tables (lock_value (storage_inner s));
  pending := replay_all;
  edge_limit := None;
  output_id_limit := None;
|}.

(** A table of the backend that represents one table of the contract. *)
Class MemoryTable (T K V : Type) `{Countable K} `{TableLike T K V} `{!TableView T K V} `{Field InnerStorage T}
    `{Field LedgerTables (gmap K V)} : Prop := {
  memory_wf i : inner_wf i -> tl_wf (get_field i : T);
  memory_view i : get_field (inner_tables i) = tl_view (get_field i : T);
  memory_set i (x : T) : inner_wf i -> tl_wf x ->
    inner_wf (set_field x i) /\ inner_tables (set_field x i) = set_field (tl_view x) (inner_tables i);
}.

(** A table of the batch that is replayed on one table of the contract. *)
Class MemoryBatch (K V : Type) `{Countable K} `{Field StorageBatch (TableBatch K V)} `{Field LedgerTables (gmap K V)}
    : Prop := {
  batch_view (b : StorageBatch) t : (get_field (replay_all b t) : gmap K V) = replay (get_field b) (get_field t);
  batch_set (b : StorageBatch) (x : TableBatch K V) t :
    replay_all (set_field x b) t = set_field (replay x (get_field t) : gmap K V) (replay_all b t);
}.

Ltac memory_table :=
  split; [by intros [] (? & ? & ? & ? & ? & ?) | by intros [] | intros [] x (? & ? & ? & ? & ? & ?) Hx; by repeat split].
Ltac memory_batch := split; intros []; intros; cbn; done.

#[export] Instance represents_system : MemoryTable (Table Z System) Z System.
Proof. memory_table. Qed.
#[export] Instance represents_message : MemoryTable (Table MessageId Message) MessageId Message.
Proof. memory_table. Qed.
#[export] Instance represents_metadata : MemoryTable (Table MessageId MessageMetadata) MessageId MessageMetadata.
Proof. memory_table. Qed.
#[export] Instance represents_edge : MemoryTable (VecBinTable MessageId MessageId) (MessageId * MessageId) unit.
Proof. memory_table. Qed.
#[export] Instance represents_indexation : MemoryTable (VecBinTable PaddedIndex MessageId) (PaddedIndex * MessageId) unit.
Proof. memory_table. Qed.
#[export] Instance represents_created : MemoryTable (Table OutputId CreatedOutput) OutputId CreatedOutput.
Proof. memory_table. Qed.
#[export] Instance represents_consumed : MemoryTable (Table OutputId ConsumedOutput) OutputId ConsumedOutput.
Proof. memory_table. Qed.
#[export] Instance represents_unspent : MemoryTable (Table Unspent unit) Unspent unit.
Proof. memory_table. Qed.
#[export] Instance represents_address : MemoryTable (VecBinTable Ed25519Address OutputId) (Ed25519Address * OutputId) unit.
Proof. memory_table. Qed.
#[export] Instance represents_index : MemoryTable (SingletonTable LedgerIndex) unit LedgerIndex.
Proof. memory_table. Qed.
#[export] Instance represents_milestone : MemoryTable (Table MilestoneIndex Milestone) MilestoneIndex Milestone.
Proof. memory_table. Qed.
#[export] Instance represents_info : MemoryTable (SingletonTable SnapshotInfo) unit SnapshotInfo.
Proof. memory_table. Qed.
#[export] Instance represents_sep : MemoryTable (Table SolidEntryPoint MilestoneIndex) SolidEntryPoint MilestoneIndex.
Proof. memory_table. Qed.
#[export] Instance represents_diff : MemoryTable (Table MilestoneIndex OutputDiff) MilestoneIndex OutputDiff.
Proof. memory_table. Qed.
#[export] Instance represents_balance : MemoryTable (Table Address Balance) Address Balance.
Proof. memory_table. Qed.
#[export] Instance represents_unreferenced : MemoryTable (VecTable MilestoneIndex UnreferencedMessage) (MilestoneIndex * UnreferencedMessage) unit.
Proof. memory_table. Qed.
#[export] Instance represents_receipt : MemoryTable (VecTable MilestoneIndex Receipt) (MilestoneIndex * Receipt) unit.
Proof. memory_table. Qed.
#[export] Instance represents_treasury : MemoryTable (VecTable bool LedgerTreasuryOutput) (bool * LedgerTreasuryOutput) unit.
Proof. memory_table. Qed.
#[export] Instance replays_message : MemoryBatch MessageId Message.
Proof. memory_batch. Qed.
#[export] Instance replays_metadata : MemoryBatch MessageId MessageMetadata.
Proof. memory_batch. Qed.
#[export] Instance replays_edge : MemoryBatch (MessageId * MessageId) unit.
Proof. memory_batch. Qed.
#[export] Instance replays_indexation : MemoryBatch (PaddedIndex * MessageId) unit.
Proof. memory_batch. Qed.
#[export] Instance replays_created : MemoryBatch OutputId CreatedOutput.
Proof. memory_batch. Qed.
#[export] Instance replays_consumed : MemoryBatch OutputId ConsumedOutput.
Proof. memory_batch. Qed.
#[export] Instance replays_unspent : MemoryBatch Unspent unit.
Proof. memory_batch. Qed.
#[export] Instance replays_address : MemoryBatch (Ed25519Address * OutputId) unit.
Proof. memory_batch. Qed.
#[export] Instance replays_index : MemoryBatch unit LedgerIndex.
Proof. memory_batch. Qed.
#[export] Instance replays_milestone : MemoryBatch MilestoneIndex Milestone.
Proof. memory_batch. Qed.
#[export] Instance replays_info : MemoryBatch unit SnapshotInfo.
Proof. memory_batch. Qed.
#[export] Instance replays_sep : MemoryBatch SolidEntryPoint MilestoneIndex.
Proof. memory_batch. Qed.
#[export] Instance replays_diff : MemoryBatch MilestoneIndex OutputDiff.
Proof. memory_batch. Qed.
#[export] Instance replays_balance : MemoryBatch Address Balance.
Proof. memory_batch. Qed.
#[export] Instance replays_unreferenced : MemoryBatch (MilestoneIndex * UnreferencedMessage) unit.
Proof. memory_batch. Qed.
#[export] Instance replays_receipt : MemoryBatch (MilestoneIndex * Receipt) unit.
Proof. memory_batch. Qed.
#[export] Instance replays_treasury : MemoryBatch (bool * LedgerTreasuryOutput) unit.
Proof. memory_batch. Qed.

Section operations.
Context `{HashOrderOk} `{Countable K} {V : Type} `{Field LedgerTables (gmap K V)}.

Lemma impl_batch_ok `{Field StorageBatch (TableBatch K V)} `{!MemoryBatch K V} : BatchOk Storage K V (Batch0 := impl_batch).
Proof.
  split; intros; (eexists; split; [reflexivity|]); intros t; unfold insert_table, delete_table, pending; cbn [Storage_model].
  - by rewrite batch_set, batch_view, replay_insert.
  - by rewrite batch_set, batch_view, replay_delete.
Qed.

Section table.
Context {T : Type} `{!TableLike T K V} `{!TableView T K V} `{!TableLikeOk T K V} `{!Field InnerStorage T}.
Context `{!MemoryTable T K V}.

Lemma impl_exist_ok : ExistOk Storage K V (Exist0 := impl_exist T).
Proof.
  intros [[p i]] k [Hp Hi]. cbn in *. subst p. cbn. rewrite memory_view. f_equal. apply tl_exist_ok. by apply memory_wf.
Qed.

Lemma impl_fetch_ok (f : T -> K -> option V) :
  (forall t k, f t k = tl_view t !! k) -> FetchOk Storage K V (Fetch0 := impl_fetch T f).
Proof. intros Hf [[p i]] k [Hp Hi]. cbn in *. subst p. cbn. by rewrite Hf, memory_view. Qed.

(** A change of one table. *)
Lemma write_ok (g : T -> T) (h : gmap K V -> gmap K V) (s : Storage) :
  (forall t, tl_wf t -> tl_wf (g t) /\ tl_view (g t) = h (tl_view t)) -> healthy s ->
  exists s',
    (let? inner := RwLock_write (storage_inner s) (fun inner => set_field (g (get_field inner)) inner) in
     Ok (mkStorage inner)) = Ok s'
    /\ healthy s' /\ tables s' = set_field (h (get_field (tables s))) (tables s).
Proof.
  intros Hg. destruct s as [[p i]]. intros [Hp Hi]. cbn in *. subst p. eexists. split; [reflexivity|]. cbn.
  destruct (Hg (get_field i) (memory_wf i Hi)) as [Hw Hv]. destruct (memory_set i _ Hi Hw) as [Hi' Hs].
  by rewrite Hs, memory_view, <- Hv.
Qed.

Lemma impl_insert_ok : InsertOk Storage K V (StorageInsert0 := impl_insert T).
Proof. intros s k v Hs. apply (write_ok (fun t => tl_insert t k v) (fun m => <[k := v]> m)); [|done]. intros. by apply tl_insert_ok. Qed.
Lemma impl_delete_ok s k :
  healthy s -> exists s', impl_delete T s k = Ok s' /\ healthy s' /\ tables s' = delete_table V k (tables s).
Proof. intros Hs. apply (write_ok (fun t => tl_delete t k) (delete k)); [|done]. intros. by apply tl_delete_ok. Qed.
Lemma impl_truncate_ok : TruncateOk Storage K V (Truncate0 := impl_truncate T).
Proof. intros s Hs. apply (write_ok tl_truncate (fun _ => ∅)); [|done]. intros. by apply tl_truncate_ok. Qed.
End table.

Lemma impl_iter_ok `{!Field InnerStorage (Table K V)} `{!MemoryTable (Table K V) K V} :
  IterOk Storage K V (AsIterator0 := impl_iter).
Proof.
  intros [[p i]] [Hp Hi]. cbn in *. subst p. eexists. split; [reflexivity|]. rewrite memory_view. apply hash_iter_perm.
Qed.

Lemma impl_multi_fetch_ok `{!Field InnerStorage (Table K V)} `{!MemoryTable (Table K V) K V} (s : Storage) ks :
  healthy s -> impl_multi_fetch s ks = Ok ((fun k => Ok ((get_field (tables s) : gmap K V) !! k)) <$> ks).
Proof. destruct s as [[p i]]. intros [Hp Hi]. cbn in *. subst p. cbn. by rewrite memory_view. Qed.
End operations.

Section vectors.
Context `{HashOrderOk} `{Countable K} `{Countable V} `{Field LedgerTables (gmap (K * V) unit)}.

Lemma impl_fetch_vec_ok `{Field InnerStorage (VecTable K V)} `{!MemoryTable (VecTable K V) (K * V) unit} :
  FetchVecOk Storage K V None (Fetch0 := impl_fetch (VecTable K V) VecTable_fetch).
Proof.
  intros [[p i]] k [Hp Hi]. cbn in *. subst p. eexists. split; [reflexivity|]. split.
  - apply (all_default NoDup _ k NoDup_nil_2). exact (memory_wf (T := VecTable K V) i Hi).
  - intros v. by rewrite memory_view, <- pairs_view_lookup.
Qed.

Lemma impl_fetch_vec_bin_ok `{OrdOk V} `{Field InnerStorage (VecBinTable K V)}
    `{!MemoryTable (VecBinTable K V) (K * V) unit} :
  FetchVecOk Storage K V None (Fetch0 := impl_fetch (VecBinTable K V) VecBinTable_fetch).
Proof.
  intros [[p i]] k [Hp Hi]. cbn in *. subst p. eexists. split; [reflexivity|]. split.
  - apply sorted_NoDup, (all_default (StronglySorted ord_lt) _ k (SSorted_nil _)).
    exact (memory_wf (T := VecBinTable K V) i Hi).
  - intros v. by rewrite memory_view, <- pairs_view_lookup.
Qed.
End vectors.

Lemma singleton_fetch {V} (t : SingletonTable V) u : SingletonTable_fetch t u = tl_view t !! u.
Proof. destruct u, t as [[v|]]; cbn; [by rewrite lookup_singleton_eq | by rewrite lookup_empty]. Qed.

Lemma apply_batch_ok b i : inner_wf i -> inner_wf (apply_batch b i) /\ inner_tables (apply_batch b i) = replay_all b (inner_tables i).
Proof.
  intros (? & ? & ? & ? & ? & ?). split; [unfold inner_wf; cbn [apply_batch]; split_and!; by apply tl_commit_ok|].
  unfold inner_tables, replay_all. f_equal; [by apply tl_commit_ok..|]. f_equal. all: by apply tl_commit_ok.
Qed.

#[export] Instance memory_backend `{HashOrderOk} : LedgerBackendOk Storage.
Proof.
  split; try apply impl_batch_ok; try apply impl_exist_ok; try apply impl_insert_ok; try apply impl_truncate_ok;
    try apply impl_iter_ok; try apply impl_fetch_vec_ok; try apply impl_fetch_vec_bin_ok;
    try (apply impl_fetch_ok; solve [done | apply singleton_fetch]).
  - by intros [? ? ? ? ? ? ? ? ? ? []].
  - intros [[p i]] b d [Hp Hi]. cbn in Hp. subst p. eexists. split; [reflexivity|].
    destruct (apply_batch_ok b i Hi) as [Hw Ht]. by split_and!.
Qed.

(** ** Starting and stopping *)

Section system.
Context `{HashOrderOk}.
Implicit Types s : Storage.

#[export] Instance fetch_system_ok : FetchOk Storage Z System := impl_fetch_ok (T := Table Z System) _ (fun _ _ => eq_refl).
#[export] Instance insert_system_ok : InsertOk Storage Z System := impl_insert_ok (T := Table Z System).

Lemma fetch_system_spec s k : healthy s -> fetch System s k = Ok (t_system (t_node (tables s)) !! k).
Proof. exact (fetch_ok (V := System) s k). Qed.
Lemma insert_system_spec s k (v : System) :
  healthy s -> exists s', storage_insert s k v = Ok s' /\ healthy s' /\ tables s' = insert_table k v (tables s).
Proof. exact (insert_ok s k v). Qed.

Lemma set_health_ok s h :
  healthy s -> exists s', set_health s h = Ok s' /\ healthy s'
    /\ tables s' = insert_table SYSTEM_HEALTH_KEY (System_Health h) (tables s).
Proof. apply insert_system_spec. Qed.

(** A storage that a running node has opened: its version is current and its health is idle. *)
Definition opened s : Prop :=
  t_system (t_node (tables s)) !! SYSTEM_VERSION_KEY = Some (System_Version STORAGE_VERSION)
  /\ t_system (t_node (tables s)) !! SYSTEM_HEALTH_KEY = Some (System_Health Idle).

Lemma t_system_insert k v t : t_system (t_node (insert_table k v t)) = <[k := v]> (t_system (t_node t)).
Proof. by destruct t as [? ? ? ? ? ? ? ? ? ? []]. Qed.

Lemma open_idle s s' :
  healthy s -> t_system (t_node (tables s)) !! SYSTEM_VERSION_KEY = Some (System_Version STORAGE_VERSION) ->
  set_health s Idle = Ok s' -> healthy s' /\ opened s'.
Proof.
  intros Hs Hv Hh. destruct (set_health_ok s Idle Hs) as (s1 & E & Hs1 & Ht). rewrite Hh in E. injection E as <-.
  split; [done|]. unfold opened. rewrite Ht, t_system_insert. split; [by rewrite lookup_insert_ne | apply lookup_insert_eq].
Qed.

Lemma start_on_opens s s' : healthy s -> start_on s = Some (Ok s') -> healthy s' /\ opened s'.
Proof.
  intros Hs. unfold start_on. rewrite fetch_system_spec by done.
  destruct (t_system (t_node (tables s)) !! SYSTEM_VERSION_KEY) as [[v|]|] eqn:Ev; [case_decide as Hd; [done|]|done|].
  - subst v. destruct (get_health s) as [[[h|]|]|]; try done; [case_decide; [done|]|];
      intros [= Hh]; by eapply open_idle.
  - destruct (insert_system_spec s SYSTEM_VERSION_KEY (System_Version STORAGE_VERSION) Hs) as (s1 & -> & Hs1 & Ht).
    destruct (get_health s1) as [[[h|]|]|]; try done; [case_decide; [done|]|];
      intros [= Hh]; (eapply open_idle; [exact Hs1| |exact Hh]); rewrite Ht, t_system_insert; apply lookup_insert_eq.
Qed.

Lemma get_health_ok s h :
  healthy s -> t_system (t_node (tables s)) !! SYSTEM_HEALTH_KEY = Some (System_Health h) -> get_health s = Some (Ok (Some h)).
Proof.
  intros Hs E. unfold get_health. by rewrite fetch_system_spec, E.
Qed.

Lemma start_on_version s :
  healthy s -> t_system (t_node (tables s)) !! SYSTEM_VERSION_KEY = Some (System_Version STORAGE_VERSION) ->
  start_on s = match get_health s with
               | None => None
               | Some (Err e) => Some (Err e)
               | Some (Ok (Some health)) =>
                   if decide (health <> Healthy) then Some (Err (UnhealthyStorage health)) else Some (set_health s Idle)
               | Some (Ok None) => Some (set_health s Idle)
               end.
Proof.
  intros Hs E. unfold start_on. by rewrite fetch_system_spec, E.
Qed.
End system.

(** ** Claims *)

(** A storage that has been opened can only be opened again after it has been shut down: opening it twice reports that it
    is unhealthy, and after a shutdown it opens. *)
Theorem restart_needs_shutdown `{HashOrderOk} (s s' : Storage) :
  healthy s -> start_on s = Some (Ok s') ->
  start_on s' = Some (Err (UnhealthyStorage Idle))
  /\ exists s1 s2, shutdown s' = Ok s1 /\ start_on s1 = Some (Ok s2).
Proof.
  intros Hs Ho. destruct (start_on_opens s s' Hs Ho) as [Hs' [Hv Hh]]. split.
  - by rewrite start_on_version, (get_health_ok s' Idle).
  - unfold shutdown. destruct (set_health_ok s' Healthy Hs') as (s1 & -> & Hs1 & Ht).
    assert (Hv1 : t_system (t_node (tables s1)) !! SYSTEM_VERSION_KEY = Some (System_Version STORAGE_VERSION)).
    { rewrite Ht, t_system_insert. by rewrite lookup_insert_ne. }
    destruct (set_health_ok s1 Idle Hs1) as (s2 & E & _). exists s1, s2. split; [done|].
    rewrite start_on_version, (get_health_ok s1 Healthy), E by (done || (rewrite Ht, t_system_insert; apply lookup_insert_eq)).
    done.
Qed.

(** C36. The in-memory backend keeps the contract of a ledger backend: as long as its lock is not poisoned no operation
    fails, fetching and testing read the represented tables, and a committed batch takes effect on all tables. *)
Theorem memory_backend_contract `{HashOrderOk} : LedgerBackendOk Storage.
Proof. apply memory_backend. Qed.

Module Examples.
Import Concrete.

Lemma restart_needs_shutdown_witness :
  exists s, start = Some (Ok s) /\ start_on s = Some (Err (UnhealthyStorage Idle)).
Proof.
  destruct start as [[s|]|] eqn:E; [|by vm_compute in E..]. exists s. split; [done|].
  refine (proj1 (restart_needs_shutdown Storage_new s _ E)). split; [done|]. repeat split; by intros ? ? ?.
Defined.

Lemma memory_backend_contract_witness : LedgerBackendOk Storage.
Proof. exact memory_backend_contract. Defined.
End Examples.
