(* ===== verification/Tangle.v ===== *)
(** * The tangle

    Models [bee-tangle/src/tangle.rs] and [config.rs]: the graph of messages, kept in the storage, behind a cache of
    vertices from which entries are evicted at random when it is full. The tangle also holds the milestones it has seen,
    the solid entry points and the milestone indexes of the node.

    An operation is a state passing function that may panic ([st]): the source asserts that the counters that pin vertices
    do not become negative. The state includes the storage and the environment (random numbers and the locks other tasks
    hold). An operation runs without interruption; [update_metadata] is split at the point where it releases its lock, so
    that interleavings of two updates can be expressed. Errors of the storage are logged and ignored, as in the source. *)

From S2P Require Import Prelude External MessageTypes Payload PayloadKeys Message TangleTypes LedgerTypes.
From S2P Require Import Vertices Storage.

Local Open Scope Z_scope.

(** ** Configuration: [config.rs] *)

Definition DEFAULT_BELOW_MAX_DEPTH : Z := 15.
Definition DEFAULT_NUM_PARTITIONS : Z := 16.
Definition DEFAULT_MAX_EVICTION_RETRIES : Z := 10.

Record TangleConfigBuilder := mkTangleConfigBuilder {
  cb_below_max_depth : option Z;
  cb_num_partitions : option Z;
  cb_max_eviction_retries : option Z;
}.

Record TangleConfig := mkTangleConfig {
  below_max_depth : Z;
  num_partitions : Z;
  max_eviction_retries : Z;
}.

Definition TangleConfigBuilder_finish (self : TangleConfigBuilder) : TangleConfig :=
  mkTangleConfig (default DEFAULT_BELOW_MAX_DEPTH (cb_below_max_depth self))
    (default DEFAULT_NUM_PARTITIONS (cb_num_partitions self))
    (default DEFAULT_MAX_EVICTION_RETRIES (cb_max_eviction_retries self)).

(** ** The tip pool's data: [urts.rs] *)

(** An [Instant] is a number of seconds. *)
Record TipMetadata := mkTipMetadata {
  tip_children : gset MessageId;
  time_first_child : option Z;
}.

Record UrtsTipPool := mkUrtsTipPool {
  tips : gmap MessageId TipMetadata;
  non_lazy_tips : gset MessageId;
  pool_below_max_depth : Z;
}.

Definition UrtsTipPool_new (config : TangleConfig) : UrtsTipPool := mkUrtsTipPool ∅ ∅ (below_max_depth config).

(** ** The tangle: [tangle.rs] *)

Definition DEFAULT_CACHE_LEN : Z := 100000.
Definition SYNCED_THRESHOLD : Z := 2.
Definition CONFIRMED_THRESHOLD : Z := 2.

Record Tangle (B : Type) `{Environment} := mkTangle {
  tg_config : TangleConfig;
  tg_vertices : Vertices;
  tg_max_len : Z;
  tg_storage : B;
  tg_milestones : gmap MilestoneIndex Milestone;
  tg_seps : gmap SolidEntryPoint MilestoneIndex;
  tg_latest : MilestoneIndex;
  tg_solid : MilestoneIndex;
  tg_confirmed : MilestoneIndex;
  tg_snapshot : MilestoneIndex;
  tg_pruning : MilestoneIndex;
  tg_entry_point : MilestoneIndex;
  tg_tip_pool : UrtsTipPool;
  tg_env : env;
}.
Arguments mkTangle {B _} _ _ _ _ _ _ _ _ _ _ _ _ _ _.
Arguments tg_config {B _} _.
Arguments tg_vertices {B _} _.
Arguments tg_max_len {B _} _.
Arguments tg_storage {B _} _.
Arguments tg_milestones {B _} _.
Arguments tg_seps {B _} _.
Arguments tg_latest {B _} _.
Arguments tg_solid {B _} _.
Arguments tg_confirmed {B _} _.
Arguments tg_snapshot {B _} _.
Arguments tg_pruning {B _} _.
Arguments tg_entry_point {B _} _.
Arguments tg_tip_pool {B _} _.
Arguments tg_env {B _} _.

Section fields.
Context `{Environment} {B : Type}.

Definition with_vertices (x : Vertices) (self : Tangle B) : Tangle B :=
  let '(mkTangle a _ c d e f g h i j k l m n) := self in mkTangle a x c d e f g h i j k l m n.
Definition with_max_len (x : Z) (self : Tangle B) : Tangle B :=
  let '(mkTangle a b _ d e f g h i j k l m n) := self in mkTangle a b x d e f g h i j k l m n.
Definition with_storage (x : B) (self : Tangle B) : Tangle B :=
  let '(mkTangle a b c _ e f g h i j k l m n) := self in mkTangle a b c x e f g h i j k l m n.
Definition with_milestones (x : gmap MilestoneIndex Milestone) (self : Tangle B) : Tangle B :=
  let '(mkTangle a b c d _ f g h i j k l m n) := self in mkTangle a b c d x f g h i j k l m n.
Definition with_seps (x : gmap SolidEntryPoint MilestoneIndex) (self : Tangle B) : Tangle B :=
  let '(mkTangle a b c d e _ g h i j k l m n) := self in mkTangle a b c d e x g h i j k l m n.
Definition with_latest (x : MilestoneIndex) (self : Tangle B) : Tangle B :=
  let '(mkTangle a b c d e f _ h i j k l m n) := self in mkTangle a b c d e f x h i j k l m n.
Definition with_solid (x : MilestoneIndex) (self : Tangle B) : Tangle B :=
  let '(mkTangle a b c d e f g _ i j k l m n) := self in mkTangle a b c d e f g x i j k l m n.
Definition with_confirmed (x : MilestoneIndex) (self : Tangle B) : Tangle B :=
  let '(mkTangle a b c d e f g h _ j k l m n) := self in mkTangle a b c d e f g h x j k l m n.
Definition with_snapshot (x : MilestoneIndex) (self : Tangle B) : Tangle B :=
  let '(mkTangle a b c d e f g h i _ k l m n) := self in mkTangle a b c d e f g h i x k l m n.
Definition with_pruning (x : MilestoneIndex) (self : Tangle B) : Tangle B :=
  let '(mkTangle a b c d e f g h i j _ l m n) := self in mkTangle a b c d e f g h i j x l m n.
Definition with_entry_point (x : MilestoneIndex) (self : Tangle B) : Tangle B :=
  let '(mkTangle a b c d e f g h i j k _ m n) := self in mkTangle a b c d e f g h i j k x m n.
Definition with_tip_pool (x : UrtsTipPool) (self : Tangle B) : Tangle B :=
  let '(mkTangle a b c d e f g h i j k l _ n) := self in mkTangle a b c d e f g h i j k l x n.
Definition with_env (x : env) (self : Tangle B) : Tangle B :=
  let '(mkTangle a b c d e f g h i j k l m _) := self in mkTangle a b c d e f g h i j k l m x.
End fields.

Section tangle.
Context `{TableHasher MessageId} `{HashOrder} `{Environment} `{Bitflags} `{TangleBackend B}.
Implicit Types (self : Tangle B) (message_id : MessageId).

Definition Tangle_new (config : TangleConfig) (storage : B) (e : env) : Tangle B :=
  let zero := MilestoneIndex_new 0 in
  mkTangle config (Vertices_new (num_partitions config)) DEFAULT_CACHE_LEN storage ∅ ∅ zero zero zero zero zero zero
    (UrtsTipPool_new config) e.

(** Reading and changing the state. *)
Definition gets {A} (f : Tangle B -> A) : st (Tangle B) A := fun self => Some (f self, self).
Definition modify (f : Tangle B -> Tangle B) : st (Tangle B) unit := fun self => Some (tt, f self).
Definition on_vertices {A} (m : st Vertices A) : st (Tangle B) A := fun self =>
  match m (tg_vertices self) with
  | Some (a, vertices) => Some (a, with_vertices vertices self)
  | None => None
  end.

(** [self.storage.insert(..).unwrap_or_else(|e| info!(..))] *)
Definition insert_or_log {K V} `{!StorageInsert B K V} (k : K) (v : V) : st (Tangle B) unit := modify (fun self =>
  match storage_insert (tg_storage self) k v with
  | Ok storage => with_storage storage self
  | Err _ => self
  end).

Definition storage_get self (id : MessageId) : result (storage_error B) (option (Message * MessageMetadata)) :=
  let? msg := fetch Message (tg_storage self) id in
  let? meta := fetch MessageMetadata (tg_storage self) id in
  Ok (match msg, meta with Some msg, Some meta => Some (msg, meta) | _, _ => None end).

(** [storage_insert]: the storage afterwards, also when the second insertion fails. Its caller logs the error. *)
Definition storage_insert_message (id : MessageId) (tx : Message) (metadata : MessageMetadata) : st (Tangle B) unit :=
  modify (fun self =>
    match storage_insert (tg_storage self) id tx with
    | Err _ => self
    | Ok storage =>
        match storage_insert storage id metadata with
        | Err _ => with_storage storage self
        | Ok storage => with_storage storage self
        end
    end).

(** *** Eviction *)

(** [((1.0 - CACHE_THRESHOLD_FACTOR) * max_len as f64) as usize]: the lengths the cache is given are at most
    [DEFAULT_CACHE_LEN], for which the product is exact or has a fractional part of at least a tenth, so that truncating
    it is the integer division. *)
Definition eviction_target (max_len : Z) : Z := 9 * max_len / 10.

(** The loop, with fuel for the number of vertices, each iteration of which removes one or stops. *)
Fixpoint evict (fuel : nat) : st (Tangle B) unit :=
  match fuel with
  | O => sret tt
  | S fuel => fun self =>
      if eviction_target (tg_max_len self) <? v_len (tg_vertices self) then
        let '(popped, vertices, e) :=
          pop_random (Z.to_nat (max_eviction_retries (tg_config self))) (tg_vertices self) (tg_env self) in
        let self := with_env e (with_vertices vertices self) in
        match popped with
        | None => sret tt self
        | Some _ => evict fuel self
        end
      else sret tt self
  end.

Definition perform_eviction : st (Tangle B) unit := fun self =>
  if tg_max_len self <? v_len (tg_vertices self) then evict (Z.to_nat (v_len (tg_vertices self))) self else sret tt self.

(** *** Messages *)

Definition insert_inner message_id (message : Message) (metadata : MessageMetadata) (prevent : bool)
    : st (Tangle B) (option Message) :=
  let* msg := on_vertices (Vertices_get_mut_or_empty message_id (fun vertex =>
    let vertex := if prevent then prevent_eviction vertex else vertex in
    match Vertex_message vertex with
    | Some _ => Some (None, vertex)
    | None =>
        let vertex := insert_message_and_metadata vertex message metadata in
        Some (Vertex_message vertex, vertex)
    end)) in
  let* _ :=
    match msg with
    | None => sret tt
    | Some _ =>
        sfor (fun parent => on_vertices (Vertices_get_mut_or_empty parent (fun vertex => Some (tt, add_child vertex message_id))))
          (parents_inner (message_parents message))
    end in
  let* _ := perform_eviction in
  sret msg.

Definition contains_inner message_id : st (Tangle B) bool := gets (fun self =>
  match Vertices_get (tg_vertices self) message_id with
  | Some v => bool_decide (is_Some (Vertex_message v))
  | None => false
  end).

Definition pull_message message_id (prevent : bool) : st (Tangle B) bool :=
  let* contains_now :=
    if prevent then
      let* pinned := on_vertices (Vertices_get_mut message_id (fun v =>
        match Vertex_message v with
        | Some _ => Some (true, prevent_eviction v)
        | None => Some (false, v)
        end)) in
      sret (default false pinned)
    else contains_inner message_id in
  if contains_now then sret true
  else
    let* found := gets (fun self => storage_get self message_id) in
    match found with
    | Ok (Some (msg, metadata)) =>
        let* _ := insert_inner message_id msg metadata prevent in
        sret true
    | _ => sret false
    end.

(** [if exists { v.allow_eviction(); }] *)
Definition unpin (exists_ : bool) : st Vertex unit := fun v =>
  if exists_ then match allow_eviction v with Some v => Some (tt, v) | None => None end else Some (tt, v).

Definition get_with {R} message_id (f : st Vertex R) : st (Tangle B) (option R) :=
  let* exists_ := pull_message message_id true in
  on_vertices (Vertices_get_mut message_id (let* _ := unpin exists_ in f)).

(** [Option::flatten] *)
Definition flatten {A} (o : option (option A)) : option A := match o with Some o => o | None => None end.

Definition Tangle_get message_id : st (Tangle B) (option Message) :=
  let* r := get_with message_id (fun v => Some (Vertex_message v, v)) in sret (flatten r).
Definition get_metadata message_id : st (Tangle B) (option MessageMetadata) :=
  let* r := get_with message_id (fun v => Some (Vertex_metadata v, v)) in sret (flatten r).
Definition get_vertex message_id : st (Tangle B) (option Vertex) := get_with message_id (fun v => Some (v, v)).

Definition Tangle_contains message_id : st (Tangle B) bool :=
  let* cached := contains_inner message_id in
  if cached then sret true else pull_message message_id false.

(** [allow_eviction] on a vertex that is missing is a failed expectation. *)
Definition release message_id : st (Tangle B) unit :=
  let* r := on_vertices (Vertices_get_mut message_id (let* _ := unpin true in sret tt)) in
  match r with Some _ => sret tt | None => spanic end.

Definition Tangle_insert (message : Message) message_id (metadata : MessageMetadata) : st (Tangle B) (option Message) :=
  let* exists_ := pull_message message_id true in
  let* msg := insert_inner message_id message metadata (negb exists_) in
  let* _ := release message_id in
  match msg with
  | Some _ =>
      let* _ := sfor (fun parent => insert_or_log (parent, message_id) tt) (parents_inner (message_parents message)) in
      let* _ := storage_insert_message message_id message metadata in
      sret msg
  | None => sret msg
  end.

(** [vertex.metadata_mut().map(update)] *)
Definition metadata_mut {R} (update : MessageMetadata -> R * MessageMetadata) (vertex : Vertex) : option R * Vertex :=
  let 'mkVertex m c x e := vertex in
  match m with
  | Some (message, metadata) =>
      let '(r, metadata) := update metadata in (Some r, mkVertex (Some (message, metadata)) c x e)
  | None => (None, vertex)
  end.

(** [update_metadata] up to the point where the vertex is released: the result and what remains to be written. *)
Definition update_locked {R} message_id (update : MessageMetadata -> R * MessageMetadata)
    : st (Tangle B) (option (option R * option (Message * MessageMetadata))) :=
  let* exists_ := pull_message message_id true in
  on_vertices (Vertices_get_mut message_id (
    let* _ := unpin exists_ in
    fun vertex => let '(r, vertex) := metadata_mut update vertex in Some ((r, message_and_metadata vertex), vertex))).

(** The rest of [update_metadata]. *)
Definition update_stored message_id (write : option (Message * MessageMetadata)) : st (Tangle B) unit :=
  match write with
  | Some (msg, meta) => storage_insert_message message_id msg meta
  | None => sret tt
  end.

Definition update_metadata {R} message_id (update : MessageMetadata -> R * MessageMetadata) : st (Tangle B) (option R) :=
  let* locked := update_locked message_id update in
  match locked with
  | Some (r, write) => let* _ := update_stored message_id write in sret r
  | None => sret None
  end.

(** The branch of [children_inner] without an exhaustive list of children. *)
Definition fetch_children message_id : st (Tangle B) (option (list MessageId)) :=
  let* to_insert := gets (fun self =>
    match fetch (list MessageId) (tg_storage self) message_id with
    | Err _ => []
    | Ok None => []
    | Ok (Some approvers) => approvers
    end) in
  let* children := on_vertices (Vertices_get_mut_or_empty message_id (fun vertex =>
    let vertex := foldl add_child (set_exhaustive vertex) to_insert in
    Some (vertex_children vertex, vertex))) in
  sret (Some children).

(** [get_children] with [children_inner]. *)
Definition get_children message_id : st (Tangle B) (option (list MessageId)) := fun self =>
  match Vertices_get (tg_vertices self) message_id with
  | Some vertex =>
      if vertex_exhaustive vertex then Some (Some (vertex_children vertex), self) else
        fetch_children message_id self
  | None => fetch_children message_id self
  end.

(** *** Milestones *)

Definition add_milestone (idx : MilestoneIndex) (milestone : Milestone) : st (Tangle B) unit :=
  let id := milestone_message_id milestone in
  let* _ := update_metadata id (fun metadata =>
    (tt, set_ymrsi (set_omrsi (set_milestone_index (with_flags metadata (fun f => set_milestone f true)) idx)
           (IndexId_new idx id)) (IndexId_new idx id))) in
  let* _ := insert_or_log idx milestone in
  modify (fun self => with_milestones (<[idx := milestone]> (tg_milestones self)) self).

Definition remove_milestone (index : MilestoneIndex) : st (Tangle B) unit :=
  modify (fun self => with_milestones (delete index (tg_milestones self)) self).

Definition pull_milestone (idx : MilestoneIndex) : st (Tangle B) (option MessageId) := fun self =>
  match fetch Milestone (tg_storage self) idx with
  | Ok (Some milestone) =>
      let entry := default milestone (tg_milestones self !! idx) in
      Some (Some (milestone_message_id entry), with_milestones (<[idx := entry]> (tg_milestones self)) self)
  | _ => Some (None, self)
  end.

Definition get_milestone (index : MilestoneIndex) : st (Tangle B) (option Milestone) :=
  gets (fun self => tg_milestones self !! index).

Definition get_milestone_message_id (index : MilestoneIndex) : st (Tangle B) (option MessageId) :=
  let* cached := gets (fun self => milestone_message_id <$> tg_milestones self !! index) in
  match cached with
  | Some m => sret (Some m)
  | None => pull_milestone index
  end.

Definition get_milestone_message (index : MilestoneIndex) : st (Tangle B) (option Message) :=
  let* id := get_milestone_message_id index in
  match id with
  | None => sret None
  | Some hash => Tangle_get hash
  end.

Definition contains_milestone (idx : MilestoneIndex) : st (Tangle B) bool :=
  let* cached := gets (fun self => bool_decide (is_Some (tg_milestones self !! idx))) in
  if cached then sret true else
    let* pulled := pull_milestone idx in sret (bool_decide (is_Some pulled)).

(** *** Milestone indexes *)

Definition get_sync_threshold self : Z :=
  Z.max 0 (milestone_index (tg_latest self) - milestone_index (tg_solid self)).

Definition update_latest_milestone_index (new_index : MilestoneIndex) self : Tangle B := with_latest new_index self.

(** [(1000.0 + threshold as f32 * 500.0) as usize], clamped: up to the upper bound the arithmetic is exact. *)
Definition update_solid_milestone_index (new_index : MilestoneIndex) self : Tangle B :=
  let self := with_solid new_index self in
  with_max_len (Z.max 8192 (Z.min DEFAULT_CACHE_LEN (1000 + get_sync_threshold self * 500))) self.
Definition update_confirmed_milestone_index (new_index : MilestoneIndex) self : Tangle B := with_confirmed new_index self.
Definition update_snapshot_index (new_index : MilestoneIndex) self : Tangle B := with_snapshot new_index self.
Definition update_pruning_index (new_index : MilestoneIndex) self : Tangle B := with_pruning new_index self.
Definition update_entry_point_index (new_index : MilestoneIndex) self : Tangle B := with_entry_point new_index self.

Definition is_synced_threshold self (threshold : Z) : bool :=
  Z.max 0 (milestone_index (tg_latest self) - threshold) <=? milestone_index (tg_solid self).
Definition is_synced self : bool := is_synced_threshold self SYNCED_THRESHOLD.
Definition is_confirmed_threshold self (threshold : Z) : bool :=
  Z.max 0 (milestone_index (tg_latest self) - threshold) <=? milestone_index (tg_confirmed self).
Definition is_confirmed self : bool := is_confirmed_threshold self CONFIRMED_THRESHOLD.

(** *** Solid entry points *)

Definition get_solid_entry_point_index self (sep : SolidEntryPoint) : option MilestoneIndex := tg_seps self !! sep.
Definition add_solid_entry_point (sep : SolidEntryPoint) (index : MilestoneIndex) self : Tangle B :=
  with_seps (<[sep := index]> (tg_seps self)) self.
Definition remove_solid_entry_point (sep : SolidEntryPoint) self : Tangle B := with_seps (delete sep (tg_seps self)) self.
Definition clear_solid_entry_points self : Tangle B := with_seps ∅ self.
Definition replace_solid_entry_points (new_seps : list (SolidEntryPoint * MilestoneIndex)) self : Tangle B :=
  with_seps (foldl (fun seps '(sep, index) => <[sep := index]> seps) ∅ new_seps) self.
Definition is_solid_entry_point self (id : MessageId) : bool :=
  bool_decide (is_Some (tg_seps self !! SolidEntryPoint_new id)).

Definition is_solid_message (id : MessageId) : st (Tangle B) bool := fun self =>
  if is_solid_entry_point self id then Some (true, self)
  else (let* metadata := get_metadata id in
        sret (match metadata with Some metadata => is_solid (metadata_flags metadata) | None => false end)) self.

(** [omrsi] and [ymrsi] of the source: the index of a solid entry point, otherwise the one of the metadata. *)
Definition root_snapshot_index (f : MessageMetadata -> option IndexId) (id : MessageId) : st (Tangle B) (option IndexId) :=
  fun self =>
    match tg_seps self !! SolidEntryPoint_new id with
    | Some sep => Some (Some (IndexId_new sep id), self)
    | None =>
        (let* metadata := get_metadata id in
         sret (match metadata with Some metadata => f metadata | None => None end)) self
    end.
Definition omrsi : MessageId -> st (Tangle B) (option IndexId) := root_snapshot_index metadata_omrsi.
Definition ymrsi : MessageId -> st (Tangle B) (option IndexId) := root_snapshot_index metadata_ymrsi.
End tangle.
