(* ===== verification/TangleFrame.v ===== *)
(** * What the operations of the tangle leave as it is

    Reading, inserting and updating messages changes the cache, the storage and the source of randomness of a tangle, and
    none of its other fields: the milestones in memory, the entry points, the indexes and the tip pool. *)

From S2P Require Import Prelude External MessageTypes Payload Message TangleTypes LedgerTypes.
From S2P Require Import Vertices Storage Tangle.

Local Open Scope Z_scope.

Section frame.
Context `{TableHasher MessageId} `{HashOrder} `{Environment} `{Bitflags} `{TangleBackend B}.
Implicit Types (t : Tangle B) (id : MessageId).

Definition same_rest t t' : Prop := exists vs s e, t' = with_env e (with_storage s (with_vertices vs t)).

Lemma same_rest_refl t : same_rest t t.
Proof. exists (tg_vertices t), (tg_storage t), (tg_env t). by destruct t. Qed.

Lemma same_rest_trans t1 t2 t3 : same_rest t1 t2 -> same_rest t2 t3 -> same_rest t1 t3.
Proof. intros (vs & s & e & ->) (vs' & s' & e' & ->). exists vs', s', e'. by destruct t1. Qed.

Lemma same_rest_fields t t' : same_rest t t' ->
  tg_config t' = tg_config t /\ tg_milestones t' = tg_milestones t /\ tg_seps t' = tg_seps t /\ tg_latest t' = tg_latest t
  /\ tg_solid t' = tg_solid t /\ tg_confirmed t' = tg_confirmed t /\ tg_snapshot t' = tg_snapshot t
  /\ tg_pruning t' = tg_pruning t /\ tg_entry_point t' = tg_entry_point t /\ tg_tip_pool t' = tg_tip_pool t.
Proof. intros (vs & s & e & ->). by destruct t. Qed.

Context (t0 : Tangle B).
Abbreviation framed m := (keeps (same_rest t0) m (fun _ => True)).

Lemma framed_change t vs s e : same_rest t0 t -> same_rest t0 (with_env e (with_storage s (with_vertices vs t))).
Proof. intros Ht. eapply same_rest_trans; [exact Ht|]. by eexists _, _, _. Qed.

Lemma framed_on_vertices {A} (m : st Vertices A) : framed (on_vertices m).
Proof.
  intros t a t' Ht. unfold on_vertices. destruct (m (tg_vertices t)) as [[x vs]|]; [|done]. intros [= <- <-]. split; [|done].
  replace (with_vertices vs t) with (with_env (tg_env t) (with_storage (tg_storage t) (with_vertices vs t))) by by destruct t.
  by apply framed_change.
Qed.

Lemma framed_gets {A} (f : Tangle B -> A) : framed (gets f).
Proof. by intros t a t' Ht [= <- <-]. Qed.

Lemma framed_storage t s : same_rest t0 t -> same_rest t0 (with_storage s t).
Proof.
  intros Ht. replace (with_storage s t) with (with_env (tg_env t) (with_storage s (with_vertices (tg_vertices t) t))) by by destruct t.
  by apply framed_change.
Qed.

Lemma framed_insert_or_log {K V} `{!StorageInsert B K V} (k : K) (v : V) : framed (insert_or_log k v).
Proof.
  intros t a t' Ht [= <- <-]. split; [|done]. destruct (storage_insert (tg_storage t) k v) as [s|?]; [by apply framed_storage | done].
Qed.

Lemma framed_storage_insert_message id m md : framed (storage_insert_message id m md).
Proof.
  intros t a t' Ht [= <- <-]. split; [|done]. destruct (storage_insert (tg_storage t) id m) as [s|?]; [|done].
  destruct (storage_insert s id md) as [s'|?]; by apply framed_storage.
Qed.

Lemma framed_evict fuel : framed (evict fuel).
Proof.
  induction fuel as [|fuel IH]; [by apply keeps_ret|]. intros t a t' Ht. cbn [evict]. destruct (_ <? _); [|by intros [= <- <-]].
  destruct (pop_random _ _ _) as [[o vs] e].
  assert (Ht1 : same_rest t0 (with_env e (with_vertices vs t))).
  { replace (with_env e (with_vertices vs t)) with (with_env e (with_storage (tg_storage t) (with_vertices vs t))) by by destruct t.
    by apply framed_change. }
  destruct o; [by apply IH | by intros [= <- <-]].
Qed.

Lemma framed_insert_inner id m md prevent : framed (insert_inner id m md prevent).
Proof.
  eapply keeps_bind; [apply framed_on_vertices|]. intros msg _. apply keeps_bind with (R := fun _ => True).
  { destruct msg; [|by apply keeps_ret]. apply keeps_for. intros p. apply framed_on_vertices. }
  intros _ _. eapply keeps_bind with (R := fun _ => True); [|intros; by apply keeps_ret].
  intros t a t' Ht. unfold perform_eviction. destruct (_ <? _); [by apply framed_evict | by intros [= <- <-]].
Qed.

Lemma framed_pull id prevent : framed (pull_message id prevent).
Proof.
  apply keeps_bind with (R := fun _ => True).
  { destruct prevent; [|by apply framed_gets]. eapply keeps_bind; [apply framed_on_vertices | intros; by apply keeps_ret]. }
  intros [] _; [by apply keeps_ret|]. eapply keeps_bind; [apply framed_gets|].
  intros [[[m md]|]|e] _; try by apply keeps_ret. eapply keeps_bind; [apply framed_insert_inner | intros; by apply keeps_ret].
Qed.

Lemma framed_get_with {R} id (f : st Vertex R) : framed (get_with id f).
Proof. eapply keeps_bind; [apply framed_pull | intros; apply framed_on_vertices]. Qed.

Lemma framed_get id : framed (Tangle_get id).
Proof. eapply keeps_bind; [apply framed_get_with | intros; by apply keeps_ret]. Qed.

Lemma framed_get_metadata id : framed (get_metadata id).
Proof. eapply keeps_bind; [apply framed_get_with | intros; by apply keeps_ret]. Qed.

Lemma framed_get_vertex id : framed (get_vertex id).
Proof. apply framed_get_with. Qed.

Lemma framed_contains id : framed (Tangle_contains id).
Proof. eapply keeps_bind; [apply framed_gets|]. intros [] _; [by apply keeps_ret | apply framed_pull]. Qed.

Lemma framed_insert m id md : framed (Tangle_insert m id md).
Proof.
  eapply keeps_bind; [apply framed_pull|]. intros b _. eapply keeps_bind; [apply framed_insert_inner|]. intros msg _.
  apply keeps_bind with (R := fun _ => True).
  { eapply keeps_bind; [apply framed_on_vertices|]. intros [?|] _; [by apply keeps_ret | apply keeps_panic]. }
  intros _ _. destruct msg; [|by apply keeps_ret]. eapply keeps_bind; [apply keeps_for; intros; apply framed_insert_or_log|].
  intros _ _. eapply keeps_bind; [apply framed_storage_insert_message | intros; by apply keeps_ret].
Qed.

Lemma framed_update {R} id (update : MessageMetadata -> R * MessageMetadata) : framed (update_metadata id update).
Proof.
  eapply keeps_bind with (R := fun _ => True).
  - eapply keeps_bind; [apply framed_pull | intros; apply framed_on_vertices].
  - intros [[r w]|] _; [|by apply keeps_ret]. eapply keeps_bind with (R := fun _ => True); [|intros; by apply keeps_ret].
    destruct w as [[m md]|]; [apply framed_storage_insert_message | by apply keeps_ret].
Qed.

Lemma framed_children id : framed (get_children id).
Proof.
  assert (Hf : framed (fetch_children id)).
  { eapply keeps_bind; [apply framed_gets|]. intros l _. eapply keeps_bind; [apply framed_on_vertices | intros; by apply keeps_ret]. }
  intros t a t' Ht. unfold get_children. destruct (Vertices_get _ _) as [v|]; [|by apply Hf].
  destruct (vertex_exhaustive v); [by intros [= <- <-] | by apply Hf].
Qed.

Lemma framed_is_solid id : framed (is_solid_message id).
Proof.
  intros t a t' Ht. unfold is_solid_message. destruct (is_solid_entry_point t id); [by intros [= <- <-]|].
  intros Hr. apply sbind_inv in Hr as (md & t1 & Hg & [= _ <-]). by apply framed_get_metadata in Hg.
Qed.
End frame.

(** An operation that returned. *)
Lemma framed_run `{Environment} {B A} (m : st (Tangle B) A) t a t' :
  (forall t0, keeps (same_rest t0) m (fun _ => True)) -> m t = Some (a, t') -> same_rest t t'.
Proof. intros Hm Hr. by destruct (Hm t t a t' (same_rest_refl t) Hr). Qed.
