(* ===== verification/TangleCache.v ===== *)
(** * The tangle behind its cache

    The operations of [Tangle] against what the storage holds. [cache_ok] is the invariant of the cache: a cached message
    is the stored one, a cached list of children contains only stored edges, and all of them when it is marked as
    exhaustive and a fetch returns that many, and every pin is accounted for, so that a vertex is evicted only between uses. The claims say that the
    operations behave as if there were no cache, whatever is evicted, and what happens when two updates of the same vertex
    overlap. *)

From S2P Require Import Prelude External MessageTypes Payload PayloadKeys Message TangleTypes LedgerTypes.
From S2P Require Import Vertices Storage StorageTables StorageMemory Tangle.

Local Open Scope Z_scope.

(** ** What the storage holds *)

Definition stored (t : LedgerTables) (id : MessageId) : option (Message * MessageMetadata) :=
  match t_message (t_node t) !! id, t_metadata (t_node t) !! id with
  | Some message, Some metadata => Some (message, metadata)
  | _, _ => None
  end.
Definition edge (t : LedgerTables) (parent child : MessageId) : Prop := t_edge (t_node t) !! (parent, child) = Some tt.

(** ** The invariant of the cache *)

(** [E] are the edges and [D] the messages the cache is compared with. A vertex is marked as exhaustive by a fetch, which
    has found every child if there are at most [limit] of them. *)
Record vertex_ok (limit : option nat) (E : MessageId -> MessageId -> Prop)
    (D : MessageId -> option (Message * MessageMetadata)) (id : MessageId) (v : Vertex) : Prop := {
  vo_message x : vertex_message v = Some x -> D id = Some x;
  vo_children c : c ∈ vertex_children v -> E id c;
  vo_exhaustive c : vertex_exhaustive v = true -> within limit (E id) -> E id c -> c ∈ vertex_children v;
  vo_NoDup : NoDup (vertex_children v);
}.

Section cache.
Context `{TableHasherOk MessageId} `{HashOrderOk} `{EnvironmentOk} `{Bitflags} `{LedgerBackendOk B}.
Implicit Types (t : Tangle B) (id p c : MessageId) (v : Vertex) (vs : Vertices).
Implicit Types (E : MessageId -> MessageId -> Prop) (D : MessageId -> option (Message * MessageMetadata)).
Implicit Types (pins : MessageId -> Z).

Lemma within_ext limit (P Q : MessageId -> Prop) : (forall c, P c <-> Q c) -> within limit Q -> within limit P.
Proof. intros HPQ. apply within_mono. intros c. apply HPQ. Qed.

Record cache_ok E D pins vs : Prop := {
  co_wf : vertices_wf vs;
  co_vertex id v : Vertices_get vs id = Some v -> vertex_ok (edge_limit B) E D id v /\ eviction_blocks v = pins id;
  co_pinned id : pins id <> 0 -> is_Some (Vertices_get vs id);
  co_nonneg id : 0 <= pins id;
}.

Definition bump (b : bool) id pins : MessageId -> Z := fun id' => if b && bool_decide (id = id') then pins id' + 1 else pins id'.

Lemma bump_false id pins : bump false id pins = pins.
Proof. done. Qed.
Lemma bump_eq id pins : bump true id pins id = pins id + 1.
Proof. unfold bump. by rewrite bool_decide_eq_true_2. Qed.
Lemma bump_ne b id id' pins : id <> id' -> bump b id pins id' = pins id'.
Proof. intros Hne. unfold bump. rewrite bool_decide_eq_false_2 by done. by rewrite andb_false_r. Qed.

Lemma bump_pin (b : bool) id pins v :
  eviction_blocks v = pins id -> eviction_blocks (if b then prevent_eviction v else v) = bump b id pins id.
Proof. intros Hv. destruct b; [rewrite bump_eq, <- Hv; by destruct v | done]. Qed.
Lemma bump_nonneg b E D id pins vs : cache_ok E D pins vs -> 0 <= bump b id pins id.
Proof. intros Hc. pose proof (co_nonneg _ _ _ _ Hc id). destruct b; [rewrite bump_eq; lia | done]. Qed.

Lemma cache_ok_proper E E' D pins vs :
  (forall p c, E p c <-> E' p c) -> cache_ok E D pins vs -> cache_ok E' D pins vs.
Proof.
  intros HE [Hw Hv Hp Hn]. split; [done| |done|done]. intros id v Hg. destruct (Hv id v Hg) as [[? Hc Hx ?] ?].
  split; [|done]. split; [done| | |done]; intros c; [rewrite <- HE; apply Hc|].
  intros Hv' Hn'. rewrite <- HE. apply Hx; [done | by eapply within_ext, Hn'].
Qed.

(** The vertex at [id], or the empty one that takes its place. *)
Lemma cache_default E D pins vs id :
  cache_ok E D pins vs ->
  let v := default Vertex_empty (Vertices_get vs id) in vertex_ok (edge_limit B) E D id v /\ eviction_blocks v = pins id.
Proof.
  intros [Hw Hv Hp Hn]. destruct (Vertices_get vs id) as [v|] eqn:Hg; cbn; [by apply Hv|]. split.
  - split; cbn; [done | by intros c ?%not_elem_of_nil | done | constructor].
  - destruct (decide (pins id = 0)) as [->|Hne]; [done|]. apply Hp in Hne as [v Hv']. congruence.
Qed.

(** Replacing the vertex at [id]. *)
Lemma cache_write E D pins E' D' pins' vs vs' id v :
  cache_ok E D pins vs -> vertices_wf vs' ->
  (forall id', Vertices_get vs' id' = if decide (id = id') then Some v else Vertices_get vs id') ->
  vertex_ok (edge_limit B) E' D' id v -> eviction_blocks v = pins' id -> 0 <= pins' id ->
  (forall id', id <> id' -> pins' id' = pins id' /\ D' id' = D id' /\ forall c, E' id' c <-> E id' c) ->
  cache_ok E' D' pins' vs'.
Proof.
  intros [Hw Hv Hp Hn] Hw' Hg Ho Hb Hnn Hother. split; [done|..].
  - intros id' v'. rewrite Hg. case_decide as Hid; [intros [= <-]; by subst id'|]. intros Hget.
    destruct (Hother id' Hid) as (Hpi & HD & HE). destruct (Hv id' v' Hget) as [[? Hc Hx ?] ?]. split; [|congruence].
    split; [by rewrite HD | intros c; rewrite HE; apply Hc | | done].
    intros c Hv' Hn'. rewrite HE. apply Hx; [done|]. eapply within_ext, Hn'. intros ?. by rewrite HE.
  - intros id' Hne. rewrite Hg. case_decide as Hid; [by eexists|]. destruct (Hother id' Hid) as (Hpi & _). apply Hp.
    by rewrite <- Hpi.
  - intros id'. destruct (decide (id = id')) as [<-|Hid]; [done|]. destruct (Hother id' Hid) as (-> & _). apply Hn.
Qed.

(** ** Steps that change the cache only *)

Definition cache_step t t' : Prop := exists vs e, t' = with_env e (with_vertices vs t).

Lemma cache_step_refl t : cache_step t t.
Proof. exists (tg_vertices t), (tg_env t). by destruct t. Qed.
Lemma cache_step_vertices t vs : cache_step t (with_vertices vs t).
Proof. exists vs, (tg_env t). by destruct t. Qed.
Lemma cache_step_trans t1 t2 t3 : cache_step t1 t2 -> cache_step t2 t3 -> cache_step t1 t3.
Proof. intros (vs & e & ->) (vs' & e' & ->). exists vs', e'. by destruct t1. Qed.
Lemma cache_step_storage t t' : cache_step t t' -> tg_storage t' = tg_storage t.
Proof. intros (vs & e & ->). by destruct t. Qed.
Lemma cache_step_milestones t t' : cache_step t t' -> tg_milestones t' = tg_milestones t /\ tg_seps t' = tg_seps t.
Proof. intros (vs & e & ->). by destruct t. Qed.
Lemma vertices_with_vertices vs t : tg_vertices (with_vertices vs t) = vs.
Proof. by destruct t. Qed.

Lemma on_vertices_run {A} (m : st Vertices A) t a vs :
  m (tg_vertices t) = Some (a, vs) -> on_vertices m t = Some (a, with_vertices vs t).
Proof. intros Hm. unfold on_vertices. by rewrite Hm. Qed.

(** ** Eviction *)

Lemma evict_spec E D pins fuel t :
  cache_ok E D pins (tg_vertices t) ->
  exists t', evict fuel t = Some (tt, t') /\ cache_step t t' /\ cache_ok E D pins (tg_vertices t')
    /\ forall id, pins id <> 0 -> Vertices_get (tg_vertices t') id = Vertices_get (tg_vertices t) id.
Proof.
  revert t. induction fuel as [|fuel IH]; intros t Hc; cbn [evict]; [exists t; split_and!; [done | apply cache_step_refl | done..]|].
  destruct (_ <? _); [|exists t; split_and!; [done | apply cache_step_refl | done..]].
  pose proof (pop_random_spec (Z.to_nat (max_eviction_retries (tg_config t))) (tg_vertices t) (tg_env t) (co_wf _ _ _ _ Hc)) as Hp.
  destruct (pop_random _ _ _) as [[[v|] vs] e].
  - destruct Hp as (id & Hg & He & Hw & _ & Hget). 
    assert (Hvs : tg_vertices (with_env e (with_vertices vs t)) = vs) by by destruct t.
    assert (Hz : pins id = 0).
    { destruct (co_vertex _ _ _ _ Hc id v Hg) as [_ Hb]. unfold can_evict in He. apply Z.eqb_eq in He. lia. }
    destruct (IH (with_env e (with_vertices vs t))) as (t' & -> & Hs & Hc' & Hpin).
    { rewrite Hvs. destruct Hc as [? Hv Hp ?]. split; [done| | |done].
      - intros id' v'. rewrite Hget. case_decide; [done|]. apply Hv.
      - intros id' Hne. rewrite Hget. case_decide; [by subst|]. by apply Hp. }
    exists t'. split_and!; [done | | done|].
    + eapply cache_step_trans; [|exact Hs]. by exists vs, e.
    + intros id' Hne. rewrite Hpin, Hvs, Hget by done. case_decide; [by subst | done].
  - subst vs. eexists. split; [done|]. split_and!; [by exists (tg_vertices t), e | by destruct t | by destruct t].
Qed.

Lemma perform_eviction_spec E D pins t :
  cache_ok E D pins (tg_vertices t) ->
  exists t', perform_eviction t = Some (tt, t') /\ cache_step t t' /\ cache_ok E D pins (tg_vertices t')
    /\ forall id, pins id <> 0 -> Vertices_get (tg_vertices t') id = Vertices_get (tg_vertices t) id.
Proof.
  intros Hc. unfold perform_eviction. destruct (_ <? _); [by apply evict_spec|].
  exists t. split_and!; [done | apply cache_step_refl | done..].
Qed.

(** ** Inserting into the cache *)

Lemma add_child_ok E D id v c :
  vertex_ok (edge_limit B) E D id v -> vertex_ok (edge_limit B) (fun p c' => E p c' \/ c' = c /\ p = id) D id (add_child v c).
Proof.
  intros [Hm Hc Hx Hd]. destruct v as [m cs x b]. unfold add_child, VecSet_insert. cbn in *.
  assert (Hin : forall c', c' ∈ (if bool_decide (c ∈ cs) then (cs, false) else (cs ++ [c], true)).1 <-> c' = c \/ c' ∈ cs).
  { intros c'. case_bool_decide; cbn; set_solver. }
  split; cbn.
  - done.
  - intros c' [->|?]%Hin; [by right | left; by apply Hc].
  - intros c' He Hn [?|[-> _]]; apply Hin; [right; apply Hx; [done| |done] | by left].
    eapply within_mono, Hn. intros ? ?. by left.
  - case_bool_decide; cbn; [done|]. apply NoDup_app. split_and!; [done | set_solver | apply NoDup_singleton].
Qed.

Lemma add_child_fields v c : vertex_message (add_child v c) = vertex_message v /\ eviction_blocks (add_child v c) = eviction_blocks v.
Proof. by destruct v. Qed.

Definition add_to_parents id : list MessageId -> st (Tangle B) unit :=
  sfor (fun parent => on_vertices (Vertices_get_mut_or_empty parent (fun vertex => Some (tt, add_child vertex id)))).

Lemma add_to_parents_spec E D pins id ps t :
  cache_ok E D pins (tg_vertices t) ->
  exists t', add_to_parents id ps t = Some (tt, t') /\ cache_step t t'
    /\ cache_ok (fun p c => E p c \/ c = id /\ p ∈ ps) D pins (tg_vertices t')
    /\ forall id' v, Vertices_get (tg_vertices t) id' = Some v ->
         exists v', Vertices_get (tg_vertices t') id' = Some v' /\ vertex_message v' = vertex_message v.
Proof.
  unfold add_to_parents. revert E t. induction ps as [|p ps IH]; intros E t Hc; cbn [sfor].
  { exists t. split_and!; [done | apply cache_step_refl | | by eauto].
    eapply cache_ok_proper; [|exact Hc]. intros. rewrite elem_of_nil. naive_solver. }
  destruct (cache_default _ _ _ _ p Hc) as [Hv Hb].
  destruct (get_mut_or_empty_spec (tg_vertices t) p (fun v => Some (tt, add_child v id)) _ _ (co_wf _ _ _ _ Hc) eq_refl)
    as (vs & Hrun & Hw & Hg).
  rewrite (sbind_run _ _ _ _ _ (on_vertices_run _ _ _ _ Hrun)).
  destruct (IH (fun p' c => E p' c \/ c = id /\ p' = p) (with_vertices vs t)) as (t' & -> & Hs & Hc' & Hm).
  { rewrite vertices_with_vertices. eapply cache_write; [exact Hc | exact Hw | exact Hg | by apply add_child_ok|..].
    - by rewrite (proj2 (add_child_fields _ _)).
    - apply (co_nonneg _ _ _ _ Hc).
    - intros id' Hne. split_and!; [done..|]. naive_solver. }
  exists t'. split_and!; [done | eapply cache_step_trans; [apply cache_step_vertices | exact Hs]|..].
  - eapply cache_ok_proper; [|exact Hc']. intros p' c. cbn. rewrite elem_of_cons. naive_solver.
  - intros id' v Hget. rewrite vertices_with_vertices in Hm.
    destruct (decide (p = id')) as [->|Hne].
    + destruct (Hm id' (add_child v id)) as (v' & ? & Hv').
      { rewrite Hg, decide_True, Hget by done. done. }
      exists v'. by rewrite Hv', (proj1 (add_child_fields _ _)).
    + apply Hm. by rewrite Hg, decide_False.
Qed.

(** A message that the cache does not have. *)
Lemma insert_inner_new E D pins id m md prevent t :
  cache_ok E D pins (tg_vertices t) ->
  (forall v, Vertices_get (tg_vertices t) id = Some v -> vertex_message v = None) ->
  let E' := fun p c => E p c \/ c = id /\ p ∈ parents_inner (message_parents m) in
  let D' := fun id' => if decide (id = id') then Some (m, md) else D id' in
  exists t', insert_inner id m md prevent t = Some (Some m, t') /\ cache_step t t'
    /\ cache_ok E' D' (bump prevent id pins) (tg_vertices t')
    /\ (prevent = true -> exists v, Vertices_get (tg_vertices t') id = Some v /\ vertex_message v = Some (m, md)).
Proof.
  intros Hc Hnone E' D'. destruct (cache_default _ _ _ _ id Hc) as [[Hm Hch Hx Hd] Hb].
  set (v0 := default Vertex_empty (Vertices_get (tg_vertices t) id)) in *.
  assert (Hv0 : vertex_message v0 = None).
  { unfold v0. destruct (Vertices_get (tg_vertices t) id) eqn:E0; cbn; [by apply Hnone | done]. }
  set (v1 := insert_message_and_metadata (if prevent then prevent_eviction v0 else v0) m md).
  unfold insert_inner.
  match goal with |- context [Vertices_get_mut_or_empty id ?f] =>
    destruct (get_mut_or_empty_spec (tg_vertices t) id f (Some m) v1 (co_wf _ _ _ _ Hc)) as (vs & Hrun & Hw & Hg) end.
  { fold v0. unfold v1. destruct v0 as [? cs x b]. cbn in Hv0. subst. by destruct prevent. }
  rewrite (sbind_run _ _ _ _ _ (on_vertices_run _ _ _ _ Hrun)).
  assert (Hv1 : vertex_message v1 = Some (m, md) /\ vertex_children v1 = vertex_children v0
    /\ vertex_exhaustive v1 = vertex_exhaustive v0 /\ eviction_blocks v1 = bump prevent id pins id).
  { rewrite <- (bump_pin prevent id pins v0 Hb). unfold v1. by destruct v0, prevent. }
  destruct Hv1 as (Hv1m & Hv1c & Hv1x & Hv1b).
  assert (Hc1 : cache_ok E D' (bump prevent id pins) vs).
  { eapply cache_write; [exact Hc | exact Hw | exact Hg | | done | |].
    - split; rewrite ?Hv1m, ?Hv1c, ?Hv1x; [|done..]. intros y [= <-]. unfold D'. by rewrite decide_True.
    - by eapply bump_nonneg.
    - intros id' Hne. split_and!; [by apply bump_ne | unfold D'; by rewrite decide_False | done]. }
  destruct (add_to_parents_spec E D' (bump prevent id pins) id (parents_inner (message_parents m)) (with_vertices vs t))
    as (t2 & Hrun2 & Hs2 & Hc2 & Hm2); [by rewrite vertices_with_vertices|].
  rewrite (sbind_run _ _ _ _ _ Hrun2).
  destruct (perform_eviction_spec _ _ _ t2 Hc2) as (t3 & Hrun3 & Hs3 & Hc3 & Hpin).
  rewrite (sbind_run _ _ _ _ _ Hrun3). exists t3. split; [done|]. split; [|split; [done|]].
  - eapply cache_step_trans; [apply cache_step_vertices|]. by eapply cache_step_trans.
  - intros ->. rewrite Hpin by (rewrite bump_eq; pose proof (co_nonneg _ _ _ _ Hc id); lia).
    destruct (Hm2 id v1) as (v2 & ? & ?); [rewrite vertices_with_vertices, Hg, decide_True; done|]. exists v2. split; congruence.
Qed.

(** A message that the cache has. *)
Lemma insert_inner_cached E D pins id m md prevent v t :
  cache_ok E D pins (tg_vertices t) -> Vertices_get (tg_vertices t) id = Some v -> is_Some (vertex_message v) ->
  exists t', insert_inner id m md prevent t = Some (None, t') /\ cache_step t t'
    /\ cache_ok E D (bump prevent id pins) (tg_vertices t')
    /\ (pins id <> 0 -> exists v', Vertices_get (tg_vertices t') id = Some v' /\ vertex_message v' = vertex_message v).
Proof.
  intros Hc Hget [x Hx]. destruct (co_vertex _ _ _ _ Hc id v Hget) as [[Hm Hch He Hd] Hb].
  set (v1 := if prevent then prevent_eviction v else v). unfold insert_inner.
  assert (Hv1 : vertex_message v1 = vertex_message v /\ vertex_children v1 = vertex_children v
    /\ vertex_exhaustive v1 = vertex_exhaustive v) by (unfold v1; by destruct v, prevent).
  destruct Hv1 as (Hv1m & Hv1c & Hv1x).
  match goal with |- context [Vertices_get_mut_or_empty id ?f] =>
    destruct (get_mut_or_empty_spec (tg_vertices t) id f None v1 (co_wf _ _ _ _ Hc)) as (vs & Hrun & Hw & Hg) end.
  { rewrite Hget. cbn. fold v1. unfold Vertex_message, message_and_metadata. by rewrite Hv1m, Hx. }
  rewrite (sbind_run _ _ _ _ _ (on_vertices_run _ _ _ _ Hrun)), (sbind_run _ _ _ _ _ eq_refl).
  assert (Hc1 : cache_ok E D (bump prevent id pins) vs).
  { eapply cache_write; [exact Hc | exact Hw | exact Hg | | by apply bump_pin | by eapply bump_nonneg |].
    - split; rewrite ?Hv1m, ?Hv1c, ?Hv1x; done.
    - intros id' Hne. split_and!; [by apply bump_ne | done..]. }
  destruct (perform_eviction_spec E D (bump prevent id pins) (with_vertices vs t)) as (t3 & Hrun3 & Hs3 & Hc3 & Hpin);
    [by rewrite vertices_with_vertices|].
  rewrite (sbind_run _ _ _ _ _ Hrun3). exists t3. split; [done|].
  split; [eapply cache_step_trans; [apply cache_step_vertices | done]|]. split; [done|]. intros Hne.
  rewrite Hpin, vertices_with_vertices, Hg, decide_True by
    (done || (pose proof (co_nonneg _ _ _ _ Hc id); destruct prevent; [rewrite bump_eq; lia | done])).
  by exists v1.
Qed.

(** ** Pulling a message into the cache *)

(** What the cache is compared with is what the storage holds, at [id]. *)
Definition reads E D id t : Prop :=
  storage_get t id = Ok (D id)
  /\ forall m md p, D id = Some (m, md) -> p ∈ parents_inner (message_parents m) -> E p id.

Lemma D_insert_id D id x : D id = Some x -> forall id', (if decide (id = id') then Some x else D id') = D id'.
Proof. intros Hx id'. case_decide; [by subst | done]. Qed.

Lemma cache_ok_D E D D' pins vs : (forall id, D id = D' id) -> cache_ok E D pins vs -> cache_ok E D' pins vs.
Proof.
  intros HD [Hw Hv Hp Hn]. split; [done| |done|done]. intros id v Hg. destruct (Hv id v Hg) as [[Hm ? ? ?] ?].
  split; [|done]. split; [|done..]. intros x. rewrite <- HD. apply Hm.
Qed.

Lemma reads_step E D id t t' : cache_step t t' -> reads E D id t -> reads E D id t'.
Proof.
  intros Hs [Hr He]. split; [|done]. unfold storage_get in *. by rewrite (cache_step_storage t t' Hs).
Qed.

(** The part of [pull_message] that reads the storage. *)
Lemma pull_stored E D pins id prevent t :
  cache_ok E D pins (tg_vertices t) -> reads E D id t ->
  (forall v, Vertices_get (tg_vertices t) id = Some v -> vertex_message v = None) ->
  exists t',
    (let* found := gets (fun self => storage_get self id) in
     match found with
     | Ok (Some (msg, metadata)) => let* _ := insert_inner id msg metadata prevent in sret true
     | _ => sret false
     end) t = Some (bool_decide (is_Some (D id)), t') /\ cache_step t t'
    /\ cache_ok E D (bump (prevent && bool_decide (is_Some (D id))) id pins) (tg_vertices t')
    /\ (prevent = true -> forall x, D id = Some x ->
           exists v, Vertices_get (tg_vertices t') id = Some v /\ vertex_message v = Some x).
Proof.
  intros Hc [Hr He] Hnone. rewrite (sbind_run _ _ t _ t eq_refl), Hr.
  destruct (D id) as [[m md]|] eqn:HD.
  - destruct (insert_inner_new E D pins id m md prevent t Hc Hnone) as (t' & Hrun & Hs & Hc' & Hv).
    rewrite (sbind_run _ _ _ _ _ Hrun). exists t'. split; [done|]. split; [done|]. rewrite bool_decide_eq_true_2, andb_true_r by done.
    split; [|by intros Hp x [= <-]; apply Hv].
    eapply cache_ok_D; [by apply D_insert_id|]. eapply cache_ok_proper; [|exact Hc'].
    intros p c. cbn. split; [|naive_solver]. intros [?|[-> Hp]]; [done|]. by eapply He.
  - exists t. split; [done|]. split; [apply cache_step_refl|]. rewrite bool_decide_eq_false_2, andb_false_r by by intros [? ?].
    done.
Qed.

(** A message in the cache is pinned without reading the storage. *)
Lemma pull_cached E D pins id v x t :
  cache_ok E D pins (tg_vertices t) -> Vertices_get (tg_vertices t) id = Some v -> vertex_message v = Some x ->
  exists t', pull_message id true t = Some (true, t') /\ cache_step t t' /\ cache_ok E D (bump true id pins) (tg_vertices t')
    /\ exists v', Vertices_get (tg_vertices t') id = Some v' /\ vertex_message v' = Some x.
Proof.
  intros Hc Hg Hx. destruct (co_vertex _ _ _ _ Hc id v Hg) as [Ho Hb]. unfold pull_message.
  match goal with |- context [Vertices_get_mut id ?f] =>
    destruct (get_mut_spec (tg_vertices t) id f v true (prevent_eviction v) (co_wf _ _ _ _ Hc) Hg) as (vs & Hrun & Hw & Hget) end.
  { unfold Vertex_message, message_and_metadata. by rewrite Hx. }
  rewrite (sbind_run _ _ _ true (with_vertices vs t)) by (rewrite (sbind_run _ _ _ _ _ (on_vertices_run _ _ _ _ Hrun)); done).
  exists (with_vertices vs t). split; [done|]. split; [apply cache_step_vertices|]. rewrite vertices_with_vertices. split.
  - eapply cache_write; [exact Hc | exact Hw | exact Hget | | by apply (bump_pin true) | by eapply bump_nonneg|].
    + destruct Ho as [? ? ? ?]. destruct v; split; done.
    + intros id' Hne. split_and!; [by apply bump_ne | done..].
  - exists (prevent_eviction v). rewrite Hget, decide_True by done. split; [done|]. by destruct v.
Qed.

Lemma pull_message_spec E D pins id t :
  cache_ok E D pins (tg_vertices t) -> reads E D id t ->
  exists t', pull_message id true t = Some (bool_decide (is_Some (D id)), t') /\ cache_step t t'
    /\ cache_ok E D (bump (bool_decide (is_Some (D id))) id pins) (tg_vertices t')
    /\ forall x, D id = Some x -> exists v, Vertices_get (tg_vertices t') id = Some v /\ vertex_message v = Some x.
Proof.
  intros Hc Hr. destruct (Vertices_get (tg_vertices t) id) as [v|] eqn:Hg.
  1: destruct (co_vertex _ _ _ _ Hc id v Hg) as [Ho Hb]; destruct (vertex_message v) as [x|] eqn:Hx.
  - rewrite (vo_message _ _ _ _ _ Ho x Hx), bool_decide_eq_true_2 by done.
    destruct (pull_cached E D pins id v x t Hc Hg Hx) as (t' & ? & ? & ? & Hv). exists t'. split_and!; [done..|].
    intros y [= <-]. done.
  - unfold pull_message. match goal with |- context [Vertices_get_mut id ?f] =>
      destruct (get_mut_spec (tg_vertices t) id f v false v (co_wf _ _ _ _ Hc) Hg) as (vs & Hrun & Hw & Hget) end.
    { unfold Vertex_message, message_and_metadata. by rewrite Hx. }
    rewrite (sbind_run _ _ _ false (with_vertices vs t)) by (rewrite (sbind_run _ _ _ _ _ (on_vertices_run _ _ _ _ Hrun)); done).
    destruct (pull_stored E D pins id true (with_vertices vs t)) as (t' & Hrun' & Hs & Hc' & Hv).
    + rewrite vertices_with_vertices. eapply cache_write; [exact Hc | exact Hw | exact Hget | exact Ho | exact Hb|..].
      * apply (co_nonneg _ _ _ _ Hc).
      * intros id' Hne. done.
    + eapply reads_step; [apply cache_step_vertices | done].
    + rewrite vertices_with_vertices. intros v'. rewrite Hget, decide_True by done. by intros [= <-].
    + exists t'. split; [exact Hrun'|]. split; [eapply cache_step_trans; [apply cache_step_vertices | done]|]. auto.
  - unfold pull_message. rewrite (sbind_run _ _ t false t).
    + destruct (pull_stored E D pins id true t Hc Hr) as (t' & Hrun' & Hs & Hc' & Hv); [by rewrite Hg|].
      exists t'. auto.
    + rewrite (sbind_run _ _ t None t); [done|]. unfold on_vertices. rewrite get_mut_None by done. by destruct t.
Qed.

(** ** Using a vertex *)

Lemma unpin_bumped (b : bool) id pins v :
  eviction_blocks v = bump b id pins id -> 0 <= pins id ->
  exists v', unpin b v = Some (tt, v') /\ eviction_blocks v' = pins id
    /\ vertex_message v' = vertex_message v /\ vertex_children v' = vertex_children v
    /\ vertex_exhaustive v' = vertex_exhaustive v.
Proof.
  destruct b; [rewrite bump_eq | rewrite bump_false]; intros Hb Hn; [|by exists v].
  destruct v as [m c x e]. cbn in Hb. subst e. cbn. assert ((0 <=? pins id + 1 - 1) = true) as -> by lia.
  eexists. split; [done|]. split_and!; [cbn; lia | done..].
Qed.

Lemma vertex_ok_ext E D id v v' :
  vertex_message v' = vertex_message v -> vertex_children v' = vertex_children v ->
  vertex_exhaustive v' = vertex_exhaustive v -> vertex_ok (edge_limit B) E D id v -> vertex_ok (edge_limit B) E D id v'.
Proof. intros Hm Hc Hx [? ? ? ?]. split; rewrite ?Hm, ?Hc, ?Hx; done. Qed.

(** A pinned vertex is released, used by [f], and written back. *)
Lemma use_vertex {R} E D pins E' D' (b : bool) id (f : st Vertex R) t v :
  cache_ok E D (bump b id pins) (tg_vertices t) -> 0 <= pins id -> Vertices_get (tg_vertices t) id = Some v ->
  (forall id', id <> id' -> D' id' = D id' /\ forall c, E' id' c <-> E id' c) ->
  (forall v1, vertex_message v1 = vertex_message v -> vertex_ok (edge_limit B) E D id v1 ->
     exists r v2, f v1 = Some (r, v2) /\ vertex_ok (edge_limit B) E' D' id v2 /\ eviction_blocks v2 = eviction_blocks v1) ->
  exists v1 r v2 t', vertex_message v1 = vertex_message v /\ f v1 = Some (r, v2)
    /\ on_vertices (Vertices_get_mut id (let* _ := unpin b in f)) t = Some (Some r, t') /\ cache_step t t'
    /\ cache_ok E' D' pins (tg_vertices t') /\ Vertices_get (tg_vertices t') id = Some v2.
Proof.
  intros Hc Hn Hg Hother Hf. destruct (co_vertex _ _ _ _ Hc id v Hg) as [Ho Hb].
  destruct (unpin_bumped b id pins v Hb Hn) as (v1 & Hu & Hb1 & Hm1 & Hc1 & Hx1).
  destruct (Hf v1 Hm1 (vertex_ok_ext _ _ _ _ _ Hm1 Hc1 Hx1 Ho)) as (r & v2 & Hr & Ho2 & Hb2).
  destruct (get_mut_spec (tg_vertices t) id (let* _ := unpin b in f) v r v2 (co_wf _ _ _ _ Hc) Hg) as (vs & Hrun & Hw & Hget).
  { by rewrite (sbind_run _ _ _ _ _ Hu). }
  exists v1, r, v2, (with_vertices vs t). split_and!; [done | done | by apply on_vertices_run | apply cache_step_vertices|..];
    rewrite ?vertices_with_vertices, ?Hget, ?decide_True by done; [|done].
  eapply cache_write; [exact Hc | exact Hw | exact Hget | done | congruence | done|].
  intros id' Hne. rewrite bump_ne by done. by destruct (Hother id' Hne).
Qed.

Lemma get_with_spec {R} E D pins id (g : Vertex -> R) t :
  cache_ok E D pins (tg_vertices t) -> reads E D id t ->
  exists r t', get_with id (fun v => Some (g v, v)) t = Some (r, t') /\ cache_step t t' /\ cache_ok E D pins (tg_vertices t')
    /\ match D id with
       | Some x => exists v, r = Some (g v) /\ vertex_message v = Some x
       | None => forall y, r = Some y -> exists v, y = g v /\ vertex_message v = None
       end.
Proof.
  intros Hc Hr. unfold get_with. destruct (pull_message_spec E D pins id t Hc Hr) as (t1 & Hrun & Hs & Hc1 & Hx).
  rewrite (sbind_run _ _ _ _ _ Hrun). destruct (Vertices_get (tg_vertices t1) id) as [v|] eqn:Hg.
  - destruct (use_vertex E D pins E D _ id (fun v => Some (g v, v)) t1 v Hc1 (co_nonneg _ _ _ _ Hc id) Hg)
      as (v1 & r & v2 & t2 & Hm & Hf & Hrun2 & Hs2 & Hc2 & Hg2); [done | by eauto|].
    injection Hf as <- <-. rewrite Hrun2. exists (Some (g v1)), t2. split; [done|].
    split; [by eapply cache_step_trans|]. split; [done|]. destruct (D id) as [x|] eqn:HD.
    + destruct (Hx x eq_refl) as (v' & [= <-] & Hv'). exists v1. by rewrite Hm.
    + intros y [= <-]. exists v1. split; [done|]. rewrite Hm.
      destruct (vertex_message v) as [x|] eqn:Hv; [|done].
      destruct (co_vertex _ _ _ _ Hc1 id v Hg) as [Ho _]. rewrite (vo_message _ _ _ _ _ Ho x Hv) in HD. done.
  - unfold on_vertices. rewrite get_mut_None by done. eexists None, _. split; [done|].
    rewrite vertices_with_vertices. split; [eapply cache_step_trans; [exact Hs | apply cache_step_vertices]|].
    destruct (D id) as [x|]; [destruct (Hx x eq_refl) as (v & Hv & _); congruence|].
    rewrite bool_decide_eq_false_2 in Hc1 by by intros [? ?]. done.
Qed.

(** The readings of a message. *)
Lemma Tangle_get_spec E D pins id t :
  cache_ok E D pins (tg_vertices t) -> reads E D id t ->
  exists t', Tangle_get id t = Some (fst <$> D id, t') /\ cache_step t t' /\ cache_ok E D pins (tg_vertices t').
Proof.
  intros Hc Hr. unfold Tangle_get. destruct (get_with_spec E D pins id Vertex_message t Hc Hr) as (r & t' & Hrun & Hs & Hc' & Hx).
  rewrite (sbind_run _ _ _ _ _ Hrun). exists t'. split; [|done]. unfold sret. repeat f_equal. unfold flatten, Vertex_message, message_and_metadata in *.
  destruct (D id) as [x|]; [by destruct Hx as (v & -> & ->)|]. destruct r as [o|]; [|done].
  by destruct (Hx o eq_refl) as (v & -> & ->).
Qed.

Lemma get_metadata_spec E D pins id t :
  cache_ok E D pins (tg_vertices t) -> reads E D id t ->
  exists t', get_metadata id t = Some (snd <$> D id, t') /\ cache_step t t' /\ cache_ok E D pins (tg_vertices t').
Proof.
  intros Hc Hr. unfold get_metadata. destruct (get_with_spec E D pins id Vertex_metadata t Hc Hr) as (r & t' & Hrun & Hs & Hc' & Hx).
  rewrite (sbind_run _ _ _ _ _ Hrun). exists t'. split; [|done]. unfold sret. repeat f_equal. unfold flatten, Vertex_metadata, message_and_metadata in *.
  destruct (D id) as [x|]; [by destruct Hx as (v & -> & ->)|]. destruct r as [o|]; [|done].
  by destruct (Hx o eq_refl) as (v & -> & ->).
Qed.

Lemma get_vertex_spec E D pins id t :
  cache_ok E D pins (tg_vertices t) -> reads E D id t ->
  exists r t', get_vertex id t = Some (r, t') /\ cache_step t t' /\ cache_ok E D pins (tg_vertices t')
    /\ r ≫= message_and_metadata = D id.
Proof.
  intros Hc Hr. destruct (get_with_spec E D pins id (fun v => v) t Hc Hr) as (r & t' & Hrun & Hs & Hc' & Hx).
  exists r, t'. split_and!; [done..|]. unfold message_and_metadata.
  destruct (D id) as [x|]; [by destruct Hx as (v & -> & ?)|]. destruct r as [o|]; [|done].
  by destruct (Hx o eq_refl) as (v & -> & ?).
Qed.

Lemma Tangle_contains_spec E D pins id t :
  cache_ok E D pins (tg_vertices t) -> reads E D id t ->
  exists t', Tangle_contains id t = Some (bool_decide (is_Some (D id)), t') /\ cache_step t t' /\ cache_ok E D pins (tg_vertices t').
Proof.
  intros Hc Hr. unfold Tangle_contains, pull_message, contains_inner. rewrite (sbind_run _ _ t _ t eq_refl).
  destruct (Vertices_get (tg_vertices t) id) as [v|] eqn:Hg.
  1: unfold Vertex_message, message_and_metadata; destruct (vertex_message v) as [x|] eqn:Hx.
  - exists t. rewrite bool_decide_eq_true_2 by by eexists. destruct (co_vertex _ _ _ _ Hc id v Hg) as [Ho _].
    rewrite (vo_message _ _ _ _ _ Ho x Hx), bool_decide_eq_true_2 by by eexists. split_and!; [done | apply cache_step_refl | done].
  - rewrite bool_decide_eq_false_2 by by intros [? ?]. rewrite (sbind_run _ _ t false t).
    2: { unfold gets. rewrite Hg. unfold Vertex_message, message_and_metadata. rewrite Hx. done. }
    destruct (pull_stored E D pins id false t Hc Hr) as (t' & ? & ? & ? & _); [rewrite Hg; by intros ? [= <-]|]. by exists t'.
  - rewrite (sbind_run _ _ t false t).
    2: { unfold gets. by rewrite Hg. }
    destruct (pull_stored E D pins id false t Hc Hr) as (t' & ? & ? & ? & _); [by rewrite Hg|]. by exists t'.
Qed.

(** ** The storage *)

Lemma storage_get_ok t id : healthy (tg_storage t) -> storage_get t id = Ok (stored (tables (tg_storage t)) id).
Proof. intros Hs. unfold storage_get. rewrite fetch_ok by done. cbn [result_bind]. by rewrite fetch_ok. Qed.

Lemma insert_or_log_ok {K V} `{Countable K} `{!StorageInsert B K V} `{Field LedgerTables (gmap K V)} `{!InsertOk B K V}
    (k : K) (v : V) t :
  healthy (tg_storage t) ->
  exists s, insert_or_log k v t = Some (tt, with_storage s t) /\ healthy s /\ tables s = insert_table k v (tables (tg_storage t)).
Proof.
  intros Hs. unfold insert_or_log, modify. destruct (insert_ok (tg_storage t) k v Hs) as (s & Hi & ? & ?). rewrite Hi. by exists s.
Qed.

Definition insert_edges id (ps : list MessageId) (tb : LedgerTables) : LedgerTables :=
  foldl (fun tb p => insert_table (p, id) tt tb) tb ps.
Definition insert_stored id (m : Message) (md : MessageMetadata) (tb : LedgerTables) : LedgerTables :=
  insert_table id md (insert_table id m tb).

Lemma edge_insert p c tb p' c' : edge (insert_table (p, c) tt tb) p' c' <-> (c' = c /\ p' = p) \/ edge tb p' c'.
Proof.
  unfold edge. destruct tb as [? ? ? ? ? ? ? ? ? ? []]. unfold insert_table. cbn. rewrite insert_unit_lookup. naive_solver.
Qed.
Lemma stored_insert_edge p c tb id : stored (insert_table (p, c) tt tb) id = stored tb id.
Proof. by destruct tb as [? ? ? ? ? ? ? ? ? ? []]. Qed.

Lemma edge_insert_edges id ps tb p c : edge (insert_edges id ps tb) p c <-> edge tb p c \/ c = id /\ p ∈ ps.
Proof.
  unfold insert_edges. revert tb. induction ps as [|q ps IH]; intros tb; cbn [foldl]; [rewrite elem_of_nil; naive_solver|].
  rewrite IH, edge_insert, elem_of_cons. naive_solver.
Qed.
Lemma stored_insert_edges id ps tb id' : stored (insert_edges id ps tb) id' = stored tb id'.
Proof.
  unfold insert_edges. revert tb. induction ps as [|q ps IH]; intros tb; cbn [foldl]; [done|]. by rewrite IH, stored_insert_edge.
Qed.
Lemma stored_insert_stored id m md tb id' :
  stored (insert_stored id m md tb) id' = if decide (id = id') then Some (m, md) else stored tb id'.
Proof.
  unfold stored, insert_stored. destruct tb as [? ? ? ? ? ? ? ? ? ? []]. unfold insert_table. cbn.
  case_decide as Hid; [subst; by rewrite !lookup_insert_eq | by rewrite !lookup_insert_ne].
Qed.
Lemma edge_insert_stored id m md tb p c : edge (insert_stored id m md tb) p c <-> edge tb p c.
Proof. by destruct tb as [? ? ? ? ? ? ? ? ? ? []]. Qed.
Lemma milestone_insert_edges id ps tb : t_milestone (t_node (insert_edges id ps tb)) = t_milestone (t_node tb).
Proof.
  unfold insert_edges. revert tb. induction ps as [|q ps IH]; intros tb; cbn [foldl]; [done|]. rewrite IH.
  by destruct tb as [? ? ? ? ? ? ? ? ? ? []].
Qed.
Lemma milestone_insert_stored id m md tb : t_milestone (t_node (insert_stored id m md tb)) = t_milestone (t_node tb).
Proof. by destruct tb as [? ? ? ? ? ? ? ? ? ? []]. Qed.

Lemma with_storage_fields s t :
  tg_storage (with_storage s t) = s /\ tg_vertices (with_storage s t) = tg_vertices t
  /\ tg_milestones (with_storage s t) = tg_milestones t /\ tg_seps (with_storage s t) = tg_seps t.
Proof. by destruct t. Qed.

Lemma insert_edges_ok id ps t :
  healthy (tg_storage t) ->
  exists s, sfor (fun p => insert_or_log (p, id) tt) ps t = Some (tt, with_storage s t) /\ healthy s
    /\ tables s = insert_edges id ps (tables (tg_storage t)).
Proof.
  revert t. induction ps as [|p ps IH]; intros t Hs; cbn [sfor].
  - exists (tg_storage t). split; [by destruct t | done].
  - destruct (insert_or_log_ok (p, id) tt t Hs) as (s & Hrun & Hs' & Ht). rewrite (sbind_run _ _ _ _ _ Hrun).
    destruct (with_storage_fields s t) as [Hst _]. destruct (IH (with_storage s t)) as (s' & -> & ? & Ht'); [by rewrite Hst|].
    exists s'. split; [by destruct t|]. split; [done|]. by rewrite Ht', Hst, Ht.
Qed.

Lemma storage_insert_message_ok id m md t :
  healthy (tg_storage t) ->
  exists s, storage_insert_message id m md t = Some (tt, with_storage s t) /\ healthy s
    /\ tables s = insert_stored id m md (tables (tg_storage t)).
Proof.
  intros Hs. unfold storage_insert_message, modify. destruct (insert_ok (tg_storage t) id m Hs) as (s & -> & Hs1 & Ht).
  destruct (insert_ok s id md Hs1) as (s' & -> & Hs2 & Ht'). exists s'. split; [done|]. split; [done|]. by rewrite Ht', Ht.
Qed.

(** ** The invariant of the tangle *)

Definition no_pins : MessageId -> Z := fun _ => 0.

Record tangle_inv t : Prop := {
  ti_healthy : healthy (tg_storage t);
  ti_cache : cache_ok (edge (tables (tg_storage t))) (stored (tables (tg_storage t))) no_pins (tg_vertices t);
  ti_edges id m md p : stored (tables (tg_storage t)) id = Some (m, md) -> p ∈ parents_inner (message_parents m) ->
    edge (tables (tg_storage t)) p id;
  ti_milestones i ms : tg_milestones t !! i = Some ms -> t_milestone (t_node (tables (tg_storage t))) !! i = Some ms;
}.

Lemma inv_reads t id : tangle_inv t -> reads (edge (tables (tg_storage t))) (stored (tables (tg_storage t))) id t.
Proof. intros [? ? He ?]. split; [by apply storage_get_ok|]. intros m md p. apply He. Qed.

(** An operation that only changed the cache. *)
Lemma inv_step t t' :
  tangle_inv t -> cache_step t t' ->
  cache_ok (edge (tables (tg_storage t))) (stored (tables (tg_storage t))) no_pins (tg_vertices t') -> tangle_inv t'.
Proof.
  intros [? ? ? ?] Hs Hc. destruct (cache_step_milestones t t' Hs) as [Hm _].
  split; rewrite ?(cache_step_storage t t' Hs), ?Hm; done.
Qed.

Lemma no_message_cached E D pins vs id v :
  cache_ok E D pins vs -> D id = None -> Vertices_get vs id = Some v -> vertex_message v = None.
Proof.
  intros Hc HD Hg. destruct (co_vertex _ _ _ _ Hc id v Hg) as [Ho _]. destruct (vertex_message v) as [x|] eqn:Hx; [|done].
  by rewrite (vo_message _ _ _ _ _ Ho x Hx) in HD.
Qed.

Lemma release_ok E D pins id t v :
  cache_ok E D (bump true id pins) (tg_vertices t) -> 0 <= pins id -> Vertices_get (tg_vertices t) id = Some v ->
  exists t', release id t = Some (tt, t') /\ cache_step t t' /\ cache_ok E D pins (tg_vertices t').
Proof.
  intros Hc Hn Hg. unfold release.
  destruct (use_vertex E D pins E D true id (sret tt) t v Hc Hn Hg) as (v1 & r & v2 & t' & _ & _ & Hrun & Hs & Hc' & _);
    [done | intros v1 _ Ho; by exists tt, v1|].
  rewrite (sbind_run _ _ _ _ _ Hrun). by exists t'.
Qed.

(** [insert] of a message that the tangle has. *)
Lemma Tangle_insert_known m id md t x :
  tangle_inv t -> stored (tables (tg_storage t)) id = Some x ->
  exists t', Tangle_insert m id md t = Some (None, t') /\ tangle_inv t' /\ tg_storage t' = tg_storage t.
Proof.
  intros Hi Hx. unfold Tangle_insert. destruct (pull_message_spec _ _ _ id t (ti_cache _ Hi) (inv_reads _ id Hi)) as (t1 & Hrun1 & Hs1 & Hc1 & Hv1).
  rewrite Hx, bool_decide_eq_true_2 in Hrun1, Hc1 by done. rewrite (sbind_run _ _ _ _ _ Hrun1).
  destruct (Hv1 x Hx) as (v1 & Hg1 & Hm1).
  destruct (insert_inner_cached _ _ _ id m md false v1 t1 Hc1 Hg1) as (t2 & Hrun2 & Hs2 & Hc2 & Hv2); [by rewrite Hm1|].
  cbn [negb]. rewrite (sbind_run _ _ _ _ _ Hrun2). rewrite bump_false in Hc2. destruct Hv2 as (v2 & Hg2 & _); [by rewrite bump_eq|].
  destruct (release_ok _ _ _ id t2 v2 Hc2) as (t3 & Hrun3 & Hs3 & Hc3); [done | done|].
  rewrite (sbind_run _ _ _ _ _ Hrun3). exists t3. split; [done|].
  assert (Hs : cache_step t t3) by (eapply cache_step_trans; [eapply cache_step_trans|]; done).
  split; [by eapply inv_step | by apply cache_step_storage].
Qed.

(** [insert] of a new message. *)
Lemma Tangle_insert_new m id md t :
  tangle_inv t -> stored (tables (tg_storage t)) id = None ->
  exists t', Tangle_insert m id md t = Some (Some m, t') /\ tangle_inv t'
    /\ tables (tg_storage t')
       = insert_stored id m md (insert_edges id (parents_inner (message_parents m)) (tables (tg_storage t))).
Proof.
  intros Hi Hx. unfold Tangle_insert. destruct (pull_message_spec _ _ _ id t (ti_cache _ Hi) (inv_reads _ id Hi)) as (t1 & Hrun1 & Hs1 & Hc1 & _).
  rewrite Hx, bool_decide_eq_false_2, ?bump_false in Hrun1, Hc1 by by intros [? ?]. rewrite (sbind_run _ _ _ _ _ Hrun1).
  destruct (insert_inner_new _ _ _ id m md true t1 Hc1) as (t2 & Hrun2 & Hs2 & Hc2 & Hv2).
  { intros v. by apply (no_message_cached _ _ _ _ id v Hc1). }
  cbn [negb]. rewrite (sbind_run _ _ _ _ _ Hrun2). destruct (Hv2 eq_refl) as (v2 & Hg2 & _).
  destruct (release_ok _ _ _ id t2 v2 Hc2) as (t3 & Hrun3 & Hs3 & Hc3); [done | done|].
  rewrite (sbind_run _ _ _ _ _ Hrun3).
  assert (Hs : cache_step t t3) by (eapply cache_step_trans; [eapply cache_step_trans|]; done).
  destruct (insert_edges_ok id (parents_inner (message_parents m)) t3) as (s4 & Hrun4 & Hh4 & Ht4).
  { rewrite (cache_step_storage _ _ Hs). apply (ti_healthy _ Hi). }
  rewrite (sbind_run _ _ _ _ _ Hrun4). destruct (with_storage_fields s4 t3) as (Hst4 & Hvs4 & Hms4 & _).
  destruct (storage_insert_message_ok id m md (with_storage s4 t3)) as (s5 & Hrun5 & Hh5 & Ht5); [by rewrite Hst4|].
  rewrite (sbind_run _ _ _ _ _ Hrun5). destruct (with_storage_fields s5 (with_storage s4 t3)) as (Hst5 & Hvs5 & Hms5 & _).
  rewrite Hst4, Ht4, (cache_step_storage _ _ Hs) in Ht5. eexists. split; [done|]. split; [|by rewrite Hst5].
  split; rewrite Hst5, ?Hvs5, ?Hvs4, ?Hms5, ?Hms4, ?Ht5; [done|..].
  - eapply cache_ok_D, cache_ok_proper, Hc3.
    + intros id'. by rewrite stored_insert_stored, stored_insert_edges.
    + intros p c. by rewrite edge_insert_stored, edge_insert_edges.
  - intros id' m' md' p. rewrite stored_insert_stored, stored_insert_edges, edge_insert_stored, edge_insert_edges.
    case_decide as Hid; [intros [= <- <-] ?; by right|]. intros ? ?. left. by eapply ti_edges.
  - intros i ms. rewrite milestone_insert_stored, milestone_insert_edges, (proj1 (cache_step_milestones _ _ Hs)). by apply ti_milestones.
Qed.

(** ** Updating metadata *)

(** What an update under the lock does to a cached vertex. *)
Lemma update_cached {R} E D pins id (update : MessageMetadata -> R * MessageMetadata) m md (b : bool) t v :
  cache_ok E D (bump b id pins) (tg_vertices t) -> 0 <= pins id ->
  Vertices_get (tg_vertices t) id = Some v -> vertex_message v = Some (m, md) ->
  exists t' v',
    on_vertices (Vertices_get_mut id (
      let* _ := unpin b in
      fun vertex => let '(r, vertex) := metadata_mut update vertex in Some ((r, message_and_metadata vertex), vertex))) t
    = Some (Some (Some (update md).1, Some (m, (update md).2)), t')
    /\ cache_step t t'
    /\ cache_ok E (fun id' => if decide (id = id') then Some (m, (update md).2) else D id') pins (tg_vertices t')
    /\ Vertices_get (tg_vertices t') id = Some v' /\ vertex_message v' = Some (m, (update md).2).
Proof.
  intros Hc Hn Hg Hm. destruct (update md) as [r md'] eqn:Hu. cbn [fst snd].
  set (f := fun vertex => let '(r, vertex) := metadata_mut update vertex in Some ((r, message_and_metadata vertex), vertex)).
  assert (Hf : forall v1, vertex_message v1 = Some (m, md) ->
    f v1 = Some ((Some r, Some (m, md')), mkVertex (Some (m, md')) (vertex_children v1) (vertex_exhaustive v1) (eviction_blocks v1))).
  { intros [m1 c1 x1 b1] Hm1. cbn in Hm1. subst m1. unfold f, metadata_mut. by rewrite Hu. }
  destruct (use_vertex E D pins E (fun id' => if decide (id = id') then Some (m, md') else D id') b id f t v Hc Hn Hg)
    as (v1 & r' & v2 & t' & Hm1 & Hr & Hrun & Hs & Hc' & Hg').
  - intros id' Hne. by rewrite decide_False.
  - intros v1 Hm1 [? Hch Hx Hd]. rewrite Hm in Hm1. rewrite (Hf v1 Hm1). do 2 eexists. split; [done|]. split; [|done].
    split; cbn; [|done..]. intros y [= <-]. by rewrite decide_True.
  - rewrite Hm in Hm1. rewrite (Hf v1 Hm1) in Hr. injection Hr as <- <-. exists t'. eexists. split_and!; [done..| |]; done.
Qed.

Lemma update_locked_known {R} id (update : MessageMetadata -> R * MessageMetadata) m md t :
  tangle_inv t -> stored (tables (tg_storage t)) id = Some (m, md) ->
  exists t' v', update_locked id update t = Some (Some (Some (update md).1, Some (m, (update md).2)), t') /\ cache_step t t'
    /\ cache_ok (edge (tables (tg_storage t)))
         (fun id' => if decide (id = id') then Some (m, (update md).2) else stored (tables (tg_storage t)) id') no_pins (tg_vertices t')
    /\ Vertices_get (tg_vertices t') id = Some v' /\ vertex_message v' = Some (m, (update md).2).
Proof.
  intros Hi Hx. unfold update_locked.
  destruct (pull_message_spec _ _ _ id t (ti_cache _ Hi) (inv_reads _ id Hi)) as (t1 & Hrun1 & Hs1 & Hc1 & Hv1).
  rewrite (sbind_run _ _ _ _ _ Hrun1). destruct (Hv1 _ Hx) as (v1 & Hg1 & Hm1).
  destruct (update_cached _ _ _ id update m md _ t1 v1 Hc1) as (t2 & v2 & Hrun2 & Hs2 & Hc2 & Hg2 & Hm2); [done..|].
  exists t2, v2. rewrite Hrun2. split_and!; [done | by eapply cache_step_trans | done..].
Qed.

(** Writing a vertex back to the storage. *)
Lemma inv_write id m md t md0 :
  healthy (tg_storage t) ->
  cache_ok (edge (tables (tg_storage t)))
    (fun id' => if decide (id = id') then Some (m, md) else stored (tables (tg_storage t)) id') no_pins (tg_vertices t) ->
  stored (tables (tg_storage t)) id = Some (m, md0) ->
  (forall id m md p, stored (tables (tg_storage t)) id = Some (m, md) -> p ∈ parents_inner (message_parents m) ->
     edge (tables (tg_storage t)) p id) ->
  (forall i ms, tg_milestones t !! i = Some ms -> t_milestone (t_node (tables (tg_storage t))) !! i = Some ms) ->
  exists t', storage_insert_message id m md t = Some (tt, t') /\ tangle_inv t'
    /\ tables (tg_storage t') = insert_stored id m md (tables (tg_storage t)).
Proof.
  intros Hh Hc Hx He Hms. destruct (storage_insert_message_ok id m md t Hh) as (s & Hrun & Hh' & Ht).
  destruct (with_storage_fields s t) as (Hst & Hvs & Hm & _). exists (with_storage s t). rewrite Hst. split_and!; [done| |done].
  split; rewrite Hst, ?Hvs, ?Hm, ?Ht; [done|..].
  - eapply cache_ok_D, cache_ok_proper, Hc.
    + intros id'. by rewrite stored_insert_stored.
    + intros p c. by rewrite edge_insert_stored.
  - intros id' m' md' p. rewrite stored_insert_stored, edge_insert_stored. case_decide as Hid; [|apply He].
    subst id'. intros [= <- <-]. by apply (He id m md0).
  - intros i ms. rewrite milestone_insert_stored. apply Hms.
Qed.

Lemma update_metadata_known {R} id (update : MessageMetadata -> R * MessageMetadata) m md t :
  tangle_inv t -> stored (tables (tg_storage t)) id = Some (m, md) ->
  exists t', update_metadata id update t = Some (Some (update md).1, t') /\ tangle_inv t'
    /\ tables (tg_storage t') = insert_stored id m (update md).2 (tables (tg_storage t)).
Proof.
  intros Hi Hx. unfold update_metadata. destruct (update_locked_known id update m md t Hi Hx) as (t1 & v1 & Hrun1 & Hs1 & Hc1 & _).
  rewrite (sbind_run _ _ _ _ _ Hrun1). cbn [update_stored]. pose proof (cache_step_storage _ _ Hs1) as Hst.
  destruct (inv_write id m (update md).2 t1 md) as (t2 & Hrun2 & Hi2 & Ht2); rewrite ?Hst; [apply Hi | done | done | apply Hi | |].
  - rewrite (proj1 (cache_step_milestones _ _ Hs1)). apply Hi.
  - rewrite (sbind_run _ _ _ _ _ Hrun2). exists t2. rewrite Ht2, Hst. done.
Qed.

Lemma update_metadata_unknown {R} id (update : MessageMetadata -> R * MessageMetadata) t :
  tangle_inv t -> stored (tables (tg_storage t)) id = None ->
  exists t', update_metadata id update t = Some (None, t') /\ tangle_inv t' /\ tg_storage t' = tg_storage t.
Proof.
  intros Hi Hx. unfold update_metadata, update_locked.
  destruct (pull_message_spec _ _ _ id t (ti_cache _ Hi) (inv_reads _ id Hi)) as (t1 & Hrun1 & Hs1 & Hc1 & _).
  rewrite Hx, bool_decide_eq_false_2, ?bump_false in Hrun1, Hc1 by by intros [? ?].
  destruct (Vertices_get (tg_vertices t1) id) as [v|] eqn:Hg.
  - pose proof (no_message_cached _ _ _ _ id v Hc1 Hx Hg) as Hm.
    match goal with |- context [let* _ := unpin _ in ?g] => set (f := g) end.
    assert (Hf : forall v1, vertex_message v1 = None -> f v1 = Some ((None, None), v1)).
    { intros [m1 c1 x1 b1] Hm1. cbn in Hm1. by subst m1. }
    destruct (use_vertex _ _ no_pins (edge (tables (tg_storage t))) (stored (tables (tg_storage t))) false id f t1 v Hc1) as (v1 & r & v2 & t2 & Hm1 & Hr & Hrun2 & Hs2 & Hc2 & _);
      [done | done | done | intros v1 Hm1 Ho; rewrite Hm in Hm1; rewrite (Hf v1 Hm1); by eauto|].
    rewrite Hm in Hm1. rewrite (Hf v1 Hm1) in Hr. injection Hr as <- <-.
    rewrite (sbind_run _ _ _ _ t2) by (rewrite (sbind_run _ _ _ _ _ Hrun1); exact Hrun2).
    assert (Hs : cache_step t t2) by by eapply cache_step_trans.
    exists t2. split_and!; [done | by eapply inv_step | by apply cache_step_storage].
  - rewrite (sbind_run _ _ _ None (with_vertices (tg_vertices t1) t1)).
    2: { rewrite (sbind_run _ _ _ _ _ Hrun1). unfold on_vertices. by rewrite get_mut_None. }
    assert (Hs : cache_step t (with_vertices (tg_vertices t1) t1)) by (eapply cache_step_trans; [exact Hs1 | apply cache_step_vertices]).
    eexists. split_and!; [done | eapply inv_step; [done | done | by rewrite vertices_with_vertices] | by apply cache_step_storage].
Qed.

(** ** Children *)

Lemma add_children_fields l v :
  vertex_message (foldl add_child v l) = vertex_message v /\ eviction_blocks (foldl add_child v l) = eviction_blocks v
  /\ vertex_exhaustive (foldl add_child v l) = vertex_exhaustive v
  /\ (NoDup (vertex_children v) -> NoDup (vertex_children (foldl add_child v l)))
  /\ forall c, c ∈ vertex_children (foldl add_child v l) <-> c ∈ vertex_children v \/ c ∈ l.
Proof.
  revert v. induction l as [|c l IH]; intros v; cbn [foldl]; [split_and!; try done; set_solver|].
  destruct (IH (add_child v c)) as (-> & -> & -> & Hd & Hc).
  assert (Ha : forall c', c' ∈ vertex_children (add_child v c) <-> c' ∈ vertex_children v \/ c' = c).
  { intros c'. destruct v as [? cs ? ?]. unfold add_child, VecSet_insert. cbn. case_bool_decide; cbn; set_solver. }
  split_and!; [by destruct v..| |].
  - intros Hn. apply Hd. destruct v as [? cs ? ?]. unfold add_child, VecSet_insert. cbn in *. case_bool_decide; cbn; [done|].
    apply NoDup_app. split_and!; [done | set_solver | apply NoDup_singleton].
  - intros c'. rewrite Hc, Ha. set_solver.
Qed.

Lemma fetch_children_spec id t :
  tangle_inv t ->
  exists l t', fetch_children id t = Some (Some l, t') /\ tangle_inv t' /\ tg_storage t' = tg_storage t
    /\ NoDup l /\ (forall c, c ∈ l -> edge (tables (tg_storage t)) id c)
    /\ (within (edge_limit B) (edge (tables (tg_storage t)) id) -> forall c, edge (tables (tg_storage t)) id c -> c ∈ l).
Proof.
  intros Hi. unfold fetch_children. destruct (fetch_limited (tg_storage t) id (ti_healthy _ Hi)) as (l & Hf & Hd & Hl & Hall).
  rewrite (sbind_run _ _ t l t) by (unfold gets; by rewrite Hf).
  destruct (cache_default _ _ _ _ id (ti_cache _ Hi)) as [[Hm Hc Hx Hn] Hb].
  set (v0 := default Vertex_empty (Vertices_get (tg_vertices t) id)) in *.
  destruct (add_children_fields l (set_exhaustive v0)) as (Hm1 & Hb1 & Hx1 & Hd1 & Hc1).
  set (v1 := foldl add_child (set_exhaustive v0) l) in *.
  assert (Hset : vertex_message (set_exhaustive v0) = vertex_message v0 /\ eviction_blocks (set_exhaustive v0) = eviction_blocks v0
    /\ vertex_children (set_exhaustive v0) = vertex_children v0) by by destruct v0.
  destruct Hset as (Hms & Hbs & Hcs). rewrite Hcs in Hc1, Hd1.
  assert (Hch : forall c, c ∈ vertex_children v1 -> edge (tables (tg_storage t)) id c).
  { intros c [?|?]%Hc1; [by apply Hc | by apply Hl]. }
  assert (Hfew : within (edge_limit B) (edge (tables (tg_storage t)) id) -> forall c, edge (tables (tg_storage t)) id c -> c ∈ vertex_children v1).
  { intros Hw c He. apply Hc1. right. by apply Hall. }
  match goal with |- context [Vertices_get_mut_or_empty id ?f] =>
    destruct (get_mut_or_empty_spec (tg_vertices t) id f (vertex_children v1) v1 (co_wf _ _ _ _ (ti_cache _ Hi)) eq_refl) as (vs & Hrun & Hw & Hg) end.
  rewrite (sbind_run _ _ _ _ _ (on_vertices_run _ _ _ _ Hrun)). exists (vertex_children v1). eexists. split; [done|].
  split; [|split; [by rewrite (cache_step_storage t _ (cache_step_vertices t vs)) | split; [by apply Hd1 | done]]].
  eapply inv_step; [done | apply cache_step_vertices|]. rewrite vertices_with_vertices.
  eapply cache_write; [apply (ti_cache _ Hi) | exact Hw | exact Hg | | by rewrite Hb1, Hbs, Hb | done | done].
  split; [by rewrite Hm1, Hms | exact Hch | intros c _ ?; by apply Hfew | by apply Hd1].
Qed.

Lemma get_children_spec id t :
  tangle_inv t ->
  exists l t', get_children id t = Some (Some l, t') /\ tangle_inv t' /\ tg_storage t' = tg_storage t
    /\ NoDup l /\ (forall c, c ∈ l -> edge (tables (tg_storage t)) id c)
    /\ (within (edge_limit B) (edge (tables (tg_storage t)) id) -> forall c, edge (tables (tg_storage t)) id c -> c ∈ l).
Proof.
  intros Hi. unfold get_children. destruct (Vertices_get (tg_vertices t) id) as [v|] eqn:Hg; [|by apply fetch_children_spec].
  destruct (vertex_exhaustive v) eqn:Hx; [|by apply fetch_children_spec].
  destruct (co_vertex _ _ _ _ (ti_cache _ Hi) id v Hg) as [[? Hc He Hd] _]. exists (vertex_children v), t.
  split_and!; [done..| exact Hc | intros Hn c; by apply He].
Qed.

(** ** Milestones *)

Lemma inv_with_milestones t ms :
  tangle_inv t -> (forall i m, ms !! i = Some m -> t_milestone (t_node (tables (tg_storage t))) !! i = Some m) ->
  tangle_inv (with_milestones ms t).
Proof. intros [? ? ? ?] Hm. destruct t. by split. Qed.

Lemma pull_milestone_spec idx t :
  tangle_inv t ->
  exists t', pull_milestone idx t = Some (milestone_message_id <$> t_milestone (t_node (tables (tg_storage t))) !! idx, t')
    /\ tangle_inv t' /\ tg_storage t' = tg_storage t.
Proof.
  intros Hi. unfold pull_milestone. rewrite fetch_ok by apply Hi.
  change (get_field (tables (tg_storage t))) with (t_milestone (t_node (tables (tg_storage t)))).
  destruct (t_milestone (t_node (tables (tg_storage t))) !! idx) as [m|] eqn:Hm; [|by exists t].
  assert (He : default m (tg_milestones t !! idx) = m).
  { destruct (tg_milestones t !! idx) as [m'|] eqn:Hm'; [|done]. apply (ti_milestones _ Hi) in Hm'. cbn. congruence. }
  eexists. rewrite He. split; [done|]. split; [|by destruct t]. apply inv_with_milestones; [done|].
  intros i m'. rewrite lookup_insert_Some. intros [[<- <-]|[_ Hm']]; [done | by apply (ti_milestones _ Hi)].
Qed.

Lemma get_milestone_message_id_spec idx t :
  tangle_inv t ->
  exists t', get_milestone_message_id idx t
      = Some (milestone_message_id <$> t_milestone (t_node (tables (tg_storage t))) !! idx, t')
    /\ tangle_inv t' /\ tg_storage t' = tg_storage t.
Proof.
  intros Hi. unfold get_milestone_message_id. rewrite (sbind_run _ _ t _ t eq_refl).
  destruct (tg_milestones t !! idx) as [m|] eqn:Hm; cbn [fmap option_fmap option_map]; [|by apply pull_milestone_spec].
  exists t. by rewrite (ti_milestones _ Hi idx m Hm).
Qed.

Lemma contains_milestone_spec idx t :
  tangle_inv t ->
  exists t', contains_milestone idx t = Some (bool_decide (is_Some (t_milestone (t_node (tables (tg_storage t))) !! idx)), t')
    /\ tangle_inv t' /\ tg_storage t' = tg_storage t.
Proof.
  intros Hi. unfold contains_milestone. rewrite (sbind_run _ _ t _ t eq_refl).
  destruct (tg_milestones t !! idx) as [m|] eqn:Hm.
  - rewrite bool_decide_eq_true_2 by done. exists t.
    rewrite (ti_milestones _ Hi idx m Hm), bool_decide_eq_true_2 by done. done.
  - rewrite bool_decide_eq_false_2 by by intros [? ?]. destruct (pull_milestone_spec idx t Hi) as (t' & Hrun & ? & ?).
    rewrite (sbind_run _ _ _ _ _ Hrun). exists t'. split; [|done]. unfold sret. repeat f_equal.
    apply bool_decide_ext. by rewrite fmap_is_Some.
Qed.

(** ** The length of the cache *)

(** Eviction stops below its target, or when no vertex was found after the retries. *)
Definition gave_up t : Prop :=
  exists e, (pop_random (Z.to_nat (max_eviction_retries (tg_config t))) (tg_vertices t) e).1.1 = None.

Lemma evict_len fuel t :
  vertices_wf (tg_vertices t) -> 0 <= tg_max_len t ->
  v_len (tg_vertices t) - eviction_target (tg_max_len t) <= Z.of_nat fuel ->
  exists t', evict fuel t = Some (tt, t') /\ (v_len (tg_vertices t') <= eviction_target (tg_max_len t) \/ gave_up t').
Proof.
  revert t. induction fuel as [|fuel IH]; intros t Hw Hmx Hf; cbn [evict]; [exists t; split; [done|]; left; lia|].
  destruct (_ <? _) eqn:Hlt; [|exists t; split; [done|]; left; lia].
  pose proof (pop_random_spec (Z.to_nat (max_eviction_retries (tg_config t))) (tg_vertices t) (tg_env t) Hw) as Hp.
  destruct (pop_random _ _ _) as [[[v|] vs] e] eqn:Hpop.
  - destruct Hp as (id & _ & _ & Hw' & Hl & _).
    assert (Hfit : fits 64 (v_len (tg_vertices t))) by (rewrite (vw_len _ Hw); by apply as_u_fits).
    assert (0 <= eviction_target (tg_max_len t)) by (unfold eviction_target; apply Z.div_pos; lia).
    assert (Hl' : v_len vs = v_len (tg_vertices t) - 1) by (rewrite Hl; apply as_u_id; unfold fits in *; lia).
    assert (Hfields : tg_vertices (with_env e (with_vertices vs t)) = vs
      /\ tg_max_len (with_env e (with_vertices vs t)) = tg_max_len t) by by destruct t.
    destruct Hfields as [Hvs Hmax]. rewrite <- Hmax. apply IH; rewrite ?Hvs, ?Hmax; [done | done | lia].
  - subst vs. eexists. split; [done|]. right. exists (tg_env t). destruct t. cbn in *. by rewrite Hpop.
Qed.

Lemma Tangle_new_inv config (storage : B) e :
  healthy storage -> 0 < num_partitions config ->
  (forall id m md p, stored (tables storage) id = Some (m, md) -> p ∈ parents_inner (message_parents m) -> edge (tables storage) p id) ->
  tangle_inv (Tangle_new config storage e).
Proof.
  intros Hs Hn Hst. split; cbn; [done| | |].
  - split; [by apply Vertices_new_wf | intros id v; by rewrite Vertices_get_new | done | done].
  - done.
  - intros i ms. by rewrite lookup_empty.
Qed.

(** ** Claims *)

(** C33. Reading a tangle whose cache agrees with its storage gives what the storage holds, whatever part of it is cached and
    whatever is evicted meanwhile: the message and the metadata of an identifier, and whether it is known. The children
    are stored ones, each once, and all of them if there are no more than a fetch of the backend returns. No reading
    panics; only the cache changes, and it still agrees with the storage. The tangle starts in agreement, and inserting
    and updating keep it; pruning, which deletes from the storage and leaves the cache alone, does not. *)
Theorem tangle_reads t id :
  tangle_inv t ->
  exists t1 t2 t3 t4 children,
    Tangle_get id t = Some (fst <$> stored (tables (tg_storage t)) id, t1)
    /\ get_metadata id t = Some (snd <$> stored (tables (tg_storage t)) id, t2)
    /\ Tangle_contains id t = Some (bool_decide (is_Some (stored (tables (tg_storage t)) id)), t3)
    /\ get_children id t = Some (Some children, t4)
    /\ NoDup children /\ (forall c, c ∈ children -> edge (tables (tg_storage t)) id c)
    /\ (within (edge_limit B) (edge (tables (tg_storage t)) id) -> forall c, edge (tables (tg_storage t)) id c -> c ∈ children)
    /\ Forall (fun t' => tangle_inv t' /\ tg_storage t' = tg_storage t) [t1; t2; t3; t4].
Proof.
  intros Hi. pose proof (ti_cache _ Hi) as Hc. pose proof (inv_reads t id Hi) as Hr.
  destruct (Tangle_get_spec _ _ _ id t Hc Hr) as (t1 & ? & Hs1 & ?).
  destruct (get_metadata_spec _ _ _ id t Hc Hr) as (t2 & ? & Hs2 & ?).
  destruct (Tangle_contains_spec _ _ _ id t Hc Hr) as (t3 & ? & Hs3 & ?).
  destruct (get_children_spec id t Hi) as (l & t4 & ? & ? & ? & ? & ? & ?). exists t1, t2, t3, t4, l.
  split_and!; [done..|]. rewrite !Forall_cons, Forall_nil.
  split_and!; try done; (by apply (inv_step t)) || by apply cache_step_storage.
Qed.

(** C34. Writing to the tangle: a message is inserted once, with an edge from each of its parents; an update of the metadata
    is applied to the known message and stored. Nothing is lost by an eviction, and no vertex stays pinned. *)
Theorem tangle_writes {R} t m id md (update : MessageMetadata -> R * MessageMetadata) :
  tangle_inv t ->
  (exists r t', Tangle_insert m id md t = Some (r, t') /\ tangle_inv t'
     /\ match stored (tables (tg_storage t)) id with
        | Some _ => r = None /\ tg_storage t' = tg_storage t
        | None => r = Some m /\ tables (tg_storage t')
                    = insert_stored id m md (insert_edges id (parents_inner (message_parents m)) (tables (tg_storage t)))
        end)
  /\ (exists r t', update_metadata id update t = Some (r, t') /\ tangle_inv t'
     /\ match stored (tables (tg_storage t)) id with
        | Some (m0, md0) => r = Some (update md0).1
            /\ tables (tg_storage t') = insert_stored id m0 (update md0).2 (tables (tg_storage t))
        | None => r = None /\ tg_storage t' = tg_storage t
        end).
Proof.
  intros Hi. split; destruct (stored (tables (tg_storage t)) id) as [[m0 md0]|] eqn:Hx.
  - destruct (Tangle_insert_known m id md t _ Hi Hx) as (t' & ? & ? & ?). by exists None, t'.
  - destruct (Tangle_insert_new m id md t Hi Hx) as (t' & ? & ? & ?). by exists (Some m), t'.
  - destruct (update_metadata_known id update m0 md0 t Hi Hx) as (t' & ? & ? & ?). by exists (Some (update md0).1), t'.
  - destruct (update_metadata_unknown id update t Hi Hx) as (t' & ? & ? & ?). by exists None, t'.
Qed.

(** C35. Two updates of the same vertex that overlap can be stored in the wrong order: [update_metadata] releases the vertex
    before it writes to the storage. If the second update is written before the first, then the storage keeps the result
    of the first one only, while the cache has both; when the vertex is evicted the second update is lost. *)
Theorem update_metadata_race {R R'} t id (f : MessageMetadata -> R * MessageMetadata) (g : MessageMetadata -> R' * MessageMetadata) m md :
  tangle_inv t -> stored (tables (tg_storage t)) id = Some (m, md) ->
  exists r1 w1 t1 r2 w2 t2 t3 t4,
    update_locked id f t = Some (Some (r1, w1), t1) /\ update_locked id g t1 = Some (Some (r2, w2), t2)
    /\ update_stored id w2 t2 = Some (tt, t3) /\ update_stored id w1 t3 = Some (tt, t4)
    /\ stored (tables (tg_storage t4)) id = Some (m, (f md).2)
    /\ exists v, Vertices_get (tg_vertices t4) id = Some v /\ vertex_message v = Some (m, (g (f md).2).2).
Proof.
  intros Hi Hx. destruct (update_locked_known id f m md t Hi Hx) as (t1 & v1 & Hrun1 & Hs1 & Hc1 & Hg1 & Hm1).
  destruct (pull_cached _ _ _ id v1 _ t1 Hc1 Hg1 Hm1) as (t1' & Hpull & Hs1' & Hc1' & v1' & Hg1' & Hm1').
  destruct (update_cached _ _ _ id g m (f md).2 true t1' v1' Hc1') as (t2 & v2 & Hrun2 & Hs2 & Hc2 & Hg2 & Hm2); [done..|].
  assert (Hst2 : tg_storage t2 = tg_storage t).
  { rewrite (cache_step_storage _ _ Hs2), (cache_step_storage _ _ Hs1'). by apply cache_step_storage. }
  destruct (storage_insert_message_ok id m (g (f md).2).2 t2) as (s3 & Hrun3 & Hh3 & Ht3); [rewrite Hst2; apply Hi|].
  destruct (with_storage_fields s3 t2) as (Hst3 & Hvs3 & _).
  destruct (storage_insert_message_ok id m (f md).2 (with_storage s3 t2)) as (s4 & Hrun4 & Hh4 & Ht4); [by rewrite Hst3|].
  destruct (with_storage_fields s4 (with_storage s3 t2)) as (Hst4 & Hvs4 & _).
  do 8 eexists. split; [exact Hrun1|]. split; [unfold update_locked; rewrite (sbind_run _ _ _ _ _ Hpull); exact Hrun2|].
  split; [exact Hrun3|]. split; [exact Hrun4|]. split; [by rewrite Hst4, Ht4, stored_insert_stored, decide_True|].
  rewrite Hvs4, Hvs3. by exists v2.
Qed.

(** Eviction bounds the cache: afterwards it has at most as many vertices as the maximal length, or the random search
    for a vertex that is not pinned has failed as often as the configuration allows. *)
Theorem eviction_bounds_cache t :
  vertices_wf (tg_vertices t) -> 0 <= tg_max_len t ->
  exists t', perform_eviction t = Some (tt, t') /\ (v_len (tg_vertices t') <= tg_max_len t \/ gave_up t').
Proof.
  intros Hw Hmx. unfold perform_eviction. destruct (_ <? _) eqn:Hlt; [|exists t; split; [done|]; left; lia].
  assert (0 <= eviction_target (tg_max_len t) <= tg_max_len t) as [? ?].
  { unfold eviction_target. split; [apply Z.div_pos; lia|]. apply Z.div_le_upper_bound; lia. }
  destruct (evict_len (Z.to_nat (v_len (tg_vertices t))) t Hw Hmx) as (t' & Hrun & [?|?]); [lia|..];
    exists t'; (split; [exact Hrun|]); [left; lia | by right].
Qed.
End cache.

(** ** Evaluation *)

Module Examples.
Import Concrete.

(** The backend is used through the interface of the ledger. *)
#[local] Remove Hints Storage_backend Storage_tangle_backend : typeclass_instances.

#[local] Instance message_hasher : TableHasher MessageId := byte_hasher message_id_bytes.
#[local] Instance message_hasher_ok : TableHasherOk MessageId.
Proof. intros [[|b l]]; cbn; unfold fits; [lia|]. pose proof (u8_of_byte_range b). lia. Qed.

Definition message_id (b : Byte.byte) : MessageId := MessageId_new (repeat b 32).
Definition message (parent : Byte.byte) : Message := mkMessage 0 (mkParents [message_id parent]) None 0.
Definition config : TangleConfig := TangleConfigBuilder_finish (mkTangleConfigBuilder None None None).

(** A tangle with the message [2], whose parent [1] it does not have. *)
Definition tangle_0 : Tangle Storage := Tangle_new config Storage_new 0.
Definition tangle_1 : Tangle Storage :=
  match Tangle_insert (message Byte.x01) (message_id Byte.x02) (arrived 5) tangle_0 with
  | Some (_, t) => t
  | None => tangle_0
  end.

Lemma new_healthy : healthy Storage_new.
Proof. split; [done|]. repeat split; by intros ? ? ?. Qed.

Lemma tangle_0_inv : tangle_inv tangle_0.
Proof. apply Tangle_new_inv; [apply new_healthy | done | done]. Qed.

Lemma tangle_1_inv :
  tangle_inv tangle_1 /\ stored (tables (tg_storage tangle_1)) (message_id Byte.x02) = Some (message Byte.x01, arrived 5).
Proof.
  destruct (Tangle_insert_new (message Byte.x01) (message_id Byte.x02) (arrived 5) tangle_0 tangle_0_inv eq_refl)
    as (t & Hrun & Hi & Ht).
  unfold tangle_1. rewrite Hrun. split; [exact Hi|]. rewrite Ht, stored_insert_stored, decide_True by reflexivity. reflexivity.
Qed.

Lemma tangle_reads_witness :
  exists t, Tangle_get (message_id Byte.x02) tangle_1 = Some (Some (message Byte.x01), t).
Proof.
  destruct (tangle_reads tangle_1 (message_id Byte.x02) (proj1 tangle_1_inv)) as (t & _ & _ & _ & _ & Hg & _).
  exists t. rewrite (proj2 tangle_1_inv) in Hg. exact Hg.
Defined.

Lemma tangle_writes_witness :
  exists t, Tangle_insert (message Byte.x07) (message_id Byte.x02) (arrived 9) tangle_1 = Some (None, t).
Proof.
  destruct (tangle_writes tangle_1 (message Byte.x07) (message_id Byte.x02) (arrived 9) (fun md => (tt, md)) (proj1 tangle_1_inv))
    as [(r & t & Hrun & _ & Hr) _]. rewrite (proj2 tangle_1_inv) in Hr. destruct Hr as [-> _]. exists t. exact Hrun.
Defined.

(** The update that marks the message as a milestone and the one that marks it as solid. *)
Definition race_left (md : MessageMetadata) : unit * MessageMetadata := (tt, with_flags md (fun f => set_milestone f true)).
Definition race_right (md : MessageMetadata) : unit * MessageMetadata := (tt, mark_solid 7 md).

Lemma update_metadata_race_witness :
  exists t v, is_solid (metadata_flags (race_left (arrived 5)).2) = false
    /\ stored (tables (tg_storage t)) (message_id Byte.x02) = Some (message Byte.x01, (race_left (arrived 5)).2)
    /\ Vertices_get (tg_vertices t) (message_id Byte.x02) = Some v
    /\ match Vertex_metadata v with Some md => is_solid (metadata_flags md) | None => false end = true.
Proof.
  destruct (update_metadata_race tangle_1 (message_id Byte.x02) race_left race_right (message Byte.x01) (arrived 5)
              (proj1 tangle_1_inv) (proj2 tangle_1_inv))
    as (_ & _ & _ & _ & _ & _ & _ & t & _ & _ & _ & _ & Hs & v & Hg & Hm).
  exists t, v. split_and!; [vm_compute; reflexivity | done | done|]. unfold Vertex_metadata, message_and_metadata. by rewrite Hm.
Defined.

Lemma eviction_bounds_cache_witness :
  exists t, perform_eviction tangle_1 = Some (tt, t) /\ (v_len (tg_vertices t) <= tg_max_len tangle_1 \/ gave_up t).
Proof. apply (eviction_bounds_cache tangle_1); [apply (co_wf _ _ _ _ (ti_cache _ (proj1 tangle_1_inv))) | vm_compute; discriminate]. Defined.
End Examples.
