(* ===== verification/TipPool.v ===== *)
(** * The tip pool

    Models [bee-tangle/src/urts.rs]: the pool of messages that new messages can approve, its retention rules, the score of
    a tip and the selection of tips. A tip is scored by the distance between the solid milestone index and the oldest and
    the youngest milestone in its past cone.

    An [Instant] is a number of nanoseconds; the time at which an operation runs is its argument [now]. Additions of [u32]
    wrap. A panic is [None] where an operation can panic. *)

From S2P Require Import Prelude External MessageTypes Payload PayloadKeys Message TangleTypes LedgerTypes.
From S2P Require Import Vertices Storage StorageTables StorageMemory Tangle TangleCache.

Local Open Scope Z_scope.

Inductive Score :=
| NonLazy
| SemiLazy
| Lazy.

#[export] Instance Score_eq_dec : EqDecision Score.
Proof. solve_decision. Defined.

Definition YMRSI_DELTA : Z := 8.
Definition OMRSI_DELTA : Z := 13.
Definition MAX_LIMIT_NON_LAZY : Z := 100.
Definition MAX_AGE_SECONDS_AFTER_FIRST_CHILD : Z := 3.
Definition MAX_NUM_CHILDREN : Z := 2.

Definition TipMetadata_new : TipMetadata := mkTipMetadata ∅ None.

(** [elapsed().as_secs()] *)
Definition elapsed_secs (now since : Z) : Z := Z.max 0 (now - since) / 1000000000.

Section pool.
Implicit Types (self : UrtsTipPool) (parent child tip : MessageId).

Definition UrtsTipPool_add_child (now : Z) parent child self : UrtsTipPool :=
  let metadata :=
    match tips self !! parent with
    | Some metadata =>
        mkTipMetadata ({[child]} ∪ tip_children metadata)
          (match time_first_child metadata with None => Some now | time => time end)
    | None => mkTipMetadata {[child]} (Some now)
    end in
  mkUrtsTipPool (<[parent := metadata]> (tips self)) (non_lazy_tips self) (pool_below_max_depth self).

Definition remove_tip tip self : UrtsTipPool :=
  mkUrtsTipPool (delete tip (tips self)) (non_lazy_tips self ∖ {[tip]}) (pool_below_max_depth self).

Definition check_retention_rules_for_parent (now : Z) parent self : option UrtsTipPool :=
  if MAX_LIMIT_NON_LAZY <? Z.of_nat (size (non_lazy_tips self)) then Some (remove_tip parent self)
  else
    metadata ← tips self !! parent;
    if MAX_NUM_CHILDREN <? Z.of_nat (size (tip_children metadata)) then Some (remove_tip parent self)
    else
      time ← time_first_child metadata;
      Some (if MAX_AGE_SECONDS_AFTER_FIRST_CHILD <? elapsed_secs now time then remove_tip parent self else self).

(** The loop over the parents of an inserted tip. *)
Fixpoint add_parents (now : Z) child (parents : list MessageId) self : option UrtsTipPool :=
  match parents with
  | [] => Some self
  | parent :: parents =>
      self ← check_retention_rules_for_parent now parent (UrtsTipPool_add_child now parent child self);
      add_parents now child parents self
  end.

(** The insertion of a tip that is not lazy. *)
Definition insert_non_lazy (now : Z) (message_id : MessageId) (parents : list MessageId) self : option UrtsTipPool :=
  add_parents now message_id parents
    (mkUrtsTipPool (<[message_id := TipMetadata_new]> (tips self)) ({[message_id]} ∪ non_lazy_tips self)
       (pool_below_max_depth self)).

(** [retain] keeps the tips without a child that is too old. *)
Definition expired (now : Z) (metadata : TipMetadata) : bool :=
  match time_first_child metadata with
  | Some age => MAX_AGE_SECONDS_AFTER_FIRST_CHILD <? elapsed_secs now age
  | None => false
  end.
Definition UrtsTipPool_reduce_tips (now : Z) self : UrtsTipPool :=
  mkUrtsTipPool (filter (fun e => expired now e.2 = false) (tips self))
    (non_lazy_tips self ∖ dom (filter (fun e => expired now e.2 = true) (tips self))) (pool_below_max_depth self).

Definition optimal_num_tips : nat := 4.

Definition choose_non_lazy_tips `{HashOrder} `{Environment} self (e : env) : option (list MessageId) * env :=
  let order := (hash_iter (gset_to_gmap tt (non_lazy_tips self))).*1 in
  if bool_decide (non_lazy_tips self = ∅) then (None, e)
  else if bool_decide (size (non_lazy_tips self) < optimal_num_tips)%nat then (Some order, e)
  else let '(chosen, e) := choose_multiple order optimal_num_tips e in (Some chosen, e).
End pool.

Section tangle.
Context `{TableHasher MessageId} `{HashOrder} `{Environment} `{Bitflags} `{TangleBackend B}.
Implicit Types (pool : UrtsTipPool).

(** The comparisons of [tip_score]. *)
Definition score (smi omrsi ymrsi below_max_depth : Z) : Score :=
  if (as_u 32 (ymrsi + YMRSI_DELTA) <? smi) || (as_u 32 (omrsi + below_max_depth) <? smi) then Lazy
  else if as_u 32 (omrsi + OMRSI_DELTA) <? smi then SemiLazy
  else NonLazy.

Definition tip_score pool (message_id : MessageId) : st (Tangle B) Score :=
  let* known := Tangle_contains message_id in
  if negb known then sret Lazy
  else
    let* smi := gets (fun tangle => milestone_index (tg_solid tangle)) in
    let* omrsi := omrsi message_id in
    match omrsi with
    | None => spanic
    | Some omrsi =>
        let* ymrsi := ymrsi message_id in
        match ymrsi with
        | None => spanic
        | Some ymrsi =>
            sret (score smi (milestone_index (index_id_index omrsi)) (milestone_index (index_id_index ymrsi))
                    (pool_below_max_depth pool))
        end
    end.

Definition UrtsTipPool_insert (now : Z) pool (message_id : MessageId) (parents : list MessageId) : st (Tangle B) UrtsTipPool :=
  let* s := tip_score pool message_id in
  match s with
  | NonLazy => fun tangle => (fun pool => (pool, tangle)) <$> insert_non_lazy now message_id parents pool
  | _ => sret pool
  end.

(** The loop over the keys of [tips], which collects the tips to remove. *)
Fixpoint lazy_tips pool (keys : list MessageId) : st (Tangle B) (list MessageId) :=
  match keys with
  | [] => sret []
  | tip :: keys =>
      let* s := tip_score pool tip in
      let* rest := lazy_tips pool keys in
      sret (match s with NonLazy => rest | _ => tip :: rest end)
  end.

Definition update_scores pool : st (Tangle B) UrtsTipPool :=
  let* to_remove := lazy_tips pool (hash_iter (tips pool)).*1 in
  sret (foldl (fun pool tip => remove_tip tip pool) pool to_remove).

(** The operations of the tangle on its tip pool. *)
Definition insert_tip (now : Z) (message_id : MessageId) (parents : list MessageId) : st (Tangle B) unit :=
  let* pool := gets tg_tip_pool in
  let* pool := UrtsTipPool_insert now pool message_id parents in
  modify (with_tip_pool pool).
Definition update_tip_scores : st (Tangle B) unit :=
  let* pool := gets tg_tip_pool in
  let* pool := update_scores pool in
  modify (with_tip_pool pool).
Definition get_messages_to_approve : st (Tangle B) (option (list MessageId)) := fun tangle =>
  let '(chosen, e) := choose_non_lazy_tips (tg_tip_pool tangle) (tg_env tangle) in
  Some (chosen, with_env e tangle).
Definition reduce_tips (now : Z) : st (Tangle B) unit :=
  modify (fun tangle => with_tip_pool (UrtsTipPool_reduce_tips now (tg_tip_pool tangle)) tangle).
Definition non_lazy_tips_num (tangle : Tangle B) : Z := Z.of_nat (size (non_lazy_tips (tg_tip_pool tangle))).
End tangle.

(** ** The invariant of the pool *)

(** A non-lazy tip is in the pool; a tip has few children and the time of its first one is known. *)
Record pool_inv (self : UrtsTipPool) : Prop := {
  pi_tips : non_lazy_tips self ⊆ dom (tips self);
  pi_children tip metadata : tips self !! tip = Some metadata ->
    Z.of_nat (size (tip_children metadata)) <= MAX_NUM_CHILDREN
    /\ (tip_children metadata <> ∅ -> is_Some (time_first_child metadata));
}.

Lemma UrtsTipPool_new_inv config : pool_inv (UrtsTipPool_new config).
Proof. split; [set_solver|]. intros tip metadata. cbn. by rewrite lookup_empty. Qed.

Lemma remove_tip_inv tip self :
  non_lazy_tips self ⊆ dom (tips self) ->
  (forall tip' metadata, tip <> tip' -> tips self !! tip' = Some metadata ->
     Z.of_nat (size (tip_children metadata)) <= MAX_NUM_CHILDREN
     /\ (tip_children metadata <> ∅ -> is_Some (time_first_child metadata))) ->
  pool_inv (remove_tip tip self).
Proof.
  intros Ht Hc. split; cbn.
  - rewrite dom_delete_L. set_solver.
  - intros tip' metadata [Hne Hm]%lookup_delete_Some. by apply (Hc tip').
Qed.

Lemma remove_tip_keeps tip self : pool_inv self -> pool_inv (remove_tip tip self).
Proof. intros [Ht Hc]. apply remove_tip_inv; [done|]. intros tip' metadata _. apply Hc. Qed.

(** Adding a child and then checking the retention rules of its parent. *)
Lemma retention_spec now parent child self :
  pool_inv self ->
  exists self', check_retention_rules_for_parent now parent (UrtsTipPool_add_child now parent child self) = Some self'
    /\ pool_inv self' /\ pool_below_max_depth self' = pool_below_max_depth self
    /\ (non_lazy_tips self' = non_lazy_tips self \/ non_lazy_tips self' = non_lazy_tips self ∖ {[parent]}).
Proof.
  intros [Ht Hc]. set (added := UrtsTipPool_add_child now parent child self).
  assert (Hlook : exists metadata, tips added !! parent = Some metadata /\ is_Some (time_first_child metadata)).
  { eexists. split; [apply lookup_insert_eq|]. destruct (tips self !! parent) as [m|]; cbn; [|done].
    by destruct (time_first_child m). }
  destruct Hlook as (metadata & Hm & [time Htime]).
  assert (Hdom : non_lazy_tips added ⊆ dom (tips added)).
  { unfold added, UrtsTipPool_add_child. cbn. rewrite dom_insert_L. set_solver. }
  assert (Hother : forall tip m, parent <> tip -> tips added !! tip = Some m ->
    Z.of_nat (size (tip_children m)) <= MAX_NUM_CHILDREN /\ (tip_children m <> ∅ -> is_Some (time_first_child m))).
  { intros tip m Hne. unfold added, UrtsTipPool_add_child. cbn. rewrite lookup_insert_ne by done. apply Hc. }
  unfold check_retention_rules_for_parent. destruct (MAX_LIMIT_NON_LAZY <? _).
  { eexists. split; [done|]. split; [by apply remove_tip_inv|]. split; [done | by right]. }
  rewrite Hm. cbn [mbind option_bind]. destruct (MAX_NUM_CHILDREN <? _) eqn:Hn.
  { eexists. split; [done|]. split; [by apply remove_tip_inv|]. split; [done | by right]. }
  rewrite Htime. cbn [mbind option_bind]. eexists. split; [done|]. destruct (MAX_AGE_SECONDS_AFTER_FIRST_CHILD <? _).
  { split; [by apply remove_tip_inv|]. split; [done | by right]. }
  split; [|split; [done | by left]]. split; [done|]. intros tip m Htip. destruct (decide (parent = tip)) as [<-|Hne]; [|by apply (Hother tip)].
  rewrite Hm in Htip. injection Htip as <-. split; [lia | done].
Qed.

Lemma add_parents_spec now child parents self :
  pool_inv self ->
  exists self', add_parents now child parents self = Some self' /\ pool_inv self'
    /\ pool_below_max_depth self' = pool_below_max_depth self
    /\ non_lazy_tips self' ⊆ non_lazy_tips self
    /\ forall tip, tip ∉ parents -> tip ∈ non_lazy_tips self -> tip ∈ non_lazy_tips self'.
Proof.
  revert self. induction parents as [|parent parents IH]; intros self Hi; cbn [add_parents]; [by exists self|].
  destruct (retention_spec now parent child self Hi) as (self1 & -> & Hi1 & Hb1 & Hn1). cbn [mbind option_bind].
  destruct (IH self1 Hi1) as (self2 & -> & Hi2 & Hb2 & Hs2 & Hk2). exists self2. split_and!; [done | done | congruence | |].
  - destruct Hn1 as [Hn|Hn]; rewrite Hn in Hs2; set_solver.
  - intros tip [Hne Hp]%not_elem_of_cons Htip. apply Hk2; [done|]. destruct Hn1 as [->| ->]; set_solver.
Qed.

Lemma insert_non_lazy_spec now id parents self :
  pool_inv self ->
  exists self', insert_non_lazy now id parents self = Some self' /\ pool_inv self'
    /\ non_lazy_tips self' ⊆ {[id]} ∪ non_lazy_tips self
    /\ (id ∉ parents -> id ∈ non_lazy_tips self').
Proof.
  intros [Ht Hc]. unfold insert_non_lazy.
  destruct (add_parents_spec now id parents
    (mkUrtsTipPool (<[id := TipMetadata_new]> (tips self)) ({[id]} ∪ non_lazy_tips self) (pool_below_max_depth self)))
    as (self' & -> & Hi & _ & Hs & Hk).
  - split; cbn.
    + rewrite dom_insert_L. set_solver.
    + intros tip metadata [[_ <-]|[_ Hm]]%lookup_insert_Some; [|by apply (Hc tip)]. cbn. rewrite size_empty. done.
  - exists self'. split_and!; [done..|]. intros Hid. apply Hk; [done|]. cbn. set_solver.
Qed.

Lemma reduce_tips_inv now self : pool_inv self -> pool_inv (UrtsTipPool_reduce_tips now self).
Proof.
  intros [Ht Hc]. split; cbn.
  - intros tip [Hn Hd]%elem_of_difference. apply Ht in Hn. apply elem_of_dom in Hn as [m Hm]. apply elem_of_dom. exists m.
    apply map_lookup_filter_Some. split; [done|]. cbn. destruct (expired now m) eqn:He; [|done]. destruct Hd.
    apply elem_of_dom. exists m. by apply map_lookup_filter_Some.
  - intros tip m [Hm _]%map_lookup_filter_Some. by apply (Hc tip).
Qed.

Lemma remove_tips_inv l self : pool_inv self -> pool_inv (foldl (fun pool tip => remove_tip tip pool) self l).
Proof. revert self. induction l as [|tip l IH]; intros self Hi; cbn; [done|]. by apply IH, remove_tip_keeps. Qed.

Lemma remove_tips_lookup l self tip :
  tips (foldl (fun pool tip => remove_tip tip pool) self l) !! tip = (if decide (tip ∈ l) then None else tips self !! tip).
Proof.
  revert self. induction l as [|x l IH]; intros self; cbn [foldl].
  - rewrite decide_False by apply not_elem_of_nil. done.
  - rewrite IH. cbn. destruct (decide (tip ∈ l)) as [Hin|Hin]; [by rewrite decide_True by by right|].
    destruct (decide (x = tip)) as [->|Hne].
    + rewrite decide_True by by left. apply lookup_delete_eq.
    + rewrite decide_False by set_solver. by apply lookup_delete_ne.
Qed.

(** ** Scores *)

Section scores.
Context `{TableHasherOk MessageId} `{HashOrderOk} `{EnvironmentOk} `{Bitflags} `{LedgerBackendOk B}.
Implicit Types (t : Tangle B) (pool : UrtsTipPool) (id : MessageId).

(** The root snapshot index of a message in a tangle. *)
Definition root_index t (f : MessageMetadata -> option IndexId) id (md : MessageMetadata) : option IndexId :=
  match tg_seps t !! SolidEntryPoint_new id with
  | Some sep => Some (IndexId_new sep id)
  | None => f md
  end.

(** The score a tip has; there is none when an index is missing. *)
Definition score_of pool t id : option Score :=
  match stored (tables (tg_storage t)) id with
  | None => Some Lazy
  | Some (_, md) =>
      omrsi ← root_index t metadata_omrsi id md;
      ymrsi ← root_index t metadata_ymrsi id md;
      Some (score (milestone_index (tg_solid t)) (milestone_index (index_id_index omrsi)) (milestone_index (index_id_index ymrsi))
              (pool_below_max_depth pool))
  end.

Lemma score_of_step pool t t' id : cache_step t t' -> score_of pool t' id = score_of pool t id.
Proof. intros (vs & e & ->). by destruct t. Qed.

Lemma root_snapshot_index_spec f id t m md :
  tangle_inv t -> stored (tables (tg_storage t)) id = Some (m, md) ->
  exists t', root_snapshot_index f id t = Some (root_index t f id md, t') /\ cache_step t t' /\ tangle_inv t'.
Proof.
  intros Hi Hs. unfold root_snapshot_index, root_index. destruct (tg_seps t !! SolidEntryPoint_new id).
  - exists t. split_and!; [done | apply cache_step_refl | done].
  - destruct (get_metadata_spec _ _ _ id t (ti_cache _ Hi) (inv_reads t id Hi)) as (t' & Hrun & Hst & Hc).
    rewrite (sbind_run _ _ _ _ _ Hrun), Hs. exists t'. split_and!; [done | done | by apply (inv_step t)].
Qed.

Lemma tip_score_spec pool id t s :
  tangle_inv t -> score_of pool t id = Some s -> exists t', tip_score pool id t = Some (s, t') /\ cache_step t t' /\ tangle_inv t'.
Proof.
  intros Hi Hs. unfold tip_score.
  destruct (Tangle_contains_spec _ _ _ id t (ti_cache _ Hi) (inv_reads t id Hi)) as (t1 & Hrun & Hst & Hc).
  rewrite (sbind_run _ _ _ _ _ Hrun). assert (Hi1 : tangle_inv t1) by by apply (inv_step t).
  rewrite <- (score_of_step pool t t1 id Hst) in Hs. rewrite <- (cache_step_storage _ _ Hst). unfold score_of in Hs.
  destruct (stored (tables (tg_storage t1)) id) as [[m md]|] eqn:Hd.
  - rewrite bool_decide_eq_true_2 by done. cbn [negb]. rewrite (sbind_run _ _ t1 _ t1 eq_refl).
    destruct (root_snapshot_index_spec metadata_omrsi id t1 m md Hi1 Hd) as (t2 & Hrun2 & Hst2 & Hi2).
    unfold omrsi. rewrite (sbind_run _ _ _ _ _ Hrun2). destruct (root_index t1 metadata_omrsi id md) as [o|]; [|done]. cbn in Hs.
    rewrite <- (cache_step_storage _ _ Hst2) in Hd.
    destruct (root_snapshot_index_spec metadata_ymrsi id t2 m md Hi2 Hd) as (t3 & Hrun3 & Hst3 & Hi3).
    unfold ymrsi. rewrite (sbind_run _ _ _ _ _ Hrun3).
    assert (Hr : root_index t2 metadata_ymrsi id md = root_index t1 metadata_ymrsi id md).
    { unfold root_index. by rewrite (proj2 (cache_step_milestones _ _ Hst2)). }
    rewrite Hr. destruct (root_index t1 metadata_ymrsi id md) as [y|]; [|done]. cbn in Hs. injection Hs as <-. exists t3.
    split_and!; [done | eapply cache_step_trans; [|eapply cache_step_trans]; done | done].
  - injection Hs as <-. rewrite bool_decide_eq_false_2 by by intros [? ?]. by exists t1.
Qed.

Lemma lazy_tips_spec pool keys t :
  tangle_inv t -> Forall (fun id => is_Some (score_of pool t id)) keys ->
  exists l t', lazy_tips pool keys t = Some (l, t') /\ cache_step t t' /\ tangle_inv t'
    /\ forall id, id ∈ l <-> id ∈ keys /\ score_of pool t id <> Some NonLazy.
Proof.
  revert t. induction keys as [|id keys IH]; intros t Hi Hk; cbn [lazy_tips].
  - exists [], t. split_and!; [done | apply cache_step_refl | done | set_solver].
  - apply Forall_cons in Hk as [[s Hs] Hk]. destruct (tip_score_spec pool id t s Hi Hs) as (t1 & Hrun & Hst & Hi1).
    rewrite (sbind_run _ _ _ _ _ Hrun). destruct (IH t1 Hi1) as (l & t2 & Hrun2 & Hst2 & Hi2 & Hl).
    { eapply Forall_impl; [exact Hk|]. intros x. cbn. by rewrite (score_of_step pool t t1 x Hst). }
    rewrite (sbind_run _ _ _ _ _ Hrun2). eexists _, t2. split; [done|]. split; [by eapply cache_step_trans|]. split; [done|].
    assert (Hl' : forall x, x ∈ l <-> x ∈ keys /\ score_of pool t x <> Some NonLazy).
    { intros x. by rewrite Hl, (score_of_step pool t t1 x Hst). }
    intros x. rewrite elem_of_cons. destruct s; rewrite ?elem_of_cons, Hl'; naive_solver.
Qed.

(** ** Claims *)

(** The operations of the tip pool never panic and keep its invariant (the non-lazy tips are in the pool, no tip keeps
    more than two children): a message whose score is known enters the pool exactly when it is not lazy, and after the
    scores were updated the pool consists of the tips that are not lazy. *)
Theorem tip_pool_operations now id parents pool t :
  tangle_inv t -> pool_inv pool -> is_Some (score_of pool t id) ->
  (forall tip, tip ∈ dom (tips pool) -> is_Some (score_of pool t tip)) ->
  (exists pool' t', UrtsTipPool_insert now pool id parents t = Some (pool', t') /\ pool_inv pool' /\ tangle_inv t'
     /\ (score_of pool t id <> Some NonLazy -> pool' = pool)
     /\ (score_of pool t id = Some NonLazy -> id ∉ parents -> id ∈ non_lazy_tips pool'))
  /\ (exists pool' t', update_scores pool t = Some (pool', t') /\ pool_inv pool' /\ tangle_inv t'
     /\ forall tip, tip ∈ dom (tips pool') <-> tip ∈ dom (tips pool) /\ score_of pool t tip = Some NonLazy)
  /\ pool_inv (UrtsTipPool_reduce_tips now pool).
Proof.
  intros Hi Hp [s Hs] Hall. split_and!; [..|by apply reduce_tips_inv].
  - unfold UrtsTipPool_insert. destruct (tip_score_spec pool id t s Hi Hs) as (t1 & Hrun & _ & Hi1).
    rewrite (sbind_run _ _ _ _ _ Hrun), Hs. destruct s; [|by exists pool, t1..].
    destruct (insert_non_lazy_spec now id parents pool Hp) as (pool' & Hr & ? & _ & ?). exists pool', t1. rewrite Hr. by split_and!.
  - unfold update_scores. destruct (lazy_tips_spec pool (hash_iter (tips pool)).*1 t Hi) as (l & t1 & Hrun & _ & Hi1 & Hl).
    { apply Forall_forall. intros tip ([tip' m] & -> & Hm%elem_of_hash_iter)%list_elem_of_fmap. apply Hall, elem_of_dom. by exists m. }
    rewrite (sbind_run _ _ _ _ _ Hrun). eexists _, t1. split; [done|]. split; [by apply remove_tips_inv|]. split; [done|].
    intros tip. rewrite elem_of_dom, remove_tips_lookup. assert (Hk : tip ∈ (hash_iter (tips pool)).*1 <-> tip ∈ dom (tips pool)).
    { rewrite hash_iter_perm, elem_of_dom, list_elem_of_fmap. split.
      - intros ([tip' m] & -> & Hm%elem_of_map_to_list). by exists m.
      - intros [m Hm]. exists (tip, m). split; [done|]. by apply elem_of_map_to_list. }
    destruct (decide (tip ∈ l)) as [Hin|Hin]; rewrite Hl, Hk in Hin.
    + split; [by intros [? ?] | tauto].
    + rewrite elem_of_dom in *. split; [|tauto]. intros Hd. split; [done|].
      destruct (decide (score_of pool t tip = Some NonLazy)) as [?|Hne]; [done|]. by destruct Hin.
Qed.

(** Tip selection returns between one and four distinct non-lazy tips as soon as there is one. *)
Theorem tip_selection pool e :
  match (choose_non_lazy_tips pool e).1 with
  | None => non_lazy_tips pool = ∅
  | Some l => NoDup l /\ (1 <= length l <= 4)%nat /\ forall id, id ∈ l -> id ∈ non_lazy_tips pool
  end.
Proof.
  unfold choose_non_lazy_tips. set (order := (hash_iter (gset_to_gmap tt (non_lazy_tips pool))).*1).
  assert (Hd : NoDup order) by apply hash_iter_NoDup.
  assert (Hin : forall id, id ∈ order -> id ∈ non_lazy_tips pool).
  { intros id ([id' []] & -> & Hm%elem_of_hash_iter)%list_elem_of_fmap. by apply lookup_gset_to_gmap_Some in Hm as [? _]. }
  assert (Hlen : length order = size (non_lazy_tips pool)).
  { unfold order. rewrite hash_iter_perm, length_fmap, length_map_to_list, <- size_dom. by rewrite dom_gset_to_gmap. }
  case_bool_decide as He; [done|]. assert (size (non_lazy_tips pool) <> 0%nat) by (apply size_non_empty_iff; by rewrite leibniz_equiv_iff).
  case_bool_decide as Hs; cbn [fst].
  - unfold optimal_num_tips in Hs. split_and!; [done | lia | lia | done].
  - destruct (choose_multiple order optimal_num_tips e) as [l e'] eqn:Hc.
    destruct (choose_multiple_ok order optimal_num_tips e) as [Hl [rest Hp]]. rewrite Hc in Hl, Hp. cbn [fst] in *.
    unfold optimal_num_tips in *. split_and!; [|lia|lia|].
    + rewrite Hp in Hd. by apply NoDup_app in Hd as [? _].
    + intros id Hid. apply Hin. rewrite Hp. set_solver.
Qed.
End scores.

(** ** Evaluation *)

Module Examples.
Import Concrete TangleCache.Examples.

#[local] Remove Hints Storage_backend Storage_tangle_backend : typeclass_instances.
#[local] Existing Instance message_hasher.
#[local] Existing Instance message_hasher_ok.

(** The tangle with the message [2], whose past cone reaches the milestones [3] and [5]; the solid milestone is [6]. *)
Definition solid (md : MessageMetadata) : MessageMetadata :=
  set_ymrsi (set_omrsi md (IndexId_new (MilestoneIndex_new 3) (message_id Byte.x01)))
    (IndexId_new (MilestoneIndex_new 5) (message_id Byte.x01)).
Definition tangle_2 : Tangle Storage :=
  match Tangle_insert (message Byte.x01) (message_id Byte.x02) (solid (arrived 5)) tangle_0 with
  | Some (_, t) => update_solid_milestone_index (MilestoneIndex_new 6) t
  | None => tangle_0
  end.

Lemma tangle_2_inv :
  tangle_inv tangle_2 /\ score_of (UrtsTipPool_new config) tangle_2 (message_id Byte.x02) = Some NonLazy.
Proof.
  destruct (Tangle_insert_new (message Byte.x01) (message_id Byte.x02) (solid (arrived 5)) tangle_0 tangle_0_inv eq_refl)
    as (t & Hrun & Hi & _).
  split; [|vm_compute; reflexivity].
  unfold tangle_2. rewrite Hrun. destruct Hi as [Hh Hc He Hm]. destruct t. split; [exact Hh | exact Hc | exact He | exact Hm].
Qed.

Lemma tip_pool_operations_witness :
  exists pool t, UrtsTipPool_insert 0 (UrtsTipPool_new config) (message_id Byte.x02) [message_id Byte.x01] tangle_2 = Some (pool, t)
    /\ message_id Byte.x02 ∈ non_lazy_tips pool.
Proof.
  destruct (tip_pool_operations 0 (message_id Byte.x02) [message_id Byte.x01] (UrtsTipPool_new config) tangle_2
              (proj1 tangle_2_inv) (UrtsTipPool_new_inv config)) as [(pool & t & Hrun & _ & _ & _ & Hin) _].
  - rewrite (proj2 tangle_2_inv). by eexists.
  - intros tip Ht. change (dom (tips (UrtsTipPool_new config))) with (dom (∅ : gmap MessageId TipMetadata)) in Ht.
    rewrite dom_empty_L in Ht. by apply not_elem_of_empty in Ht.
  - exists pool, t. split; [exact Hrun|]. apply Hin; [exact (proj2 tangle_2_inv)|].
    apply not_elem_of_cons. split; [discriminate | apply not_elem_of_nil].
Defined.

Definition pool_1 : UrtsTipPool := mkUrtsTipPool {[message_id Byte.x02 := TipMetadata_new]} {[message_id Byte.x02]} 15.

Lemma tip_selection_witness :
  exists l, (choose_non_lazy_tips pool_1 (0 : @env counter)).1 = Some l /\ NoDup l /\ (1 <= length l <= 4)%nat.
Proof.
  pose proof (tip_selection pool_1 (0 : @env counter)) as Hs. destruct ((choose_non_lazy_tips pool_1 (0 : @env counter)).1) as [l|] eqn:E.
  - exists l. split; [reflexivity|]. split; [exact (proj1 Hs) | exact (proj1 (proj2 Hs))].
  - exfalso. vm_compute in E. discriminate E.
Defined.
End Examples.
