(* ===== verification/Solidity.v ===== *)
(** * Solidification

    Models [propagate] of [bee-protocol/src/workers/propagator.rs]: a message is solid when its past cone is available, that
    is, when it is a solid entry point or all of its parents are solid; solidity is propagated to the children. The theorem
    shows that [propagate] ends without a panic, that it marks only messages that have become solid, and all of them if no
    message has more children than a fetch of the backend returns.

    The stack is a list with the top first; the clock is an argument. The loop takes fuel, for which one more than the
    number of edges in the storage is enough: a message becomes solid only once, and only then its children are pushed. *)

From S2P Require Import Prelude External MessageTypes Payload Message TangleTypes LedgerTypes.
From S2P Require Import Vertices Storage StorageTables StorageMemory Tangle TangleFrame TangleCache TipPool.

Local Open Scope Z_scope.

(** ** Propagation *)

(** [Iterator::min] returns the first of the least elements, [Iterator::max] the last of the greatest. *)
Definition index_min (l : list IndexId) : option IndexId :=
  match l with
  | [] => None
  | x :: l => Some (foldl (fun m x => match IndexId_cmp x m with Lt => x | _ => m end) x l)
  end.
Definition index_max (l : list IndexId) : option IndexId :=
  match l with
  | [] => None
  | x :: l => Some (foldl (fun m x => match IndexId_cmp x m with Lt => m | _ => x end) x l)
  end.

(** What is sent to the tip pool: the message, its parents, and its index if it is a milestone. *)
Definition Solidified : Type := MessageId * list MessageId * option MilestoneIndex.

Section propagate.
Context `{TableHasher MessageId} `{HashOrder} `{Environment} `{Bitflags} `{TangleBackend B}.
Implicit Types (message_id : MessageId).

(** The loop that looks for a parent that is not solid. *)
Fixpoint all_solid (parents : list MessageId) : st (Tangle B) bool :=
  match parents with
  | [] => sret true
  | parent :: parents => let* solid := is_solid_message parent in if solid then all_solid parents else sret false
  end.

(** The indexes of one parent; a solid message without them is a panic. *)
Definition parent_roots (parent : MessageId) : st (Tangle B) (option (IndexId * IndexId)) := fun self =>
  match get_solid_entry_point_index self (SolidEntryPoint_new parent) with
  | Some sepi => Some (Some (IndexId_new sepi parent, IndexId_new sepi parent), self)
  | None =>
      (let* md := get_metadata parent in
       match md with
       | Some md =>
           match metadata_omrsi md, metadata_ymrsi md with
           | Some o, Some y => sret (Some (o, y))
           | _, _ => spanic
           end
       | None => sret None
       end) self
  end.

Fixpoint all_roots (parents : list MessageId) : st (Tangle B) (option (list (IndexId * IndexId))) :=
  match parents with
  | [] => sret (Some [])
  | parent :: parents =>
      let* r := parent_roots parent in
      match r with
      | Some r => let* rs := all_roots parents in sret ((fun rs => r :: rs) <$> rs)
      | None => sret None
      end
  end.

(** The update of the metadata. *)
Definition solidify_metadata (now : Z) (omrsi ymrsi : IndexId) (metadata : MessageMetadata) : option MilestoneIndex * MessageMetadata :=
  let metadata := mark_solid now metadata in
  if is_milestone (metadata_flags metadata) then (metadata_milestone_index metadata, metadata)
  else (None, set_ymrsi (set_omrsi metadata omrsi) ymrsi).

(** One iteration: the children to push and what is sent, unless the message is skipped. *)
Definition propagate_step (now : MessageId -> Z) message_id : st (Tangle B) (option (list MessageId * Solidified)) :=
  let* solid := is_solid_message message_id in
  if solid then sret None
  else
    let* message := Tangle_get message_id in
    match message with
    | None => sret None
    | Some message =>
        let parents := parents_inner (message_parents message) in
        let* ready := all_solid parents in
        if negb ready then sret None
        else
          let* roots := all_roots parents in
          match roots with
          | None => sret None
          | Some roots =>
              match index_min roots.*1, index_max roots.*2 with
              | Some child_omrsi, Some child_ymrsi =>
                  let* index := update_metadata message_id (solidify_metadata (now message_id) child_omrsi child_ymrsi) in
                  match index with
                  | None => spanic
                  | Some index =>
                      let* children := get_children message_id in
                      sret (Some (default [] children, (message_id, parents, index)))
                  end
              | _, _ => spanic
              end
          end
    end.

Fixpoint propagate_loop (fuel : nat) (now : MessageId -> Z) (children : list MessageId) : st (Tangle B) (list Solidified) :=
  match children with
  | [] => sret []
  | message_id :: children =>
      match fuel with
      | O => spanic
      | S fuel =>
          let* r := propagate_step now message_id in
          match r with
          | None => propagate_loop fuel now children
          | Some (pushed, solidified) =>
              let* rest := propagate_loop fuel now (reverse pushed ++ children) in
              sret (solidified :: rest)
          end
      end
  end.

Definition propagate (fuel : nat) (now : MessageId -> Z) message_id : st (Tangle B) (list Solidified) :=
  propagate_loop fuel now [message_id].

Definition SAFETY_THRESHOLD : Z := 5.

(** The task that receives what is sent: the tip pool, and the event for the solidifier. The distance to the latest
    milestone is a subtraction of [u32]. *)
Definition message_solidified (now : Z) (event : Solidified) : st (Tangle B) (option MilestoneIndex) :=
  let '(message_id, parents, index) := event in
  let* distance := gets (fun tangle => MilestoneIndex_sub (tg_latest tangle) (tg_solid tangle)) in
  let* bound := gets (fun tangle => as_u 32 (below_max_depth (tg_config tangle) + SAFETY_THRESHOLD)) in
  let* _ := (if milestone_index distance <=? bound then insert_tip now message_id parents else sret tt) in
  sret index.
End propagate.

(** ** Solid messages *)

Section solid.
Context `{TableHasherOk MessageId} `{HashOrderOk} `{EnvironmentOk} `{BitflagsOk} `{LedgerBackendOk B}.
Implicit Types (t : Tangle B) (id p c : MessageId).

Definition sep t id : Prop := is_Some (tg_seps t !! SolidEntryPoint_new id).
Definition stored_at t id : option (Message * MessageMetadata) := stored (tables (tg_storage t)) id.
Definition parents_at (m : Message) : list MessageId := parents_inner (message_parents m).
Definition marked_solid (md : MessageMetadata) : bool := is_solid (metadata_flags md).
Definition solid t id : Prop := sep t id \/ exists m md, stored_at t id = Some (m, md) /\ marked_solid md = true.

#[export] Instance solid_dec t id : Decision (solid t id).
Proof.
  unfold solid, sep. destruct (decide (is_Some (tg_seps t !! SolidEntryPoint_new id))) as [?|Hn]; [left; by left|].
  destruct (stored_at t id) as [[m md]|]; [destruct (marked_solid md) eqn:E|].
  - left. right. eauto.
  - right. intros [?|(m' & md' & [= <- <-] & ?)]; [done | congruence].
  - right. by intros [?|(m' & md' & ? & ?)].
Qed.

(** The past cone of a message is available. *)
Inductive available t : MessageId -> Prop :=
| available_sep id : sep t id -> available t id
| available_message id m md : stored_at t id = Some (m, md) -> (forall p, p ∈ parents_at m -> available t p) -> available t id.

(** No more children of the message are stored than a fetch of the backend returns. *)
Definition children_within t id : Prop := within (edge_limit B) (edge (tables (tg_storage t)) id).

(** The messages that are marked as solid are available, and have root indexes; a message whose parents are all solid is
    marked, unless it is in [X] or one of its parents has more children than can be fetched. *)
Record solidity t (X : list MessageId) : Prop := {
  so_tangle : tangle_inv t;
  so_nonempty id m md : stored_at t id = Some (m, md) -> parents_at m <> [];
  so_available id : solid t id -> available t id;
  so_roots id m md : stored_at t id = Some (m, md) -> marked_solid md = true \/ is_milestone (metadata_flags md) = true ->
    is_Some (metadata_omrsi md) /\ is_Some (metadata_ymrsi md);
  so_complete id m md : stored_at t id = Some (m, md) -> ~ solid t id -> (forall p, p ∈ parents_at m -> solid t p) ->
    (forall p, p ∈ parents_at m -> children_within t p) -> id ∈ X;
}.

(** No edge is lost. *)
Definition keeps_edges t t' : Prop := forall p c, edge (tables (tg_storage t)) p c -> edge (tables (tg_storage t')) p c.

Lemma keeps_edges_within t t' id : keeps_edges t t' -> children_within t' id -> children_within t id.
Proof. intros He. apply within_mono. intros c. apply He. Qed.
Lemma keeps_edges_storage t t' : tg_storage t' = tg_storage t -> keeps_edges t t'.
Proof. intros Hs p c. by rewrite Hs. Qed.
#[local] Hint Resolve keeps_edges_within keeps_edges_storage : core.

Lemma solidity_weaken t X X' : solidity t X -> (forall id, id ∈ X -> id ∈ X') -> solidity t X'.
Proof. intros [? ? ? ? Hc] Hsub. split; [done..|]. intros id m md Hst Hs Hall Hfew. by eapply Hsub, Hc. Qed.

(** What reading changes. *)
Definition read_only t t' : Prop := tg_storage t' = tg_storage t /\ tg_seps t' = tg_seps t.

Lemma read_only_solid t t' id : read_only t t' -> solid t' id <-> solid t id.
Proof. intros [Hs Hp]. unfold solid, sep, stored_at. by rewrite Hs, Hp. Qed.

(** The same messages, with other metadata perhaps. *)
Definition same_messages t t' : Prop := tg_seps t' = tg_seps t /\ forall id, fst <$> stored_at t' id = fst <$> stored_at t id.

Lemma same_messages_available t t' id : same_messages t t' -> available t id -> available t' id.
Proof.
  intros [Hs Hm]. induction 1 as [id Hsep|id m md Hst _ IH]; [apply available_sep; unfold sep; by rewrite Hs|].
  specialize (Hm id). rewrite Hst in Hm. destruct (stored_at t' id) as [[m' md']|] eqn:E; [|done]. injection Hm as ->.
  by eapply available_message.
Qed.

Lemma same_messages_sym t t' : same_messages t t' -> same_messages t' t.
Proof. intros [? ?]. by split. Qed.

Lemma same_messages_trans t1 t2 t3 : same_messages t1 t2 -> same_messages t2 t3 -> same_messages t1 t3.
Proof. intros [? Ha] [? Hb]. split; [congruence|]. intros id. by rewrite Hb. Qed.

Lemma read_only_messages t t' : read_only t t' -> same_messages t t'.
Proof. intros [Hs Hp]. split; [done|]. intros id. unfold stored_at. by rewrite Hs. Qed.

Lemma read_only_trans t1 t2 t3 : read_only t1 t2 -> read_only t2 t3 -> read_only t1 t3.
Proof. intros [? ?] [? ?]. split; congruence. Qed.

Lemma cache_step_read_only t t' : cache_step t t' -> read_only t t'.
Proof. intros Hs. split; [by apply cache_step_storage | by apply cache_step_milestones]. Qed.

Lemma solidity_same t t' X :
  (forall id, stored_at t' id = stored_at t id) -> tg_seps t' = tg_seps t -> keeps_edges t t' -> tangle_inv t' ->
  solidity t X -> solidity t' X.
Proof.
  intros Hs Hp He Hi [_ G1 G2 G3 G4]. assert (Hsol : forall id, solid t' id <-> solid t id) by (intros id; unfold solid, sep; by rewrite Hs, Hp).
  split; [done| |intros id Hid| |]; try (intros id m md; rewrite Hs); [apply G1 | | apply G3|].
  - apply (same_messages_available t t'); [|by apply G2, Hsol]. split; [done|]. intros x. by rewrite Hs.
  - intros Hst Hm Hall Hfew. rewrite Hsol in Hm. apply (G4 id m md Hst Hm); intros p Hin; [by apply Hsol, Hall | eauto].
Qed.

Lemma solidity_read_only t t' X : read_only t t' -> tangle_inv t' -> solidity t X -> solidity t' X.
Proof. intros [Hs Hp]. apply solidity_same; [|done | auto]. intros id. unfold stored_at. by rewrite Hs. Qed.

Lemma is_solid_message_spec id t : tangle_inv t ->
  exists t', is_solid_message id t = Some (bool_decide (solid t id), t') /\ tangle_inv t' /\ read_only t t'.
Proof.
  intros Hi. unfold is_solid_message, is_solid_entry_point. case_bool_decide as Hs.
  { exists t. rewrite bool_decide_eq_true_2 by (by left). by split_and!. }
  destruct (get_metadata_spec _ _ _ id t (ti_cache _ Hi) (inv_reads t id Hi)) as (t' & Hg & Hst & Hc).
  rewrite (sbind_run _ _ _ _ _ Hg). exists t'. split_and!; [|by apply (inv_step t) | by apply cache_step_read_only].
  unfold sret. do 2 f_equal. fold (stored_at t id). destruct (stored_at t id) as [[m md]|] eqn:E; cbn.
  - symmetry. destruct (is_solid (metadata_flags md)) eqn:Em.
    + apply bool_decide_eq_true_2. right. eauto.
    + apply bool_decide_eq_false_2. intros [?|(m' & md' & Hx & Hy)]; [done|]. unfold stored_at in *. rewrite E in Hx. injection Hx as <- <-. unfold marked_solid in Hy. congruence.
  - symmetry. apply bool_decide_eq_false_2. intros [?|(m' & md' & Hx & Hy)]; [done|]. congruence.
Qed.

Lemma all_solid_spec ps t : tangle_inv t ->
  exists t', all_solid ps t = Some (bool_decide (Forall (solid t) ps), t') /\ tangle_inv t' /\ read_only t t'.
Proof.
  revert t. induction ps as [|p ps IH]; intros t Hi; cbn [all_solid]; [by exists t|].
  destruct (is_solid_message_spec p t Hi) as (t1 & Hr & Hi1 & Hro). rewrite (sbind_run _ _ _ _ _ Hr). case_bool_decide as Hp.
  - destruct (IH t1 Hi1) as (t2 & -> & Hi2 & Hro2). exists t2. split_and!; [|done | by eapply read_only_trans].
    do 2 f_equal. apply bool_decide_ext. rewrite Forall_cons. rewrite !Forall_forall. setoid_rewrite (read_only_solid t t1 _ Hro). naive_solver.
  - exists t1. rewrite bool_decide_eq_false_2 by (by intros [? ?]%Forall_cons). by split_and!.
Qed.

Lemma parent_roots_spec p t X : solidity t X -> solid t p ->
  exists o y t', parent_roots p t = Some (Some (o, y), t') /\ tangle_inv t' /\ read_only t t'.
Proof.
  intros Hso Hp. pose proof (so_tangle _ _ Hso) as Hi. unfold parent_roots, get_solid_entry_point_index.
  destruct (tg_seps t !! SolidEntryPoint_new p) as [i|] eqn:E; [eexists _, _, t; by split_and!|].
  destruct Hp as [[? ?]|(m & md & Hst & Hm)]; [congruence|].
  destruct (get_metadata_spec _ _ _ p t (ti_cache _ Hi) (inv_reads t p Hi)) as (t' & Hg & Hs & Hc).
  rewrite (sbind_run _ _ _ _ _ Hg). unfold stored_at in Hst. rewrite Hst. cbn [fmap option_fmap option_map snd].
  destruct (so_roots _ _ Hso p m md Hst (or_introl Hm)) as [[o ->] [y ->]]. eexists o, y, t'.
  split_and!; [done | by apply (inv_step t) | by apply cache_step_read_only].
Qed.

Lemma all_roots_spec ps t X : solidity t X -> Forall (solid t) ps ->
  exists rs t', all_roots ps t = Some (Some rs, t') /\ length rs = length ps /\ tangle_inv t' /\ read_only t t'.
Proof.
  revert t. induction ps as [|p ps IH]; intros t Hso Hall; cbn [all_roots]; [exists [], t; split_and!; by try apply Hso|].
  apply Forall_cons in Hall as [Hp Hall]. destruct (parent_roots_spec p t X Hso Hp) as (o & y & t1 & Hr & Hi1 & Hro).
  rewrite (sbind_run _ _ _ _ _ Hr). destruct (IH t1) as (rs & t2 & Hr2 & Hl & Hi2 & Hro2).
  { by eapply solidity_read_only. }
  { eapply Forall_impl; [exact Hall|]. intros q. by apply read_only_solid. }
  rewrite (sbind_run _ _ _ _ _ Hr2). eexists _, t2. split_and!; [done | by cbn; f_equal | done | by eapply read_only_trans].
Qed.

Lemma index_min_Some l : l <> [] -> is_Some (index_min l).
Proof. destruct l; [done|]. by eexists. Qed.
Lemma index_max_Some l : l <> [] -> is_Some (index_max l).
Proof. destruct l; [done|]. by eexists. Qed.

Lemma solidify_metadata_flags now o y md :
  marked_solid (solidify_metadata now o y md).2 = true
  /\ is_milestone (metadata_flags (solidify_metadata now o y md).2) = is_milestone (metadata_flags md)
  /\ (is_milestone (metadata_flags md) = true -> metadata_omrsi (solidify_metadata now o y md).2 = metadata_omrsi md
      /\ metadata_ymrsi (solidify_metadata now o y md).2 = metadata_ymrsi md)
  /\ (is_milestone (metadata_flags md) = false -> metadata_omrsi (solidify_metadata now o y md).2 = Some o
      /\ metadata_ymrsi (solidify_metadata now o y md).2 = Some y).
Proof.
  destruct md as [f i a s r mo my c]. unfold solidify_metadata, marked_solid, is_solid, is_milestone. cbn [mark_solid metadata_flags].
  assert (Hs : flags_contains (flags_bits (set_solid f true)) SOLID = true) by (apply (flags_contains_set _ 0 0); lia).
  assert (Hm : flags_contains (flags_bits (set_solid f true)) MILESTONE = flags_contains (flags_bits f) MILESTONE)
    by (apply (flags_contains_set _ 0 1); lia).
  rewrite Hm. destruct (flags_contains (flags_bits f) MILESTONE) eqn:E; cbn; rewrite ?Hs, ?Hm; by split_and!.
Qed.

(** A message is marked. *)
Record marked t t' id m md now o y : Prop := {
  mk_stored : stored_at t id = Some (m, md);
  mk_new : ~ solid t id;
  mk_inv : tangle_inv t';
  mk_tables : tables (tg_storage t') = insert_stored id m (solidify_metadata now o y md).2 (tables (tg_storage t));
  mk_seps : tg_seps t' = tg_seps t;
}.

Section marked.
Context t t' id m md now o y (Hmk : marked t t' id m md now o y).

Lemma marked_stored x : stored_at t' x = if decide (id = x) then Some (m, (solidify_metadata now o y md).2) else stored_at t x.
Proof. unfold stored_at. rewrite (mk_tables _ _ _ _ _ _ _ _ Hmk). apply stored_insert_stored. Qed.

Lemma marked_edge p c : edge (tables (tg_storage t')) p c <-> edge (tables (tg_storage t)) p c.
Proof. rewrite (mk_tables _ _ _ _ _ _ _ _ Hmk). apply edge_insert_stored. Qed.

Lemma marked_is_solid x : solid t' x <-> solid t x \/ x = id.
Proof.
  destruct (solidify_metadata_flags now o y md) as [Hs _]. unfold solid at 1, sep. rewrite (mk_seps _ _ _ _ _ _ _ _ Hmk), marked_stored.
  destruct (decide (id = x)) as [->|Hne].
  - split; [by right|]. intros _. right. eauto.
  - split; [intros [?|?]; [left; by left | left; by right]|]. intros [[?|?]|?]; [by left | by right | done].
Qed.

Lemma marked_messages : same_messages t t'.
Proof.
  split; [apply Hmk|]. intros x. rewrite marked_stored. case_decide as E; [|done]. subst x. by rewrite (mk_stored _ _ _ _ _ _ _ _ Hmk).
Qed.

Lemma marked_solidity X ch :
  solidity t (id :: X) -> Forall (solid t) (parents_at m) -> (children_within t id -> forall c, edge (tables (tg_storage t)) id c -> c ∈ ch) ->
  solidity t' (ch ++ X).
Proof.
  intros Hso Hready Hch. destruct (solidify_metadata_flags now o y md) as (Hs & Hms & Hm1 & Hm2). rewrite Forall_forall in Hready.
  split; [by apply Hmk| |intros x Hx| |]; try (intros x mx mdx; rewrite marked_stored).
  - destruct (decide (id = x)) as [<-|]; [|apply Hso]. intros [= <- <-]. apply (so_nonempty _ _ Hso id m md), Hmk.
  - apply (same_messages_available t t' x marked_messages). apply marked_is_solid in Hx as [Hx| ->]; [by apply Hso|].
    eapply available_message; [apply Hmk|]. intros p Hp. by apply Hso, Hready.
  - destruct (decide (id = x)) as [<-|]; [|apply Hso]. intros [= <- <-] _. destruct (is_milestone (metadata_flags md)) eqn:E.
    + destruct (Hm1 eq_refl) as [-> ->]. apply (so_roots _ _ Hso id m md); [apply Hmk | by right].
    + destruct (Hm2 eq_refl) as [-> ->]. by split; eexists.
  - intros Hst Hsol Hall Hfew. rewrite marked_is_solid in Hsol.
    assert (Hfew' : forall p, p ∈ parents_at mx -> children_within t p) by (intros p Hp; eapply keeps_edges_within, Hfew, Hp; intros ? ? ?; by apply marked_edge).
    destruct (decide (id = x)) as [<-|Hne]; [by destruct Hsol; right|]. apply elem_of_app.
    destruct (decide (id ∈ parents_at mx)) as [Hin|Hnin].
    + left. apply Hch; [by apply Hfew'|]. by eapply (ti_edges _ (so_tangle _ _ Hso)).
    + right. assert (Hx : x ∈ id :: X); [|set_solver]. apply (so_complete _ _ Hso x mx mdx Hst); [tauto| |done]. intros p Hp.
      destruct (proj1 (marked_is_solid p) (Hall p Hp)) as [?| ->]; done.
Qed.
End marked.

Definition stepped now t id X (r : option (list MessageId * Solidified)) t' : Prop :=
  match r with
  | None => read_only t t' /\ solidity t' X /\ (solid t id \/ stored_at t id = None
      \/ exists m md, stored_at t id = Some (m, md) /\ ~ Forall (solid t) (parents_at m))
  | Some (ch, sent) => exists m md o y, marked t t' id m md (now id) o y /\ Forall (solid t) (parents_at m)
      /\ sent = (id, parents_at m, (solidify_metadata (now id) o y md).1)
      /\ NoDup ch /\ (forall c, c ∈ ch -> edge (tables (tg_storage t)) id c) /\ solidity t' (ch ++ X)
  end.

Lemma skip_solidity t t' id X :
  read_only t t' -> tangle_inv t' -> solidity t (id :: X) ->
  (solid t id \/ stored_at t id = None \/ exists m md, stored_at t id = Some (m, md) /\ ~ Forall (solid t) (parents_at m)) ->
  solidity t' X.
Proof.
  intros Hro Hi Hso Hcase. apply (solidity_read_only t t'); [done | done|]. destruct Hso as [? ? ? ? Hc]. split; [done..|].
  intros x mx mdx Hst Hsol Hall Hfew. assert (Hx : x ∈ id :: X) by by eapply Hc. apply elem_of_cons in Hx as [->|?]; [|done]. exfalso.
  destruct Hcase as [?|[?|(m & md & Hm & Hs)]]; [done | congruence|].
  rewrite Hst in Hm. injection Hm as <- <-. apply Hs. by apply Forall_forall.
Qed.

Lemma propagate_step_spec now id t X : solidity t (id :: X) ->
  exists r t', propagate_step now id t = Some (r, t') /\ stepped now t id X r t'.
Proof.
  intros Hso. pose proof (so_tangle _ _ Hso) as Hi. unfold propagate_step.
  destruct (is_solid_message_spec id t Hi) as (t1 & Hr1 & Hi1 & Hro1). rewrite (sbind_run _ _ _ _ _ Hr1). case_bool_decide as Hsol.
  { exists None, t1. split; [done|]. split_and!; [done | | by left]. eapply skip_solidity; [done | done | exact Hso | by left]. }
  destruct (Tangle_get_spec _ _ _ id t1 (ti_cache _ Hi1) (inv_reads t1 id Hi1)) as (t2 & Hr2 & Hs2 & Hc2). rewrite (sbind_run _ _ _ _ _ Hr2).
  assert (Hro2 : read_only t t2) by (eapply read_only_trans; [exact Hro1 | by apply cache_step_read_only]).
  assert (Hi2 : tangle_inv t2) by (by apply (inv_step t1)).
  rewrite (proj1 Hro1). fold (stored_at t id). destruct (stored_at t id) as [[m md]|] eqn:Hst; cbn [fmap option_fmap option_map fst].
  2: { exists None, t2. split; [done|]. split_and!; [done | | auto]. eapply skip_solidity; [done | done | exact Hso | auto]. }
  fold (parents_at m). destruct (all_solid_spec (parents_at m) t2 Hi2) as (t3 & Hr3 & Hi3 & Hro3). rewrite (sbind_run _ _ _ _ _ Hr3).
  assert (Hsame : Forall (solid t2) (parents_at m) <-> Forall (solid t) (parents_at m)).
  { rewrite !Forall_forall. by setoid_rewrite (read_only_solid t t2 _ Hro2). }
  assert (Hro3' : read_only t t3) by by eapply read_only_trans.
  destruct (decide (Forall (solid t2) (parents_at m))) as [Hready|Hready].
  2: { rewrite bool_decide_eq_false_2 by done. rewrite Hsame in Hready. exists None, t3. split; [done|].
       split_and!; [done | | eauto 10]. eapply skip_solidity; [done | done | exact Hso | eauto 10]. }
  rewrite bool_decide_eq_true_2 by done. cbn [negb]. rewrite Hsame in Hready.
  assert (Hso3 : solidity t3 (id :: X)) by by eapply solidity_read_only.
  destruct (all_roots_spec (parents_at m) t3 (id :: X) Hso3) as (rs & t4 & Hr4 & Hl & Hi4 & Hro4).
  { eapply Forall_impl; [exact Hready|]. intros p. by apply read_only_solid. }
  rewrite (sbind_run _ _ _ _ _ Hr4). assert (Hne : rs <> []) by (pose proof (so_nonempty _ _ Hso id m md Hst); by destruct rs, (parents_at m)).
  destruct (index_min_Some rs.*1) as [o ->]; [by destruct rs|]. destruct (index_max_Some rs.*2) as [y ->]; [by destruct rs|].
  assert (Hro4' : read_only t t4) by by eapply read_only_trans.
  assert (Hst4 : stored_at t4 id = Some (m, md)) by (unfold stored_at; by rewrite (proj1 Hro4')).
  destruct (update_metadata_known id (solidify_metadata (now id) o y) m md t4 Hi4 Hst4) as (t5 & Hr5 & Hi5 & Ht5).
  rewrite (sbind_run _ _ _ _ _ Hr5). destruct (get_children_spec id t5 Hi5) as (ch & t6 & Hr6 & Hi6 & Hs6 & Hd & Hch & Hall).
  rewrite (sbind_run _ _ _ _ _ Hr6). eexists _, t6. split; [done|]. cbn [stepped default].
  assert (Hf : same_rest t4 t6).
  { eapply same_rest_trans; [eapply framed_run; [|exact Hr5] | eapply framed_run; [|exact Hr6]]; intros; [apply framed_update | apply framed_children]. }
  assert (Hmk : marked t t6 id m md (now id) o y).
  { split; [done | done | done | by rewrite Hs6, Ht5, (proj1 Hro4')|].
    destruct (same_rest_fields _ _ Hf) as (_ & _ & -> & _). apply Hro4'. }
  assert (Hedge : forall c, edge (tables (tg_storage t5)) id c <-> edge (tables (tg_storage t)) id c).
  { intros c. by rewrite Ht5, edge_insert_stored, (proj1 Hro4'). }
  exists m, md, o, y. split_and!; [done | done | done | done | intros c Hc; by apply Hedge, Hch|]. eapply marked_solidity; [done..|].
  intros Hw c He. apply Hall; [|by apply Hedge]. eapply within_mono, Hw. intros c'. apply Hedge.
Qed.

(** The edges below messages that are not solid. *)
Definition pending_edges t : gmap (MessageId * MessageId) unit := filter (fun e => ~ solid t e.1.1) (t_edge (t_node (tables (tg_storage t)))).

Lemma read_only_pending t t' : read_only t t' -> pending_edges t' = pending_edges t.
Proof.
  intros Hro. unfold pending_edges. rewrite (proj1 Hro). apply map_filter_ext. intros [p c] [] _. cbn. by rewrite (read_only_solid t t' p Hro).
Qed.

Lemma size_mark {A} `{Countable A} (l : list A) : NoDup l -> size (mark l) = length l.
Proof.
  intros Hd. unfold mark. induction Hd as [|x l Hx Hd IH]; [done|]. cbn. rewrite map_size_insert_None; [by rewrite IH|].
  apply eq_None_not_Some. intros [[] Hm]. by apply mark_lookup in Hm.
Qed.

Lemma marked_pending t t' id m md now o y ch :
  marked t t' id m md now o y -> NoDup ch -> (forall c, c ∈ ch -> edge (tables (tg_storage t)) id c) ->
  (size (pending_edges t') + length ch <= size (pending_edges t))%nat.
Proof.
  intros Hmk Hd Hch. set (es := pair id <$> ch).
  assert (Hes : NoDup es) by (apply NoDup_fmap_2; [by intros ? ? [= ->] | done]).
  rewrite <- (length_fmap (pair id) ch : length es = _), <- (size_mark es Hes), <- map_size_disj_union.
  - apply map_subseteq_size. apply map_subseteq_spec. intros [p c] []. rewrite union_unit_lookup, mark_lookup.
    unfold pending_edges. rewrite !map_lookup_filter_Some. cbn [fst].
    fold (edge (tables (tg_storage t)) p c) (edge (tables (tg_storage t')) p c).
    rewrite (marked_edge _ _ _ _ _ _ _ _ Hmk), (marked_is_solid _ _ _ _ _ _ _ _ Hmk). unfold es. rewrite list_elem_of_fmap.
    intros [[He Hs]|(c' & [= -> ->] & He)]; [tauto|]. split; [by apply Hch | apply Hmk].
  - apply map_disjoint_spec. intros [p c] [] [] [_ Hs]%map_lookup_filter_Some Hm%mark_lookup. unfold es in Hm. apply list_elem_of_fmap in Hm as (c' & [= -> ->] & _).
    apply Hs. cbn. apply (marked_is_solid _ _ _ _ _ _ _ _ Hmk). by right.
Qed.

(** What a run of the loop has done: the messages that were marked are those that were sent. *)
Record propagated t X (sent : list Solidified) t' : Prop := {
  pg_solidity : solidity t' X;
  pg_messages : same_messages t t';
  pg_solid id : solid t id -> solid t' id;
  pg_sent id : id ∈ sent.*1.*1 <-> solid t' id /\ ~ solid t id;
  pg_once : NoDup sent.*1.*1;
  pg_others id : id ∉ sent.*1.*1 -> stored_at t' id = stored_at t id;
  pg_milestones : t_milestone (t_node (tables (tg_storage t'))) = t_milestone (t_node (tables (tg_storage t)));
}.

Lemma propagate_loop_spec fuel now stack X t :
  solidity t (stack ++ X) -> (length stack + size (pending_edges t) <= fuel)%nat ->
  exists sent t', propagate_loop fuel now stack t = Some (sent, t') /\ propagated t X sent t'.
Proof.
  revert stack t. induction fuel as [|fuel IH]; intros stack t Hso Hf.
  { destruct stack; cbn in Hf; [|lia]. exists [], t. split; [done|]. split; [done | by split | done | set_solver | constructor | done | done]. }
  destruct stack as [|id stack]; cbn [propagate_loop].
  { exists [], t. split; [done|]. split; [done | by split | done | set_solver | constructor | done | done]. }
  cbn [length] in Hf. destruct (propagate_step_spec now id t (stack ++ X) Hso) as (r & t1 & Hr & Hst). rewrite (sbind_run _ _ _ _ _ Hr).
  destruct r as [[ch sent]|].
  - destruct Hst as (m & md & o & y & Hmk & Hready & -> & Hd & Hch & Hso1). pose proof (marked_pending _ _ _ _ _ _ _ _ ch Hmk Hd Hch) as Hp.
    destruct (IH (reverse ch ++ stack) t1) as (l & t2 & Hr2 & Hpg).
    { eapply solidity_weaken; [exact Hso1|]. intros x. rewrite !elem_of_app, elem_of_reverse. tauto. }
    { rewrite length_app, length_reverse. lia. }
    rewrite (sbind_run _ _ _ _ _ Hr2). eexists _, t2. split; [done|]. destruct Hpg as [G1 G2 G0 G3 G4 G5 G6].
    pose proof (marked_is_solid _ _ _ _ _ _ _ _ Hmk) as Hms.
    assert (Hid : id ∉ l.*1.*1) by (rewrite G3, Hms; tauto).
    split; [done | eapply same_messages_trans; [by eapply marked_messages | done] | intros x Hx; apply G0, Hms; by left | | by constructor | |].
    + intros x. cbn [fmap list_fmap fst]. rewrite elem_of_cons, G3, Hms.
      split; [|destruct (decide (x = id)); tauto]. intros [->|?]; [|tauto]. split; [|apply Hmk].
      apply G0, Hms. by right.
    + intros x Hx. cbn [fmap list_fmap fst] in Hx. apply not_elem_of_cons in Hx as [Hne Hx]. rewrite (G5 x Hx), (marked_stored _ _ _ _ _ _ _ _ Hmk).
      by rewrite decide_False.
    + rewrite G6, (mk_tables _ _ _ _ _ _ _ _ Hmk). apply milestone_insert_stored.
  - destruct Hst as (Hro & Hso1 & _). destruct (IH stack t1 Hso1) as (l & t2 & Hr2 & [G1 G2 G0 G3 G4 G5 G6]).
    { rewrite (read_only_pending _ _ Hro). lia. }
    rewrite Hr2. exists l, t2. split; [done|]. split; [done | eapply same_messages_trans; [by apply read_only_messages | done] | intros x Hx; by apply G0, (read_only_solid t t1 x Hro) | | done | |].
    + intros x. by rewrite G3, (read_only_solid t t1 x Hro).
    + intros x Hx. rewrite (G5 x Hx). unfold stored_at. by rewrite (proj1 Hro).
    + by rewrite G6, (proj1 Hro).
Qed.

(** ** The other changes of the tangle *)

(** A change of the metadata that keeps solidity and does not remove root indexes. *)
Definition keeps_roots (md md' : MessageMetadata) : Prop :=
  marked_solid md' = marked_solid md
  /\ (is_Some (metadata_omrsi md) -> is_Some (metadata_omrsi md')) /\ (is_Some (metadata_ymrsi md) -> is_Some (metadata_ymrsi md'))
  /\ (is_milestone (metadata_flags md') = true ->
      is_milestone (metadata_flags md) = true \/ is_Some (metadata_omrsi md') /\ is_Some (metadata_ymrsi md')).

(** The metadata of [id] have changed in this way. *)
Record changed t t' id m md md' : Prop := {
  ch_stored : stored_at t id = Some (m, md);
  ch_roots : keeps_roots md md';
  ch_inv : tangle_inv t';
  ch_at x : stored_at t' x = if decide (id = x) then Some (m, md') else stored_at t x;
  ch_seps : tg_seps t' = tg_seps t;
  ch_edges : keeps_edges t t';
}.

Lemma changed_solid t t' id m md md' x : changed t t' id m md md' -> solid t' x <-> solid t x.
Proof.
  intros [Hst [Hk _] _ Hat Hs _]. unfold solid, sep. rewrite Hs, Hat. destruct (decide (id = x)) as [<-|]; [|done]. rewrite Hst.
  split; intros [?|(m' & md'' & [= <- <-] & ?)]; [by left | right; exists m, md; by rewrite <- Hk | by left | right; exists m, md'; by rewrite Hk].
Qed.

Lemma changed_messages t t' id m md md' : changed t t' id m md md' -> same_messages t t'.
Proof. intros [Hst _ _ Hat Hs _]. split; [done|]. intros x. rewrite Hat. case_decide as E; [|done]. subst x. by rewrite Hst. Qed.

Lemma changed_solidity t t' id m md md' X : changed t t' id m md md' -> solidity t X -> solidity t' X.
Proof.
  intros Hch [G1 G2 G3 G4 G5]. pose proof Hch as [Hst (Hk1 & Hk2 & Hk3 & Hk4) Hi Hat Hs He].
  split; [done| |intros x Hx| |]; try (intros x mx mdx; rewrite Hat).
  - case_decide as E; [|apply G2]. intros [= <- <-]. by eapply G2.
  - apply (same_messages_available t t'); [by eapply changed_messages|]. apply G3. by apply (changed_solid _ _ _ _ _ _ x Hch).
  - case_decide as E; [|apply G4]. intros [= <- <-]. rewrite Hk1. intros [Hm|Hm].
    + destruct (G4 id m md Hst (or_introl Hm)). split; [by apply Hk2 | by apply Hk3].
    + destruct (Hk4 Hm) as [Hm'|]; [|done]. destruct (G4 id m md Hst (or_intror Hm')). split; [by apply Hk2 | by apply Hk3].
  - intros Hx Hsx Hall Hfew. rewrite (changed_solid _ _ _ _ _ _ x Hch) in Hsx.
    assert (Hfew' : forall p, p ∈ parents_at mx -> children_within t p) by eauto.
    assert (Hall' : forall p, p ∈ parents_at mx -> solid t p) by (intros p Hp; by apply (changed_solid _ _ _ _ _ _ p Hch), Hall).
    destruct (decide (id = x)) as [<-|]; [injection Hx as <- <-; by eapply G5 | by eapply G5].
Qed.

Lemma update_solidity {R} id (update : MessageMetadata -> R * MessageMetadata) t X :
  solidity t X -> (forall md, keeps_roots md (update md).2) ->
  exists r t', update_metadata id update t = Some (r, t') /\ solidity t' X /\ same_messages t t' /\ (forall x, solid t' x <-> solid t x)
    /\ same_rest t t' /\ t_milestone (t_node (tables (tg_storage t'))) = t_milestone (t_node (tables (tg_storage t))).
Proof.
  intros Hso Hk. pose proof (so_tangle _ _ Hso) as Hi. destruct (stored (tables (tg_storage t)) id) as [[m md]|] eqn:Hst.
  - destruct (update_metadata_known id update m md t Hi Hst) as (t' & Hr & Hi' & Ht').
    assert (Hf : same_rest t t') by (eapply framed_run; [|exact Hr]; intros; apply framed_update).
    assert (Hch : changed t t' id m md (update md).2).
    { split; [done | done | done | intros x; unfold stored_at; by rewrite Ht', stored_insert_stored | by apply same_rest_fields|].
      intros p c. by rewrite Ht', edge_insert_stored. }
    eexists _, t'. split_and!; [done | by eapply changed_solidity | by eapply changed_messages | intros; by eapply changed_solid | done|].
    by rewrite Ht', milestone_insert_stored.
  - destruct (update_metadata_unknown id update t Hi Hst) as (t' & Hr & Hi' & Ht').
    assert (Hf : same_rest t t') by (eapply framed_run; [|exact Hr]; intros; apply framed_update).
    assert (Hro : read_only t t') by (split; [done | by apply same_rest_fields]).
    eexists _, t'. split_and!; [done | by eapply solidity_read_only | by apply read_only_messages | intros; by apply read_only_solid | done|].
    by rewrite Ht'.
Qed.

(** A new message is the only one that may have become solid. *)
Lemma insert_solidity m id md t X :
  solidity t X -> stored_at t id = None -> parents_at m <> [] -> marked_solid md = false -> is_milestone (metadata_flags md) = false ->
  exists t', Tangle_insert m id md t = Some (Some m, t') /\ solidity t' (id :: X) /\ same_rest t t'
    /\ tables (tg_storage t') = insert_stored id m md (insert_edges id (parents_at m) (tables (tg_storage t))).
Proof.
  intros [G1 G2 G3 G4 G5] Hst Hne Hs Hms. destruct (Tangle_insert_new m id md t G1 Hst) as (t' & Hr & Hi' & Ht'). exists t'.
  assert (Hf : same_rest t t') by (eapply framed_run; [|exact Hr]; intros; apply framed_insert).
  destruct (same_rest_fields _ _ Hf) as (_ & _ & Hseps & _).
  assert (Hat : forall x, stored_at t' x = if decide (id = x) then Some (m, md) else stored_at t x).
  { intros x. unfold stored_at. by rewrite Ht', stored_insert_stored, stored_insert_edges. }
  assert (Hsol : forall x, solid t' x <-> solid t x).
  { intros x. unfold solid, sep. rewrite Hseps, Hat. destruct (decide (id = x)) as [<-|]; [|done]. rewrite Hst.
    split; intros [?|(? & ? & [= <- <-] & ?)]; (by left) || congruence. }
  split_and!; [done | | done | done]. split; [done| |intros x Hx| |]; try (intros x mx mdx; rewrite Hat).
  - case_decide; [by intros [= <- <-] | apply G2].
  - apply Hsol, G3 in Hx. induction Hx as [x Hx|x mx mdx Hx _ IH]; [apply available_sep; unfold sep; by rewrite Hseps|].
    eapply available_message; [|exact IH]. rewrite Hat, decide_False by congruence. done.
  - case_decide; [|apply G4]. intros [= <- <-]. rewrite Hs, Hms. by intros [?|?].
  - intros Hx Hsx Hall Hfew. rewrite elem_of_cons. destruct (decide (id = x)) as [<-|]; [by left|]. right. rewrite Hsol in Hsx.
    eapply G5; [done | done | intros p Hp; by apply Hsol, Hall|]. intros p Hp. eapply keeps_edges_within, Hfew, Hp.
    intros q c Hq. rewrite Ht'. apply edge_insert_stored, edge_insert_edges. by left.
Qed.

(** A message that the tangle has is not inserted again. *)
Lemma insert_known_solidity m id md t X x :
  solidity t X -> stored_at t id = Some x ->
  exists t', Tangle_insert m id md t = Some (None, t') /\ solidity t' X /\ same_rest t t' /\ tg_storage t' = tg_storage t.
Proof.
  intros Hso Hst. destruct (Tangle_insert_known m id md t x (so_tangle _ _ Hso) Hst) as (t' & Hr & Hi' & Ht'). exists t'.
  assert (Hf : same_rest t t') by (eapply framed_run; [|exact Hr]; intros; apply framed_insert).
  split_and!; [done | | done | done]. eapply (solidity_read_only t); [split; [done | by apply same_rest_fields] | done | done].
Qed.

Lemma add_milestone_roots idx (ms : Milestone) md :
  keeps_roots md (set_ymrsi (set_omrsi (set_milestone_index (with_flags md (fun f => set_milestone f true)) idx)
    (IndexId_new idx (milestone_message_id ms))) (IndexId_new idx (milestone_message_id ms))).
Proof.
  destruct md as [f i a s r mo my c]. unfold keeps_roots, marked_solid, is_solid, is_milestone. cbn.
  split_and!; [apply (flags_contains_set _ 1 0); lia | by eexists | by eexists | right; by split; eexists].
Qed.

Lemma inv_insert_milestone t (s : B) idx (ms : Milestone) :
  tangle_inv t -> healthy s -> tables s = insert_table idx ms (tables (tg_storage t)) ->
  tangle_inv (with_milestones (<[idx := ms]> (tg_milestones (with_storage s t))) (with_storage s t)).
Proof.
  destruct t as [? ? ? s0]. intros [G1 G2 G3 G4] Hs Ht. cbn in *. destruct (tables s0) as [? ? ? ? ? ? ? ? ? ? []] eqn:E.
  split; cbn; rewrite ?Ht; [done | exact G2 | exact G3|]. intros i m. cbn. rewrite !lookup_insert_Some.
  intros [?|[? Hm]]; [by left|]. right. split; [done|]. by apply G4.
Qed.

Lemma milestone_solidity idx ms t X :
  solidity t X ->
  exists t', add_milestone idx ms t = Some (tt, t') /\ solidity t' X /\ same_messages t t' /\ (forall x, solid t' x <-> solid t x)
    /\ tg_config t' = tg_config t /\ tg_latest t' = tg_latest t /\ tg_solid t' = tg_solid t
    /\ t_milestone (t_node (tables (tg_storage t'))) = <[idx := ms]> (t_milestone (t_node (tables (tg_storage t)))).
Proof.
  intros Hso. unfold add_milestone.
  destruct (update_solidity (milestone_message_id ms) (fun metadata => (tt, set_ymrsi (set_omrsi (set_milestone_index
    (with_flags metadata (fun f => set_milestone f true)) idx) (IndexId_new idx (milestone_message_id ms)))
    (IndexId_new idx (milestone_message_id ms)))) t X Hso (add_milestone_roots idx ms)) as (r & t1 & Hr & Hso1 & Hm1 & Hsol & Hf & Hms).
  rewrite (sbind_run _ _ _ _ _ Hr). pose proof (so_tangle _ _ Hso1) as Hi1.
  destruct (insert_or_log_ok idx ms t1 (ti_healthy _ Hi1)) as (s & Hr2 & Hh & Ht). rewrite (sbind_run _ _ _ _ _ Hr2).
  eexists. split; [done|]. destruct (same_rest_fields _ _ Hf) as (Hf1 & Hf2 & Hf3 & Hf4 & Hf5 & _).
  set (t2 := with_milestones _ _). assert (Hst : tables (tg_storage t2) = insert_table idx ms (tables (tg_storage t1))) by (by rewrite <- Ht; destruct t1).
  assert (Hat : forall x, stored_at t2 x = stored_at t1 x) by (intros x; unfold stored_at; rewrite Hst; by destruct (tables (tg_storage t1)) as [? ? ? ? ? ? ? ? ? ? []]).
  assert (Hseps : tg_seps t2 = tg_seps t1) by by destruct t1.
  assert (Hi2 : tangle_inv t2) by by apply inv_insert_milestone.
  assert (He : keeps_edges t1 t2) by (intros p c; unfold edge; rewrite Hst; by destruct (tables (tg_storage t1)) as [? ? ? ? ? ? ? ? ? ? []]).
  split_and!; [by apply (solidity_same t1)| | | | | |].
  - eapply same_messages_trans; [exact Hm1|]. split; [done|]. intros x. by rewrite Hat.
  - intros x. rewrite <- Hsol. unfold solid, sep. by rewrite Hat, Hseps.
  - rewrite <- Hf1. by destruct t1.
  - rewrite <- Hf4. by destruct t1.
  - rewrite <- Hf5. by destruct t1.
  - rewrite Hst, <- Hms. by destruct (tables (tg_storage t1)) as [? ? ? ? ? ? ? ? ? ? []].
Qed.

(** Without pending messages the marked messages are the available ones. *)
Lemma solid_available t id : solidity t [] -> (forall p, children_within t p) -> solid t id <-> available t id.
Proof.
  intros Hso Hw. split; [apply Hso|]. induction 1 as [id Hs|id m md Hst _ IH]; [by left|].
  destruct (decide (solid t id)) as [|Hn]; [done|]. exfalso. eapply not_elem_of_nil. by eapply (so_complete _ _ Hso id m md).
Qed.

Lemma propagate_spec fuel now id X t :
  solidity t (id :: X) -> (size (t_edge (t_node (tables (tg_storage t)))) < fuel)%nat ->
  exists sent t', propagate fuel now id t = Some (sent, t') /\ propagated t X sent t'.
Proof.
  intros Hso Hf. apply propagate_loop_spec; [done|]. cbn [length]. unfold pending_edges. pose proof (map_size_filter
    (fun e : MessageId * MessageId * unit => ~ solid t e.1.1) (t_edge (t_node (tables (tg_storage t))))). lia.
Qed.

(** ** Claims *)

(** C12. Propagation starts from a consistent tangle, in which the messages that wait to be propagated, [id] and those of [X],
    are the only ones that are not marked as solid although their parents are, apart from those below a parent with more
    children than a fetch of the backend returns. It ends without a panic, after at most one step more than the storage
    has edges. It marks as solid exactly the messages that it sends to the tip pool, each once, and leaves all other
    metadata as they are; the tangle is consistent again, with only [X] waiting, so that a solid message is available:
    its past cone down to the solid entry points is stored. When nothing waits any more and no message has more children
    than can be fetched, the solid messages are exactly the available ones. *)
Theorem propagate_solidifies now id X t :
  solidity t (id :: X) ->
  exists sent t', propagate (S (size (t_edge (t_node (tables (tg_storage t)))))) now id t = Some (sent, t')
    /\ (forall x, x ∈ sent.*1.*1 <-> solid t' x /\ ~ solid t x) /\ NoDup sent.*1.*1
    /\ (forall x, x ∉ sent.*1.*1 -> stored_at t' x = stored_at t x) /\ (forall x, fst <$> stored_at t' x = fst <$> stored_at t x)
    /\ solidity t' X /\ (forall x, solid t' x -> available t' x)
    /\ (X = [] -> (forall p, children_within t' p) -> forall x, solid t' x <-> available t' x).
Proof.
  intros Hso. destruct (propagate_spec (S (size (t_edge (t_node (tables (tg_storage t)))))) now id X t Hso) as (sent & t' & Hr & Hp); [lia|].
  exists sent, t'. split_and!; [done | apply Hp | apply Hp | apply Hp | apply Hp | apply Hp | apply Hp|].
  intros -> Hw x. apply solid_available; [apply Hp | done].
Qed.
End solid.

(** ** Evaluation *)

Module Examples.
Import Concrete TangleCache.Examples.

#[local] Remove Hints Storage_backend Storage_tangle_backend : typeclass_instances.

#[local] Existing Instances message_hasher message_hasher_ok.

(** A tangle with the solid entry point [1] and the message [2] above it, which has just arrived. *)
Definition tangle_sep : Tangle Storage := replace_solid_entry_points [(SolidEntryPoint_new (message_id Byte.x01), MilestoneIndex_new 3)] tangle_0.
Definition tangle_arrived : Tangle Storage :=
  match Tangle_insert (message Byte.x01) (message_id Byte.x02) (arrived 5) tangle_sep with
  | Some (_, t) => t
  | None => tangle_sep
  end.

Lemma tangle_sep_solidity : solidity tangle_sep [].
Proof.
  split; [|done| |done|done].
  - destruct tangle_0_inv as [? ? ? ?]. split; done.
  - intros id [Hs|(m & md & ? & _)]; [by apply available_sep | done].
Qed.

Lemma tangle_arrived_solidity :
  solidity tangle_arrived [message_id Byte.x02] /\ tg_seps tangle_arrived = tg_seps tangle_sep
  /\ stored_at tangle_arrived (message_id Byte.x02) = Some (message Byte.x01, arrived 5).
Proof.
  destruct (insert_solidity (message Byte.x01) (message_id Byte.x02) (arrived 5) tangle_sep [] tangle_sep_solidity) as (t & Hr & Hso & Hf & Ht);
    [done..|]. unfold tangle_arrived. rewrite Hr. split_and!; [exact Hso | by apply same_rest_fields|].
  unfold stored_at. by rewrite Ht, stored_insert_stored, decide_True.
Qed.

Lemma propagate_solidifies_witness :
  exists sent t', propagate 2 (fun _ => 7) (message_id Byte.x02) tangle_arrived = Some (sent, t')
    /\ (message_id Byte.x02 ∈ sent.*1.*1 <-> solid t' (message_id Byte.x02) /\ ~ solid tangle_arrived (message_id Byte.x02))
    /\ (solid t' (message_id Byte.x02) <-> available t' (message_id Byte.x02)).
Proof.
  destruct tangle_arrived_solidity as (Hso & _).
  destruct (propagate_solidifies (fun _ => 7) (message_id Byte.x02) [] tangle_arrived Hso) as (sent & t' & Hr & Hs & _ & _ & _ & _ & _ & Ha).
  exists sent, t'. split_and!; [|apply Hs | by apply Ha]. rewrite <- Hr. f_equal.
Defined.
End Examples.
