(* ===== verification/Peers.v ===== *)
(** * Peers of the protocol

    Models [bee-protocol/src/types/peer.rs] and [bee-protocol/src/workers/peer/manager_res.rs]: what a node knows of a peer
    from its heartbeats, and the peer manager, which keeps the peers in a vector sorted by identifier and searches it by
    bisection, together with the network events of [peer/manager.rs], the packets that are sent to peers ([sender.rs],
    [heartbeater.rs], [broadcaster.rs]) and the heartbeats received ([peer/mod.rs]). The theorems show that the manager
    implements a finite map, and that [fair_find] distributes its answers evenly.

    The identifiers, their order and the addresses are those of libp2p. The channel to a peer is the list of the packets
    that were sent and whether it is closed; the channel that stops the worker of a peer and the metrics are left out. The
    clock is an argument. *)

From stdpp Require Import sorting.
From S2P Require Import Prelude External MessageTypes Packets TangleTypes Storage Tangle.

Local Open Scope Z_scope.

(** What the code uses of libp2p. *)
Class PeerIds := {
  PeerId : Type;
  Multiaddr : Type;
  peer_id_eq :: EqDecision PeerId;
  peer_id_countable :: Countable PeerId;
  peer_id_cmp : PeerId -> PeerId -> comparison;
}.

(** [Ord] of [PeerId] is a total order. *)
Class PeerIdsOk `{PeerIds} : Prop := {
  peer_id_cmp_eq x y : peer_id_cmp x y = Eq <-> x = y;
  peer_id_cmp_antisym x y : peer_id_cmp y x = CompOpp (peer_id_cmp x y);
  peer_id_cmp_trans x y z : peer_id_cmp x y = Lt -> peer_id_cmp y z = Lt -> peer_id_cmp x z = Lt;
}.

(** ** Peers *)

Definition SYNCED_THRESHOLD : Z := 2.

Inductive PeerRelation := Known | Unknown | Discovered.

(** An unbounded channel to a peer. *)
Record GossipSender := mkGossipSender {
  gossip_closed : bool;
  gossip_sent : list bytes;
}.

Section peers.
Context `{PeerIds}.

Record PeerInfo := mkPeerInfo {
  info_address : Multiaddr;
  info_alias : string;
  info_relation : PeerRelation;
}.

Record Peer := mkPeer {
  peer_id : PeerId;
  peer_info : PeerInfo;
  peer_connected : bool;
  peer_solid_milestone_index : MilestoneIndex;
  peer_pruned_index : MilestoneIndex;
  peer_latest_milestone_index : MilestoneIndex;
  peer_connected_peers : Z;
  peer_synced_peers : Z;
  peer_heartbeat_sent_timestamp : Z;
  peer_heartbeat_received_timestamp : Z;
}.

Implicit Types (id : PeerId) (peer : Peer).

Definition Peer_new id (info : PeerInfo) : Peer :=
  mkPeer id info false (MilestoneIndex_new 0) (MilestoneIndex_new 0) (MilestoneIndex_new 0) 0 0 0 0.

Definition set_connected (connected : bool) peer : Peer :=
  let 'mkPeer id info _ solid pruned latest cp sp hs hr := peer in mkPeer id info connected solid pruned latest cp sp hs hr.
Definition set_solid_milestone_index (index : MilestoneIndex) peer : Peer :=
  let 'mkPeer id info c _ pruned latest cp sp hs hr := peer in mkPeer id info c index pruned latest cp sp hs hr.
Definition set_pruned_index (index : MilestoneIndex) peer : Peer :=
  let 'mkPeer id info c solid _ latest cp sp hs hr := peer in mkPeer id info c solid index latest cp sp hs hr.
Definition set_latest_milestone_index (index : MilestoneIndex) peer : Peer :=
  let 'mkPeer id info c solid pruned _ cp sp hs hr := peer in mkPeer id info c solid pruned index cp sp hs hr.
Definition set_connected_peers (connected_peers : Z) peer : Peer :=
  let 'mkPeer id info c solid pruned latest _ sp hs hr := peer in mkPeer id info c solid pruned latest connected_peers sp hs hr.
Definition set_synced_peers (synced_peers : Z) peer : Peer :=
  let 'mkPeer id info c solid pruned latest cp _ hs hr := peer in mkPeer id info c solid pruned latest cp synced_peers hs hr.
Definition set_heartbeat_sent_timestamp (now : Z) peer : Peer :=
  let 'mkPeer id info c solid pruned latest cp sp _ hr := peer in mkPeer id info c solid pruned latest cp sp now hr.
Definition set_heartbeat_received_timestamp (now : Z) peer : Peer :=
  let 'mkPeer id info c solid pruned latest cp sp hs _ := peer in mkPeer id info c solid pruned latest cp sp hs now.

Definition Peer_is_synced_threshold peer (threshold : Z) : bool :=
  Z.max 0 (milestone_index (peer_latest_milestone_index peer) - threshold) <=? milestone_index (peer_solid_milestone_index peer).
Definition Peer_is_synced peer : bool := Peer_is_synced_threshold peer SYNCED_THRESHOLD.

Definition has_data peer (index : MilestoneIndex) : bool :=
  (milestone_index (peer_pruned_index peer) <? milestone_index index)
  && (milestone_index index <=? milestone_index (MilestoneIndex_add (peer_solid_milestone_index peer) (MilestoneIndex_new 1))).
Definition maybe_has_data peer (index : MilestoneIndex) : bool :=
  (milestone_index (peer_pruned_index peer) <? milestone_index index)
  && (milestone_index index <=? milestone_index (MilestoneIndex_add (peer_latest_milestone_index peer) (MilestoneIndex_new 1))).

(** ** The peer manager *)

Definition PeerTuple : Type := Peer * option GossipSender.
Implicit Types (peers : list (PeerId * PeerTuple)) (t : PeerTuple).

(** [slice::binary_search_by_key]: an index of the key, or the one at which it can be inserted. *)
Fixpoint binary_search (fuel : nat) peers id (left right : nat) : result nat nat :=
  match fuel with
  | O => Err left
  | S fuel =>
      if (left <? right)%nat then
        let mid := (left + (right - left) / 2)%nat in
        match peers !! mid with
        | None => Err left
        | Some (key, _) =>
            match peer_id_cmp key id with
            | Lt => binary_search fuel peers id (S mid) right
            | Gt => binary_search fuel peers id left mid
            | Eq => Ok mid
            end
        end
      else Err left
  end.
Definition binary_search_by_key peers id : result nat nat := binary_search (S (length peers)) peers id 0 (length peers).

Definition PeerManagerInner_get peers id : option PeerTuple :=
  match binary_search_by_key peers id with
  | Ok i => snd <$> peers !! i
  | Err _ => None
  end.

(** The update of what [get_mut] refers to. *)
Definition PeerManagerInner_get_mut (f : PeerTuple -> PeerTuple) peers id : list (PeerId * PeerTuple) :=
  match binary_search_by_key peers id with
  | Ok i => alter (prod_map (fun id => id) f) i peers
  | Err _ => peers
  end.

Definition PeerManagerInner_insert peers id (peer : PeerTuple) : list (PeerId * PeerTuple) :=
  match binary_search_by_key peers id with
  | Ok i => <[i := (id, peer)]> peers
  | Err i => take i peers ++ (id, peer) :: drop i peers
  end.

Definition PeerManagerInner_remove peers id : option PeerTuple * list (PeerId * PeerTuple) :=
  match binary_search_by_key peers id with
  | Ok i => (snd <$> peers !! i, take i peers ++ drop (S i) peers)
  | Err _ => (None, peers)
  end.

Record PeerManager := mkPeerManager {
  pm_peers : list (PeerId * PeerTuple);
  pm_counter : Z;
}.
Implicit Types (self : PeerManager).

Definition PeerManager_new : PeerManager := mkPeerManager [] 0.
Definition with_peers peers self : PeerManager := mkPeerManager peers (pm_counter self).

Definition PeerManager_is_empty self : bool := bool_decide (pm_peers self = []).
Definition PeerManager_get self id : option PeerTuple := PeerManagerInner_get (pm_peers self) id.
Definition PeerManager_get_mut (f : PeerTuple -> PeerTuple) self id : PeerManager :=
  with_peers (PeerManagerInner_get_mut f (pm_peers self) id) self.
Definition PeerManager_get_all self : list Peer := (fun e => e.2.1) <$> pm_peers self.
Definition PeerManager_add self peer : PeerManager :=
  with_peers (PeerManagerInner_insert (pm_peers self) (peer_id peer) (peer, None)) self.
Definition PeerManager_remove self id : option PeerTuple * PeerManager :=
  let '(peer, peers) := PeerManagerInner_remove (pm_peers self) id in (peer, with_peers peers self).

Definition peer_of (entry : PeerId * PeerTuple) : Peer := entry.2.1.

(** The loop of [fair_find]; the counter of type [usize] wraps around. *)
Fixpoint fair_find_loop (n : nat) (f : Peer -> bool) peers (counter : Z) : option PeerId * Z :=
  match n with
  | O => (None, counter)
  | S n =>
      let next := as_u 64 (counter + 1) in
      match peers !! Z.to_nat (counter mod len peers) with
      | Some entry => if f (peer_of entry) then (Some entry.1, next) else fair_find_loop n f peers next
      | None => (None, next)
      end
  end.
Definition fair_find (f : Peer -> bool) self : option PeerId * PeerManager :=
  let '(r, counter) := fair_find_loop (length (pm_peers self)) f (pm_peers self) (pm_counter self) in
  (r, mkPeerManager (pm_peers self) counter).

Definition PeerManager_is_connected self id : bool :=
  match PeerManager_get self id with Some (_, Some _) => true | _ => false end.

Definition is_connected_tuple t : bool := match t.2 with Some _ => true | None => false end.
Definition connected_peers self : Z := as_u 8 (len (filter (fun e => is_connected_tuple e.2 = true) (pm_peers self))).
Definition synced_peers self : Z :=
  as_u 8 (len (filter (fun e => (is_connected_tuple e.2 && Peer_is_synced e.2.1) = true) (pm_peers self))).

(** ** Sending packets *)

(** [Sender::send] of the kinds of packets: a packet is dropped if the peer is not connected. *)
Definition send_bytes (bs : bytes) t : PeerTuple :=
  match t with
  | (peer, Some (mkGossipSender false sent)) => (peer, Some (mkGossipSender false (sent ++ [bs])))
  | _ => t
  end.
Definition Sender_send `{Packet P} (packet : P) id self : PeerManager := PeerManager_get_mut (send_bytes (tlv_to_bytes packet)) self id.

(** [Sender<HeartbeatPacket>::send] *)
Definition send_heartbeat (now : Z) (heartbeat : HeartbeatPacket) id self : PeerManager :=
  PeerManager_get_mut (fun t =>
    match t with
    | (peer, Some (mkGossipSender false sent)) =>
        (set_heartbeat_sent_timestamp now peer, Some (mkGossipSender false (sent ++ [tlv_to_bytes heartbeat])))
    | _ => t
    end) self id.

(** The loop of [BroadcasterWorker] over the peers, for one event. *)
Definition broadcast (source : option PeerId) (message : MessagePacket) self : PeerManager :=
  foldl (fun self id => if bool_decide (source = Some id) then self else Sender_send message id self) self (pm_peers self).*1.

Section heartbeats.
Context `{Environment} {B : Type}.

Definition new_heartbeat (tangle : Tangle B) self : HeartbeatPacket :=
  mkHeartbeatPacket (milestone_index (tg_solid tangle)) (milestone_index (tg_pruning tangle)) (milestone_index (tg_latest tangle))
    (connected_peers self) (synced_peers self).

Definition broadcast_heartbeat (now : Z) (tangle : Tangle B) self : PeerManager :=
  foldl (fun manager id => send_heartbeat now (new_heartbeat tangle self) id manager) self (pm_peers self).*1.

(** ** Events of the network *)

Inductive NetworkEvent :=
| PeerAdded id (info : PeerInfo)
| PeerRemoved id
| PeerConnected id (gossip_out : GossipSender)
| PeerDisconnected id.

Definition handle_network_event (now : Z) (tangle : Tangle B) (event : NetworkEvent) self : PeerManager :=
  match event with
  | PeerAdded id info => PeerManager_add self (Peer_new id info)
  | PeerRemoved id => (PeerManager_remove self id).2
  | PeerConnected id sender =>
      let self := PeerManager_get_mut (fun t => (set_connected true t.1, Some sender)) self id in
      send_heartbeat now (new_heartbeat tangle self) id self
  | PeerDisconnected id => PeerManager_get_mut (fun t => (set_connected false t.1, None)) self id
  end.
End heartbeats.

(** A heartbeat of the peer, in [process_packet]. *)
Definition heartbeat_received (now : Z) (packet : HeartbeatPacket) peer : Peer :=
  set_heartbeat_received_timestamp now
    (set_synced_peers (heartbeat_synced_peers packet)
       (set_connected_peers (heartbeat_connected_peers packet)
          (set_latest_milestone_index (MilestoneIndex_new (heartbeat_latest_milestone_index packet))
             (set_pruned_index (MilestoneIndex_new (heartbeat_pruned_index packet))
                (set_solid_milestone_index (MilestoneIndex_new (heartbeat_solid_milestone_index packet)) peer))))).
End peers.

(** ** The manager as a finite map *)

Section manager.
Context `{PeerIdsOk}.
Implicit Types (id : PeerId) (peers : list (PeerId * PeerTuple)) (self : PeerManager).

Definition id_lt id id' : Prop := peer_id_cmp id id' = Lt.

Lemma id_lt_irrefl id : ~ id_lt id id.
Proof. unfold id_lt. by rewrite (proj2 (peer_id_cmp_eq id id) eq_refl). Qed.

Lemma id_lt_gt id id' : peer_id_cmp id id' = Gt <-> id_lt id' id.
Proof. unfold id_lt. rewrite (peer_id_cmp_antisym id id'). by destruct (peer_id_cmp id id'). Qed.

Definition sorted peers : Prop := StronglySorted id_lt peers.*1.

Lemma sorted_lookup peers i j x y : sorted peers -> (i < j)%nat -> peers !! i = Some x -> peers !! j = Some y -> id_lt x.1 y.1.
Proof.
  unfold sorted. revert i j. induction peers as [|p peers IH]; intros i j Hs Hlt Hi Hj; [done|].
  apply StronglySorted_inv in Hs as [Hs Hall]. destruct j as [|j]; [lia|]. cbn in Hj. destruct i as [|i]; cbn in Hi.
  - injection Hi as ->. rewrite Forall_forall in Hall. apply Hall, list_elem_of_fmap. exists y. split; [done|]. by eapply list_elem_of_lookup_2.
  - eapply (IH i j); [done | lia | done | done].
Qed.

Lemma sorted_ids_NoDup peers : sorted peers -> NoDup peers.*1.
Proof.
  unfold sorted. induction peers as [|p peers IH]; [constructor|]. intros [Hs Hall]%StronglySorted_inv. cbn. constructor; [|by apply IH].
  intros Hin. rewrite Forall_forall in Hall. by apply (id_lt_irrefl p.1), Hall.
Qed.

(** What the search has excluded. *)
Definition below peers id (n : nat) : Prop := forall i x, (i < n)%nat -> peers !! i = Some x -> id_lt x.1 id.
Definition above peers id (n : nat) : Prop := forall i x, (n <= i)%nat -> peers !! i = Some x -> id_lt id x.1.

Definition found peers id (r : result nat nat) : Prop :=
  match r with
  | Ok i => exists x, peers !! i = Some (id, x)
  | Err i => (i <= length peers)%nat /\ below peers id i /\ above peers id i
  end.

Lemma binary_search_found fuel peers id left right :
  sorted peers -> (right - left < fuel)%nat -> (left <= right <= length peers)%nat -> below peers id left -> above peers id right ->
  found peers id (binary_search fuel peers id left right).
Proof.
  intros Hs. revert left right. induction fuel as [|fuel IH]; intros left right Hf Hr Hb Ha; [lia|]. cbn [binary_search].
  destruct (Nat.ltb_spec left right) as [Hlt|Hge].
  2: { replace right with left in * by lia. cbn. split_and!; [lia | done | done]. }
  pose proof (Nat.div_lt (right - left) 2). set (mid := (left + (right - left) / 2)%nat). assert (Hmid : (left <= mid < right)%nat) by lia.
  destruct (lookup_lt_is_Some_2 peers mid) as [[key t] Hm]; [lia|]. rewrite Hm. destruct (peer_id_cmp key id) eqn:Hc.
  - apply peer_id_cmp_eq in Hc as ->. by exists t.
  - apply IH; [lia | lia | | done]. intros i x Hi Hx. destruct (decide (i = mid)) as [->|]; [rewrite Hm in Hx; by injection Hx as <-|].
    eapply peer_id_cmp_trans; [|exact Hc]. by apply (sorted_lookup peers i mid x (key, t) Hs); [lia|..].
  - apply id_lt_gt in Hc. apply IH; [lia | lia | done |]. intros i x Hi Hx. destruct (decide (i = mid)) as [->|]; [rewrite Hm in Hx; by injection Hx as <-|].
    eapply peer_id_cmp_trans; [exact Hc|]. by apply (sorted_lookup peers mid i (key, t) x Hs); [lia|..].
Qed.

Lemma search_found peers id : sorted peers -> found peers id (binary_search_by_key peers id).
Proof.
  intros Hs. apply binary_search_found; [done | lia | lia | intros i x ?; lia|].
  intros i x Hi Hx. apply lookup_lt_Some in Hx. lia.
Qed.

(** The parts of the vector around the key. *)
Definition splits peers id (r : result nat nat) : Prop :=
  match r with
  | Ok i => exists pre x post, peers = pre ++ (id, x) :: post /\ length pre = i
  | Err i => exists pre post, peers = pre ++ post /\ length pre = i
      /\ Forall (fun y => id_lt y.1 id) pre /\ Forall (fun y => id_lt id y.1) post
  end.

Lemma search_splits peers id : sorted peers -> splits peers id (binary_search_by_key peers id).
Proof.
  intros Hs. pose proof (search_found peers id Hs) as Hf. destruct (binary_search_by_key peers id) as [i|i]; cbn in *.
  - destruct Hf as [x Hx]. exists (take i peers), x, (drop (S i) peers). split; [by rewrite take_drop_middle|].
    apply lookup_lt_Some in Hx. rewrite length_take. lia.
  - destruct Hf as (Hi & Hb & Ha). exists (take i peers), (drop i peers). split_and!; [by rewrite take_drop | rewrite length_take; lia | |].
    + apply Forall_lookup. intros j y [Hj Hlt]%lookup_take_Some. by apply (Hb j y).
    + apply Forall_lookup. intros j y Hj. rewrite lookup_drop in Hj. eapply (Ha (i + j)%nat y); [lia | done].
Qed.

Lemma sorted_middle pre x y post : sorted (pre ++ x :: post) -> x.1 = y.1 -> sorted (pre ++ y :: post).
Proof. unfold sorted. rewrite !fmap_app, !fmap_cons. by intros ? <-. Qed.

Lemma sorted_delete pre x post : sorted (pre ++ x :: post) -> sorted (pre ++ post).
Proof.
  unfold sorted. rewrite !fmap_app, fmap_cons, !StronglySorted_app. intros (Hc & Hp & [Hq _]%StronglySorted_inv). split_and!; [|done|done].
  intros a b Ha Hb. apply Hc; [done|]. by right.
Qed.

Lemma sorted_insert pre x post :
  sorted (pre ++ post) -> Forall (fun y => id_lt y.1 x.1) pre -> Forall (fun y => id_lt x.1 y.1) post -> sorted (pre ++ x :: post).
Proof.
  unfold sorted. rewrite !fmap_app, fmap_cons, !StronglySorted_app, !Forall_forall. intros (Hc & Hp & Hq) Hb Ha. split_and!; [|done|].
  - intros a b Hain Hbin. apply elem_of_cons in Hbin as [->|Hbin]; [|by apply Hc]. apply list_elem_of_fmap in Hain as (y & -> & Hy). by apply Hb.
  - constructor; [done|]. apply Forall_forall. intros a (y & -> & Hy)%list_elem_of_fmap. by apply Ha.
Qed.

(** The map that a sorted vector represents. *)
Definition peers_map peers : gmap PeerId PeerTuple := list_to_map peers.

Lemma peers_map_middle pre id x post : sorted (pre ++ (id, x) :: post) ->
  peers_map (pre ++ (id, x) :: post) = <[id := x]> (peers_map (pre ++ post)) /\ peers_map (pre ++ post) !! id = None.
Proof.
  intros Hs%sorted_ids_NoDup. assert (Hp : pre ++ (id, x) :: post ≡ₚ (id, x) :: pre ++ post) by by rewrite Permutation_middle. split.
  - unfold peers_map. by rewrite (list_to_map_proper _ _ Hs Hp).
  - rewrite Hp in Hs. cbn in Hs. apply NoDup_cons in Hs as [Hn _]. by apply not_elem_of_list_to_map_1.
Qed.

Lemma peers_map_absent pre id post :
  Forall (fun y => id_lt y.1 id) pre -> Forall (fun y => id_lt id y.1) post -> peers_map (pre ++ post) !! id = None.
Proof.
  intros Hb Ha. apply not_elem_of_list_to_map_1. rewrite fmap_app, elem_of_app, !list_elem_of_fmap. rewrite !Forall_forall in Hb, Ha.
  intros [(y & -> & Hy)|(y & -> & Hy)]; [by apply (id_lt_irrefl y.1), Hb | by apply (id_lt_irrefl y.1), Ha].
Qed.

Lemma inner_get peers id : sorted peers -> PeerManagerInner_get peers id = peers_map peers !! id.
Proof.
  intros Hs. unfold PeerManagerInner_get. pose proof (search_splits peers id Hs) as Hsp.
  destruct (binary_search_by_key peers id) as [i|i]; cbn in Hsp.
  - destruct Hsp as (pre & x & post & -> & <-). rewrite (proj1 (peers_map_middle _ _ _ _ Hs)), lookup_insert_eq.
    by rewrite list_lookup_middle.
  - destruct Hsp as (pre & post & -> & _ & Hb & Ha). by rewrite peers_map_absent.
Qed.

Lemma inner_insert peers id t : sorted peers ->
  sorted (PeerManagerInner_insert peers id t) /\ peers_map (PeerManagerInner_insert peers id t) = <[id := t]> (peers_map peers).
Proof.
  intros Hs. unfold PeerManagerInner_insert. pose proof (search_splits peers id Hs) as Hsp.
  destruct (binary_search_by_key peers id) as [i|i]; cbn in Hsp.
  - destruct Hsp as (pre & x & post & -> & <-). rewrite insert_app_r_alt, Nat.sub_diag by lia. cbn.
    assert (Hs' : sorted (pre ++ (id, t) :: post)) by by eapply sorted_middle. split; [done|].
    by rewrite (proj1 (peers_map_middle _ _ _ _ Hs)), (proj1 (peers_map_middle _ _ _ _ Hs')), insert_insert_eq.
  - destruct Hsp as (pre & post & -> & <- & Hb & Ha). rewrite take_app_length, drop_app_length.
    assert (Hs' : sorted (pre ++ (id, t) :: post)) by by apply sorted_insert. split; [done|]. apply (peers_map_middle _ _ _ _ Hs').
Qed.

Lemma inner_remove peers id : sorted peers ->
  (PeerManagerInner_remove peers id).1 = peers_map peers !! id
  /\ sorted (PeerManagerInner_remove peers id).2 /\ peers_map (PeerManagerInner_remove peers id).2 = delete id (peers_map peers).
Proof.
  intros Hs. unfold PeerManagerInner_remove. pose proof (search_splits peers id Hs) as Hsp.
  destruct (binary_search_by_key peers id) as [i|i]; cbn in Hsp.
  - destruct Hsp as (pre & x & post & -> & <-). destruct (peers_map_middle _ _ _ _ Hs) as [Hm Hn]. cbn [fst snd].
    rewrite take_app_length, Hm, lookup_insert_eq, list_lookup_middle by done. split; [done|].
    replace (drop (S (length pre)) (pre ++ (id, x) :: post)) with post.
    + split; [by eapply sorted_delete|]. by rewrite delete_insert_id.
    + rewrite (drop_app_ge pre) by lia. by replace (S (length pre) - length pre)%nat with 1%nat by lia.
  - destruct Hsp as (pre & post & -> & _ & Hb & Ha). cbn [fst snd]. assert (Hn := peers_map_absent _ _ _ Hb Ha).
    split_and!; [by rewrite Hn | done | by rewrite delete_id].
Qed.

Lemma inner_get_mut f peers id : sorted peers ->
  sorted (PeerManagerInner_get_mut f peers id) /\ peers_map (PeerManagerInner_get_mut f peers id) = alter f id (peers_map peers)
  /\ (PeerManagerInner_get_mut f peers id).*1 = peers.*1.
Proof.
  intros Hs. unfold PeerManagerInner_get_mut. pose proof (search_splits peers id Hs) as Hsp.
  destruct (binary_search_by_key peers id) as [i|i]; cbn in Hsp.
  - destruct Hsp as (pre & x & post & -> & <-). rewrite alter_app, decide_False, Nat.sub_diag by lia. cbn.
    assert (Hs' : sorted (pre ++ (id, f x) :: post)) by by eapply sorted_middle.
    destruct (peers_map_middle _ _ _ _ Hs) as [-> Hn]. destruct (peers_map_middle _ _ _ _ Hs') as [-> _].
    split_and!; [done | by rewrite alter_insert_eq | by rewrite !fmap_app].
  - destruct Hsp as (pre & post & -> & _ & Hb & Ha). split_and!; [done | | done].
    apply map_eq. intros j. destruct (decide (id = j)) as [<-|]; [by rewrite lookup_alter_eq, peers_map_absent | by rewrite lookup_alter_ne].
Qed.

(** ** The search for a peer *)

Lemma fair_find_None n f peers counter :
  (forall x, x ∈ peers -> f (peer_of x) = false) -> peers <> [] -> (fair_find_loop n f peers counter).1 = None.
Proof.
  intros Hf Hne. revert counter. induction n as [|n IH]; intros counter; [done|]. cbn [fair_find_loop].
  destruct (peers !! _) as [x|] eqn:E; [|done]. rewrite (Hf x) by (by eapply list_elem_of_lookup_2). apply IH.
Qed.

(** The peers from the position of the counter on, once around. *)
Definition rotated peers (counter : Z) : list (PeerId * PeerTuple) :=
  drop (Z.to_nat (counter mod len peers)) peers ++ take (Z.to_nat (counter mod len peers)) peers.

Lemma rotated_permutation peers counter : rotated peers counter ≡ₚ peers.
Proof. unfold rotated. rewrite Permutation_app_comm. by rewrite take_drop. Qed.

Lemma rotated_lookup peers counter (i : nat) :
  0 <= counter -> (i < length peers)%nat -> rotated peers counter !! i = peers !! Z.to_nat ((counter + Z.of_nat i) mod len peers).
Proof.
  intros Hc Hi. unfold rotated, len. set (n := Z.of_nat (length peers)). pose proof (Z.mod_pos_bound counter n) as Hr.
  set (r := counter mod n) in *. assert (Hmod : (counter + Z.of_nat i) mod n = (r + Z.of_nat i) mod n) by (unfold r; by rewrite Zplus_mod_idemp_l).
  rewrite Hmod. destruct (decide (r + Z.of_nat i < n)) as [Hlt|Hge].
  - rewrite lookup_app_l by (rewrite length_drop; lia). rewrite lookup_drop, Z.mod_small by lia. f_equal. lia.
  - rewrite lookup_app_r by (rewrite length_drop; lia). rewrite length_drop. rewrite lookup_take_lt by lia.
    replace (r + Z.of_nat i) with ((r + Z.of_nat i - n) + 1 * n) by lia. rewrite Z.mod_add, Z.mod_small by lia. f_equal. lia.
Qed.

(** The peers that a search visits before it finds one. *)
Lemma fair_find_visits n f peers counter (visited rest : list (PeerId * PeerTuple)) id (t : PeerTuple) :
  0 <= counter -> counter + Z.of_nat (length visited) < 2 ^ 64 - 1 -> (length visited < n)%nat ->
  (forall i, (i < length (visited ++ (id, t) :: rest))%nat ->
     (visited ++ (id, t) :: rest) !! i = peers !! Z.to_nat ((counter + Z.of_nat i) mod len peers)) ->
  Forall (fun x => f (peer_of x) = false) visited -> f (peer_of (id, t)) = true ->
  fair_find_loop n f peers counter = (Some id, counter + Z.of_nat (length visited) + 1).
Proof.
  revert n counter. induction visited as [|x visited IH]; intros n counter Hc Hlt Hn Hl Hv Ht; (destruct n as [|n]; [lia|]);
    cbn [fair_find_loop length app] in *.
  - specialize (Hl 0%nat). cbn in Hl. rewrite Z.add_0_r in Hl. rewrite <- Hl, Ht by lia. cbn [fst].
    rewrite as_u_id by (unfold fits; lia). f_equal. lia.
  - apply Forall_cons in Hv as [Hv0 Hv]. pose proof (Hl 0%nat) as Hl0. cbn in Hl0. rewrite Z.add_0_r in Hl0. rewrite <- Hl0 by lia.
    rewrite Hv0, as_u_id by (unfold fits; lia). rewrite (IH n (counter + 1)); [f_equal; lia | lia | lia | lia | | done | done].
    intros i Hi. etransitivity; [apply (Hl (S i)); lia|]. do 3 f_equal. lia.
Qed.

(** Consecutive searches. *)
Fixpoint fair_finds (n : nat) f self : list (option PeerId) :=
  match n with
  | O => []
  | S n => let '(r, self) := fair_find f self in r :: fair_finds n f self
  end.

(** The peers that satisfy the condition. *)
Definition matching (f : Peer -> bool) peers : list (PeerId * PeerTuple) := filter (fun x => f (peer_of x) = true) peers.

Lemma matching_none f peers : Forall (fun x => f (peer_of x) = false) peers -> matching f peers = [].
Proof. unfold matching. induction 1 as [|x l Hx _ IH]; [done|]. rewrite filter_cons_False by congruence. done. Qed.

Lemma matching_split f visited x rest :
  Forall (fun x => f (peer_of x) = false) visited -> f (peer_of x) = true ->
  matching f (visited ++ x :: rest) = x :: matching f rest.
Proof.
  intros Hv Hx. unfold matching. rewrite filter_app, filter_cons_True by done. fold (matching f visited). by rewrite matching_none.
Qed.

Lemma fair_finds_segment f peers segment counter :
  0 <= counter -> counter + Z.of_nat (length segment) < 2 ^ 64 - 1 -> (length segment <= length peers)%nat ->
  (forall i, (i < length segment)%nat -> segment !! i = peers !! Z.to_nat ((counter + Z.of_nat i) mod len peers)) ->
  fair_finds (length (matching f segment)) f (mkPeerManager peers counter) = (fun x => Some x.1) <$> matching f segment.
Proof.
  remember (length segment) as n eqn:Hn. revert segment counter Hn. induction n as [n IH] using lt_wf_ind. intros segment counter -> Hc Hlt Hle Hl.
  destruct (decide (Forall (fun x => f (peer_of x) = false) segment)) as [Hall|Hex].
  { by rewrite matching_none. }
  assert (Hsplit : exists visited id t rest, segment = visited ++ (id, t) :: rest /\ Forall (fun x => f (peer_of x) = false) visited /\ f (peer_of (id, t)) = true).
  { clear -Hex. induction segment as [|[id t] segment IH]; [by destruct Hex|]. destruct (f (peer_of (id, t))) eqn:E.
    - exists [], id, t, segment. by split_and!.
    - destruct IH as (visited & id' & t' & rest & -> & ? & ?); [intros ?; apply Hex; by constructor|].
      exists ((id, t) :: visited), id', t', rest. split_and!; [done | by constructor | done]. }
  destruct Hsplit as (visited & id & t & rest & -> & Hv & Ht). rewrite length_app in *. cbn [length] in *.
  rewrite (matching_split f visited (id, t) rest Hv Ht).
  cbn [app length fair_finds fmap list_fmap fst]. unfold fair_find. cbn [pm_peers pm_counter].
  rewrite (fair_find_visits _ f peers counter visited rest id t); [| done | lia | lia | rewrite length_app; done | done | done].
  f_equal. apply (IH (length rest)); [lia | done | lia | lia | lia|]. intros i Hi. specialize (Hl (length visited + S i)%nat).
  rewrite lookup_app_r in Hl by lia. replace (length visited + S i - length visited)%nat with (S i) in Hl by lia.
  etransitivity; [apply Hl; lia|]. do 3 f_equal. lia.
Qed.

(** ** Claims *)

(** C18. The peer manager is a finite map from identifiers to peers: on a sorted vector the bisection finds a peer exactly if
    it is present, and adding, updating and removing peers change the map accordingly and keep the vector sorted. *)
Theorem peer_manager_refines self id (f : PeerTuple -> PeerTuple) (peer : Peer) :
  sorted (pm_peers self) ->
  let m := peers_map (pm_peers self) in
  PeerManager_get self id = m !! id
  /\ (let self' := PeerManager_add self peer in sorted (pm_peers self') /\ peers_map (pm_peers self') = <[peer_id peer := (peer, None)]> m)
  /\ (let self' := PeerManager_get_mut f self id in sorted (pm_peers self') /\ peers_map (pm_peers self') = alter f id m)
  /\ (let r := PeerManager_remove self id in r.1 = m !! id /\ sorted (pm_peers r.2) /\ peers_map (pm_peers r.2) = delete id m).
Proof.
  intros Hs. cbn zeta. split_and!; [by apply inner_get | by apply inner_insert | by apply inner_insert | by apply inner_get_mut |
    by apply inner_get_mut | ..]; destruct (inner_remove (pm_peers self) id Hs) as (? & ? & ?); unfold PeerManager_remove;
    by destruct (PeerManagerInner_remove (pm_peers self) id).
Qed.

(** The search for a peer is fair: it finds one whenever some peer satisfies the condition, and as many searches in a
    row as there are such peers return each of them once, as long as the counter does not overflow. *)
Theorem fair_find_fair f self :
  0 <= pm_counter self -> pm_counter self + len (pm_peers self) < 2 ^ 64 - 1 ->
  fair_finds (length (matching f (pm_peers self))) f self ≡ₚ (fun x => Some x.1) <$> matching f (pm_peers self)
  /\ (matching f (pm_peers self) = [] -> (fair_find f self).1 = None).
Proof.
  intros Hc Hlt. set (seg := rotated (pm_peers self) (pm_counter self)).
  assert (Hp : seg ≡ₚ pm_peers self) by apply rotated_permutation. assert (Hlen : length seg = length (pm_peers self)) by by rewrite Hp.
  assert (Hm : matching f seg ≡ₚ matching f (pm_peers self)) by (unfold matching; by rewrite Hp). split.
  - rewrite <- (Permutation_length Hm). etransitivity; [|by apply fmap_Permutation]. destruct self as [peers counter]. cbn in *.
    rewrite (fair_finds_segment f peers seg counter); [done | done | | lia |].
    + unfold len in Hlt. lia.
    + intros i Hi. apply rotated_lookup; [done | lia].
  - intros Hn. unfold fair_find. destruct (fair_find_loop _ _ _ _) as [r c] eqn:E. cbn. destruct (decide (pm_peers self = [])) as [Hne|Hne].
    { rewrite Hne in E. by injection E. }
    change r with (r, c).1. rewrite <- E. apply fair_find_None; [|done]. intros x Hx. destruct (f (peer_of x)) eqn:Ef; [|done]. exfalso.
    eapply (not_elem_of_nil x). rewrite <- Hn. by apply list_elem_of_filter.
Qed.
End manager.

(** ** Evaluation *)

Module Examples.

#[export] Instance number_ids : PeerIds := {| PeerId := Z; Multiaddr := string; peer_id_cmp := Z.compare |}.
#[export] Instance number_ids_ok : PeerIdsOk.
Proof.
  split; cbn.
  - intros x y. apply Z.compare_eq_iff.
  - intros x y. apply Z.compare_antisym.
  - intros x y z. rewrite !Z.compare_lt_iff. lia.
Qed.

Definition info : PeerInfo := mkPeerInfo "/ip4/10.0.0.1/tcp/15600"%string "peer"%string Known.
Definition peer (id : Z) (solid : Z) : Peer :=
  set_latest_milestone_index (MilestoneIndex_new 9) (set_solid_milestone_index (MilestoneIndex_new solid) (Peer_new id info)).

(** Three peers, two of which have the data of milestone 5. *)
Definition manager : PeerManager :=
  foldl PeerManager_add PeerManager_new [peer 7 8; peer 3 2; peer 5 6].

Lemma manager_sorted : sorted (pm_peers manager) /\ (pm_peers manager).*1 = [3; 5; 7].
Proof. split; [|reflexivity]. unfold sorted. vm_compute. repeat constructor. Qed.

Lemma peer_manager_refines_witness :
  PeerManager_get manager 5 = Some (peer 5 6, None)
  /\ sorted (pm_peers (PeerManager_add manager (peer 4 1))) /\ PeerManager_get manager 4 = None.
Proof.
  destruct (peer_manager_refines manager 5 (fun t => t) (peer 4 1) (proj1 manager_sorted)) as (Hg & [Hs _] & _).
  split; [rewrite Hg; reflexivity|]. split; [exact Hs | reflexivity].
Defined.

Lemma fair_find_fair_witness :
  fair_finds 2 (fun p => has_data p (MilestoneIndex_new 5)) manager ≡ₚ [Some 5; Some 7].
Proof. apply (fair_find_fair (fun p => has_data p (MilestoneIndex_new 5)) manager); vm_compute; [discriminate | reflexivity]. Defined.
End Examples.
