(* ===== verification/Calm.v ===== *)
(** * Operations that keep solidity

    Most of what the workers of the protocol do to the tangle is reading it, or changing metadata and indexes that do not
    matter for the solidity of messages. [calm t t'] says that the tangle [t'] has the messages, the solid messages and the
    milestones of [t]; [calms m] that the operation [m] leads to such a tangle. *)

From S2P Require Import Prelude External MessageTypes Payload Message TangleTypes LedgerTypes.
From S2P Require Import Vertices Storage StorageTables StorageMemory Tangle TangleFrame TangleCache TipPool Solidity.

Local Open Scope Z_scope.

Section calm.
Context `{TableHasherOk MessageId} `{HashOrderOk} `{EnvironmentOk} `{BitflagsOk} `{LedgerBackendOk B}.
Implicit Types (t : Tangle B) (id : MessageId).

Definition milestones_of t : gmap MilestoneIndex Milestone := t_milestone (t_node (tables (tg_storage t))).

Record calm t t' : Prop := {
  calm_messages : same_messages t t';
  calm_solid id : solid t' id <-> solid t id;
  calm_milestones : milestones_of t' = milestones_of t;
  calm_indexes : tg_latest t' = tg_latest t /\ tg_solid t' = tg_solid t /\ tg_config t' = tg_config t;
  calm_solidity X : solidity t X -> solidity t' X;
}.

Lemma calm_refl t : calm t t.
Proof. split; [by split | done | done | done | done]. Qed.

Lemma calm_trans t1 t2 t3 : calm t1 t2 -> calm t2 t3 -> calm t1 t3.
Proof.
  intros [G1 G2 G3 (G4 & G5 & G6) G7] [K1 K2 K3 (K4 & K5 & K6) K7]. split.
  - by eapply same_messages_trans.
  - intros id. by rewrite K2.
  - by rewrite K3.
  - split_and!; congruence.
  - eauto.
Qed.

(** Only the cache and the order of accesses have changed. *)
Lemma calm_same_rest t t' : same_rest t t' -> tangle_inv t' -> tg_storage t' = tg_storage t -> calm t t'.
Proof.
  intros Hf Hi Hs. destruct (same_rest_fields _ _ Hf) as (F1 & _ & F3 & F4 & F5 & _). assert (Hro : read_only t t') by done. split.
  - by apply read_only_messages.
  - intros id. by apply read_only_solid.
  - unfold milestones_of. by rewrite Hs.
  - done.
  - intros X. by apply solidity_read_only.
Qed.

Lemma calm_step t t' :
  tangle_inv t -> cache_step t t' -> cache_ok (edge (tables (tg_storage t))) (stored (tables (tg_storage t))) no_pins (tg_vertices t') -> calm t t'.
Proof.
  intros Hi Hs Hc. apply calm_same_rest; [|by apply (inv_step t) | by apply cache_step_storage].
  destruct Hs as (vs & e & ->). exists vs, (tg_storage t), e. by destruct t.
Qed.

(** ** Rules *)

Definition calms {A} (m : st (Tangle B) A) (R : Tangle B -> A -> Prop) : Prop := forall t X a t',
  solidity t X -> m t = Some (a, t') -> calm t t' /\ R t a.

Definition calms_any {A} (m : st (Tangle B) A) : Prop := forall t X a t', solidity t X -> m t = Some (a, t') -> calm t t'.

Lemma any_calms {A} (m : st (Tangle B) A) R : calms m R -> calms_any m.
Proof. intros Hm t X a t' Hso Hr. by destruct (Hm t X a t' Hso Hr). Qed.

Lemma calms_ret {A} (a : A) : calms_any (sret a).
Proof. intros t X a' t' _ [= <- <-]. apply calm_refl. Qed.

Lemma calms_panic {A} : calms_any (spanic (A := A)).
Proof. by intros t X a t'. Qed.

Lemma calms_gets {A} (f : Tangle B -> A) : calms_any (gets f).
Proof. intros t X a t' _ [= <- <-]. apply calm_refl. Qed.

Lemma calms_bind {A A'} (m : st (Tangle B) A) (k : A -> st (Tangle B) A') :
  calms_any m -> (forall a, calms_any (k a)) -> calms_any (sbind m k).
Proof.
  intros Hm Hk t X a t' Hso (b & t1 & Hr1 & Hr2)%sbind_inv. pose proof (Hm _ _ _ _ Hso Hr1) as Hc.
  eapply calm_trans; [exact Hc|]. eapply Hk; [by apply (calm_solidity _ _ Hc) | done].
Qed.

Lemma calms_for {A} (f : A -> st (Tangle B) unit) l : (forall a, calms_any (f a)) -> calms_any (sfor f l).
Proof. intros Hf. induction l as [|a l IH]; [apply calms_ret|]. cbn. by apply calms_bind. Qed.

(** ** Reading *)

(** A reading with a specification of the tangle. *)
Lemma calms_reads {A} (m : st (Tangle B) A) :
  (forall t, tangle_inv t -> exists a t', m t = Some (a, t') /\ cache_step t t'
     /\ cache_ok (edge (tables (tg_storage t))) (stored (tables (tg_storage t))) no_pins (tg_vertices t')) -> calms_any m.
Proof.
  intros Hm t X a t' Hso Hr. pose proof (so_tangle _ _ Hso) as Hi. destruct (Hm t Hi) as (a1 & t1 & Hr1 & Hs & Hc).
  rewrite Hr in Hr1. injection Hr1 as <- <-. by apply calm_step.
Qed.

Lemma calms_get id : calms (Tangle_get id) (fun t a => a = fst <$> stored_at t id).
Proof.
  intros t X a t' Hso Hr. pose proof (so_tangle _ _ Hso) as Hi. destruct (Tangle_get_spec _ _ _ id t (ti_cache _ Hi) (inv_reads t id Hi)) as (t1 & Hr1 & Hs & Hc).
  rewrite Hr in Hr1. injection Hr1 as -> <-. split; [by apply calm_step | done].
Qed.

Lemma calms_get_metadata id : calms_any (get_metadata id).
Proof.
  apply calms_reads. intros t Hi. destruct (get_metadata_spec _ _ _ id t (ti_cache _ Hi) (inv_reads t id Hi)) as (t1 & Hr1 & Hs & Hc). eauto.
Qed.

Lemma calms_get_vertex id : calms_any (get_vertex id).
Proof.
  apply calms_reads. intros t Hi. destruct (get_vertex_spec _ _ _ id t (ti_cache _ Hi) (inv_reads t id Hi)) as (r & t1 & Hr1 & Hs & Hc & _). eauto.
Qed.

Lemma calms_contains id : calms (Tangle_contains id) (fun t a => a = bool_decide (is_Some (stored_at t id))).
Proof.
  intros t X a t' Hso Hr. pose proof (so_tangle _ _ Hso) as Hi.
  destruct (Tangle_contains_spec _ _ _ id t (ti_cache _ Hi) (inv_reads t id Hi)) as (t1 & Hr1 & Hs & Hc).
  rewrite Hr in Hr1. injection Hr1 as -> <-. split; [by apply calm_step | done].
Qed.

Lemma calms_is_solid id : calms (is_solid_message id) (fun t a => a = bool_decide (solid t id)).
Proof.
  intros t X a t' Hso Hr. pose proof (so_tangle _ _ Hso) as Hi. destruct (is_solid_message_spec id t Hi) as (t1 & Hr1 & Hi1 & Hs1 & _).
  assert (Hf : same_rest t t') by (eapply framed_run; [|exact Hr]; intros; apply framed_is_solid).
  rewrite Hr in Hr1. injection Hr1 as -> <-. split; [by apply calm_same_rest | done].
Qed.

Lemma calms_children id : calms_any (get_children id).
Proof.
  intros t X a t' Hso Hr. pose proof (so_tangle _ _ Hso) as Hi. destruct (get_children_spec id t Hi) as (l & t1 & Hr1 & Hi1 & Hs1 & _).
  assert (Hf : same_rest t t') by (eapply framed_run; [|exact Hr]; intros; apply framed_children).
  rewrite Hr in Hr1. injection Hr1 as -> <-. by apply calm_same_rest.
Qed.

(** A milestone that is read from the storage is kept in memory. *)
Lemma calm_with_milestones t ms : tangle_inv (with_milestones ms t) -> calm t (with_milestones ms t).
Proof.
  intros Hi. assert (Hs : tg_storage (with_milestones ms t) = tg_storage t) by by destruct t.
  assert (Hp : tg_seps (with_milestones ms t) = tg_seps t) by by destruct t. assert (Hro : read_only t (with_milestones ms t)) by done. split.
  - by apply read_only_messages.
  - intros id. by apply read_only_solid.
  - unfold milestones_of. by rewrite Hs.
  - by destruct t.
  - intros X. by apply solidity_read_only.
Qed.

Lemma calms_pull_milestone idx : calms (pull_milestone idx) (fun t a => a = milestone_message_id <$> milestones_of t !! idx).
Proof.
  intros t X a t' Hso Hr. destruct (pull_milestone_spec idx t (so_tangle _ _ Hso)) as (t1 & Hr1 & Hi1 & _). rewrite Hr in Hr1. injection Hr1 as -> <-.
  split; [|done]. unfold pull_milestone in Hr. destruct (fetch Milestone (tg_storage t) idx) as [[m|]|e]; [|by injection Hr as _ <-; apply calm_refl..].
  injection Hr as _ <-. by apply calm_with_milestones.
Qed.

Lemma calms_milestone_id idx : calms (get_milestone_message_id idx) (fun t a => a = milestone_message_id <$> milestones_of t !! idx).
Proof.
  intros t X a t' Hso Hr. destruct (get_milestone_message_id_spec idx t (so_tangle _ _ Hso)) as (t1 & Hr1 & _). rewrite Hr in Hr1. injection Hr1 as -> <-.
  split; [|done]. apply sbind_inv in Hr as (c & t2 & Hg & Hr). injection Hg as <- <-. destruct (tg_milestones t !! idx); cbn in Hr.
  - injection Hr as _ <-. apply calm_refl.
  - by eapply (any_calms _ _ (calms_pull_milestone idx)).
Qed.

Lemma calms_contains_milestone idx : calms_any (contains_milestone idx).
Proof.
  apply calms_bind; [apply calms_gets|]. intros [|]; [apply calms_ret|]. apply calms_bind; [|intros; apply calms_ret].
  eapply any_calms, calms_pull_milestone.
Qed.

Lemma calms_milestone_message idx : calms_any (get_milestone_message idx).
Proof.
  apply calms_bind; [eapply any_calms, calms_milestone_id|]. intros [id|]; [eapply any_calms, calms_get | apply calms_ret].
Qed.

(** ** Writing *)

Lemma calms_update {R} id (update : MessageMetadata -> R * MessageMetadata) :
  (forall md, keeps_roots md (update md).2) -> calms_any (update_metadata id update).
Proof.
  intros Hk t X a t' Hso Hr. destruct (update_solidity id update t X Hso Hk) as (r & t1 & Hr1 & _ & Hm & Hs & Hf & Hms).
  rewrite Hr in Hr1. injection Hr1 as -> <-. destruct (same_rest_fields _ _ Hf) as (F1 & _ & _ & F4 & F5 & _). split; [done..|].
  intros Y Hy. destruct (update_solidity id update t Y Hy Hk) as (r2 & t2 & Hr2 & Hso2 & _). rewrite Hr in Hr2. by injection Hr2 as _ <-.
Qed.

Lemma calm_tip_pool t pool : calm t (with_tip_pool pool t).
Proof.
  assert (Hro : read_only t (with_tip_pool pool t)) by by destruct t. split.
  - by apply read_only_messages.
  - intros id. by apply read_only_solid.
  - unfold milestones_of. by rewrite (proj1 Hro).
  - by destruct t.
  - intros X Hso. eapply solidity_read_only; [exact Hro | | exact Hso]. destruct (so_tangle _ _ Hso) as [? ? ? ?]. destruct t. by split.
Qed.

Lemma calms_set_tip_pool pool : calms_any (modify (with_tip_pool pool)).
Proof. intros t X a t' _ [= _ <-]. apply calm_tip_pool. Qed.

Lemma calms_root_index f id : calms_any (root_snapshot_index f id).
Proof.
  intros t X a t' Hso. unfold root_snapshot_index. destruct (tg_seps t !! _); [by intros [= _ <-]; apply calm_refl|].
  revert Hso. apply calms_bind; [apply calms_get_metadata | intros; apply calms_ret].
Qed.

Lemma calms_tip_score pool id : calms_any (tip_score pool id).
Proof.
  apply calms_bind; [eapply any_calms, calms_contains|]. intros [|]; cbn; [|apply calms_ret]. apply calms_bind; [apply calms_gets|]. intros smi.
  apply calms_bind; [apply calms_root_index|]. intros [o|]; [|apply calms_panic].
  apply calms_bind; [apply calms_root_index|]. intros [y|]; [apply calms_ret | apply calms_panic].
Qed.

Lemma calms_insert_tip now id parents : calms_any (insert_tip now id parents).
Proof.
  apply calms_bind; [apply calms_gets|]. intros pool. apply calms_bind; [|intros; apply calms_set_tip_pool].
  apply calms_bind; [apply calms_tip_score|]. intros [| |]; try apply calms_ret. intros t X a t' Hso Hr.
  destruct (insert_non_lazy now id parents pool); [|done]. injection Hr as _ <-. apply calm_refl.
Qed.

Lemma calms_lazy_tips pool keys : calms_any (lazy_tips pool keys).
Proof.
  induction keys as [|k keys IH]; [apply calms_ret|]. apply calms_bind; [apply calms_tip_score|]. intros s.
  apply calms_bind; [done | intros; apply calms_ret].
Qed.

Lemma calms_update_tip_scores : calms_any update_tip_scores.
Proof.
  apply calms_bind; [apply calms_gets|]. intros pool. apply calms_bind; [|intros; apply calms_set_tip_pool].
  apply calms_bind; [apply calms_lazy_tips | intros; apply calms_ret].
Qed.

Lemma calms_solidified now s : calms_any (message_solidified now s).
Proof.
  destruct s as [[id parents] index]. apply calms_bind; [apply calms_gets|]. intros d. apply calms_bind; [apply calms_gets|]. intros b.
  apply calms_bind; [|intros; apply calms_ret]. destruct (_ <=? _); [apply calms_insert_tip | apply calms_ret].
Qed.

Lemma cache_ok_ext E E' D D' pins vs :
  (forall p c, E' p c <-> E p c) -> (forall id, D' id = D id) -> cache_ok E D pins vs -> cache_ok E' D' pins vs.
Proof.
  intros He Hd [G1 G2 G3 G4]. split; [done | | done | done]. intros id v Hv. destruct (G2 id v Hv) as [[V1 V2 V3 V4] Hp]. split; [|done].
  split; [intros x; rewrite Hd; apply V1 | intros c Hc; by apply He, V2 | intros c Hx Hn Hc | done].
  apply V3; [done | | by apply He]. eapply within_ext, Hn. intros c'. by rewrite He.
Qed.

(** Metadata of a message that has just arrived. *)
Lemma arrived_flags now : marked_solid (arrived now) = false /\ is_milestone (metadata_flags (arrived now)) = false.
Proof. unfold marked_solid, is_solid, is_milestone. cbn. by rewrite !flags_contains_ok. Qed.

(** Metadata with other indexes. *)
Lemma keeps_roots_past md i o y : keeps_roots md (set_ymrsi (set_omrsi (set_milestone_index md i) o) y).
Proof. destruct md. unfold keeps_roots. cbn. split_and!; [done | by eexists | by eexists | by left]. Qed.
Lemma keeps_roots_omrsi md o : keeps_roots md (set_omrsi md o).
Proof. destruct md. unfold keeps_roots. cbn. split_and!; [done | by eexists | done | by left]. Qed.
Lemma keeps_roots_ymrsi md y : keeps_roots md (set_ymrsi md y).
Proof. destruct md. unfold keeps_roots. cbn. split_and!; [done | done | by eexists | by left]. Qed.

Lemma keeps_roots_reference md c ts : keeps_roots md (reference (set_conflict md c) ts).
Proof.
  destruct md as [f i a s r mo my c0]. unfold keeps_roots, marked_solid, is_solid, is_milestone.
  cbn [reference set_conflict metadata_flags metadata_omrsi metadata_ymrsi].
  assert (Hs : flags_contains (flags_bits (set_referenced f true)) SOLID = flags_contains (flags_bits f) SOLID) by (apply (flags_contains_set _ 2 0); lia).
  assert (Hm : flags_contains (flags_bits (set_referenced f true)) MILESTONE = flags_contains (flags_bits f) MILESTONE)
    by (apply (flags_contains_set _ 2 1); lia).
  rewrite Hs, Hm. split_and!; [done | done | done | by left].
Qed.

(** The tables of the messages and of the milestones are left alone. *)
Lemma calm_storage t (s : B) :
  healthy s -> (forall id, stored (tables s) id = stored (tables (tg_storage t)) id) ->
  (forall p c, edge (tables s) p c <-> edge (tables (tg_storage t)) p c) ->
  t_milestone (t_node (tables s)) = milestones_of t -> calm t (with_storage s t).
Proof.
  intros Hs Hst He Hm. assert (Hat : forall id, stored_at (with_storage s t) id = stored_at t id) by (intros id; destruct t; apply Hst).
  assert (Hp : tg_seps (with_storage s t) = tg_seps t) by by destruct t. split.
  - split; [done|]. intros id. by rewrite Hat.
  - intros id. unfold solid, sep. by rewrite Hat, Hp.
  - destruct t. exact Hm.
  - by destruct t.
  - intros X Hso. apply (solidity_same t); [done | done | by destruct t; intros p c; apply He | | done]. destruct (so_tangle _ _ Hso) as [G1 G2 G3 G4]. destruct t as [? ? ? s0]. cbn in *. split; cbn.
    + done.
    + exact (cache_ok_ext _ _ _ _ _ _ He Hst G2).
    + intros id m md p. rewrite Hst, He. apply G3.
    + intros i ms Hi. rewrite Hm. by apply G4.
Qed.

(** Propagation changes the cache and the storage only. *)
Lemma framed_all_solid ps t0 : keeps (same_rest t0) (all_solid (B := B) ps) (fun _ => True).
Proof.
  induction ps as [|p ps IH]; [by apply keeps_ret|]. eapply keeps_bind; [apply framed_is_solid|]. intros [|] _; [done | by apply keeps_ret].
Qed.

Lemma framed_parent_roots p t0 : keeps (same_rest t0) (parent_roots (B := B) p) (fun _ => True).
Proof.
  intros t a t' Ht. unfold parent_roots. destruct (get_solid_entry_point_index t _); [by intros [= <- <-]|]. intros Hr.
  refine ((_ : keeps (same_rest t0) _ (fun _ => True)) t a t' Ht Hr). eapply keeps_bind; [apply framed_get_metadata|].
  intros [md|] _; [|by apply keeps_ret]. destruct (metadata_omrsi md), (metadata_ymrsi md); by apply keeps_ret || apply keeps_panic.
Qed.

Lemma framed_all_roots ps t0 : keeps (same_rest t0) (all_roots (B := B) ps) (fun _ => True).
Proof.
  induction ps as [|p ps IH]; [by apply keeps_ret|]. eapply keeps_bind; [apply framed_parent_roots|]. intros [r|] _; [|by apply keeps_ret].
  eapply keeps_bind; [done|]. intros. by apply keeps_ret.
Qed.

Lemma framed_propagate_step now id t0 : keeps (same_rest t0) (propagate_step (B := B) now id) (fun _ => True).
Proof.
  eapply keeps_bind; [apply framed_is_solid|]. intros [|] _; [by apply keeps_ret|]. eapply keeps_bind; [apply framed_get|].
  intros [m|] _; [|by apply keeps_ret]. eapply keeps_bind; [apply framed_all_solid|]. intros [|] _; [|by apply keeps_ret].
  eapply keeps_bind; [apply framed_all_roots|]. intros [rs|] _; [|by apply keeps_ret].
  destruct (index_min rs.*1), (index_max rs.*2); try apply keeps_panic. eapply keeps_bind; [apply framed_update|].
  intros [mi|] _; [|apply keeps_panic]. eapply keeps_bind; [apply framed_children|]. intros. by apply keeps_ret.
Qed.

Lemma framed_propagate_loop fuel now stack t0 : keeps (same_rest t0) (propagate_loop (B := B) fuel now stack) (fun _ => True).
Proof.
  revert stack. induction fuel as [|fuel IH]; intros [|id stack]; cbn [propagate_loop]; [by apply keeps_ret | apply keeps_panic | by apply keeps_ret|].
  eapply keeps_bind; [apply framed_propagate_step|]. intros [[pushed s]|] _; [|apply IH]. eapply keeps_bind; [apply IH|]. intros. by apply keeps_ret.
Qed.
End calm.
