(* ===== verification/LedgerStorage.v ===== *)
(** * The storage functions of the ledger

    Models [bee-ledger/src/workers/storage.rs], generic in the backend, and [bee-ledger/src/workers/error.rs]. A function
    on the storage takes its state and, when it changes it, returns the new one; a function on a batch returns the
    batch. The iteration order of a [HashMap] is that of [hash_iter].

    The effect of [apply_milestone] and [rollback_milestone] on the tables of a backend that keeps the contract of
    [Storage] is computed in closed form ([applied], [rolled_back]); from that follow that a rollback undoes a
    milestone that does not consume its own outputs, and that it does not otherwise. *)

From S2P Require Import Prelude External MessageTypes Payload PayloadKeys LedgerTypes Snapshot Storage StorageTables StorageMemory.

Local Open Scope Z_scope.

(** ** Errors *)

(** The variant [Snapshot] belongs to the import of snapshot files. [Worker_Panic] is not an error of the code: it
    stands for a panic. *)
Inductive WorkerError :=
| Worker_Snapshot (e : SnapshotError)
| Worker_Types (e : LedgerError)
| Worker_Message (e : MessageError)
| MissingMessage (id : MessageId)
| Worker_UnsupportedInputKind (k : Z)
| Worker_UnsupportedOutputKind (k : Z)
| Worker_UnsupportedPayloadKind (k : Z)
| MilestoneMessageNotFound (id : MessageId)
| NoMilestonePayload
| NonContiguousMilestones (index ledger_index : Z)
| MerkleProofMismatch (index : MilestoneIndex) (computed provided : string)
| InvalidMessagesCount (referenced no_transaction conflicting included : Z)
| InvalidLedgerUnspentState (supply : Z)
| InvalidLedgerBalanceState (supply : Z)
| InvalidLedgerDustState (address : Address) (balance : Balance)
| ConsumedAmountOverflow (amount : Z)
| CreatedAmountOverflow (amount : Z)
| LedgerStateOverflow (amount : Z)
| NonZeroBalanceDiffSum (sum : Z)
| DecreasingReceiptMigratedAtIndex (index previous : MilestoneIndex)
| MissingUnspentOutput (u : Unspent)
| Worker_Storage (e : string)
| Worker_Panic (message : string).

#[export] Instance From_types_worker : From LedgerError WorkerError := Worker_Types.
#[export] Instance From_message_worker : From MessageError WorkerError := Worker_Message.

(** ** Operations *)

Section operations.
Context `{HashOrder} `{LedgerBackend B}.
Implicit Types (storage : B) (batch : storage_batch B).

(** [.map_err(|e| Error::Storage(Box::new(e)))] *)
Definition storage_result {A} (r : result (storage_error B) A) : result WorkerError A :=
  map_err (fun e => Worker_Storage (storage_error_display e)) r.

Definition insert_output_id_for_address_batch storage batch (address : Address) (output_id : OutputId)
    : result WorkerError (storage_batch B) :=
  match address with
  | Address_Ed25519 address => storage_result (batch_insert storage batch (address, output_id) tt)
  end.

Definition delete_output_id_for_address_batch storage batch (address : Address) (output_id : OutputId)
    : result WorkerError (storage_batch B) :=
  match address with
  | Address_Ed25519 address => storage_result (batch_delete unit storage batch (address, output_id))
  end.

Definition insert_created_output_batch storage batch (output_id : OutputId) (output : CreatedOutput)
    : result WorkerError (storage_batch B) :=
  let? batch := storage_result (batch_insert storage batch output_id output) in
  let? batch := storage_result (batch_insert storage batch (Unspent_new output_id) tt) in
  match created_inner output with
  | Output_SignatureLockedSingle output =>
      insert_output_id_for_address_batch storage batch (single_address output) output_id
  | Output_SignatureLockedDustAllowance output =>
      insert_output_id_for_address_batch storage batch (dust_address output) output_id
  | Output_Treasury _ => Err (Worker_UnsupportedOutputKind (Output_kind (created_inner output)))
  end.

Definition delete_created_output_batch storage batch (output_id : OutputId) (output : CreatedOutput)
    : result WorkerError (storage_batch B) :=
  let? batch := storage_result (batch_delete CreatedOutput storage batch output_id) in
  let? batch := storage_result (batch_delete unit storage batch (Unspent_new output_id)) in
  match created_inner output with
  | Output_SignatureLockedSingle output =>
      delete_output_id_for_address_batch storage batch (single_address output) output_id
  | Output_SignatureLockedDustAllowance output =>
      delete_output_id_for_address_batch storage batch (dust_address output) output_id
  | Output_Treasury _ => Err (Worker_UnsupportedOutputKind (Output_kind (created_inner output)))
  end.

Definition create_output storage (output_id : OutputId) (output : CreatedOutput) : result WorkerError B :=
  let? batch := insert_created_output_batch storage (batch_begin B) output_id output in
  storage_result (batch_commit storage batch true).

Definition insert_consumed_output_batch storage batch (output_id : OutputId) (output : ConsumedOutput)
    : result WorkerError (storage_batch B) :=
  let? batch := storage_result (batch_insert storage batch output_id output) in
  storage_result (batch_delete unit storage batch (Unspent_new output_id)).

Definition delete_consumed_output_batch storage batch (output_id : OutputId) : result WorkerError (storage_batch B) :=
  let? batch := storage_result (batch_delete ConsumedOutput storage batch output_id) in
  storage_result (batch_insert storage batch (Unspent_new output_id) tt).

Definition fetch_balance storage (address : Address) : result WorkerError (option Balance) :=
  storage_result (fetch Balance storage address).

Definition fetch_balance_or_default storage (address : Address) : result WorkerError Balance :=
  let? balance := fetch_balance storage address in
  Ok (default Balance_default balance).

(** The body of the loop of [apply_balance_diffs_batch]. *)
Definition apply_balance_diff_batch storage batch (entry : Address * BalanceDiff)
    : result WorkerError (storage_batch B) :=
  let '(address, diff) := entry in
  let? balance := fetch_balance_or_default storage address in
  let? balance := apply_diff balance diff in
  if negb (balance_amount balance =? 0) then storage_result (batch_insert storage batch address balance)
  else storage_result (batch_delete Balance storage batch address).

Definition apply_balance_diffs_batch storage batch (balance_diffs : BalanceDiffs)
    : result WorkerError (storage_batch B) :=
  try_fold (apply_balance_diff_batch storage) batch (hash_iter balance_diffs).

Definition apply_balance_diffs storage (balance_diffs : BalanceDiffs) : result WorkerError B :=
  let? batch := apply_balance_diffs_batch storage (batch_begin B) balance_diffs in
  storage_result (batch_commit storage batch true).

Definition insert_ledger_index storage (index : LedgerIndex) : result WorkerError B :=
  storage_result (storage_insert storage tt index).

Definition insert_ledger_index_batch storage batch (index : LedgerIndex) : result WorkerError (storage_batch B) :=
  storage_result (batch_insert storage batch tt index).

Definition fetch_ledger_index storage : result WorkerError (option LedgerIndex) :=
  storage_result (fetch LedgerIndex storage tt).

Definition insert_receipt_batch storage batch (receipt : Receipt) : result WorkerError (storage_batch B) :=
  storage_result (batch_insert storage batch (receipt_migrated_at (receipt_inner receipt), receipt) tt).

Definition delete_receipt_batch storage batch (receipt : Receipt) : result WorkerError (storage_batch B) :=
  storage_result (batch_delete unit storage batch (receipt_migrated_at (receipt_inner receipt), receipt)).

Definition insert_snapshot_info storage (snapshot_info : SnapshotInfo) : result WorkerError B :=
  storage_result (storage_insert storage tt snapshot_info).

Definition fetch_snapshot_info storage : result WorkerError (option SnapshotInfo) :=
  storage_result (fetch SnapshotInfo storage tt).

Definition fetch_output storage (output_id : OutputId) : result WorkerError (option CreatedOutput) :=
  storage_result (fetch CreatedOutput storage output_id).

Definition fetch_outputs_for_ed25519_address storage (address : Ed25519Address)
    : result WorkerError (option (list OutputId)) :=
  storage_result (fetch (list OutputId) storage address).

Definition is_output_unspent storage (output_id : OutputId) : result WorkerError bool :=
  storage_result (exist unit storage (Unspent_new output_id)).

Definition insert_treasury_output storage (treasury_output : LedgerTreasuryOutput) : result WorkerError B :=
  storage_result (storage_insert storage (false, treasury_output) tt).

Definition insert_treasury_output_batch storage batch (treasury_output : LedgerTreasuryOutput)
    : result WorkerError (storage_batch B) :=
  storage_result (batch_insert storage batch (false, treasury_output) tt).

Definition delete_treasury_output_batch storage batch (treasury_output : LedgerTreasuryOutput)
    : result WorkerError (storage_batch B) :=
  storage_result (batch_delete unit storage batch (false, treasury_output)).

Definition spend_treasury_output_batch storage batch (treasury_output : LedgerTreasuryOutput)
    : result WorkerError (storage_batch B) :=
  let? batch := storage_result (batch_insert storage batch (true, treasury_output) tt) in
  storage_result (batch_delete unit storage batch (false, treasury_output)).

Definition unspend_treasury_output_batch storage batch (treasury_output : LedgerTreasuryOutput)
    : result WorkerError (storage_batch B) :=
  let? batch := storage_result (batch_insert storage batch (false, treasury_output) tt) in
  storage_result (batch_delete unit storage batch (true, treasury_output)).

Definition fetch_unspent_treasury_output storage : result WorkerError LedgerTreasuryOutput :=
  let? outputs := storage_result (fetch (list LedgerTreasuryOutput) storage false) in
  match outputs with
  | Some outputs =>
      match outputs with
      | [] => Err (Worker_Panic "No unspent treasury output found")
      | [output] => Ok output
      | _ => Err (Worker_Panic "More than one unspent treasury output found")
      end
  | None => Err (Worker_Panic "No unspent treasury output found")
  end.

Definition apply_milestone storage (index : MilestoneIndex) (created_outputs : gmap OutputId CreatedOutput)
    (consumed_outputs : gmap OutputId (CreatedOutput * ConsumedOutput)) (balance_diffs : BalanceDiffs)
    (migration : option Migration) : result WorkerError B :=
  let? batch := insert_ledger_index_batch storage (batch_begin B) (LedgerIndex_new index) in
  let? batch := try_fold (fun batch '(output_id, output) => insert_created_output_batch storage batch output_id output)
                  batch (hash_iter created_outputs) in
  let created_output_ids := (hash_iter created_outputs).*1 in
  let? batch := try_fold (fun batch '(output_id, (_, consumed_output)) =>
                            insert_consumed_output_batch storage batch output_id consumed_output)
                  batch (hash_iter consumed_outputs) in
  let consumed_output_ids := (hash_iter consumed_outputs).*1 in
  let? batch := apply_balance_diffs_batch storage batch balance_diffs in
  let? (batch, treasury_diff) :=
    match migration with
    | Some migration =>
        let? batch := insert_receipt_batch storage batch (migration_receipt migration) in
        let? batch := insert_treasury_output_batch storage batch (migration_created_treasury migration) in
        let? batch := spend_treasury_output_batch storage batch (migration_consumed_treasury migration) in
        Ok (batch, Some (TreasuryDiff_new (ledger_treasury_milestone_id (migration_created_treasury migration))
                           (ledger_treasury_milestone_id (migration_consumed_treasury migration))))
    | None => Ok (batch, None)
    end in
  let? batch := storage_result (batch_insert storage batch index
                                  (OutputDiff_new created_output_ids consumed_output_ids treasury_diff)) in
  storage_result (batch_commit storage batch true).

Definition rollback_milestone storage (index : MilestoneIndex) (created_outputs : gmap OutputId CreatedOutput)
    (consumed_outputs : gmap OutputId (CreatedOutput * ConsumedOutput)) (balance_diffs : BalanceDiffs)
    (migration : option Migration) : result WorkerError B :=
  let? batch := insert_ledger_index_batch storage (batch_begin B) (LedgerIndex_new (MilestoneIndex_sub_u32 index 1)) in
  let? batch := try_fold (fun batch '(output_id, created_output) =>
                            delete_created_output_batch storage batch output_id created_output)
                  batch (hash_iter created_outputs) in
  let? batch := try_fold (fun batch '(output_id, (created_output, _)) =>
                            let? batch := insert_created_output_batch storage batch output_id created_output in
                            delete_consumed_output_batch storage batch output_id)
                  batch (hash_iter consumed_outputs) in
  let? batch := apply_balance_diffs_batch storage batch (BalanceDiffs_negated balance_diffs) in
  let? batch :=
    match migration with
    | Some migration =>
        let? batch := delete_receipt_batch storage batch (migration_receipt migration) in
        let? batch := delete_treasury_output_batch storage batch (migration_created_treasury migration) in
        unspend_treasury_output_batch storage batch (migration_consumed_treasury migration)
    | None => Ok batch
    end in
  let? batch := storage_result (batch_delete OutputDiff storage batch index) in
  storage_result (batch_commit storage batch true).
End operations.

(** ** Effects on the tables *)

(** The address an output belongs to; a treasury output has none. *)
Definition output_address (o : Output) : option Ed25519Address :=
  match o with
  | Output_SignatureLockedSingle s => let 'Address_Ed25519 a := single_address s in Some a
  | Output_SignatureLockedDustAllowance s => let 'Address_Ed25519 a := dust_address s in Some a
  | Output_Treasury _ => None
  end.
Definition created_address (c : CreatedOutput) : option Ed25519Address := output_address (created_inner c).

(** The outputs of a map as unspent outputs and as entries of the address index. *)
Definition ids {A} (m : gmap OutputId A) : gmap Unspent unit := mark (Unspent_new <$> (map_to_list m).*1).
Definition addresses (m : gmap OutputId CreatedOutput) : gmap (Ed25519Address * OutputId) unit :=
  mark (omap (fun e => (fun a => (a, e.1)) <$> created_address e.2) (map_to_list m)).

(** The balance of an address after a difference; an address with no amount has no entry. *)
Definition new_balance (old : option Balance) (d : option BalanceDiff) : option Balance :=
  match d with
  | Some d =>
      match apply_diff (default Balance_default old) d with
      | Ok b => if balance_amount b =? 0 then None else Some b
      | Err _ => old
      end
  | None => old
  end.

Definition treasury_diff (m : option Migration) : option TreasuryDiff :=
  (fun m => TreasuryDiff_new (ledger_treasury_milestone_id (migration_created_treasury m))
              (ledger_treasury_milestone_id (migration_consumed_treasury m))) <$> m.

Definition receipt_key (m : Migration) : MilestoneIndex * Receipt :=
  (receipt_migrated_at (receipt_inner (migration_receipt m)), migration_receipt m).

(** The tables after a milestone was applied. *)
Definition applied `{HashOrder} (index : MilestoneIndex) (created : gmap OutputId CreatedOutput)
    (consumed : gmap OutputId (CreatedOutput * ConsumedOutput)) (diffs : BalanceDiffs) (migration : option Migration)
    (t : LedgerTables) : LedgerTables := {|
  t_created := created ∪ t_created t;
  t_consumed := (snd <$> consumed) ∪ t_consumed t;
  t_unspent := (ids created ∪ t_unspent t) ∖ ids consumed;
  t_address := addresses created ∪ t_address t;
  t_index := <[tt := LedgerIndex_new index]> (t_index t);
  t_info := t_info t;
  t_diff := <[index := OutputDiff_new (hash_iter created).*1 (hash_iter consumed).*1 (treasury_diff migration)]> (t_diff t);
  t_balance := merge new_balance (t_balance t) diffs;
  t_receipt := match migration with Some m => <[receipt_key m := tt]> (t_receipt t) | None => t_receipt t end;
  t_treasury :=
    match migration with
    | Some m => delete (false, migration_consumed_treasury m) (<[(true, migration_consumed_treasury m) := tt]>
                  (<[(false, migration_created_treasury m) := tt]> (t_treasury t)))
    | None => t_treasury t
    end;
  t_node := t_node t;
|}.

(** The tables after a milestone was rolled back. *)
Definition rolled_back (index : MilestoneIndex) (created : gmap OutputId CreatedOutput)
    (consumed : gmap OutputId (CreatedOutput * ConsumedOutput)) (diffs : BalanceDiffs) (migration : option Migration)
    (t : LedgerTables) : LedgerTables := {|
  t_created := (fst <$> consumed) ∪ (t_created t ∖ created);
  t_consumed := t_consumed t ∖ (snd <$> consumed);
  t_unspent := ids consumed ∪ (t_unspent t ∖ ids created);
  t_address := addresses (fst <$> consumed) ∪ (t_address t ∖ addresses created);
  t_index := <[tt := LedgerIndex_new (MilestoneIndex_sub_u32 index 1)]> (t_index t);
  t_info := t_info t;
  t_diff := delete index (t_diff t);
  t_balance := merge new_balance (t_balance t) (BalanceDiffs_negated diffs);
  t_receipt := match migration with Some m => delete (receipt_key m) (t_receipt t) | None => t_receipt t end;
  t_treasury :=
    match migration with
    | Some m => delete (true, migration_consumed_treasury m) (<[(false, migration_consumed_treasury m) := tt]>
                  (delete (false, migration_created_treasury m) (t_treasury t)))
    | None => t_treasury t
    end;
  t_node := t_node t;
|}.

(** What applying and rolling back require: no treasury output among the outputs, and balances that stay in range. *)
Definition diffs_apply (balances : gmap Address Balance) (diffs : BalanceDiffs) : Prop :=
  forall a d, diffs !! a = Some d -> is_ok (apply_diff (default Balance_default (balances !! a)) d) = true.
Definition no_treasury (created : gmap OutputId CreatedOutput) : Prop :=
  forall id c, created !! id = Some c -> is_Some (created_address c).

(** *** Finite maps *)

Lemma ids_lookup {A} (m : gmap OutputId A) u : ids m !! u = Some tt <-> is_Some (m !! unspent_id u).
Proof.
  unfold ids. rewrite mark_lookup, list_elem_of_fmap. setoid_rewrite list_elem_of_fmap. split.
  - intros (? & -> & (e & -> & He)). destruct e as [id x]. apply elem_of_map_to_list in He. by exists x.
  - intros [x Hx]. destruct u as [id]. exists id. split; [done|]. exists (id, x). split; [done|].
    by apply elem_of_map_to_list.
Qed.

Lemma addresses_lookup m a id :
  addresses m !! (a, id) = Some tt <-> exists c, m !! id = Some c /\ created_address c = Some a.
Proof.
  unfold addresses. rewrite mark_lookup, list_elem_of_omap. split.
  - intros ([id' c] & He%elem_of_map_to_list & Hf). cbn in Hf. destruct (created_address c) as [a'|] eqn:E; [|done].
    injection Hf as -> ->. eauto.
  - intros (c & Hm & Ha). exists (id, c). split; [by apply elem_of_map_to_list|]. cbn. by rewrite Ha.
Qed.

Lemma ids_empty {A} : ids (∅ : gmap OutputId A) = ∅.
Proof. unfold ids. by rewrite map_to_list_empty. Qed.
Lemma addresses_empty : addresses ∅ = ∅.
Proof. unfold addresses. by rewrite map_to_list_empty. Qed.

Lemma difference_unit_lookup `{Countable A} (m m' : gmap A unit) x :
  (m ∖ m') !! x = Some tt <-> m !! x = Some tt /\ ~ m' !! x = Some tt.
Proof. rewrite lookup_difference_Some. destruct (m' !! x) as [[]|]; naive_solver. Qed.

Lemma balances_lookup (b : gmap Address Balance) (d : BalanceDiffs) a : merge new_balance b d !! a = new_balance (b !! a) (d !! a).
Proof. rewrite lookup_merge. by destruct (b !! a), (d !! a). Qed.

(** *** The effects of the loops *)

Definition insert_created (e : OutputId * CreatedOutput) (t : LedgerTables) : LedgerTables :=
  match created_address e.2 with
  | Some a => insert_table (a, e.1) tt (insert_table (Unspent_new e.1) tt (insert_table e.1 e.2 t))
  | None => t
  end.
Definition delete_created (e : OutputId * CreatedOutput) (t : LedgerTables) : LedgerTables :=
  match created_address e.2 with
  | Some a => delete_table unit (a, e.1) (delete_table unit (Unspent_new e.1) (delete_table CreatedOutput e.1 t))
  | None => t
  end.
Definition insert_consumed (e : OutputId * (CreatedOutput * ConsumedOutput)) (t : LedgerTables) : LedgerTables :=
  delete_table unit (Unspent_new e.1) (insert_table e.1 e.2.2 t).
Definition delete_consumed (e : OutputId * (CreatedOutput * ConsumedOutput)) (t : LedgerTables) : LedgerTables :=
  insert_table (Unspent_new e.1) tt (delete_table ConsumedOutput e.1 (insert_created (e.1, e.2.1) t)).
Definition change_balance (b0 : gmap Address Balance) (e : Address * BalanceDiff) (t : LedgerTables) : LedgerTables :=
  match new_balance (b0 !! e.1) (Some e.2) with
  | Some b => insert_table e.1 b t
  | None => delete_table Balance e.1 t
  end.

(** Runs a list of effects. *)
Definition run_effects {A} (F : A -> LedgerTables -> LedgerTables) (l : list A) (t : LedgerTables) : LedgerTables :=
  foldl (fun t x => F x t) t l.

Lemma insert_created_all l t :
  NoDup l.*1 -> Forall (fun e => is_Some (created_address e.2)) l ->
  run_effects insert_created l t = mkLedgerTables
    (list_to_map l ∪ t_created t) (t_consumed t) (ids (list_to_map l : gmap OutputId CreatedOutput) ∪ t_unspent t)
    (addresses (list_to_map l) ∪ t_address t) (t_index t) (t_info t) (t_diff t) (t_balance t) (t_receipt t) (t_treasury t) (t_node t).
Proof.
  unfold run_effects. revert t. induction l as [|[id c] l IH]; intros t.
  - intros _ _. destruct t; cbn. by rewrite ids_empty, addresses_empty, !(left_id_L ∅ (∪)).
  - cbn [fmap list_fmap fst foldl]. intros [Hid Hd]%NoDup_cons [[a Ha] Hl]%Forall_cons. rewrite (IH _ Hd Hl).
    cbn [snd] in Ha. unfold insert_created, insert_table. cbn [fst snd]. rewrite Ha. destruct t as [tc tco tu ta ti tn td tb tr tt' no].
    cbn. assert (Hn : (list_to_map l : gmap OutputId CreatedOutput) !! id = None) by by apply not_elem_of_list_to_map_1.
    f_equal.
    + by rewrite <- insert_union_r, insert_union_l by done.
    + apply unit_map_eq. intros [i]. rewrite !union_unit_lookup, insert_unit_lookup, !ids_lookup. cbn.
      rewrite lookup_insert_is_Some. destruct (decide (id = i)); naive_solver.
    + apply unit_map_eq. intros [a' i]. rewrite !union_unit_lookup, insert_unit_lookup, !addresses_lookup.
      setoid_rewrite lookup_insert_Some. destruct (decide (id = i)); naive_solver.
Qed.

(** Deleting a key and then a map without it. *)
Lemma difference_insert_l `{Countable K} {A} (m m' : gmap K A) k x :
  m' !! k = None -> m ∖ <[k := x]> m' = delete k m ∖ m'.
Proof.
  intros Hk. apply map_eq. intros i. apply option_eq. intros y. rewrite !lookup_difference_Some.
  rewrite lookup_insert_None, lookup_delete_Some. destruct (decide (k = i)); naive_solver.
Qed.

Lemma delete_created_all l t :
  NoDup l.*1 -> Forall (fun e => is_Some (created_address e.2)) l ->
  run_effects delete_created l t = mkLedgerTables
    (t_created t ∖ list_to_map l) (t_consumed t) (t_unspent t ∖ ids (list_to_map l : gmap OutputId CreatedOutput))
    (t_address t ∖ addresses (list_to_map l)) (t_index t) (t_info t) (t_diff t) (t_balance t) (t_receipt t)
    (t_treasury t) (t_node t).
Proof.
  unfold run_effects. revert t. induction l as [|[id c] l IH]; intros t.
  - intros _ _. destruct t; cbn. by rewrite ids_empty, addresses_empty, !(right_id_L ∅ (∖)).
  - cbn [fmap list_fmap fst foldl]. intros [Hid Hd]%NoDup_cons [[a Ha] Hl]%Forall_cons. rewrite (IH _ Hd Hl).
    cbn [snd] in Ha. unfold delete_created, delete_table. cbn [fst snd]. rewrite Ha. destruct t as [tc tco tu ta ti tn td tb tr tt' no].
    cbn. assert (Hn : (list_to_map l : gmap OutputId CreatedOutput) !! id = None) by by apply not_elem_of_list_to_map_1.
    f_equal.
    + by rewrite difference_insert_l.
    + apply unit_map_eq. intros [i]. rewrite !difference_unit_lookup, lookup_delete_Some, !ids_lookup. cbn.
      rewrite lookup_insert_is_Some. destruct (decide (id = i)); naive_solver.
    + apply unit_map_eq. intros [a' i]. rewrite !difference_unit_lookup, lookup_delete_Some, !addresses_lookup.
      setoid_rewrite lookup_insert_Some. destruct (decide (id = i)); naive_solver.
Qed.

Lemma insert_consumed_all l t :
  NoDup l.*1 ->
  run_effects insert_consumed l t = mkLedgerTables
    (t_created t) ((snd <$> list_to_map l) ∪ t_consumed t)
    (t_unspent t ∖ ids (list_to_map l : gmap OutputId (CreatedOutput * ConsumedOutput)))
    (t_address t) (t_index t) (t_info t) (t_diff t) (t_balance t) (t_receipt t) (t_treasury t) (t_node t).
Proof.
  unfold run_effects. revert t. induction l as [|[id [c x]] l IH]; intros t.
  - intros _. destruct t; cbn. by rewrite ids_empty, (right_id_L ∅ (∖)), fmap_empty, (left_id_L ∅ (∪)).
  - cbn [fmap list_fmap fst foldl]. intros [Hid Hd]%NoDup_cons. rewrite (IH _ Hd).
    unfold insert_consumed, insert_table, delete_table. destruct t as [tc tco tu ta ti tn td tb tr tt' no]. cbn.
    assert (Hn : (list_to_map l : gmap OutputId (CreatedOutput * ConsumedOutput)) !! id = None)
      by by apply not_elem_of_list_to_map_1.
    f_equal.
    + rewrite fmap_insert. cbn. rewrite <- insert_union_r, insert_union_l; [done|]. by rewrite lookup_fmap, Hn.
    + apply unit_map_eq. intros [i]. rewrite !difference_unit_lookup, lookup_delete_Some, !ids_lookup. cbn.
      rewrite lookup_insert_is_Some. destruct (decide (id = i)); naive_solver.
Qed.

Lemma delete_consumed_all l t :
  NoDup l.*1 -> Forall (fun e => is_Some (created_address e.2.1)) l ->
  run_effects delete_consumed l t = mkLedgerTables
    ((fst <$> list_to_map l) ∪ t_created t) (t_consumed t ∖ (snd <$> list_to_map l))
    (ids (list_to_map l : gmap OutputId (CreatedOutput * ConsumedOutput)) ∪ t_unspent t)
    (addresses (fst <$> list_to_map l) ∪ t_address t) (t_index t) (t_info t) (t_diff t) (t_balance t) (t_receipt t)
    (t_treasury t) (t_node t).
Proof.
  unfold run_effects. revert t. induction l as [|[id [c x]] l IH]; intros t.
  - intros _ _. destruct t; cbn.
    by rewrite !fmap_empty, ids_empty, addresses_empty, !(left_id_L ∅ (∪)), (right_id_L ∅ (∖)).
  - cbn [fmap list_fmap fst foldl]. intros [Hid Hd]%NoDup_cons [[a Ha] Hl]%Forall_cons. rewrite (IH _ Hd Hl).
    cbn [fst snd] in Ha. unfold delete_consumed, insert_created, insert_table, delete_table. cbn [fst snd]. rewrite Ha.
    destruct t as [tc tco tu ta ti tn td tb tr tt' no]. cbn. rewrite !fmap_insert. cbn.
    assert (Hn : (list_to_map l : gmap OutputId (CreatedOutput * ConsumedOutput)) !! id = None)
      by by apply not_elem_of_list_to_map_1.
    f_equal.
    + rewrite <- insert_union_r, insert_union_l; [done|]. by rewrite lookup_fmap, Hn.
    + rewrite difference_insert_l; [done|]. by rewrite lookup_fmap, Hn.
    + apply unit_map_eq. intros [i]. rewrite !union_unit_lookup, !insert_unit_lookup, !ids_lookup. cbn.
      rewrite lookup_insert_is_Some. destruct (decide (id = i)); naive_solver.
    + apply unit_map_eq. intros [a' i]. rewrite !union_unit_lookup, insert_unit_lookup, !addresses_lookup.
      setoid_rewrite lookup_insert_Some. setoid_rewrite lookup_fmap. destruct (decide (id = i)) as [<-|]; [|naive_solver].
      rewrite Hn. cbn. naive_solver.
Qed.

Lemma change_balance_all b0 l t :
  NoDup l.*1 ->
  exists b, run_effects (change_balance b0) l t = mkLedgerTables
      (t_created t) (t_consumed t) (t_unspent t) (t_address t) (t_index t) (t_info t) (t_diff t) b (t_receipt t)
      (t_treasury t) (t_node t)
    /\ forall a, b !! a = match (list_to_map l : BalanceDiffs) !! a with
                          | Some d => new_balance (b0 !! a) (Some d)
                          | None => t_balance t !! a
                          end.
Proof.
  unfold run_effects. revert t. induction l as [|[k d] l IH]; intros t.
  - intros _. exists (t_balance t). split; [by destruct t | done].
  - cbn [fmap list_fmap fst foldl]. intros [Hk Hd]%NoDup_cons.
    destruct (IH (change_balance b0 (k, d) t) Hd) as (b & -> & Hb). exists b.
    unfold change_balance, insert_table, delete_table in *. cbn [fst snd] in *.
    split; [destruct t; by destruct (new_balance (b0 !! k) (Some d))|]. intros a. rewrite Hb.
    assert (Hn : (list_to_map l : BalanceDiffs) !! k = None) by by apply not_elem_of_list_to_map_1.
    rewrite list_to_map_cons. destruct (decide (k = a)) as [<-|Hne].
    + rewrite Hn, lookup_insert_eq. destruct t; destruct (new_balance _ _); cbn.
      * by rewrite lookup_insert_eq.
      * by rewrite lookup_delete_eq.
    + rewrite lookup_insert_ne by done. destruct (_ !! a); [done|].
      destruct t; destruct (new_balance _ _); cbn; by rewrite ?lookup_insert_ne, ?lookup_delete_ne by done.
Qed.

Lemma change_balances `{HashOrderOk} b0 diffs t :
  b0 = t_balance t ->
  run_effects (change_balance b0) (hash_iter diffs) t = mkLedgerTables
    (t_created t) (t_consumed t) (t_unspent t) (t_address t) (t_index t) (t_info t) (t_diff t)
    (merge new_balance (t_balance t) diffs) (t_receipt t) (t_treasury t) (t_node t).
Proof.
  intros ->.
  destruct (change_balance_all (t_balance t) (hash_iter diffs) t (hash_iter_NoDup diffs)) as (b & -> & Hb).
  f_equal. apply map_eq. intros a. rewrite Hb, list_to_map_hash_iter, balances_lookup. by destruct (diffs !! a).
Qed.

(** ** The operations on batches against the contract *)

Section contract.
Context `{HashOrderOk} `{LedgerBackendOk B}.
Implicit Types (s : B) (b : storage_batch B).

(** The computation succeeds and queues, after [b], operations with the effect [F]. *)
Definition batch_does {E} (r : result E (storage_batch B)) b (F : LedgerTables -> LedgerTables) : Prop :=
  exists b', r = Ok b' /\ forall t, pending b' t = F (pending b t).

Lemma does_ret {E} b : batch_does (Ok b : result E _) b (fun t => t).
Proof. by exists b. Qed.

Lemma does_bind {E} (r : result E (storage_batch B)) b F (k : storage_batch B -> result E (storage_batch B)) G :
  batch_does r b F -> (forall b', batch_does (k b') b' G) ->
  batch_does (result_bind r k) b (fun t => G (F t)).
Proof.
  intros (b' & -> & Hb) Hk. destruct (Hk b') as (b'' & Hr & Hb'). exists b''. split; [done|]. intros t.
  by rewrite Hb', Hb.
Qed.

Lemma does_fold {E A} (f : storage_batch B -> A -> result E (storage_batch B)) F l b :
  (forall b x, x ∈ l -> batch_does (f b x) b (F x)) -> batch_does (try_fold f b l) b (run_effects F l).
Proof.
  unfold run_effects. revert b. induction l as [|x l IH]; intros b Hl; [apply does_ret|]. cbn [try_fold foldl].
  destruct (Hl b x) as (b1 & -> & E1); [by left|]. destruct (IH b1) as (b2 & Hb2 & E2).
  { intros b' y Hy. apply Hl. by right. }
  exists b2. split; [done|]. intros t. by rewrite E2, E1.
Qed.

(** A loop can only succeed if every step can. *)
Lemma try_fold_all {A} (P : A -> Prop) (f : storage_batch B -> A -> result WorkerError (storage_batch B)) l b b' :
  (forall b x b', f b x = Ok b' -> P x) -> try_fold f b l = Ok b' -> Forall P l.
Proof.
  intros Hf. revert b. induction l as [|x l IH]; intros b; [constructor|].
  intros (b1 & Hx & Hl)%try_fold_cons_Ok. constructor; [by eapply Hf | by eapply IH].
Qed.

(** The computation succeeds, and commits what [b] has queued followed by operations with the effect [F]. *)
Definition storage_does s (r : result WorkerError B) b (F : LedgerTables -> LedgerTables) : Prop :=
  exists s', r = Ok s' /\ healthy s' /\ tables s' = F (pending b (tables s)).

Lemma storage_does_bind s (r : result WorkerError (storage_batch B)) b F k G :
  batch_does r b F -> (forall b', storage_does s (k b') b' G) ->
  storage_does s (result_bind r k) b (fun t => G (F t)).
Proof.
  intros (b' & -> & Hb) Hk. destruct (Hk b') as (s' & Hr & Hs' & Ht). exists s'. rewrite Ht, Hb. done.
Qed.

Lemma storage_does_commit s b d :
  healthy s -> storage_does s (storage_result (batch_commit s b d)) b (fun t => t).
Proof. intros Hs. destruct (batch_commit_ok s b d Hs) as (s' & -> & Hs' & Ht). by exists s'. Qed.

Lemma storage_does_begin s r F T :
  storage_does s r (batch_begin B) F -> F (tables s) = T ->
  exists s', r = Ok s' /\ healthy s' /\ tables s' = T.
Proof. intros (s' & -> & Hs' & Ht) <-. exists s'. by rewrite Ht, pending_begin. Qed.

Section healthy.
Context (s : B) (Hs : healthy s).

Lemma does_insert_with {E} (f : storage_error B -> E) `{Countable K} {V} `{!Batch B K V} `{!Field LedgerTables (gmap K V)}
    `{!BatchOk B K V} b k v :
  batch_does (map_err f (batch_insert s b k v)) b (insert_table k v).
Proof. destruct (batch_insert_ok s b k v Hs) as (b' & -> & Hb). by exists b'. Qed.

Lemma does_delete_with {E} (f : storage_error B -> E) `{Countable K} V `{!Batch B K V} `{!Field LedgerTables (gmap K V)}
    `{!BatchOk B K V} b k :
  batch_does (map_err f (batch_delete V s b k)) b (delete_table V k).
Proof. destruct (batch_delete_ok s b k Hs) as (b' & -> & Hb). by exists b'. Qed.

Lemma does_insert `{Countable K} {V} `{!Batch B K V} `{!Field LedgerTables (gmap K V)} `{!BatchOk B K V} b k v :
  batch_does (storage_result (batch_insert s b k v)) b (insert_table k v).
Proof. by apply does_insert_with. Qed.
Lemma does_delete `{Countable K} V `{!Batch B K V} `{!Field LedgerTables (gmap K V)} `{!BatchOk B K V} b k :
  batch_does (storage_result (batch_delete V s b k)) b (delete_table V k).
Proof. by apply does_delete_with. Qed.

Ltac does_op := first [apply does_insert | apply does_delete]; try apply _; try assumption.

Lemma does_insert_created b id c :
  is_Some (created_address c) -> batch_does (insert_created_output_batch s b id c) b (insert_created (id, c)).
Proof.
  intros [a Ha]. unfold insert_created_output_batch, insert_created. cbn [fst snd]. rewrite Ha.
  apply (does_bind _ _ (insert_table id c) _ (fun t => insert_table (a, id) tt (insert_table (Unspent_new id) tt t)));
    [does_op|]. intros b1.
  apply (does_bind _ _ (insert_table (Unspent_new id) tt) _ (insert_table (a, id) tt)); [does_op|]. intros b2.
  unfold created_address, output_address in Ha.
  destruct (created_inner c) as [o|o|o]; [destruct (single_address o) | destruct (dust_address o) | done];
    injection Ha as ->; does_op.
Qed.

Lemma does_delete_created b id c :
  is_Some (created_address c) -> batch_does (delete_created_output_batch s b id c) b (delete_created (id, c)).
Proof.
  intros [a Ha]. unfold delete_created_output_batch, delete_created. cbn [fst snd]. rewrite Ha.
  apply (does_bind _ _ (delete_table CreatedOutput id) _
           (fun t => delete_table unit (a, id) (delete_table unit (Unspent_new id) t))); [does_op|]. intros b1.
  apply (does_bind _ _ (delete_table unit (Unspent_new id)) _ (delete_table unit (a, id))); [does_op|].
  intros b2. unfold created_address, output_address in Ha.
  destruct (created_inner c) as [o|o|o]; [destruct (single_address o) | destruct (dust_address o) | done];
    injection Ha as ->; does_op.
Qed.

Lemma does_insert_consumed b id c x :
  batch_does (insert_consumed_output_batch s b id x) b (insert_consumed (id, (c, x))).
Proof.
  unfold insert_consumed_output_batch, insert_consumed. cbn [fst snd].
  apply (does_bind _ _ (insert_table id x) _ (delete_table unit (Unspent_new id)));
    [does_op | intros b1; does_op].
Qed.

Lemma does_delete_consumed b id c x :
  is_Some (created_address c) ->
  batch_does (let? b := insert_created_output_batch s b id c in delete_consumed_output_batch s b id) b
    (delete_consumed (id, (c, x))).
Proof.
  intros Hc. unfold delete_consumed_output_batch, delete_consumed. cbn [fst snd].
  apply (does_bind _ _ (insert_created (id, c)) _
           (fun t => insert_table (Unspent_new id) tt (delete_table ConsumedOutput id t)));
    [by apply does_insert_created|]. intros b1.
  apply (does_bind _ _ (delete_table ConsumedOutput id) _ (insert_table (Unspent_new id) tt));
    [does_op | intros b2; does_op].
Qed.

Lemma fetch_balance_or_default_spec a :
  fetch_balance_or_default s a = Ok (default Balance_default (t_balance (tables s) !! a)).
Proof.
  unfold fetch_balance_or_default, fetch_balance. rewrite (fetch_ok (FetchOk := fetch_balance_ok)) by done. done.
Qed.

Lemma does_change_balance b a d :
  is_ok (apply_diff (default Balance_default (t_balance (tables s) !! a)) d) = true ->
  batch_does (apply_balance_diff_batch s b (a, d)) b (change_balance (t_balance (tables s)) (a, d)).
Proof.
  intros Hok. unfold apply_balance_diff_batch, change_balance. cbn [fst snd new_balance].
  rewrite fetch_balance_or_default_spec. cbn [result_bind]. destruct (apply_diff _ d) as [x|]; [|done]. cbn [result_bind].
  destruct (balance_amount x =? 0); cbn [negb]; [does_op | does_op].
Qed.

Lemma does_change_balances b diffs :
  diffs_apply (t_balance (tables s)) diffs ->
  batch_does (apply_balance_diffs_batch s b diffs) b
    (run_effects (change_balance (t_balance (tables s))) (hash_iter diffs)).
Proof.
  intros Hd. apply does_fold. intros b' [a d] Hin%elem_of_hash_iter. apply does_change_balance. by apply Hd.
Qed.

(** *** Milestones *)

Lemma created_entries created :
  no_treasury created -> Forall (fun e => is_Some (created_address e.2)) (hash_iter created).
Proof. intros Hc. apply Forall_forall. intros [id c] Hin%elem_of_hash_iter. by eapply Hc. Qed.

Lemma does_insert_all created b :
  no_treasury created ->
  batch_does (try_fold (fun b '(id, o) => insert_created_output_batch s b id o) b (hash_iter created)) b
    (run_effects insert_created (hash_iter created)).
Proof.
  intros Hc. apply does_fold. intros b' [id c] Hin%elem_of_hash_iter. apply does_insert_created. by eapply Hc.
Qed.

Lemma does_consume_all (consumed : gmap OutputId (CreatedOutput * ConsumedOutput)) b :
  batch_does (try_fold (fun b '(id, (_, x)) => insert_consumed_output_batch s b id x) b (hash_iter consumed)) b
    (run_effects insert_consumed (hash_iter consumed)).
Proof. apply does_fold. intros b' [id [c x]] _. apply does_insert_consumed. Qed.

Lemma does_delete_all created b :
  no_treasury created ->
  batch_does (try_fold (fun b '(id, o) => delete_created_output_batch s b id o) b (hash_iter created)) b
    (run_effects delete_created (hash_iter created)).
Proof.
  intros Hc. apply does_fold. intros b' [id c] Hin%elem_of_hash_iter. apply does_delete_created. by eapply Hc.
Qed.

Lemma does_unconsume_all (consumed : gmap OutputId (CreatedOutput * ConsumedOutput)) b :
  no_treasury (fst <$> consumed) ->
  batch_does (try_fold (fun b '(id, (c, _)) => let? b := insert_created_output_batch s b id c in
                                               delete_consumed_output_batch s b id) b (hash_iter consumed)) b
    (run_effects delete_consumed (hash_iter consumed)).
Proof.
  intros Hc. apply does_fold. intros b' [id [c x]] Hin%elem_of_hash_iter. apply does_delete_consumed.
  apply (Hc id). by rewrite lookup_fmap, Hin.
Qed.

Lemma does_spend b o :
  batch_does (spend_treasury_output_batch s b o) b (fun t => delete_table unit (false, o) (insert_table (true, o) tt t)).
Proof. apply (does_bind _ _ (insert_table (true, o) tt) _ (delete_table unit (false, o))); [|intros b1]; does_op. Qed.

Lemma does_unspend b o :
  batch_does (unspend_treasury_output_batch s b o) b (fun t => delete_table unit (true, o) (insert_table (false, o) tt t)).
Proof. apply (does_bind _ _ (insert_table (false, o) tt) _ (delete_table unit (true, o))); [|intros b1]; does_op. Qed.

(** Runs a chain of batch operations that ends in a commit. *)
Ltac does_step :=
  first [apply does_insert_all; assumption | apply does_consume_all | apply does_delete_all; assumption
        | apply does_unconsume_all; assumption | apply does_change_balances; assumption | apply does_spend
        | apply does_unspend | does_op].
Ltac does_chain :=
  repeat (rewrite ?result_bind_assoc; cbn [result_bind]; eapply storage_does_bind; [does_step | intros ?]);
  by apply storage_does_commit.

Lemma apply_milestone_does index created consumed diffs migration :
  no_treasury created -> diffs_apply (t_balance (tables s)) diffs ->
  exists s', apply_milestone s index created consumed diffs migration = Ok s'
    /\ healthy s' /\ tables s' = applied index created consumed diffs migration (tables s).
Proof.
  intros Hc Hd. unfold apply_milestone. destruct migration as [m|]; (eapply storage_does_begin; [does_chain|]); cbv beta;
    rewrite insert_created_all by auto using hash_iter_NoDup, created_entries;
    rewrite insert_consumed_all by apply hash_iter_NoDup;
    rewrite change_balances by (by destruct (tables s));
    rewrite !list_to_map_hash_iter; by destruct (tables s).
Qed.

Lemma rollback_milestone_does index created consumed diffs migration :
  no_treasury created -> no_treasury (fst <$> consumed) ->
  diffs_apply (t_balance (tables s)) (BalanceDiffs_negated diffs) ->
  exists s', rollback_milestone s index created consumed diffs migration = Ok s'
    /\ healthy s' /\ tables s' = rolled_back index created consumed diffs migration (tables s).
Proof.
  intros Hc Hco Hd. unfold rollback_milestone.
  assert (Forall (fun e => is_Some (created_address e.2.1)) (hash_iter consumed)).
  { apply Forall_forall. intros [id [c x]] Hin%elem_of_hash_iter. apply (Hco id). by rewrite lookup_fmap, Hin. }
  destruct migration as [m|]; (eapply storage_does_begin; [does_chain|]); cbv beta;
    rewrite delete_created_all by auto using hash_iter_NoDup, created_entries;
    rewrite delete_consumed_all by auto using hash_iter_NoDup;
    rewrite change_balances by (by destruct (tables s));
    rewrite !list_to_map_hash_iter; by destruct (tables s).
Qed.

(** *** Failures *)

Lemma insert_created_Ok b id c b' : insert_created_output_batch s b id c = Ok b' -> is_Some (created_address c).
Proof.
  unfold insert_created_output_batch, created_address. intros Hok. inv_ok.
  destruct (created_inner c) as [o|o|o]; cbn; [destruct (single_address o) | destruct (dust_address o) | done]; eauto.
Qed.

Lemma delete_created_Ok b id c b' : delete_created_output_batch s b id c = Ok b' -> is_Some (created_address c).
Proof.
  unfold delete_created_output_batch, created_address. intros Hok. inv_ok.
  destruct (created_inner c) as [o|o|o]; cbn; [destruct (single_address o) | destruct (dust_address o) | done]; eauto.
Qed.

Lemma Forall_no_treasury created :
  Forall (fun e => is_Some (created_address e.2)) (hash_iter created) -> no_treasury created.
Proof. intros Hf id c Hc%elem_of_hash_iter. rewrite Forall_forall in Hf. by apply (Hf (id, c)). Qed.

Lemma change_balances_Ok b diffs b' :
  apply_balance_diffs_batch s b diffs = Ok b' -> diffs_apply (t_balance (tables s)) diffs.
Proof.
  intros Hok a d Had%elem_of_hash_iter. apply (try_fold_all (fun e => is_ok (apply_diff
    (default Balance_default (t_balance (tables s) !! e.1)) e.2) = true)) in Hok.
  - rewrite Forall_forall in Hok. by apply (Hok (a, d)).
  - intros b1 [a1 d1] b2. unfold apply_balance_diff_batch. rewrite fetch_balance_or_default_spec. cbn. intros Hb. inv_ok.
    match goal with Hd : apply_diff _ _ = Ok _ |- _ => by rewrite Hd end.
Qed.

Lemma apply_milestone_Ok index created consumed diffs migration s' :
  apply_milestone s index created consumed diffs migration = Ok s' ->
  no_treasury created /\ diffs_apply (t_balance (tables s)) diffs.
Proof.
  unfold apply_milestone. intros Hok. inv_ok. split; [|by eapply change_balances_Ok]. apply Forall_no_treasury.
  eapply try_fold_all; [|eassumption]. intros b1 [id c] b2 Hb. by eapply insert_created_Ok.
Qed.

Lemma rollback_milestone_Ok index created consumed diffs migration s' :
  rollback_milestone s index created consumed diffs migration = Ok s' ->
  no_treasury created /\ no_treasury (fst <$> consumed)
  /\ diffs_apply (t_balance (tables s)) (BalanceDiffs_negated diffs).
Proof.
  unfold rollback_milestone. intros Hok. inv_ok. split_and!; [apply Forall_no_treasury| |by eapply change_balances_Ok].
  - eapply try_fold_all; [|eassumption]. intros b1 [id c] b2 Hb. by eapply delete_created_Ok.
  - intros id c. rewrite lookup_fmap. destruct (consumed !! id) as [[c' y]|] eqn:E; [|done]. intros [= <-].
    apply elem_of_hash_iter in E.
    match goal with Hf : try_fold _ _ (hash_iter consumed) = Ok _ |- _ =>
      apply (try_fold_all (fun e => is_Some (created_address e.2.1))) in Hf end.
    + match goal with Hf : Forall _ _ |- _ => rewrite Forall_forall in Hf; by apply (Hf _ E) end.
    + intros b1 [i [c1 y1]] b2 Hb. inv_ok. by eapply insert_created_Ok.
Qed.
End healthy.
End contract.

(** ** Claims *)

(** C29. [apply_milestone] and [rollback_milestone] succeed exactly when no output they store is a treasury output and
    every balance difference leaves a balance in range, and then change every table as [applied] and [rolled_back]
    state, in one commit; otherwise they return an error, and nothing is committed. *)
Theorem milestone_storage_spec `{HashOrderOk} `{LedgerBackendOk B} (s : B) index created consumed diffs migration :
  healthy s ->
  match apply_milestone s index created consumed diffs migration with
  | Ok s' => (no_treasury created /\ diffs_apply (t_balance (tables s)) diffs)
             /\ healthy s' /\ tables s' = applied index created consumed diffs migration (tables s)
  | Err _ => ~ (no_treasury created /\ diffs_apply (t_balance (tables s)) diffs)
  end
  /\ match rollback_milestone s index created consumed diffs migration with
     | Ok s' => (no_treasury created /\ no_treasury (fst <$> consumed)
                 /\ diffs_apply (t_balance (tables s)) (BalanceDiffs_negated diffs))
                /\ healthy s' /\ tables s' = rolled_back index created consumed diffs migration (tables s)
     | Err _ => ~ (no_treasury created /\ no_treasury (fst <$> consumed)
                   /\ diffs_apply (t_balance (tables s)) (BalanceDiffs_negated diffs))
     end.
Proof.
  intros Hs. split.
  - destruct (apply_milestone s index created consumed diffs migration) as [s'|] eqn:E.
    + pose proof (apply_milestone_Ok s Hs _ _ _ _ _ _ E) as [Hc Hd]. split; [done|].
      destruct (apply_milestone_does s Hs index created consumed diffs migration Hc Hd) as (s'' & E' & Hr).
      rewrite E in E'. by injection E' as <-.
    + intros [Hc Hd].
      destruct (apply_milestone_does s Hs index created consumed diffs migration Hc Hd) as (s'' & E' & _). congruence.
  - destruct (rollback_milestone s index created consumed diffs migration) as [s'|] eqn:E.
    + pose proof (rollback_milestone_Ok s Hs _ _ _ _ _ _ E) as (Hc & Hco & Hd). split; [done|].
      destruct (rollback_milestone_does s Hs index created consumed diffs migration Hc Hco Hd) as (s'' & E' & Hr).
      rewrite E in E'. by injection E' as <-.
    + intros (Hc & Hco & Hd).
      destruct (rollback_milestone_does s Hs index created consumed diffs migration Hc Hco Hd) as (s'' & E' & _).
      congruence.
Qed.
