(* ===== verification/Pruning.v ===== *)
(** * Pruning

    Models [bee-ledger/src/workers/pruning] ([error.rs], [config.rs], [condition.rs], [batch.rs], [prune.rs]): the messages
    of a confirmed milestone, the messages that were never confirmed, and the records of the milestone are deleted in one
    batch; the messages that later milestones still refer to become solid entry points.

    The traversal of the past cone is a loop over a queue, with fuel; [None] is missing fuel or a panic. The counters and
    timings, which are only logged, are not modelled. The batch only grows until it is committed, and all readings are of
    the storage before that. *)

From S2P Require Import Prelude External MessageTypes Payload PayloadKeys Message TangleTypes LedgerTypes.
From S2P Require Import Vertices Storage StorageTables StorageMemory Tangle LedgerStorage.

Local Open Scope Z_scope.

(** ** Errors: [error.rs]. The boxed error of [Storage] is one of the backend or one of [workers::storage]. *)

Inductive PruningError :=
| InvalidTargetIndex (selected minimum : MilestoneIndex)
| MissingSnapshotInfo
| MissingMilestone (index : MilestoneIndex)
| Pruning_MissingMessage (id : MessageId)
| MissingMetadata (id : MessageId)
| MissingApprovers (id : MessageId)
| Pruning_Storage (e : string)
| Pruning_Worker (e : WorkerError).

(** ** Configuration: [config.rs] *)

Record PruningConfigBuilder := mkPruningConfigBuilder {
  builder_enabled : option bool;
  builder_delay : option Z;
  builder_prune_receipts : option bool;
}.

Record PruningConfig := mkPruningConfig {
  pruning_enabled : bool;
  pruning_delay : Z;
  config_prune_receipts : bool;
}.

Definition PruningConfigBuilder_finish (self : PruningConfigBuilder) : PruningConfig :=
  mkPruningConfig (default true (builder_enabled self)) (default 60480 (builder_delay self))
    (default false (builder_prune_receipts self)).

Definition pruning_disabled (self : PruningConfig) : bool := negb (pruning_enabled self).

(** ** When to prune: [condition.rs] *)

Definition PRUNING_BATCH_SIZE_MAX : Z := 200.

Inductive PruningSkipReason :=
| PruningDisabled
| PruningBelowThreshold (reached_in : Z).

Definition should_prune `{Environment} {B} (tangle : Tangle B) (index : LedgerIndex) (delay : Z) (config : PruningConfig)
    : result PruningSkipReason (MilestoneIndex * MilestoneIndex) :=
  let index := milestone_index (ledger_index index) in
  let? _ := ensure (negb (pruning_disabled config)) PruningDisabled in
  let pruning_index := as_u 32 (milestone_index (tg_pruning tangle) + 1) in
  let pruning_threshold := as_u 32 (pruning_index + delay) in
  if index <? pruning_threshold then Err (PruningBelowThreshold (as_u 32 (pruning_threshold - index)))
  else
    let target := as_u 32 (index - delay) in
    Ok (MilestoneIndex_new pruning_index,
        MilestoneIndex_new (if as_u 32 (pruning_index + PRUNING_BATCH_SIZE_MAX) <? target
                            then as_u 32 (pruning_index + PRUNING_BATCH_SIZE_MAX) else target)).

(** ** What is deleted: [batch.rs] *)

Definition EXTRA_PRUNING_DEPTH : Z := 5.

Definition unwrap_indexation (payload : option Payload) : option IndexationPayload :=
  match payload with
  | Some (Payload_Indexation indexation) => Some indexation
  | Some (Payload_Transaction transaction) =>
      match transaction_essence transaction with
      | Essence_Regular essence =>
          match essence_payload essence with
          | Some (Payload_Indexation indexation) => Some indexation
          | _ => None
          end
      end
  | _ => None
  end.

Section batch.
Context `{Bitflags} `{LedgerBackend B}.
Implicit Types (storage : B) (batch : storage_batch B) (message_id : MessageId) (prune_index : MilestoneIndex).

(** [.map_err(|e| Error::Storage(Box::new(e)))] *)
Definition pruning_result {A} (r : result (storage_error B) A) : result PruningError A :=
  map_err (fun e => Pruning_Storage (storage_error_display e)) r.

Definition prune_message_and_metadata storage batch message_id : result PruningError (storage_batch B) :=
  let? batch := pruning_result (batch_delete Message storage batch message_id) in
  pruning_result (batch_delete MessageMetadata storage batch message_id).

Definition prune_edge storage batch (edge : MessageId * MessageId) : result PruningError (storage_batch B) :=
  pruning_result (batch_delete unit storage batch edge).

Definition prune_indexation_data storage batch (index_message_id : PaddedIndex * MessageId)
    : result PruningError (storage_batch B) :=
  pruning_result (batch_delete unit storage batch index_message_id).

(** The indexation of a message and the edges from its parents. *)
Definition prune_indexation storage batch message_id (msg : Message) : result PruningError (storage_batch B) :=
  match unwrap_indexation (message_payload msg) with
  | Some indexation => prune_indexation_data storage batch (padded_index indexation, message_id)
  | None => Ok batch
  end.
Definition prune_edges storage batch message_id (msg : Message) : result PruningError (storage_batch B) :=
  try_fold (fun batch parent_id => prune_edge storage batch (parent_id, message_id)) batch (parents_inner (message_parents msg)).

Definition prune_milestone storage batch (index : MilestoneIndex) : result PruningError (storage_batch B) :=
  pruning_result (batch_delete Milestone storage batch index).

Definition prune_output_diff storage batch (index : MilestoneIndex) : result PruningError (storage_batch B) :=
  let? output_diff := pruning_result (fetch OutputDiff storage index) in
  let? batch :=
    match output_diff with
    | Some output_diff =>
        try_fold (fun batch consumed_output =>
                    let? batch := pruning_result (batch_delete ConsumedOutput storage batch consumed_output) in
                    pruning_result (batch_delete CreatedOutput storage batch consumed_output))
          batch (diff_consumed_outputs output_diff)
    | None => Ok batch
    end in
  pruning_result (batch_delete OutputDiff storage batch index).

Definition prune_receipts storage batch (index : MilestoneIndex) : result PruningError (option (storage_batch B)) :=
  let? receipts := pruning_result (fetch (list Receipt) storage index) in
  match receipts with
  | None => Ok None
  | Some receipts =>
      let? batch := try_fold (fun batch receipt => pruning_result (batch_delete unit storage batch (index, receipt))) batch receipts in
      Ok (Some batch)
  end.

(** *** Confirmed messages *)

(** The state of the traversal besides its queue. *)
Record PruneCone := mkPruneCone {
  cone_visited : gset MessageId;
  cone_approvers : gmap MessageId MilestoneIndex;
  cone_seps : gmap SolidEntryPoint MilestoneIndex;
  cone_batch : storage_batch B;
}.

(** The index at which an approver was confirmed, from the cache or from its metadata. *)
Definition approver_conf_index storage prune_index (threshold : Z) (cache : gmap MessageId MilestoneIndex) (id : MessageId)
    : result PruningError (MilestoneIndex * gmap MessageId MilestoneIndex) :=
  match cache !! id with
  | Some conf_index => Ok (conf_index, cache)
  | None =>
      let? unvisited_md := pruning_result (fetch MessageMetadata storage id) in
      let? unvisited_md := ok_or unvisited_md (MissingMetadata id) in
      let conf_index := default (MilestoneIndex_add_u32 prune_index threshold) (metadata_milestone_index unvisited_md) in
      Ok (conf_index, <[id := conf_index]> cache)
  end.

(** The loop over the approvers, with the greatest index so far. *)
Definition max_conf_index storage prune_index (threshold : Z) (cache : gmap MessageId MilestoneIndex) (approvers : list MessageId)
    : result PruningError (Z * gmap MessageId MilestoneIndex) :=
  try_fold (fun '(max_conf, cache) id =>
              let? r := approver_conf_index storage prune_index threshold cache id in
              let '(conf_index, cache) := r in
              Ok (Z.max max_conf (milestone_index conf_index), cache))
    (milestone_index prune_index, cache) approvers.

(** One iteration of the loop: the new state, and the parents that are added to the queue. *)
Definition prune_visit storage prune_index (threshold : Z) (current_seps : gmap SolidEntryPoint MilestoneIndex) message_id
    (cone : PruneCone) : result PruningError (PruneCone * list MessageId) :=
  if bool_decide (message_id ∈ cone_visited cone) then Ok (cone, [])
  else if bool_decide (is_Some (current_seps !! SolidEntryPoint_new message_id)) then Ok (cone, [])
  else
    let? msg := pruning_result (fetch Message storage message_id) in
    let? msg := ok_or msg (Pruning_MissingMessage message_id) in
    let? batch := prune_indexation storage (cone_batch cone) message_id msg in
    let? batch := prune_edges storage batch message_id msg in
    let parents := parents_inner (message_parents msg) in
    let visited := {[message_id]} ∪ cone_visited cone in
    let? batch := prune_message_and_metadata storage batch message_id in
    let? approvers := pruning_result (fetch (list MessageId) storage message_id) in
    let? approvers := ok_or approvers (MissingApprovers message_id) in
    match filter (fun id => id ∉ visited) approvers with
    | [] => Ok (mkPruneCone visited (cone_approvers cone) (cone_seps cone) batch, parents)
    | unvisited_approvers =>
        let? r := max_conf_index storage prune_index threshold (cone_approvers cone) unvisited_approvers in
        let '(max_conf, cache) := r in
        let new_seps :=
          if milestone_index prune_index <? max_conf
          then <[SolidEntryPoint_new message_id := MilestoneIndex_new max_conf]> (cone_seps cone) else cone_seps cone in
        Ok (mkPruneCone visited cache new_seps batch, parents)
    end.

Fixpoint prune_traverse (fuel : nat) storage prune_index (threshold : Z) (current_seps : gmap SolidEntryPoint MilestoneIndex)
    (to_visit : list MessageId) (cone : PruneCone) : option (result PruningError PruneCone) :=
  match to_visit with
  | [] => Some (Ok cone)
  | message_id :: to_visit =>
      match fuel with
      | O => None
      | S fuel =>
          match prune_visit storage prune_index threshold current_seps message_id cone with
          | Ok (cone, parents) =>
              prune_traverse fuel storage prune_index threshold current_seps (to_visit ++ parents) cone
          | Err e => Some (Err e)
          end
      end
  end.

Definition prune_confirmed_data (fuel : nat) (config : TangleConfig) storage batch prune_index
    (current_seps : gmap SolidEntryPoint MilestoneIndex)
    : option (result PruningError (gmap SolidEntryPoint MilestoneIndex * storage_batch B)) :=
  let mitigation_threshold := as_u 32 (below_max_depth config + EXTRA_PRUNING_DEPTH) in
  match
    let? milestone := pruning_result (fetch Milestone storage prune_index) in
    ok_or milestone (MissingMilestone prune_index)
  with
  | Err e => Some (Err e)
  | Ok milestone =>
      r ← prune_traverse fuel storage prune_index mitigation_threshold current_seps [milestone_message_id milestone]
            (mkPruneCone ∅ ∅ ∅ batch);
      Some (let? cone := r in Ok (cone_seps cone, cone_batch cone))
  end.

(** *** Unconfirmed messages *)

(** The loop over the approvers, which ends at the first one that was referenced. *)
Fixpoint any_referenced storage (approvers : list MessageId) : result PruningError bool :=
  match approvers with
  | [] => Ok false
  | id :: approvers =>
      let? md := pruning_result (fetch MessageMetadata storage id) in
      match md with
      | Some md => if is_referenced (metadata_flags md) then Ok true else any_referenced storage approvers
      | None => any_referenced storage approvers
      end
  end.

(** One iteration of the loop over the unreferenced messages of a milestone. *)
Definition prune_unconfirmed_message storage prune_index batch (unconf_msg_id : MessageId)
    : result PruningError (storage_batch B) :=
  let? msg_meta := pruning_result (fetch MessageMetadata storage unconf_msg_id) in
  match msg_meta with
  | None => Ok batch
  | Some msg_meta =>
      if is_referenced (metadata_flags msg_meta) then Ok batch
      else
        let? unconf_approvers := pruning_result (fetch (list MessageId) storage unconf_msg_id) in
        let? unconf_approvers := ok_or unconf_approvers (MissingApprovers unconf_msg_id) in
        let? referenced := any_referenced storage unconf_approvers in
        if (referenced : bool) then Ok batch
        else
          let? msg := pruning_result (fetch Message storage unconf_msg_id) in
          match msg with
          | None => Ok batch
          | Some msg =>
              let? batch := prune_message_and_metadata storage batch unconf_msg_id in
              let? batch := prune_indexation storage batch unconf_msg_id msg in
              let? batch := prune_edges storage batch unconf_msg_id msg in
              pruning_result (batch_delete unit storage batch (prune_index, UnreferencedMessage_new unconf_msg_id))
          end
  end.

Definition prune_unconfirmed_data storage batch prune_index : result PruningError (storage_batch B) :=
  let? unconf_msgs := pruning_result (fetch (list UnreferencedMessage) storage prune_index) in
  try_fold (prune_unconfirmed_message storage prune_index) batch (unreferenced_message_id <$> default [] unconf_msgs).

(** [None] is the panic of [prune_receipts]. *)
Definition prune_milestone_data storage batch prune_index (should_prune_receipts : bool)
    : result PruningError (option (storage_batch B)) :=
  let? batch := prune_milestone storage batch prune_index in
  let? batch := prune_output_diff storage batch prune_index in
  if should_prune_receipts then prune_receipts storage batch prune_index else Ok (Some batch).
End batch.

(** ** Pruning: [prune.rs] *)

Definition KEEP_INITIAL_SNAPSHOT_SEPS : Z := 50.

(** The event [PrunedIndex] of [event.rs]. *)
Record PrunedIndex := mkPrunedIndex { pruned_index : MilestoneIndex }.

Section prune.
Context `{HashOrder} `{Environment} `{Bitflags} `{LedgerBackend B}.
Implicit Types (tangle : Tangle B) (index : MilestoneIndex).

(** The tangle with its storage, and the counter [NUM_PRUNINGS]. *)
Record PruneState := mkPruneState {
  prune_tangle : Tangle B;
  num_prunings : Z;
}.

(** The entry points that are kept, which [extend] adds to the new ones. *)
Definition next_seps (num : Z) index (curr_seps new_seps : gmap SolidEntryPoint MilestoneIndex)
    : gmap SolidEntryPoint MilestoneIndex :=
  (if KEEP_INITIAL_SNAPSHOT_SEPS <=? num
   then filter (fun e => milestone_index index < milestone_index e.2) curr_seps else curr_seps) ∪ new_seps.

Definition batch_seps (storage : B) (batch : storage_batch B) (seps : gmap SolidEntryPoint MilestoneIndex)
    : result PruningError (storage_batch B) :=
  try_fold (fun batch '(new_sep, index) => pruning_result (batch_insert storage batch new_sep index)) batch (hash_iter seps).

(** [.map_err(|e| Error::Storage(Box::new(e)))] on the errors of [workers::storage]. *)
Definition worker_result {A} (r : result WorkerError A) : result PruningError A := map_err Pruning_Worker r.

(** The update of the snapshot information; [now] is the number of seconds since the epoch. *)
Definition prune_info (storage : B) index (now : Z) : result PruningError B :=
  let? info := worker_result (fetch_snapshot_info storage) in
  let? info := ok_or info MissingSnapshotInfo in
  worker_result (insert_snapshot_info storage
    (SnapshotInfo_new (network_id info) (snapshot_index info) (entry_point_index info) index now)).

(** What follows the commit of the batch. *)
Definition prune_committed index (now : Z) tangle : Tangle B * result PruningError unit :=
  let tangle := update_pruning_index index tangle in
  match prune_info (tg_storage tangle) index now with
  | Ok storage => (with_storage storage tangle, Ok tt)
  | Err e => (tangle, Err e)
  end.

(** The removal of the old entry points from the storage and the commit. *)
Definition prune_commit index (now : Z) (batch : storage_batch B) tangle : option (Tangle B * result PruningError unit) :=
  match storage_truncate SolidEntryPoint MilestoneIndex (tg_storage tangle) with
  | Err _ => None
  | Ok storage =>
      match pruning_result (batch_commit storage batch true) with
      | Err e => Some (with_storage storage tangle, Err e)
      | Ok storage => Some (prune_committed index now (with_storage storage tangle))
      end
  end.

(** One iteration of the loop over the indexes. *)
Definition prune_one (fuel : nat) (now : MilestoneIndex -> Z) (config : PruningConfig) index (self : PruneState)
    : option (PruneState * result PruningError unit) :=
  let tangle := prune_tangle self in
  let storage := tg_storage tangle in
  let curr_seps := tg_seps tangle in
  r ← prune_confirmed_data fuel (tg_config tangle) storage (batch_begin B) index curr_seps;
  match r with
  | Err e => Some (self, Err e)
  | Ok (new_seps, batch) =>
      let seps := next_seps (num_prunings self) index curr_seps new_seps in
      let num := as_u 64 (num_prunings self + 1) in
      match batch_seps storage batch seps with
      | Err e => Some (mkPruneState tangle num, Err e)
      | Ok batch =>
          let tangle := update_entry_point_index index (replace_solid_entry_points (hash_iter seps) tangle) in
          match prune_milestone_data storage batch index (config_prune_receipts config) with
          | Err e => Some (mkPruneState tangle num, Err e)
          | Ok None => None
          | Ok (Some batch) =>
              match prune_unconfirmed_data storage batch index with
              | Err e => Some (mkPruneState tangle num, Err e)
              | Ok batch =>
                  r ← prune_commit index (now index) batch tangle;
                  Some (mkPruneState r.1 num, r.2)
              end
          end
      end
  end.

(** The loop over the indexes, [n] of them from [index] on; the events are those of the indexes that were pruned. *)
Fixpoint prune_loop (fuel : nat) (now : MilestoneIndex -> Z) (config : PruningConfig) (n : nat) (index : Z) (self : PruneState)
    : option (PruneState * list PrunedIndex * result PruningError unit) :=
  match n with
  | O => Some (self, [], Ok tt)
  | S n =>
      r ← prune_one fuel now config (MilestoneIndex_new index) self;
      match r with
      | (self, Err e) => Some (self, [], Err e)
      | (self, Ok _) =>
          r ← prune_loop fuel now config n (index + 1) self;
          let '(self, events, r) := r in
          Some (self, mkPrunedIndex (MilestoneIndex_new index) :: events, r)
      end
  end.

Definition prune (fuel : nat) (now : MilestoneIndex -> Z) (start_index target_index : MilestoneIndex) (config : PruningConfig)
    (self : PruneState) : option (PruneState * list PrunedIndex * result PruningError unit) :=
  if milestone_index target_index <? milestone_index start_index
  then Some (self, [], Err (InvalidTargetIndex target_index start_index))
  else prune_loop fuel now config (Z.to_nat (milestone_index target_index - milestone_index start_index + 1))
         (milestone_index start_index) self.
End prune.

(** ** What [should_prune] returns *)

(** [should_prune] starts right after the last pruned milestone, keeps the milestones of the pruning delay, and prunes
    at most 201 milestones at a time; [prune] never refuses the range as long as the indexes do not overflow. *)
Lemma should_prune_range `{Environment} {B} (t : Tangle B) (index : LedgerIndex) (delay : Z) config start target :
  0 <= milestone_index (tg_pruning t) -> 0 <= delay -> milestone_index (tg_pruning t) + 1 + delay < 2 ^ 32 ->
  milestone_index (tg_pruning t) + 1 + PRUNING_BATCH_SIZE_MAX < 2 ^ 32 ->
  0 <= milestone_index (ledger_index index) < 2 ^ 32 ->
  should_prune t index delay config = Ok (start, target) ->
  milestone_index start = milestone_index (tg_pruning t) + 1
  /\ milestone_index start <= milestone_index target <= milestone_index (ledger_index index) - delay
  /\ milestone_index target - milestone_index start <= PRUNING_BATCH_SIZE_MAX.
Proof.
  unfold should_prune, PRUNING_BATCH_SIZE_MAX, as_u. intros Hp Hd Ho Hb Hi. intros [_ Hr]%ensure_bind_Ok.
  rewrite (Z.mod_small (milestone_index (tg_pruning t) + 1)) in Hr by lia.
  rewrite (Z.mod_small (milestone_index (tg_pruning t) + 1 + delay)) in Hr by lia.
  destruct (Z.ltb_spec (milestone_index (ledger_index index)) (milestone_index (tg_pruning t) + 1 + delay)) as [|Hge]; [done|].
  rewrite (Z.mod_small (milestone_index (ledger_index index) - delay)) in Hr by lia.
  rewrite (Z.mod_small (milestone_index (tg_pruning t) + 1 + 200)) in Hr by lia.
  injection Hr as <- <-. cbn [milestone_index]. destruct (Z.ltb_spec (milestone_index (tg_pruning t) + 1 + 200) (milestone_index (ledger_index index) - delay)); lia.
Qed.
