(* ===== verification/Ledger.v ===== *)
(** * The ledger invariant

    What the tables of the ledger mean together, and that milestones preserve it. [ledger_inv] states that the unspent
    outputs are the created ones that were not consumed, that the address index lists the created outputs, that
    the stored balance of every address is the sum of its unspent outputs, that there is one unspent treasury output, and
    that the outputs and the treasury sum up to the supply. [valid_milestone] states what a milestone has to satisfy;
    [WhiteFlag] shows that the confirmation of a milestone produces such changes. A milestone that satisfies it is
    applied without an error and keeps the invariant, and rolling it back restores every table, unless it consumes
    outputs that it creates itself. *)

From S2P Require Import Prelude External MessageTypes Payload PayloadKeys LedgerTypes Storage StorageTables StorageMemory LedgerStorage.

Local Open Scope Z_scope.

(** ** Sums over finite maps *)

Definition sum_map `{Countable K} {A} (f : A -> Z) (m : gmap K A) : Z := sum_Z (fun e => f e.2) (map_to_list m).

Lemma sum_Z_perm {A} (f : A -> Z) l l' : Permutation l l' -> sum_Z f l = sum_Z f l'.
Proof. induction 1; rewrite ?sum_Z_cons in *; lia. Qed.

Section sum_map.
Context `{Countable K} {A : Type}.
Implicit Types (m : gmap K A) (f g : A -> Z).

Lemma sum_map_empty f : sum_map f (∅ : gmap K A) = 0.
Proof. unfold sum_map. by rewrite map_to_list_empty. Qed.

Lemma sum_map_insert f m k x : m !! k = None -> sum_map f (<[k := x]> m) = f x + sum_map f m.
Proof. intros Hk. unfold sum_map. by rewrite (sum_Z_perm _ _ _ (map_to_list_insert m k x Hk)), sum_Z_cons. Qed.

Lemma sum_map_union f m m' : m ##ₘ m' -> sum_map f (m ∪ m') = sum_map f m + sum_map f m'.
Proof.
  induction m as [|k x m Hk IH] using map_ind; intros Hd.
  - rewrite (left_id_L ∅ (∪)), sum_map_empty. lia.
  - apply map_disjoint_insert_l in Hd as [Hk' Hd].
    rewrite <- insert_union_l, !sum_map_insert, IH by (done || by rewrite lookup_union_None). lia.
Qed.

Lemma sum_map_difference f m m' : m' ⊆ m -> sum_map f (m ∖ m') = sum_map f m - sum_map f m'.
Proof.
  intros Hs. rewrite <- (map_difference_union m' m Hs) at 2. rewrite sum_map_union by by apply map_disjoint_difference_r1.
  lia.
Qed.

Lemma sum_map_le f g m : (forall k x, m !! k = Some x -> f x <= g x) -> sum_map f m <= sum_map g m.
Proof.
  induction m as [|k x m Hk IH] using map_ind; intros Hle; [by rewrite !sum_map_empty|].
  rewrite !sum_map_insert by done. specialize (Hle k x) as Hx. rewrite lookup_insert_eq in Hx.
  assert (sum_map f m <= sum_map g m); [|specialize (Hx eq_refl); lia]. apply IH. intros k' x' Hm. apply (Hle k').
  rewrite lookup_insert_ne; [done|]. intros ->. congruence.
Qed.

Lemma sum_map_0 m : sum_map (fun _ : A => 0) m = 0.
Proof. unfold sum_map. induction (map_to_list m); [done|]. rewrite sum_Z_cons. lia. Qed.

Lemma sum_map_nonneg f m : (forall k x, m !! k = Some x -> 0 <= f x) -> 0 <= sum_map f m.
Proof. intros Hf. rewrite <- (sum_map_0 m). by apply sum_map_le. Qed.

Lemma sum_map_subseteq f m m' : (forall x, 0 <= f x) -> m' ⊆ m -> sum_map f m' <= sum_map f m.
Proof.
  intros Hf Hs. pose proof (sum_map_difference f m m' Hs). assert (0 <= sum_map f (m ∖ m')); [|lia]. apply sum_map_nonneg. auto.
Qed.
End sum_map.

(** ** Balances as sums of outputs *)

(** The amounts of outputs, and their balance for an address. *)
Definition amounts (m : gmap OutputId CreatedOutput) : Z := sum_map (fun c => output_amount (created_inner c)) m.
Definition contrib (a : Address) (c : CreatedOutput) : BalanceDiff := output_contrib a (created_inner c).
Definition total (a : Address) (m : gmap OutputId CreatedOutput) : Balance :=
  mkBalance (sum_map (fun c => diff_amount (contrib a c)) m) (sum_map (fun c => diff_dust_allowance (contrib a c)) m)
    (sum_map (fun c => diff_dust_outputs (contrib a c)) m).

#[global] Arguments total : simpl never.

(** Outputs that were checked when they were made, and that are not treasury outputs. *)
Definition wf_outputs (m : gmap OutputId CreatedOutput) : Prop :=
  forall id c, m !! id = Some c -> wf_Output (created_inner c) /\ is_Some (created_address c).

Lemma contrib_bounds a c :
  wf_Output (created_inner c) ->
  0 <= diff_dust_allowance (contrib a c) <= diff_amount (contrib a c)
  /\ 0 <= diff_dust_outputs (contrib a c) <= diff_amount (contrib a c)
  /\ diff_amount (contrib a c) <= output_amount (created_inner c).
Proof.
  unfold contrib. destruct (created_inner c) as [o|o|o]; cbn; unfold wf_Single, wf_DustAllowance, wf_TreasuryOutput.
  - case_bool_decide; cbn; [destruct (_ <? _)|]; lia.
  - unfold DUST_THRESHOLD. case_bool_decide; cbn; lia.
  - lia.
Qed.

Lemma total_bounds a m :
  wf_outputs m ->
  0 <= balance_dust_allowance (total a m) <= balance_amount (total a m)
  /\ 0 <= balance_dust_outputs (total a m) <= balance_amount (total a m)
  /\ balance_amount (total a m) <= amounts m.
Proof.
  intros Hm. unfold total, amounts. cbn.
  split_and!; (apply sum_map_le || apply sum_map_nonneg); intros id c [Hc _]%Hm; apply (contrib_bounds a) in Hc; lia.
Qed.

(** The entry a balance table holds: addresses without an amount have none. *)
Definition stored_balance (b : Balance) : option Balance := if balance_amount b =? 0 then None else Some b.

Lemma default_stored a m : wf_outputs m -> default Balance_default (stored_balance (total a m)) = total a m.
Proof.
  intros Hm. destruct (total_bounds a m Hm) as (Hd & Ho & _). unfold stored_balance.
  destruct (balance_amount (total a m) =? 0) eqn:E; bool_to_prop; [|done]. destruct (total a m). cbn in *.
  unfold Balance_default. f_equal; lia.
Qed.

Lemma total_union a m m' : m ##ₘ m' -> total a (m ∪ m')
  = mkBalance (balance_amount (total a m) + balance_amount (total a m'))
      (balance_dust_allowance (total a m) + balance_dust_allowance (total a m'))
      (balance_dust_outputs (total a m) + balance_dust_outputs (total a m')).
Proof. intros Hd. unfold total. cbn. by rewrite !sum_map_union. Qed.

Lemma total_difference a m m' : m' ⊆ m -> total a (m ∖ m')
  = mkBalance (balance_amount (total a m) - balance_amount (total a m'))
      (balance_dust_allowance (total a m) - balance_dust_allowance (total a m'))
      (balance_dust_outputs (total a m) - balance_dust_outputs (total a m')).
Proof. intros Hd. unfold total. cbn. by rewrite !sum_map_difference. Qed.

(** ** The invariant *)

(** The created outputs that were not consumed. *)
Definition live (t : LedgerTables) : gmap OutputId CreatedOutput :=
  filter (fun e => t_consumed t !! e.1 = None) (t_created t).

(** The only unspent treasury output. *)
Definition treasury_is (t : LedgerTables) (x : LedgerTreasuryOutput) : Prop :=
  forall y, t_treasury t !! (false, y) = Some tt <-> y = x.

Record ledger_inv (t : LedgerTables) : Prop := {
  inv_unspent id : t_unspent t !! Unspent_new id = Some tt <-> is_Some (t_created t !! id) /\ t_consumed t !! id = None;
  inv_consumed id : is_Some (t_consumed t !! id) -> is_Some (t_created t !! id);
  inv_address : addresses (t_created t) ⊆ t_address t;
  inv_created : wf_outputs (t_created t);
  inv_balance a : t_balance t !! a = stored_balance (total a (live t));
  inv_supply : exists x, treasury_is t x /\ wf_TreasuryOutput (ledger_treasury_inner x)
    /\ amounts (live t) + treasury_amount (ledger_treasury_inner x) = IOTA_SUPPLY;
}.

(** What a milestone creates and consumes. *)
Record valid_milestone (t : LedgerTables) (created : gmap OutputId CreatedOutput)
    (consumed : gmap OutputId (CreatedOutput * ConsumedOutput)) (diffs : BalanceDiffs) (migration : option Migration)
    : Prop := {
  vm_fresh : created ##ₘ t_created t;
  vm_created : wf_outputs created;
  vm_consumed id c x : consumed !! id = Some (c, x) ->
    (created ∪ t_created t) !! id = Some c /\ t_consumed t !! id = None;
  vm_diffs a : entry_or_default diffs a
    = mkBalanceDiff (balance_amount (total a created) - balance_amount (total a (fst <$> consumed)))
        (balance_dust_allowance (total a created) - balance_dust_allowance (total a (fst <$> consumed)))
        (balance_dust_outputs (total a created) - balance_dust_outputs (total a (fst <$> consumed)));
  vm_supply : match migration with
    | None => amounts created = amounts (fst <$> consumed)
    | Some m =>
        treasury_is t (migration_consumed_treasury m)
        /\ migration_created_treasury m <> migration_consumed_treasury m
        /\ wf_TreasuryOutput (ledger_treasury_inner (migration_created_treasury m))
        /\ amounts created + treasury_amount (ledger_treasury_inner (migration_created_treasury m))
           = amounts (fst <$> consumed) + treasury_amount (ledger_treasury_inner (migration_consumed_treasury m))
    end;
}.

Lemma live_lookup t id c : live t !! id = Some c <-> t_created t !! id = Some c /\ t_consumed t !! id = None.
Proof. unfold live. by rewrite map_lookup_filter_Some. Qed.

Lemma wf_outputs_union m m' : wf_outputs m -> wf_outputs m' -> wf_outputs (m ∪ m').
Proof. intros Hm Hm' id c [?|[_ ?]]%lookup_union_Some_raw; eauto. Qed.

Lemma wf_outputs_subset m m' : wf_outputs m -> m' ⊆ m -> wf_outputs m'.
Proof. intros Hm Hs id c Hc. apply (Hm id). by eapply lookup_weaken. Qed.

Lemma live_subset t : live t ⊆ t_created t.
Proof. apply map_filter_subseteq. Qed.

Lemma wf_live t : ledger_inv t -> wf_outputs (live t).
Proof. intros Hinv. eapply wf_outputs_subset; [by apply inv_created | apply live_subset]. Qed.

Lemma supply_total a t :
  ledger_inv t -> nonneg_Balance (total a (live t)).
Proof.
  intros Hinv. destruct (inv_supply t Hinv) as (x & _ & Hx & Hs).
  destruct (total_bounds a (live t) (wf_live t Hinv)) as (Hd & Ho & Ha). unfold nonneg_Balance, wf_TreasuryOutput in *.
  unfold IOTA_SUPPLY in *. lia.
Qed.

(** The balance table holds the totals. *)
Lemma stored_total a t : ledger_inv t -> default Balance_default (t_balance t !! a) = total a (live t).
Proof. intros Hinv. rewrite (inv_balance t Hinv). by apply default_stored, wf_live. Qed.

(** ** Applying a milestone *)

Section milestone.
Context `{HashOrderOk}.
Context (t : LedgerTables) (index : MilestoneIndex) (created : gmap OutputId CreatedOutput)
  (consumed : gmap OutputId (CreatedOutput * ConsumedOutput)) (diffs : BalanceDiffs) (migration : option Migration).
Context (Hinv : ledger_inv t) (Hm : valid_milestone t created consumed diffs migration).

Let t' := applied index created consumed diffs migration t.

Lemma created_new id c : created !! id = Some c -> t_created t !! id = None /\ t_consumed t !! id = None.
Proof.
  intros Hc. assert (Hn : t_created t !! id = None) by (by eapply map_disjoint_Some_l; [apply (vm_fresh _ _ _ _ _ Hm)|]).
  split; [done|]. apply eq_None_not_Some. intros Hs%(inv_consumed t Hinv). rewrite Hn in Hs. by destruct Hs.
Qed.

Lemma created_disjoint_live : created ##ₘ live t.
Proof. eapply map_disjoint_weaken_r; [apply (vm_fresh _ _ _ _ _ Hm) | apply live_subset]. Qed.

Lemma union_live id c :
  (created ∪ live t) !! id = Some c <-> (created ∪ t_created t) !! id = Some c /\ t_consumed t !! id = None.
Proof.
  rewrite !lookup_union_Some by (apply created_disjoint_live || apply (vm_fresh _ _ _ _ _ Hm)). rewrite live_lookup.
  split; [|naive_solver]. intros [Hc|?]; [|naive_solver]. destruct (created_new id c Hc). naive_solver.
Qed.

Lemma consumed_subset : fst <$> consumed ⊆ created ∪ live t.
Proof.
  apply map_subseteq_spec. intros id c. rewrite lookup_fmap. destruct (consumed !! id) as [[c' x]|] eqn:E; [|done].
  intros [= ->]. apply union_live. by apply (vm_consumed _ _ _ _ _ Hm) in E.
Qed.

Lemma live_applied : live t' = (created ∪ live t) ∖ (fst <$> consumed).
Proof.
  apply map_eq. intros id. apply option_eq. intros c. rewrite live_lookup, lookup_difference_Some, union_live.
  unfold t', applied. cbn. rewrite lookup_union_None, !lookup_fmap, !fmap_None. naive_solver.
Qed.

Lemma wf_created_union : wf_outputs (created ∪ t_created t).
Proof. apply wf_outputs_union; [apply (vm_created _ _ _ _ _ Hm) | by apply inv_created]. Qed.

Lemma wf_live_applied : wf_outputs (live t').
Proof. eapply wf_outputs_subset; [exact wf_created_union | apply live_subset]. Qed.

Lemma total_applied a : total a (live t') = balance_plus (total a (live t)) (entry_or_default diffs a).
Proof.
  rewrite live_applied, total_difference, total_union, (vm_diffs _ _ _ _ _ Hm)
    by (apply consumed_subset || apply created_disjoint_live).
  unfold balance_plus. cbn [balance_amount balance_dust_allowance balance_dust_outputs diff_amount diff_dust_allowance
    diff_dust_outputs]. f_equal; lia.
Qed.

Lemma amounts_applied : amounts (live t') = amounts (live t) + amounts created - amounts (fst <$> consumed).
Proof.
  rewrite live_applied. unfold amounts. rewrite sum_map_difference, sum_map_union
    by (apply consumed_subset || apply created_disjoint_live). lia.
Qed.

Lemma treasury_is_unique x y : treasury_is t x -> treasury_is t y -> x = y.
Proof. intros Hx Hy. apply Hy. by apply Hx. Qed.

Lemma supply_applied : exists x, treasury_is t' x /\ wf_TreasuryOutput (ledger_treasury_inner x)
  /\ amounts (live t') + treasury_amount (ledger_treasury_inner x) = IOTA_SUPPLY.
Proof.
  destruct (inv_supply t Hinv) as (x & Hx & Hw & Hs). rewrite amounts_applied.
  pose proof (vm_supply _ _ _ _ _ Hm) as Hv. unfold t', applied. destruct migration as [m|].
  - destruct Hv as (Hc & Hne & Hcw & Hsum). exists (migration_created_treasury m). split_and!; [|done|].
    + intros y. cbn [t_treasury]. rewrite lookup_delete_Some, lookup_insert_ne by done. rewrite insert_unit_lookup, (Hc y).
      destruct (decide (y = migration_consumed_treasury m)); naive_solver.
    + rewrite <- (treasury_is_unique _ _ Hx Hc) in Hsum. lia.
  - exists x. split_and!; [done..|]. lia.
Qed.

Lemma nonneg_applied a : nonneg_Balance (total a (live t')).
Proof.
  destruct supply_applied as (x & _ & Hx & Hs). destruct (total_bounds a (live t') wf_live_applied) as (Hd & Ho & Ha).
  unfold nonneg_Balance, wf_TreasuryOutput, IOTA_SUPPLY in *. lia.
Qed.

Lemma apply_diff_total a d : diffs !! a = Some d ->
  apply_diff (default Balance_default (t_balance t !! a)) d = Ok (total a (live t')).
Proof.
  intros Hd. rewrite stored_total by done. apply apply_diff_Ok; [by apply supply_total|].
  assert (d = entry_or_default diffs a) as -> by (unfold entry_or_default; by rewrite Hd).
  rewrite <- total_applied. split; [done | apply nonneg_applied].
Qed.

Lemma valid_diffs_apply : diffs_apply (t_balance t) diffs.
Proof. intros a d Hd. by rewrite (apply_diff_total a d Hd). Qed.

Lemma valid_no_treasury : no_treasury created.
Proof. intros id c Hc. by apply (vm_created _ _ _ _ _ Hm id c). Qed.

Lemma balance_applied a : t_balance t' !! a = stored_balance (total a (live t')).
Proof.
  unfold t' at 1, applied. cbn [t_balance]. rewrite balances_lookup. unfold new_balance.
  destruct (diffs !! a) as [d|] eqn:Hd; [by rewrite (apply_diff_total a d Hd)|].
  rewrite (inv_balance t Hinv). f_equal. rewrite total_applied. unfold entry_or_default. rewrite Hd. cbn.
  destruct (total a (live t)). unfold balance_plus. cbn. f_equal; lia.
Qed.

Lemma applied_inv : ledger_inv t'.
Proof.
  split.
  - intros id. unfold t', applied. cbn. rewrite difference_unit_lookup, union_unit_lookup, !ids_lookup. cbn.
    rewrite (inv_unspent t Hinv), lookup_union_is_Some, lookup_union_None, lookup_fmap, fmap_None.
    destruct (consumed !! id) as [y|]; [naive_solver|]. split; [|naive_solver].
    intros [[[c Hc]|?] _]; [|naive_solver]. destruct (created_new id c Hc). naive_solver.
  - intros id. unfold t', applied. cbn. rewrite !lookup_union_is_Some, lookup_fmap, fmap_is_Some.
    intros [[[c x] Hc]|Hc%(inv_consumed t Hinv)]; [|by right]. apply (vm_consumed _ _ _ _ _ Hm) in Hc as [Hc _].
    rewrite <- lookup_union_is_Some. eauto.
  - unfold t', applied. cbn. apply map_subseteq_spec. intros [a id] [] Ha.
    rewrite union_unit_lookup, addresses_lookup. rewrite addresses_lookup in Ha. destruct Ha as (c & Hc & Ha).
    apply lookup_union_Some_raw in Hc as [Hc|[_ Hc]]; [by left; exists c|]. right.
    eapply lookup_weaken; [|apply (inv_address t Hinv)]. apply addresses_lookup. by exists c.
  - exact wf_created_union.
  - exact balance_applied.
  - exact supply_applied.
Qed.

(** *** Rolling it back *)

(** Balances roll back as long as the differences can be negated. *)
Lemma negated_total a d : small_diff (entry_or_default diffs a) -> BalanceDiffs_negated diffs !! a = Some d ->
  apply_diff (default Balance_default (t_balance t' !! a)) d = Ok (total a (live t)).
Proof.
  unfold BalanceDiffs_negated, BalanceDiffs_negate. rewrite lookup_fmap. unfold entry_or_default.
  destruct (diffs !! a) as [e|] eqn:E; [|done]. intros Hsm [= <-]. cbn in Hsm. rewrite (stored_total a t' applied_inv).
  apply (apply_diff_undo _ e); [by apply supply_total | done|]. rewrite <- (stored_total a t Hinv).
  by apply apply_diff_total.
Qed.

Lemma rollback_applies :
  (forall a, small_diff (entry_or_default diffs a)) ->
  no_treasury (fst <$> consumed) /\ diffs_apply (t_balance t') (BalanceDiffs_negated diffs).
Proof.
  intros Hsm. split; [|intros a d Hd; by rewrite (negated_total a d (Hsm a) Hd)].
  intros id c Hc. assert (Hw : wf_outputs (created ∪ live t)).
  { apply wf_outputs_union; [apply (vm_created _ _ _ _ _ Hm) | by apply wf_live]. }
  apply (Hw id). by eapply lookup_weaken, consumed_subset.
Qed.

Lemma balances_undone :
  (forall a, small_diff (entry_or_default diffs a)) ->
  merge new_balance (t_balance t') (BalanceDiffs_negated diffs) = t_balance t.
Proof.
  intros Hsm. apply map_eq. intros a. rewrite balances_lookup. unfold new_balance.
  destruct (BalanceDiffs_negated diffs !! a) as [d|] eqn:E.
  - by rewrite (negated_total a d (Hsm a) E), (inv_balance t Hinv).
  - unfold BalanceDiffs_negated, BalanceDiffs_negate in E. rewrite lookup_fmap, fmap_None in E.
    unfold t', applied. cbn. rewrite balances_lookup, E. done.
Qed.

(** The milestone does not consume what it creates, and none of its records exist yet. *)
Record undoable : Prop := {
  undo_disjoint id : is_Some (created !! id) -> consumed !! id = None;
  undo_index : t_index t !! tt = Some (LedgerIndex_new (MilestoneIndex_sub_u32 index 1));
  undo_diff : t_diff t !! index = None;
  undo_address a id : is_Some (created !! id) -> t_address t !! (a, id) = None;
  undo_migration : match migration with
    | Some m => t_receipt t !! receipt_key m = None /\ t_treasury t !! (true, migration_consumed_treasury m) = None
    | None => True
    end;
}.

Context (Hu : undoable).

Lemma consumed_live : fst <$> consumed ⊆ live t.
Proof.
  apply map_subseteq_spec. intros id c Hc. pose proof (lookup_weaken _ _ _ _ Hc consumed_subset) as Hl.
  apply lookup_union_Some in Hl as [Hl|]; [|done|apply created_disjoint_live]. rewrite lookup_fmap in Hc.
  rewrite (undo_disjoint Hu id) in Hc; [done | by eexists].
Qed.

Lemma created_live : created ⊆ live t'.
Proof.
  apply map_subseteq_spec. intros id c Hc. rewrite live_applied, lookup_difference_Some. split.
  - by apply lookup_union_Some_l.
  - rewrite lookup_fmap, (undo_disjoint Hu id); [done | by eexists].
Qed.

Lemma total_subset a m m' : wf_outputs m -> m' ⊆ m ->
  0 <= balance_dust_allowance (total a m') <= balance_amount (total a m')
  /\ 0 <= balance_dust_outputs (total a m') <= balance_amount (total a m')
  /\ 0 <= balance_amount (total a m') <= balance_amount (total a m).
Proof.
  intros Hw Hs. pose proof (total_bounds a m' (wf_outputs_subset m m' Hw Hs)) as (Hd & Ho & _).
  pose proof (total_difference a m m' Hs) as He.
  assert (Hw' : wf_outputs (m ∖ m')) by (eapply wf_outputs_subset; [done | apply map_subseteq_difference_l; done]).
  pose proof (total_bounds a (m ∖ m') Hw') as (Hd' & _). rewrite He in Hd'. cbn in Hd'. lia.
Qed.

Lemma small_diffs a : small_diff (entry_or_default diffs a).
Proof.
  rewrite (vm_diffs _ _ _ _ _ Hm). pose proof (nonneg_applied a) as (Hn & _). pose proof (supply_total a t Hinv) as (Hn' & _).
  pose proof (total_subset a (live t') created wf_live_applied created_live).
  pose proof (total_subset a (live t) (fst <$> consumed) (wf_live t Hinv) consumed_live).
  unfold small_diff. cbn. lia.
Qed.

Lemma created_undone : (fst <$> consumed) ∪ (t_created t' ∖ created) = t_created t.
Proof.
  pose proof (vm_fresh _ _ _ _ _ Hm) as Hf. apply map_eq. intros id. apply option_eq. intros c.
  unfold t', applied. cbn. rewrite lookup_union_Some_raw, lookup_difference_Some, lookup_union_Some_raw. split.
  - intros [Hc|(_ & [Hc|[_ Hc]] & Hn)]; [|congruence|done].
    pose proof (lookup_weaken _ _ _ _ Hc consumed_live) as Hl. by apply live_lookup in Hl as [? _].
  - intros Hc. destruct ((fst <$> consumed) !! id) as [c'|] eqn:E; [left|right].
    + pose proof (lookup_weaken _ _ _ _ E consumed_live) as Hl. apply live_lookup in Hl as [Hl _]. congruence.
    + assert (created !! id = None) by (by eapply map_disjoint_Some_r). naive_solver.
Qed.

Lemma consumed_undone : t_consumed t' ∖ (snd <$> consumed) = t_consumed t.
Proof.
  apply map_eq. intros id. apply option_eq. intros x. unfold t', applied. cbn.
  rewrite lookup_difference_Some, lookup_union_Some_raw. split; [naive_solver congruence|].
  intros Hx. assert ((snd <$> consumed) !! id = None) as Hn; [|naive_solver]. rewrite lookup_fmap, fmap_None.
  destruct (consumed !! id) as [[c y]|] eqn:E; [|done]. apply (vm_consumed _ _ _ _ _ Hm) in E as [_ E]. congruence.
Qed.

Lemma unspent_undone : ids consumed ∪ (t_unspent t' ∖ ids created) = t_unspent t.
Proof.
  apply unit_map_eq. intros [id]. unfold t', applied. cbn.
  rewrite union_unit_lookup, !difference_unit_lookup, union_unit_lookup, !ids_lookup. cbn. split.
  - intros [[[c x] Hc]|?]; [|naive_solver]. apply (inv_unspent t Hinv).
    assert (live t !! id = Some c) as [Hl ?]%live_lookup; [|split; [by eexists | done]].
    eapply lookup_weaken; [|apply consumed_live]. by rewrite lookup_fmap, Hc.
  - intros Hs. destruct (consumed !! id) as [y|] eqn:E; [by left; eexists|]. right. apply (inv_unspent t Hinv) in Hs as Hs'.
    destruct Hs' as [[c Hc] _]. assert (created !! id = None) as ->.
    { by eapply map_disjoint_Some_r; [apply (vm_fresh _ _ _ _ _ Hm)|]. }
    split_and!; [by right | by intros [? ?] | by intros [? ?]].
Qed.

Lemma address_undone : addresses (fst <$> consumed) ∪ (t_address t' ∖ addresses created) = t_address t.
Proof.
  apply unit_map_eq. intros [a id]. unfold t', applied. cbn.
  rewrite union_unit_lookup, !difference_unit_lookup, union_unit_lookup, !addresses_lookup. split.
  - intros [(c & Hc & Ha)|?]; [|naive_solver]. eapply lookup_weaken; [|apply (inv_address t Hinv)]. apply addresses_lookup.
    exists c. split; [|done]. pose proof (lookup_weaken _ _ _ _ Hc consumed_live) as Hl. by apply live_lookup in Hl as [? _].
  - intros Ha. right. split; [by right|]. intros (c & Hc & _). rewrite (undo_address Hu) in Ha; [done | by eexists].
Qed.

Lemma treasury_undone :
  t_treasury (rolled_back index created consumed diffs migration t') = t_treasury t
  /\ t_receipt (rolled_back index created consumed diffs migration t') = t_receipt t.
Proof.
  pose proof (undo_migration Hu) as Hg. pose proof (vm_supply _ _ _ _ _ Hm) as Hv. unfold t'. cbn.
  destruct migration as [m|]; [|done]. destruct Hg as [Hr Ht], Hv as (Hc & Hne & _). split.
  - apply map_eq. intros [spent y]. apply option_eq. intros []. specialize (Hc (migration_created_treasury m)) as Hcr.
    assert (t_treasury t !! (false, migration_created_treasury m) = None) as Hn.
    { apply eq_None_not_Some. intros [[] ?%Hcr]. done. }
    rewrite lookup_delete_Some, insert_unit_lookup, !lookup_delete_Some, !insert_unit_lookup. split.
    + intros [? [[= <- <-]|?]]; [by apply Hc | naive_solver].
    + intros Hy. assert ((true, migration_consumed_treasury m) <> (spent, y)) by (intros [= <- <-]; congruence).
      assert ((false, migration_created_treasury m) <> (spent, y)) by (intros [= <- <-]; congruence).
      destruct (decide ((false, migration_consumed_treasury m) = (spent, y))); naive_solver.
  - by rewrite delete_insert_id.
Qed.

Lemma milestone_undone : rolled_back index created consumed diffs migration t' = t.
Proof.
  destruct treasury_undone as [Htr Hrc]. unfold rolled_back in *. cbn [t_treasury t_receipt] in *.
  rewrite Htr, Hrc, (balances_undone small_diffs), created_undone, consumed_undone, unspent_undone, address_undone.
  unfold t', applied. cbn. rewrite insert_insert_eq, (insert_id (t_index t)) by apply (undo_index Hu).
  rewrite delete_insert_id by apply (undo_diff Hu). by destruct t.
Qed.
End milestone.

(** ** Claims *)

Section claims.
Context `{HashOrderOk} `{LedgerBackendOk B}.

(** C27. Applying a valid milestone to a consistent ledger succeeds and keeps the ledger consistent: the unspent outputs
    are the created ones that were not consumed, the stored balances are the sums of the unspent outputs of each
    address, there is one treasury output, and the supply is conserved. *)
Theorem milestone_preserves_ledger (s : B) index created consumed diffs migration :
  healthy s -> ledger_inv (tables s) -> valid_milestone (tables s) created consumed diffs migration ->
  exists s', apply_milestone s index created consumed diffs migration = Ok s' /\ healthy s' /\ ledger_inv (tables s').
Proof.
  intros Hs Hinv Hm. destruct (apply_milestone_does s Hs index created consumed diffs migration) as (s' & -> & Hs' & Ht).
  - by eapply valid_no_treasury.
  - by eapply valid_diffs_apply.
  - exists s'. split_and!; [done..|]. rewrite Ht. by apply applied_inv.
Qed.

(** C28. Rolling back the last milestone restores every table, in whatever order the maps are traversed, provided that the
    milestone did not consume outputs that it created. *)
Theorem rollback_restores `{HO : !HashOrder} `{!@HashOrderOk HO} (s : B) index created consumed diffs migration :
  healthy s -> ledger_inv (tables s) -> valid_milestone (tables s) created consumed diffs migration ->
  undoable (tables s) index created consumed migration ->
  exists s1 s2, apply_milestone s index created consumed diffs migration = Ok s1
    /\ rollback_milestone (H := HO) s1 index created consumed diffs migration = Ok s2
    /\ healthy s2 /\ tables s2 = tables s.
Proof.
  intros Hs Hinv Hm Hu. destruct (apply_milestone_does s Hs index created consumed diffs migration) as (s1 & -> & Hs1 & Ht).
  { by eapply valid_no_treasury. }
  { by eapply valid_diffs_apply. }
  destruct (rollback_applies (tables s) index created consumed diffs migration Hinv Hm) as [Hc Hd].
  { by eapply small_diffs. }
  destruct (rollback_milestone_does (H := HO) s1 Hs1 index created consumed diffs migration) as (s2 & Hr & Hs2 & Ht2);
    [by eapply valid_no_treasury | done | by rewrite Ht|].
  exists s1, s2. split_and!; [done..|]. rewrite Ht2, Ht. by apply milestone_undone.
Qed.

(** C39. Rolling back a milestone that creates an output and also consumes it does not restore the ledger: the output is
    stored and unspent afterwards, although it did not exist before the milestone. *)
Theorem rollback_keeps_transient_outputs (s : B) index created consumed diffs migration id c x :
  healthy s -> ledger_inv (tables s) -> valid_milestone (tables s) created consumed diffs migration ->
  (forall a, small_diff (entry_or_default diffs a)) -> created !! id = Some c -> consumed !! id = Some (c, x) ->
  t_created (tables s) !! id = None /\ t_unspent (tables s) !! Unspent_new id = None
  /\ exists s1 s2, apply_milestone s index created consumed diffs migration = Ok s1
    /\ rollback_milestone s1 index created consumed diffs migration = Ok s2
    /\ t_created (tables s2) !! id = Some c /\ t_unspent (tables s2) !! Unspent_new id = Some tt.
Proof.
  intros Hs Hinv Hm Hsm Hc Hx. destruct (created_new _ _ _ _ _ Hinv Hm id c Hc) as [Hn _]. split; [done|]. split.
  { apply eq_None_not_Some. intros [[] Hu]. apply (inv_unspent _ Hinv) in Hu as [[? ?] _]. congruence. }
  destruct (apply_milestone_does s Hs index created consumed diffs migration) as (s1 & -> & Hs1 & Ht).
  { by eapply valid_no_treasury. }
  { by eapply valid_diffs_apply. }
  destruct (rollback_applies (tables s) index created consumed diffs migration Hinv Hm Hsm) as [Hco Hd].
  destruct (rollback_milestone_does s1 Hs1 index created consumed diffs migration) as (s2 & Hr & Hs2 & Ht2);
    [by eapply valid_no_treasury | done | by rewrite Ht|].
  exists s1, s2. split_and!; [done..| |]; rewrite Ht2; cbn.
  - apply lookup_union_Some_l. by rewrite lookup_fmap, Hx.
  - rewrite union_unit_lookup, ids_lookup. left. by eexists.
Qed.
End claims.

(** ** Evaluation *)

Lemma sum_map_singleton `{Countable K} {A} (f : A -> Z) (k : K) x : sum_map f {[k := x]} = f x.
Proof. rewrite <- insert_empty, sum_map_insert, sum_map_empty by done. lia. Qed.

Module Examples.
Import Concrete.

Definition ed25519 (b : Byte.byte) : Ed25519Address := Ed25519Address_new (repeat b 32).
Definition owner (b : Byte.byte) : Address := Address_Ed25519 (ed25519 b).
Definition out (b : Byte.byte) (amount : Z) : CreatedOutput :=
  CreatedOutput_new (MessageId_new (repeat b 32)) (Output_SignatureLockedSingle (mkSingle (owner b) amount)).
Definition id (b : Byte.byte) : OutputId := mkOutputId (TransactionId_new (repeat b 32)) 0.
Definition treasury : LedgerTreasuryOutput :=
  LedgerTreasuryOutput_new (mkTreasuryOutput (IOTA_SUPPLY - 10000000)) (MilestoneId_new (repeat Byte.x00 32)).
Definition seven : MilestoneIndex := MilestoneIndex_new 7.
Definition info_6 : SnapshotInfo :=
  SnapshotInfo_new 1 (MilestoneIndex_new 6) (MilestoneIndex_new 6) (MilestoneIndex_new 6) 0.

(** A ledger with one output of ten million tokens, the remainder of the supply in the treasury. *)
Definition tables_6 : LedgerTables := {|
  t_created := {[id Byte.x01 := out Byte.x01 10000000]};
  t_consumed := ∅;
  t_unspent := {[Unspent_new (id Byte.x01) := tt]};
  t_address := {[(ed25519 Byte.x01, id Byte.x01) := tt]};
  t_index := {[tt := LedgerIndex_new (MilestoneIndex_new 6)]};
  t_info := {[tt := info_6]};
  t_diff := ∅;
  t_balance := {[owner Byte.x01 := mkBalance 10000000 0 0]};
  t_receipt := ∅;
  t_treasury := {[(false, treasury) := tt]};
  t_node := mkNodeTables ∅ ∅ ∅ ∅ ∅ ∅ ∅ ∅;
|}.

Definition storage_6 : Storage := mkStorage (mkRwLock false {|
  memory_system := mkTable ∅;
  message_id_to_message := mkTable ∅;
  message_id_to_metadata := mkTable ∅;
  message_id_to_message_id := mkVecBinTable ∅;
  index_to_message_id := mkVecBinTable ∅;
  output_id_to_created_output := mkTable {[id Byte.x01 := out Byte.x01 10000000]};
  output_id_to_consumed_output := mkTable ∅;
  output_id_unspent := mkTable {[Unspent_new (id Byte.x01) := tt]};
  ed25519_address_to_output_id := mkVecBinTable {[ed25519 Byte.x01 := [id Byte.x01]]};
  memory_ledger_index := mkSingletonTable (Some (LedgerIndex_new (MilestoneIndex_new 6)));
  milestone_index_to_milestone := mkTable ∅;
  memory_snapshot_info := mkSingletonTable (Some info_6);
  solid_entry_point_to_milestone_index := mkTable ∅;
  milestone_index_to_output_diff := mkTable ∅;
  address_to_balance := mkTable {[owner Byte.x01 := mkBalance 10000000 0 0]};
  milestone_index_to_unreferenced_message := mkVecTable ∅;
  milestone_index_to_receipt := mkVecTable ∅;
  spent_to_treasury_output := mkVecTable {[false := [treasury]]};
|}).

Lemma pairs_view_singleton `{Countable K} `{Countable V} (k : K) (v : V) : pairs_view {[k := [v]]} = {[(k, v) := tt]}.
Proof.
  rewrite <- insert_empty, (pairs_view_insert ∅ k v [v]); [done|]. intros x. rewrite lookup_empty. cbn. set_solver.
Qed.

Lemma storage_6_tables : tables storage_6 = tables_6.
Proof. unfold tables_6. rewrite <- !pairs_view_singleton. reflexivity. Qed.

Lemma storage_6_healthy : healthy storage_6.
Proof.
  split; [done|]. split_and!; cbn; intros k vs Hk; try by rewrite lookup_empty in Hk.
  - apply lookup_singleton_Some in Hk as [_ <-]. repeat constructor.
  - apply lookup_singleton_Some in Hk as [_ <-]. apply NoDup_singleton.
Qed.

Lemma tables_6_live : live tables_6 = {[id Byte.x01 := out Byte.x01 10000000]}.
Proof. unfold live. apply map_filter_singleton_True. done. Qed.

Lemma tables_6_inv : ledger_inv tables_6.
Proof.
  split.
  - intros i. cbn [tables_6 t_unspent t_created t_consumed]. rewrite lookup_empty, lookup_singleton_Some.
    rewrite lookup_singleton_is_Some. naive_solver.
  - intros i. cbn [tables_6 t_consumed]. rewrite lookup_empty. by intros [? ?].
  - apply map_subseteq_spec. intros [a i] []. cbn [tables_6 t_address t_created].
    rewrite addresses_lookup, lookup_singleton_Some. setoid_rewrite lookup_singleton_Some. by intros (c & [<- <-] & [= <-]).
  - intros i c Hc. cbn [tables_6 t_created] in Hc. apply lookup_singleton_Some in Hc as [<- <-]. split; [|by eexists].
    vm_compute. intuition congruence.
  - intros a. rewrite tables_6_live. unfold total. rewrite !sum_map_singleton. cbn [t_balance tables_6].
    unfold contrib, out. cbn [created_inner output_contrib single_address single_amount].
    destruct (decide (owner Byte.x01 = a)) as [<-|Hne].
    + rewrite lookup_singleton_eq, bool_decide_true by done. done.
    + by rewrite lookup_singleton_ne, bool_decide_false by done.
  - exists treasury. split_and!; [|vm_compute; intuition congruence|].
    + intros y. cbn [tables_6 t_treasury]. rewrite lookup_singleton_Some. naive_solver.
    + rewrite tables_6_live. unfold amounts. rewrite sum_map_singleton. vm_compute. reflexivity.
Qed.

(** A milestone that moves the output from one owner to another. *)
Definition spend (b : Byte.byte) : ConsumedOutput := ConsumedOutput_new (TransactionId_new (repeat b 32)) seven.
Definition created_7 : gmap OutputId CreatedOutput := {[id Byte.x02 := out Byte.x02 10000000]}.
Definition consumed_7 : gmap OutputId (CreatedOutput * ConsumedOutput) :=
  {[id Byte.x01 := (out Byte.x01 10000000, spend Byte.x02)]}.
Definition diffs_7 : BalanceDiffs :=
  <[owner Byte.x01 := mkBalanceDiff (-10000000) 0 0]> {[owner Byte.x02 := mkBalanceDiff 10000000 0 0]}.

(** A milestone in which the new output is spent again. *)
Definition created_8 : gmap OutputId CreatedOutput :=
  <[id Byte.x02 := out Byte.x02 10000000]> {[id Byte.x03 := out Byte.x03 10000000]}.
Definition consumed_8 : gmap OutputId (CreatedOutput * ConsumedOutput) :=
  <[id Byte.x02 := (out Byte.x02 10000000, spend Byte.x03)]> consumed_7.
Definition diffs_8 : BalanceDiffs :=
  <[owner Byte.x01 := mkBalanceDiff (-10000000) 0 0]> (<[owner Byte.x02 := mkBalanceDiff 0 0 0]>
    {[owner Byte.x03 := mkBalanceDiff 10000000 0 0]}).

Lemma out_contrib a b n :
  contrib a (out b n) = if decide (owner b = a) then mkBalanceDiff n 0 (if n <? DUST_THRESHOLD then 1 else 0)
                        else BalanceDiff_default.
Proof. unfold contrib, out. cbn. case_decide; [by rewrite bool_decide_true | by rewrite bool_decide_false]. Qed.

(** Differences of sums, address by address. *)
Ltac sum_diffs a :=
  unfold total; rewrite ?fmap_insert, ?map_fmap_singleton, ?sum_map_insert, ?sum_map_singleton by (vm_compute; reflexivity);
  cbn [fst]; rewrite !out_contrib;
  unfold entry_or_default;
  destruct (decide (owner Byte.x01 = a)) as [<-|]; [vm_compute; reflexivity|];
  destruct (decide (owner Byte.x02 = a)) as [<-|]; [vm_compute; reflexivity|];
  destruct (decide (owner Byte.x03 = a)) as [<-|]; [vm_compute; reflexivity|];
  rewrite ?lookup_insert_ne, ?lookup_singleton_ne by done; reflexivity.

Lemma valid_7 : valid_milestone tables_6 created_7 consumed_7 diffs_7 None.
Proof.
  unfold created_7, consumed_7, diffs_7. split.
  - apply map_disjoint_singleton_l. vm_compute. reflexivity.
  - intros i c Hc. apply lookup_singleton_Some in Hc as [<- <-]. split; [vm_compute; intuition congruence | by eexists].
  - intros i c x Hc. apply lookup_singleton_Some in Hc as [<- [= <- <-]]. split; vm_compute; reflexivity.
  - intros a. sum_diffs a.
  - vm_compute. reflexivity.
Qed.

Lemma valid_8 : valid_milestone tables_6 created_8 consumed_8 diffs_8 None.
Proof.
  unfold created_8, consumed_8, consumed_7, diffs_8. split.
  - apply map_disjoint_insert_l. split; [vm_compute; reflexivity|]. apply map_disjoint_singleton_l. vm_compute. reflexivity.
  - intros i c Hc. rewrite lookup_insert_Some, lookup_singleton_Some in Hc.
    destruct Hc as [[<- <-]|[_ [<- <-]]]; (split; [vm_compute; intuition congruence | by eexists]).
  - intros i c x Hc. rewrite lookup_insert_Some, lookup_singleton_Some in Hc.
    destruct Hc as [[<- [= <- <-]]|[_ [<- [= <- <-]]]]; split; vm_compute; reflexivity.
  - intros a. sum_diffs a.
  - vm_compute. reflexivity.
Qed.

Lemma milestone_storage_spec_witness :
  exists s, apply_milestone storage_6 seven created_7 consumed_7 diffs_7 None = Ok s
    /\ tables s = applied seven created_7 consumed_7 diffs_7 None (tables storage_6).
Proof.
  assert (Hok : is_ok (apply_milestone storage_6 seven created_7 consumed_7 diffs_7 None) = true) by (vm_compute; reflexivity).
  destruct (milestone_storage_spec storage_6 seven created_7 consumed_7 diffs_7 None storage_6_healthy) as [Ha _].
  destruct (apply_milestone storage_6 seven created_7 consumed_7 diffs_7 None) as [s|e]; [|discriminate Hok].
  exists s. split; [reflexivity | apply Ha].
Defined.

Lemma milestone_preserves_ledger_witness :
  exists s, apply_milestone storage_6 seven created_8 consumed_8 diffs_8 None = Ok s /\ ledger_inv (tables s).
Proof.
  destruct (milestone_preserves_ledger storage_6 seven created_8 consumed_8 diffs_8 None storage_6_healthy) as (s & Ha & _ & Hi).
  - rewrite storage_6_tables. exact tables_6_inv.
  - rewrite storage_6_tables. exact valid_8.
  - exists s. split; [exact Ha | exact Hi].
Defined.

Lemma rollback_restores_witness :
  exists s1 s2, apply_milestone storage_6 seven created_7 consumed_7 diffs_7 None = Ok s1
    /\ rollback_milestone s1 seven created_7 consumed_7 diffs_7 None = Ok s2 /\ tables s2 = tables storage_6.
Proof.
  destruct (rollback_restores storage_6 seven created_7 consumed_7 diffs_7 None storage_6_healthy)
    as (s1 & s2 & Ha & Hr & _ & Ht).
  - rewrite storage_6_tables. exact tables_6_inv.
  - rewrite storage_6_tables. exact valid_7.
  - rewrite storage_6_tables. split.
    + intros i [c Hc]. unfold created_7 in Hc. apply lookup_singleton_Some in Hc as [<- _]. vm_compute. reflexivity.
    + reflexivity.
    + reflexivity.
    + intros a i [c Hc]. unfold created_7 in Hc. apply lookup_singleton_Some in Hc as [<- _]. cbn [tables_6 t_address].
      apply lookup_singleton_ne. by intros [= _ ?].
    + exact I.
  - exists s1, s2. split; [exact Ha|]. split; [exact Hr | exact Ht].
Defined.

Lemma rollback_keeps_transient_outputs_witness :
  exists s1 s2, apply_milestone storage_6 seven created_8 consumed_8 diffs_8 None = Ok s1
    /\ rollback_milestone s1 seven created_8 consumed_8 diffs_8 None = Ok s2
    /\ t_created (tables s2) !! id Byte.x02 = Some (out Byte.x02 10000000)
    /\ t_unspent (tables s2) !! Unspent_new (id Byte.x02) = Some tt.
Proof.
  apply (rollback_keeps_transient_outputs storage_6 seven created_8 consumed_8 diffs_8 None (id Byte.x02)
           (out Byte.x02 10000000) (spend Byte.x03) storage_6_healthy).
  - rewrite storage_6_tables. exact tables_6_inv.
  - rewrite storage_6_tables. exact valid_8.
  - intros a. rewrite (vm_diffs _ _ _ _ _ valid_8 a). unfold created_8, consumed_8, consumed_7, small_diff. unfold total.
    rewrite ?fmap_insert, ?map_fmap_singleton, ?sum_map_insert, ?sum_map_singleton by (vm_compute; reflexivity).
    cbn [fst]. rewrite !out_contrib. repeat case_decide; vm_compute; split_and!; reflexivity.
  - vm_compute. reflexivity.
  - vm_compute. reflexivity.
Defined.
End Examples.
