(* ===== verification/Merkle.v ===== *)
(** * The Merkle hasher

    Models [bee-ledger/src/workers/consensus/merkle_hasher.rs]. The digest function is an argument: updating a hasher
    several times and finalizing it hashes the concatenation. [digest_inner] recurses on slices; it is written with fuel,
    and [digest_inner_unfold] shows that the length of the slice is enough fuel, so that it satisfies the equation of
    the code. *)

From S2P Require Import Prelude External MessageTypes.

Local Open Scope Z_scope.

(** ** Operations *)

Definition LEAF_HASH_PREFIX : byte := Byte.x00.
Definition NODE_HASH_PREFIX : byte := Byte.x01.

(** [u32::leading_zeros] *)
Definition leading_zeros (n : Z) : Z := if n =? 0 then 32 else 31 - Z.log2 n.

(** The shift wraps around in a release build for [n = 0], which the documentation excludes. *)
Definition largest_power_of_two (n : Z) : Z := Z.shiftl 1 (32 - leading_zeros n - 1).

Section merkle_hasher.
Context (D : bytes -> bytes).

Definition merkle_empty : bytes := D [].
Definition merkle_leaf (message_id : MessageId) : bytes := D ([LEAF_HASH_PREFIX] ++ message_id_bytes message_id).

(** The position at which [node] splits. *)
Definition merkle_split (message_ids : list MessageId) : nat :=
  Z.to_nat (largest_power_of_two (as_u 32 (as_u 32 (len message_ids) - 1))).

(** [node], with the recursive calls as an argument. *)
Definition merkle_node (digest_inner : list MessageId -> bytes) (message_ids : list MessageId) : bytes :=
  D ([NODE_HASH_PREFIX] ++ digest_inner (take (merkle_split message_ids) message_ids)
     ++ digest_inner (drop (merkle_split message_ids) message_ids)).

Fixpoint merkle_fuel (fuel : nat) (message_ids : list MessageId) : bytes :=
  match message_ids with
  | [] => merkle_empty
  | [message_id] => merkle_leaf message_id
  | _ =>
      match fuel with
      | O => []
      | S fuel => merkle_node (merkle_fuel fuel) message_ids
      end
  end.

Definition digest_inner (message_ids : list MessageId) : bytes := merkle_fuel (length message_ids) message_ids.
Definition merkle_digest (message_ids : list MessageId) : bytes := digest_inner message_ids.

(** ** The recursion *)

(** The documented meaning of [largest_power_of_two]. *)
Lemma largest_power_of_two_spec n :
  1 <= n < 2 ^ 32 -> exists k, 0 <= k /\ largest_power_of_two n = 2 ^ k /\ 2 ^ k <= n < 2 * 2 ^ k.
Proof.
  intros Hn. exists (Z.log2 n). pose proof (Z.log2_nonneg n). split; [done|]. unfold largest_power_of_two, leading_zeros.
  destruct (Z.eqb_spec n 0); [lia|]. replace (32 - (31 - Z.log2 n) - 1) with (Z.log2 n) by lia.
  rewrite Z.shiftl_1_l. split; [done|]. pose proof (Z.log2_spec n ltac:(lia)) as Hs. rewrite Z.pow_succ_r in Hs by done. lia.
Qed.

Lemma merkle_split_bounds message_ids :
  2 <= len message_ids < 2 ^ 32 -> (0 < merkle_split message_ids < length message_ids)%nat.
Proof.
  intros Hl. unfold merkle_split. rewrite (as_u_id 32 (len _)), as_u_id by (unfold fits; lia).
  destruct (largest_power_of_two_spec (len message_ids - 1) ltac:(lia)) as (k & Hk & -> & Hb).
  pose proof (Z.pow_pos_nonneg 2 k). unfold len in *. lia.
Qed.

Lemma merkle_fuel_enough n m message_ids :
  len message_ids < 2 ^ 32 -> (length message_ids <= n)%nat -> (length message_ids <= m)%nat ->
  merkle_fuel n message_ids = merkle_fuel m message_ids.
Proof.
  revert m message_ids. induction n as [|n IH]; intros m ids Hb Hn Hm; [destruct ids; [by destruct m | cbn in Hn; lia]|].
  destruct ids as [|a [|b ids]]; [by destruct m..|]. destruct m as [|m]; [cbn in Hm; lia|]. cbn [merkle_fuel].
  pose proof (merkle_split_bounds (a :: b :: ids)) as Hs. unfold len in *. cbn [length] in *. unfold merkle_node.
  set (k := merkle_split (a :: b :: ids)) in *. rewrite !(IH m); [done|..]; rewrite ?length_take, ?length_drop; cbn [length]; lia.
Qed.

(** The equation of the code. *)
Lemma digest_inner_unfold message_ids :
  len message_ids < 2 ^ 32 ->
  digest_inner message_ids = match message_ids with
                             | [] => merkle_empty
                             | [message_id] => merkle_leaf message_id
                             | _ => merkle_node digest_inner message_ids
                             end.
Proof.
  destruct message_ids as [|a [|b ids]]; [done..|]. intros Hb. unfold digest_inner at 1.
  change (merkle_fuel (length (a :: b :: ids)) (a :: b :: ids))
    with (merkle_node (merkle_fuel (S (length ids))) (a :: b :: ids)).
  pose proof (merkle_split_bounds (a :: b :: ids)) as Hs. unfold merkle_node, digest_inner, len in *. cbn [length] in *.
  set (k := merkle_split (a :: b :: ids)) in *.
  do 3 f_equal; apply merkle_fuel_enough; unfold len; rewrite ?length_take, ?length_drop; cbn [length]; lia.
Qed.

(** ** Collisions *)

Context (D_len : forall bs, len (D bs) = 32).

Lemma digest_inner_len message_ids : len message_ids < 2 ^ 32 -> length (digest_inner message_ids) = 32%nat.
Proof.
  intros Hb. rewrite digest_inner_unfold by done. assert (forall bs, length (D bs) = 32%nat) as Hl.
  { intros bs. specialize (D_len bs). unfold len in *. lia. }
  destruct message_ids as [|a [|b ids]]; apply Hl.
Qed.

(** What is hashed for a list. *)
Definition merkle_preimage (message_ids : list MessageId) : bytes :=
  match message_ids with
  | [] => []
  | [message_id] => [LEAF_HASH_PREFIX] ++ message_id_bytes message_id
  | _ => [NODE_HASH_PREFIX] ++ digest_inner (take (merkle_split message_ids) message_ids)
         ++ digest_inner (drop (merkle_split message_ids) message_ids)
  end.

Lemma digest_preimage message_ids : len message_ids < 2 ^ 32 -> digest_inner message_ids = D (merkle_preimage message_ids).
Proof. intros Hb. rewrite digest_inner_unfold by done. by destruct message_ids as [|a [|b ids]]. Qed.

(** Everything that is hashed on the way to the root of a list, in the recursion of [digest_inner]. *)
Fixpoint merkle_inputs (fuel : nat) (message_ids : list MessageId) : list bytes :=
  merkle_preimage message_ids ::
  match message_ids, fuel with
  | _ :: _ :: _, S fuel =>
      merkle_inputs fuel (take (merkle_split message_ids) message_ids) ++ merkle_inputs fuel (drop (merkle_split message_ids) message_ids)
  | _, _ => []
  end.
Definition hashed (message_ids : list MessageId) : list bytes := merkle_inputs (length message_ids) message_ids.

(** An input of the first computation and one of the second that are different and have the same digest. *)
Definition collide (xs ys : list bytes) : Prop := exists x y, x ∈ xs /\ y ∈ ys /\ x <> y /\ D x = D y.

Lemma collide_mono xs ys xs' ys' : (forall x, x ∈ xs -> x ∈ xs') -> (forall y, y ∈ ys -> y ∈ ys') -> collide xs ys -> collide xs' ys'.
Proof. intros Hx Hy (x & y & ? & ? & ? & ?). exists x, y. auto. Qed.

Lemma merkle_inputs_length n message_ids :
  (length message_ids <= n)%nat -> 0 < len message_ids < 2 ^ 32 -> len (merkle_inputs n message_ids) = 2 * len message_ids - 1.
Proof.
  revert message_ids. induction n as [|n IH]; intros [|a [|b l]] Hn Hl; unfold len in *; cbn [length] in *; [lia|lia|lia|lia|cbn; lia|].
  cbn [merkle_inputs length]. set (x := a :: b :: l) in *.
  pose proof (merkle_split_bounds x) as Hs. unfold len in Hs. change (length x) with (S (S (length l))) in *. specialize (Hs ltac:(lia)).
  rewrite length_app.
  pose proof (IH (take (merkle_split x) x)) as H1. pose proof (IH (drop (merkle_split x) x)) as H2.
  rewrite length_take in H1. rewrite length_drop in H2. change (length x) with (S (S (length l))) in *. lia.
Qed.

(** Both computations hash their parts. *)
Lemma merkle_inputs_part n x k :
  2 <= len x -> k = take (merkle_split x) x \/ k = drop (merkle_split x) x ->
  forall y, y ∈ merkle_inputs n k -> y ∈ merkle_inputs (S n) x.
Proof.
  intros Hx Hk y Hy. destruct x as [|a [|b l]]; [unfold len in Hx; cbn in Hx; lia..|].
  cbn [merkle_inputs]. right. apply elem_of_app. destruct Hk as [-> | ->]; tauto.
Qed.

Lemma merkle_binding n n' message_ids message_ids' :
  (length message_ids <= n)%nat -> (length message_ids' <= n')%nat -> len message_ids < 2 ^ 32 -> len message_ids' < 2 ^ 32 ->
  digest_inner message_ids = digest_inner message_ids' ->
  message_ids = message_ids' \/ collide (merkle_inputs n message_ids) (merkle_inputs n' message_ids').
Proof.
  revert n' message_ids message_ids'. induction n as [|n IH]; intros n' l l' Hn Hn' Hb Hb' E; rewrite !digest_preimage in E by done;
    (destruct (decide (merkle_preimage l = merkle_preimage l')) as [Hp|Hp];
      [|right; exists (merkle_preimage l), (merkle_preimage l'); split_and!; [destruct l as [|? [|? ?]]; left | destruct n'; left | done | done]]).
  { destruct l; [|cbn in Hn; lia]. left. by destruct l' as [|? [|? ?]]. }
  destruct l as [|a [|b l]], l' as [|a' [|b' l']]; cbn [merkle_preimage app] in Hp; try discriminate Hp; [by left|..].
  - left. injection Hp as Hp. destruct a, a'; cbn in Hp. by subst.
  - set (x := a :: b :: l) in *. set (y := a' :: b' :: l') in *. injection Hp as Hp. destruct n' as [|n']; [cbn in Hn'; lia|].
    assert (2 <= len x /\ 2 <= len y) as [Hx Hy] by (unfold x, y, len; cbn; lia).
    pose proof (merkle_split_bounds x (conj Hx Hb)) as Hs. pose proof (merkle_split_bounds y (conj Hy Hb')) as Hs'.
    assert (Hsub : forall (z : list MessageId) k, len z < 2 ^ 32 -> len (take k z) < 2 ^ 32 /\ len (drop k z) < 2 ^ 32).
    { intros z k Hz. unfold len in *. rewrite length_take, length_drop. lia. }
    apply app_inj_1 in Hp as [Hl Hr]; [|by rewrite !digest_inner_len by (by apply Hsub)].
    apply (IH n') in Hl; [|rewrite ?length_take; lia..|by apply Hsub|by apply Hsub].
    apply (IH n') in Hr; [|rewrite ?length_drop; lia..|by apply Hsub|by apply Hsub].
    destruct Hl as [Hl|Hl]; [|right; eapply collide_mono, Hl; apply merkle_inputs_part; tauto].
    destruct Hr as [Hr|Hr]; [|right; eapply collide_mono, Hr; apply merkle_inputs_part; tauto].
    left. rewrite <- (take_drop (merkle_split x) x), Hl, Hr. apply take_drop.
Qed.
End merkle_hasher.

(** ** Claims *)

(** C37. The Merkle root of a list of messages binds the list: if two different lists have the same root, then among the inputs
    that were hashed to compute the two roots, of which there are fewer than twice as many as messages, there are two
    different ones with the same digest. So on inputs without such a collision equal roots mean equal lists, of the same
    length and in the same order; leaves, nodes and the empty list are not confused. *)
Theorem merkle_root_binding `{CryptoOk} message_ids message_ids' :
  len message_ids < 2 ^ 32 -> len message_ids' < 2 ^ 32 ->
  merkle_digest blake2b256 message_ids = merkle_digest blake2b256 message_ids' ->
  (message_ids <> message_ids' ->
   exists x y, x ∈ hashed blake2b256 message_ids /\ y ∈ hashed blake2b256 message_ids' /\ x <> y /\ blake2b256 x = blake2b256 y)
  /\ len (hashed blake2b256 message_ids) = Z.max 1 (2 * len message_ids - 1).
Proof.
  intros Hl Hl' E. split.
  - intros Hne. by destruct (merkle_binding blake2b256 blake2b256_len _ _ message_ids message_ids' (le_n _) (le_n _) Hl Hl' E).
  - destruct message_ids as [|m l]; [done|]. unfold hashed. rewrite merkle_inputs_length; unfold len in *; cbn [length] in *; lia.
Qed.

(** The recursion of the hasher ends on every slice and computes the tree that splits at the largest power of two
    below the length: a node hashes the digests of two non-empty parts. *)
Theorem merkle_tree_equation `{Crypto} message_ids :
  len message_ids < 2 ^ 32 ->
  digest_inner blake2b256 message_ids
  = match message_ids with
    | [] => merkle_empty blake2b256
    | [message_id] => merkle_leaf blake2b256 message_id
    | _ => merkle_node blake2b256 (digest_inner blake2b256) message_ids
    end
  /\ (2 <= len message_ids ->
      0 < Z.of_nat (merkle_split message_ids) < len message_ids
      /\ exists k, 0 <= k /\ Z.of_nat (merkle_split message_ids) = 2 ^ k /\ len message_ids - 1 < 2 * 2 ^ k).
Proof.
  intros Hl. split; [by apply digest_inner_unfold|]. intros H2.
  pose proof (merkle_split_bounds message_ids (conj H2 Hl)) as Hs. split; [unfold len; lia|].
  destruct (largest_power_of_two_spec (len message_ids - 1) ltac:(lia)) as (k & Hk & E & Hb). exists k. split; [done|].
  unfold merkle_split. rewrite (as_u_id 32 (len _)), as_u_id, E by (unfold fits; lia).
  pose proof (Z.pow_pos_nonneg 2 k). split; lia.
Qed.

Module Examples.
Import Concrete.

Definition msg (b : byte) : MessageId := MessageId_new (repeat b 32).

(** The digest of the example cuts its input: identifiers that differ in the last byte only collide. *)
Definition near (b : byte) : MessageId := MessageId_new (repeat Byte.x05 31 ++ [b]).

Lemma merkle_root_binding_witness :
  merkle_digest blake2b256 [msg Byte.x01; near Byte.x01] = merkle_digest blake2b256 [msg Byte.x01; near Byte.x02]
  /\ [msg Byte.x01; near Byte.x01] <> [msg Byte.x01; near Byte.x02]
  /\ exists x y, x ∈ hashed blake2b256 [msg Byte.x01; near Byte.x01] /\ y ∈ hashed blake2b256 [msg Byte.x01; near Byte.x02]
       /\ x <> y /\ blake2b256 x = blake2b256 y.
Proof.
  split; [reflexivity|]. split; [discriminate|].
  apply (merkle_root_binding [msg Byte.x01; near Byte.x01] [msg Byte.x01; near Byte.x02]); [reflexivity | reflexivity | reflexivity | discriminate].
Defined.

Lemma merkle_tree_equation_witness :
  digest_inner blake2b256 [msg Byte.x01; msg Byte.x02; msg Byte.x03]
  = merkle_node blake2b256 (digest_inner blake2b256) [msg Byte.x01; msg Byte.x02; msg Byte.x03].
Proof. apply (merkle_tree_equation [msg Byte.x01; msg Byte.x02; msg Byte.x03]). reflexivity. Defined.
End Examples.
