(* ===== verification/WhiteFlagOrder.v ===== *)
(** * The order of White Flag

    The loop of [traverse_past_cone] with its stack is a depth first search that applies a message after its parents.
    [visits] is the search, as a relation; [visits_runs] shows that the loop runs it, and [visits_total] that the search
    comes to an end in a tangle without cycles, which gives enough fuel for the loop. *)

From S2P Require Import Prelude External MessageTypes Payload PayloadKeys PayloadCodec Message TangleTypes LedgerTypes Storage StorageTables StorageMemory LedgerStorage Ledger Merkle WhiteFlag.

Local Open Scope Z_scope.

(** ** The order of the traversal *)

Section order.
Context `{IteratorSorted} `{Crypto} `{Hex} `{HashOrder} `{Bitflags} `{LedgerBackend B} `{TangleAccess T}.
Context (tangle : T) (s : B).
Implicit Types (V : gset MessageId) (ids order : list MessageId) (out : gset MessageId + MessageId).

(** A message that the traversal applies. *)
Definition pending_message (id : MessageId) (m : Message) : Prop :=
  exists meta, tangle_message tangle id = Some (m, meta) /\ is_referenced (metadata_flags meta) = false.

(** A message at which the traversal stops: it was referenced before, or is a solid entry point. *)
Definition boundary_message (id : MessageId) : Prop :=
  match tangle_message tangle id with
  | Some (_, meta) => is_referenced (metadata_flags meta) = true
  | None => tangle_is_solid_entry_point tangle id = true
  end.

(** The depth first search that the traversal implements. [visits again V ids order out] visits the messages [ids] one
    after the other, where [V] were visited before: [order] lists the messages that are applied, the parents of a message
    in their order before the message itself; [out] are the messages visited in the end, or a message that is missing.
    With [again] the messages [ids] themselves are visited even if they were visited before. *)
Inductive visits : bool -> gset MessageId -> list MessageId -> list MessageId -> gset MessageId + MessageId -> Prop :=
| visits_nil again V : visits again V [] [] (inl V)
| visits_seen V p ids order out :
    p ∈ V -> visits false V ids order out -> visits false V (p :: ids) order out
| visits_boundary again V p ids order out :
    again = true \/ p ∉ V -> boundary_message p -> visits again ({[p]} ∪ V) ids order out ->
    visits again V (p :: ids) order out
| visits_missing again V p ids :
    again = true \/ p ∉ V -> tangle_message tangle p = None -> tangle_is_solid_entry_point tangle p = false ->
    visits again V (p :: ids) [] (inr p)
| visits_apply again V p ids m order1 V1 order2 out :
    again = true \/ p ∉ V -> pending_message p m ->
    visits false V (parents_inner (message_parents m)) order1 (inl V1) ->
    visits again ({[p]} ∪ V1) ids order2 out -> visits again V (p :: ids) (order1 ++ p :: order2) out
| visits_fail again V p ids m order q :
    again = true \/ p ∉ V -> pending_message p m ->
    visits false V (parents_inner (message_parents m)) order (inr q) -> visits again V (p :: ids) order (inr q).

(** Applying messages in an order. *)
Definition apply_known (md : WhiteFlagMetadata) (id : MessageId) : result WorkerError WhiteFlagMetadata :=
  match tangle_message tangle id with
  | Some (m, _) => apply_message s id m md
  | None => Ok md
  end.

Definition apply_order order (md : WhiteFlagMetadata) : result WorkerError WhiteFlagMetadata := try_fold apply_known md order.

(** What a search leads to when its messages are applied. *)
Definition outcome order out (rest : list MessageId) (md : WhiteFlagMetadata) : traversal + WorkerError :=
  match apply_order order md with
  | Err e => inr e
  | Ok md => match out with inl V => inl (mkTraversal rest V md) | inr q => inr (MissingMessage q) end
  end.

(** The loop gets from a state to another one, or to an error. *)
Definition leads (st : traversal) (o : traversal + WorkerError) : Prop :=
  exists n, forall fuel, traverse (n + fuel) tangle s st
                         = match o with inl st => traverse fuel tangle s st | inr e => Some (Err e) end.

Lemma leads_refl st : leads st (inl st).
Proof. by exists 0%nat. Qed.

Lemma leads_trans st st' o : leads st (inl st') -> leads st' o -> leads st o.
Proof. intros [n Hn] [n' Hn']. exists (n + n')%nat. intros fuel. by rewrite <- Nat.add_assoc, Hn, Hn'. Qed.

Lemma leads_step id rest V md o :
  match traverse_step tangle s id rest V md with Ok st => leads st o | Err e => o = inr e end ->
  leads (mkTraversal (id :: rest) V md) o.
Proof.
  destruct (traverse_step tangle s id rest V md) as [st|e] eqn:E.
  - intros [n Hn]. exists (S n). intros fuel. cbn. by rewrite E, Hn.
  - intros ->. exists 1%nat. intros fuel. cbn. by rewrite E.
Qed.

Lemma apply_order_app order id order' md :
  apply_order (order ++ id :: order') md
  = match apply_order order md with
    | Ok md => match apply_known md id with Ok md => apply_order order' md | Err e => Err e end
    | Err e => Err e
    end.
Proof.
  unfold apply_order. revert md. induction order as [|i order IH]; intros md; [done|]. cbn.
  destruct (apply_known md i); [apply IH | done].
Qed.

Lemma elem_of_snoc {A} (l : list A) x y : y ∈ l ++ [x] -> y ∈ l \/ y = x.
Proof. rewrite elem_of_app, list_elem_of_singleton. done. Qed.

Lemma find_unvisited V ids p ids' :
  (forall q, q ∈ ids -> q ∈ V) -> p ∉ V ->
  find (fun p => negb (bool_decide (p ∈ V))) (ids ++ p :: ids') = Some p.
Proof.
  intros Hs Hp. induction ids as [|q ids IH]; cbn; [by rewrite bool_decide_false|].
  rewrite bool_decide_true by (apply Hs; by left). apply IH. intros x Hx. apply Hs. by right.
Qed.

Lemma find_all_visited V ids :
  (forall q, q ∈ ids -> q ∈ V) -> find (fun p => negb (bool_decide (p ∈ V))) ids = None.
Proof.
  intros Hs. induction ids as [|q ids IH]; cbn; [done|]. rewrite bool_decide_true by (apply Hs; by left). apply IH.
  intros x Hx. apply Hs. by right.
Qed.

Lemma step_pending p m rest V md :
  pending_message p m -> (forall q, q ∈ parents_inner (message_parents m) -> q ∈ V) ->
  traverse_step tangle s p rest V md
  = match apply_known md p with Ok md => Ok (mkTraversal rest ({[p]} ∪ V) md) | Err e => Err e end.
Proof.
  intros (meta & Hm & Hr) Hall. unfold traverse_step, apply_known. rewrite Hm, Hr, find_all_visited by done.
  by destruct (apply_message s p m md).
Qed.

Lemma step_push x m rest V md seen p ids :
  pending_message x m -> parents_inner (message_parents m) = seen ++ p :: ids ->
  (forall q, q ∈ seen -> q ∈ V) -> p ∉ V ->
  traverse_step tangle s x rest V md = Ok (mkTraversal (p :: x :: rest) V md).
Proof.
  intros (meta & Hm & Hr) He Hall Hp. unfold traverse_step. rewrite Hm, Hr, He, find_unvisited; done.
Qed.

Lemma step_boundary p rest V md :
  boundary_message p -> traverse_step tangle s p rest V md = Ok (mkTraversal rest ({[p]} ∪ V) md).
Proof.
  unfold boundary_message, traverse_step. destruct (tangle_message tangle p) as [[m meta]|]; intros ->; done.
Qed.

(** A search visits its messages and keeps the ones visited before. *)
Lemma visits_visited again V ids order V' :
  visits again V ids order (inl V') -> V ⊆ V' /\ forall q, q ∈ ids -> q ∈ V'.
Proof.
  intros Hv. remember (inl V') as out eqn:Eo. revert V' Eo.
  induction Hv as [|? p ids ? ? Hp _ IH|? ? p ids ? ? _ _ _ IH| |? ? p ids ? ? ? ? ? _ _ _ IH1 _ IH2|]; intros V' Eo.
  - injection Eo as <-. split; [done | set_solver].
  - destruct (IH V' Eo) as [Hs Hi]. split; [done|]. intros q [->|?]%elem_of_cons; [by apply Hs | by apply Hi].
  - destruct (IH V' Eo) as [Hs Hi]. split; [set_solver|]. intros q [->|?]%elem_of_cons; [set_solver | by apply Hi].
  - done.
  - destruct (IH1 _ eq_refl) as [Hs1 _], (IH2 V' Eo) as [Hs Hi]. split; [set_solver|].
    intros q [->|?]%elem_of_cons; [set_solver | by apply Hi].
  - done.
Qed.

(** The stack machine of the loop runs a search. A list of parents is found on the message below it. *)
Definition visits_run (again : bool) V ids order out : Prop :=
  if again then forall rest md, leads (mkTraversal (ids ++ rest) V md) (outcome order out rest md)
  else forall x m seen rest md, pending_message x m -> parents_inner (message_parents m) = seen ++ ids ->
       (forall q, q ∈ seen -> q ∈ V) -> leads (mkTraversal (x :: rest) V md) (outcome order out (x :: rest) md).

(** Once the parents of a message have been visited the message is applied. *)
Lemma leads_apply p m V order1 V1 order2 out rest rest' md :
  pending_message p m -> visits false V (parents_inner (message_parents m)) order1 (inl V1) ->
  visits_run false V (parents_inner (message_parents m)) order1 (inl V1) ->
  (forall md, leads (mkTraversal rest ({[p]} ∪ V1) md) (outcome order2 out rest' md)) ->
  leads (mkTraversal (p :: rest) V md) (outcome (order1 ++ p :: order2) out rest' md).
Proof.
  intros Hp Hv Hrun Hrest. specialize (Hrun p m [] rest md Hp eq_refl (fun q Hq => match not_elem_of_nil q Hq with end)).
  unfold outcome in *. rewrite apply_order_app. destruct (apply_order order1 md) as [md1|e]; [|done].
  apply (leads_trans _ _ _ Hrun), leads_step. rewrite (step_pending p m) by (done || by eapply visits_visited).
  destruct (apply_known md1 p) as [md2|e]; [apply Hrest | done].
Qed.

Lemma visits_runs again V ids order out : visits again V ids order out -> visits_run again V ids order out.
Proof.
  induction 1 as [again V|V p ids order out Hp Hv IH|again V p ids order out Hp Hb Hv IH|again V p ids Hp Hm He
    |again V p ids m order1 V1 order2 out Hp Hm Hv1 IH1 Hv2 IH2|again V p ids m order q Hp Hm Hv IH].
  - destruct again; cbn; intros; apply leads_refl.
  - intros x m seen rest md Hx Hpar Hseen. apply (IH x m (seen ++ [p])); [done | by rewrite Hpar, <- app_assoc|].
    intros q [?| ->]%elem_of_snoc; [by apply Hseen | done].
  - destruct again; cbn.
    + intros rest md. apply leads_step. rewrite step_boundary by done. apply IH.
    + intros x m seen rest md Hx Hpar Hseen. destruct Hp as [?|Hp]; [done|].
      apply leads_step. rewrite (step_push x m _ _ _ seen p ids) by done. apply leads_step. rewrite step_boundary by done.
      apply (IH x m (seen ++ [p])); [done | by rewrite Hpar, <- app_assoc|].
      intros q [?%Hseen| ->]%elem_of_snoc; set_solver.
  - assert (Hstep : forall rest md, leads (mkTraversal (p :: rest) V md) (inr (MissingMessage p))).
    { intros rest md. apply leads_step. unfold traverse_step. by rewrite Hm, He. }
    destruct again; cbn; [intros rest md; apply Hstep|]. intros x m seen rest md Hx Hpar Hseen. destruct Hp as [?|Hp]; [done|].
    apply leads_step. rewrite (step_push x m _ _ _ seen p ids) by done. apply Hstep.
  - destruct again; cbn.
    + intros rest md. by apply (leads_apply p m V order1 V1).
    + intros x mx seen rest md Hx Hpar Hseen. destruct Hp as [?|Hp]; [done|]. apply leads_step.
      rewrite (step_push x mx _ _ _ seen p ids) by done. apply (leads_apply p m V order1 V1); [done..|]. intros md'.
      apply (IH2 x mx (seen ++ [p])); [done | by rewrite Hpar, <- app_assoc|]. apply visits_visited in Hv1 as [Hs _].
      intros q [?%Hseen| ->]%elem_of_snoc; set_solver.
  - assert (Hstep : forall rest rest' md, leads (mkTraversal (p :: rest) V md) (outcome order (inr q) rest' md)).
    { intros rest rest' md. specialize (IH p m [] rest md Hm eq_refl (fun q Hq => match not_elem_of_nil q Hq with end)).
      unfold outcome in *. by destruct (apply_order order md). }
    destruct again; cbn; [intros rest md; apply Hstep|]. intros x mx seen rest md Hx Hpar Hseen. destruct Hp as [?|Hp]; [done|].
    apply leads_step. rewrite (step_push x mx _ _ _ seen p ids) by done. apply Hstep.
Qed.

(** *** What the search visits *)

(** The past cone of messages, up to the messages at which the traversal stops. *)
Inductive past_cone (roots : list MessageId) : MessageId -> Prop :=
| cone_root id : id ∈ roots -> past_cone roots id
| cone_parent id m p :
    past_cone roots id -> pending_message id m -> p ∈ parents_inner (message_parents m) -> past_cone roots p.

(** Every message comes after its parents that have to be applied; [V] were applied before. *)
Fixpoint parents_first V order : Prop :=
  match order with
  | [] => True
  | id :: order =>
      (exists m, pending_message id m /\ forall p, p ∈ parents_inner (message_parents m) -> p ∈ V \/ boundary_message p)
      /\ parents_first ({[id]} ∪ V) order
  end.

(** There are no cycles among the messages to apply. *)
Definition acyclic : Prop :=
  exists rank : MessageId -> nat, forall id m p,
    pending_message id m -> p ∈ parents_inner (message_parents m) -> (rank p < rank id)%nat.

Lemma pending_inj id m m' : pending_message id m -> pending_message id m' -> m = m'.
Proof. intros (? & Hm & _) (? & Hm' & _). congruence. Qed.

Lemma pending_not_boundary id m : pending_message id m -> ~ boundary_message id.
Proof. intros (? & Hm & Hr). unfold boundary_message. rewrite Hm, Hr. done. Qed.

Lemma parents_first_mono V V' order :
  (forall z, z ∈ V -> z ∈ V' \/ boundary_message z) -> parents_first V order -> parents_first V' order.
Proof.
  revert V V'. induction order as [|id order IH]; intros V V' Hs; cbn; [done|]. intros [(m & Hm & Hp) Ho].
  split; [exists m; split; [done|]; intros p [?|?]%Hp; [by apply Hs | by right]|]. eapply IH; [|done].
  intros z [->%elem_of_singleton|[?|?]%Hs]%elem_of_union; [left; set_solver..|by right].
Qed.

Lemma parents_first_app V order order' :
  parents_first V order -> parents_first (list_to_set order ∪ V) order' -> parents_first V (order ++ order').
Proof.
  revert V. induction order as [|id order IH]; intros V; cbn.
  - intros _. by rewrite (left_id_L ∅ (∪)).
  - intros [Hid Ho] Ho'. split; [done|]. apply IH; [done|].
    eapply parents_first_mono; [|done]. intros z Hz. left. set_solver.
Qed.

(** What has been visited in the end was visited before, was applied, or is at the boundary. *)
Lemma visits_set again V ids order V' :
  visits again V ids order (inl V') ->
  (forall z, z ∈ V' -> z ∈ V \/ z ∈ order \/ boundary_message z) /\ (forall z, z ∈ order -> z ∈ V').
Proof.
  intros Hv. remember (inl V') as out eqn:Eo. revert V' Eo.
  induction Hv as [|? p ids ? ? Hp _ IH|? ? p ids ? ? _ Hb Hv IH| |? ? p ids m ? V1 ? ? _ Hm Hv1 IH1 Hv2 IH2|]; intros V' Eo;
    simplify_eq.
  - split; [by left | by intros z ?%not_elem_of_nil].
  - by apply IH.
  - destruct (IH V' eq_refl) as [Hi1 Hi2]. split; [|done]. intros z [Hz|?]%Hi1; [set_solver | by right].
  - destruct (IH1 V1 eq_refl) as [Ha1 Ha2], (IH2 V' eq_refl) as [Hb1 Hb2]. apply visits_visited in Hv2 as [Hs _].
    setoid_rewrite elem_of_app. setoid_rewrite elem_of_cons. split.
    + intros z [[->%elem_of_singleton|Hz%Ha1]%elem_of_union|[?|?]]%Hb1; naive_solver.
    + intros z [Hz%Ha2|[->|?]]; [set_solver..|by apply Hb2].
Qed.

(** Searches below a rank. *)
Lemma visits_cone again V ids order out roots :
  visits again V ids order out -> (forall p, p ∈ ids -> past_cone roots p) ->
  (forall z, z ∈ order -> past_cone roots z /\ exists m, pending_message z m)
  /\ (forall q, out = inr q -> past_cone roots q /\ tangle_message tangle q = None
                               /\ tangle_is_solid_entry_point tangle q = false).
Proof.
  induction 1 as [again V|V p ids order out Hp Hv IH|again V p ids order out Hp Hb Hv IH|again V p ids Hp Hm He
    |again V p ids m order1 V1 order2 out Hp Hm Hv1 IH1 Hv2 IH2|again V p ids m order q Hp Hm Hv IH]; intros Hids.
  - split; [by intros z ?%not_elem_of_nil | done].
  - apply IH. intros z Hz. apply Hids. by right.
  - apply IH. intros z Hz. apply Hids. by right.
  - split; [by intros z ?%not_elem_of_nil|]. intros q [= <-]. split; [apply Hids; by left | done].
  - assert (Hc : past_cone roots p) by (apply Hids; by left).
    destruct IH1 as [Ha _]; [intros z Hz; by eapply cone_parent|].
    destruct IH2 as [Hb1 Hb2]; [intros z Hz; apply Hids; by right|]. split; [|done].
    intros z [?|[->|?]%elem_of_cons]%elem_of_app; [by apply Ha | eauto | by apply Hb1].
  - assert (Hc : past_cone roots p) by (apply Hids; by left). apply IH. intros z Hz. by eapply cone_parent.
Qed.

(** The visited messages are closed under parents. *)
Definition closed V : Prop :=
  forall z m p, z ∈ V -> pending_message z m -> p ∈ parents_inner (message_parents m) -> p ∈ V.

Lemma visits_closed again V ids order V' : visits again V ids order (inl V') -> closed V -> closed V'.
Proof.
  intros Hv. remember (inl V') as out eqn:Eo. revert V' Eo.
  induction Hv as [|? p ids ? ? Hp _ IH|? ? p ids ? ? _ Hb Hv IH| |? ? p ids m ? V1 ? ? _ Hm Hv1 IH1 Hv2 IH2|]; intros V' Eo Hc;
    simplify_eq; [done | by apply IH|..].
  - apply IH; [done|]. intros z m x [->%elem_of_singleton|Hz]%elem_of_union Hm Hx.
    + by destruct (pending_not_boundary p m Hm).
    + apply elem_of_union_r. by eapply Hc.
  - apply IH2; [done|]. specialize (IH1 V1 eq_refl Hc). apply visits_visited in Hv1 as [_ Hall].
    intros z mz x [->%elem_of_singleton|Hz]%elem_of_union Hmz Hx; apply elem_of_union_r; [|by eapply IH1].
    rewrite (pending_inj _ _ _ Hmz Hm) in Hx. by apply Hall.
Qed.

Lemma closed_cone V roots id : closed V -> (forall p, p ∈ roots -> p ∈ V) -> past_cone roots id -> id ∈ V.
Proof. intros Hc Hr. induction 1 as [id Hid|id m p _ IH Hm Hp]; [by apply Hr | by eapply Hc]. Qed.

Lemma visits_parents_first again V ids order out : visits again V ids order out -> parents_first V order.
Proof.
  induction 1 as [again V|V p ids order out Hp Hv IH|again V p ids order out Hp Hb Hv IH|again V p ids Hp Hm He
    |again V p ids m order1 V1 order2 out Hp Hm Hv1 IH1 Hv2 IH2|again V p ids m order q Hp Hm Hv IH]; try done.
  - eapply parents_first_mono; [|exact IH]. intros z [->%elem_of_singleton|?]%elem_of_union; [by right | by left].
  - apply parents_first_app; [exact IH1|]. pose proof (visits_visited _ _ _ _ _ Hv1) as [_ Hall].
    apply visits_set in Hv1 as [Hset _]. assert (Hz : forall z, z ∈ V1 -> z ∈ list_to_set order1 ∪ V \/ boundary_message z).
    { intros z [?|[?|?]]%Hset; [left; set_solver..|by right]. }
    cbn. split; [exists m; split; [done|]; intros x Hx; by apply Hz, Hall|].
    eapply parents_first_mono; [|exact IH2]. intros z [->%elem_of_singleton|[?|?]%Hz]%elem_of_union; [left; set_solver..|by right].
Qed.

(** In a tangle without cycles the search comes to an end. *)
Lemma visits_total : acyclic -> forall again V ids, exists order out, visits again V ids order out.
Proof.
  intros [rank Hrank]. assert (Hn : forall n ids, (forall p, p ∈ ids -> (rank p < n)%nat) ->
                                    forall again V, exists order out, visits again V ids order out).
  { induction n as [|n IHn]; intros ids; (induction ids as [|p ids IH]; intros Hids again V; [by repeat eexists; constructor|]).
    { specialize (Hids p). exfalso. enough (rank p < 0)%nat by lia. apply Hids. by left. }
    assert (Hrest : forall again V, exists order out, visits again V ids order out)
      by (apply IH; intros q Hq; apply Hids; by right).
    assert (Hcheck : again = false /\ p ∈ V \/ again = true \/ p ∉ V) by (destruct again, (decide (p ∈ V)); tauto).
    destruct Hcheck as [[-> Hp]|Hp]; [destruct (Hrest false V) as (? & ? & ?); eauto using visits|].
    destruct (tangle_message tangle p) as [[m meta]|] eqn:Em.
    - destruct (is_referenced (metadata_flags meta)) eqn:Er.
      + destruct (Hrest again ({[p]} ∪ V)) as (order & out & Hv). exists order, out. apply visits_boundary; [done| |done].
        unfold boundary_message. by rewrite Em.
      + assert (Hm : pending_message p m) by (by exists meta).
        destruct (IHn (parents_inner (message_parents m))) with (again := false) (V := V) as (order1 & [V1|q] & Hv1).
        { intros q Hq. specialize (Hrank p m q Hm Hq). specialize (Hids p). enough (rank p < S n)%nat by lia. apply Hids. by left. }
        * destruct (Hrest again ({[p]} ∪ V1)) as (order2 & out & Hv2). eauto using visits.
        * eauto using visits.
    - destruct (tangle_is_solid_entry_point tangle p) eqn:Es; [|eauto using visits].
      destruct (Hrest again ({[p]} ∪ V)) as (order & out & Hv). exists order, out. apply visits_boundary; [done| |done].
      unfold boundary_message. by rewrite Em. }
  intros again V ids. apply (Hn (S (list_max (rank <$> ids)))). intros p Hp.
  pose proof (list_max_le (rank <$> ids) (list_max (rank <$> ids))) as [Hmax _]. specialize (Hmax (le_n _)).
  rewrite Forall_forall in Hmax. specialize (Hmax (rank p)). enough (rank p <= list_max (rank <$> ids))%nat by lia.
  apply Hmax. apply list_elem_of_fmap. by exists p.
Qed.

(** A search is what White Flag does. *)
Lemma visits_white_flag parents md order out :
  visits true ∅ parents order out ->
  parents_first ∅ order
  /\ (forall id, id ∈ order -> past_cone parents id /\ exists m, pending_message id m)
  /\ match out with
     | inl _ => forall id m, past_cone parents id -> pending_message id m -> id ∈ order
     | inr q => past_cone parents q /\ tangle_message tangle q = None /\ tangle_is_solid_entry_point tangle q = false
     end
  /\ exists n, forall fuel, (n <= fuel)%nat ->
       white_flag fuel tangle s parents md
       = Some (let? md := apply_order order md in match out with inl _ => white_flag_finish md | inr q => Err (MissingMessage q) end).
Proof.
  intros Hv. destruct (visits_cone _ _ _ _ _ parents Hv) as [Hc Hq]; [intros p Hp; by apply cone_root|].
  split_and!; [by eapply visits_parents_first | done|..].
  - destruct out as [V|q]; [|by apply Hq]. intros id m Hid Hm.
    assert (Hin : id ∈ V).
    { eapply closed_cone; [eapply visits_closed; [done|]; by intros z ? ? ?%not_elem_of_empty | | done].
      by eapply visits_visited. }
    apply visits_set in Hv as [Hset _]. destruct (Hset id Hin) as [?|[?|?]]; [set_solver | done|].
    by destruct (pending_not_boundary id m Hm).
  - destruct (visits_runs _ _ _ _ _ Hv [] md) as [n Hn]. exists n. intros fuel Hfuel.
    replace fuel with (n + (fuel - n))%nat by lia. unfold white_flag, traverse_past_cone. rewrite reverse_involutive.
    rewrite app_nil_r in Hn. rewrite Hn. unfold outcome. destruct (apply_order order md) as [md'|e]; [|done].
    destruct out as [V|q]; [|done]. by destruct (fuel - n)%nat.
Qed.
End order.

(** C21. White Flag confirms the past cone of a milestone in depth first order: in a tangle without cycles there is an order
    of messages, the one of [visits], which contains exactly the messages of the past cone that have not been referenced
    yet, each after its parents, such that with enough fuel the result is the one of applying the messages in that order;
    if a message of the past cone is missing then an error is returned. *)
Theorem white_flag_order `{IteratorSorted} `{Crypto} `{Hex} `{HashOrder} `{Bitflags} `{LedgerBackend B} `{TangleAccess T}
    (tangle : T) (s : B) parents md :
  acyclic tangle ->
  exists order out,
    visits tangle true ∅ parents order out /\ parents_first tangle ∅ order
    /\ (forall id, id ∈ order -> past_cone tangle parents id /\ exists m, pending_message tangle id m)
    /\ match out with
       | inl _ => forall id m, past_cone tangle parents id -> pending_message tangle id m -> id ∈ order
       | inr q => past_cone tangle parents q /\ tangle_message tangle q = None
                  /\ tangle_is_solid_entry_point tangle q = false
       end
    /\ exists n, forall fuel, (n <= fuel)%nat ->
         white_flag fuel tangle s parents md
         = Some (let? md := apply_order tangle s order md in
                 match out with inl _ => white_flag_finish md | inr q => Err (MissingMessage q) end).
Proof.
  intros Hac. destruct (visits_total tangle Hac true ∅ parents) as (order & out & Hv). exists order, out.
  split; [done|]. by apply visits_white_flag.
Qed.

(** ** Evaluation *)

Module Examples.
Import Concrete Ledger.Examples.

(** A tangle as a finite map. *)
Record MapTangle := mkMapTangle { mt_vertices : gmap MessageId Vertex; mt_entry_points : gset MessageId }.

#[export] Instance map_tangle_access : TangleAccess MapTangle := {
  tangle_vertex t id := mt_vertices t !! id;
  tangle_is_solid_entry_point t id := bool_decide (id ∈ mt_entry_points t);
}.

Definition msg_id (b : Byte.byte) : MessageId := MessageId_new (repeat b 32).
Definition vertex (parents : list MessageId) (payload : option Payload) : Vertex :=
  Vertex_new (mkMessage 0 (mkParents parents) payload 0) MessageMetadata_default.

(** A transaction that one owner signs. *)
Definition signed (b : Byte.byte) (input : OutputId) (output : Output) : TransactionPayload :=
  let essence := Essence_Regular (mkRegularEssence [Input_Utxo (mkUtxoInput input)] [output] None) in
  mkTransactionPayload essence
    (mkUnlockBlocks [UnlockBlock_Signature (SignatureUnlock_Ed25519
       (Ed25519Signature_new (repeat b 32) (Essence_hash essence ++ repeat Byte.x00 32)))]).

Definition transfer : TransactionPayload :=
  signed Byte.x01 (id Byte.x01) (Output_SignatureLockedSingle (mkSingle (owner Byte.x02) 10000000)).

(** The entry point [0], a message [1] with a transaction, and a message [2] that approves it. *)
Definition small_tangle : MapTangle :=
  mkMapTangle (<[msg_id Byte.x01 := vertex [msg_id Byte.x00] (Some (Payload_Transaction transfer))]>
                 {[msg_id Byte.x02 := vertex [msg_id Byte.x01] None]}) {[msg_id Byte.x00]}.

Definition summary (r : option (result WorkerError WhiteFlagMetadata)) :=
  match r with
  | Some (Ok md) => Some (included_messages md, excluded_no_transaction_messages md, excluded_conflicting_messages md)
  | _ => None
  end.

Lemma small_tangle_messages i m meta :
  tangle_message small_tangle i = Some (m, meta) ->
  i = msg_id Byte.x01 /\ parents_inner (message_parents m) = [msg_id Byte.x00]
    /\ message_payload m = Some (Payload_Transaction transfer)
  \/ i = msg_id Byte.x02 /\ parents_inner (message_parents m) = [msg_id Byte.x01] /\ message_payload m = None.
Proof.
  intros Hm. unfold tangle_message, tangle_vertex, map_tangle_access, small_tangle, mt_vertices in Hm.
  apply bind_Some in Hm as (v & Hv & Hm). rewrite lookup_insert_Some, lookup_singleton_Some in Hv.
  destruct Hv as [[<- <-]|[_ [<- <-]]]; injection Hm as <- _; [left | right]; split_and!; reflexivity.
Qed.

Lemma small_tangle_acyclic : acyclic small_tangle.
Proof.
  exists (fun i => if decide (i = msg_id Byte.x02) then 2 else if decide (i = msg_id Byte.x01) then 1 else 0)%nat.
  intros i m p (meta & Hm & _) Hp.
  apply small_tangle_messages in Hm as [(-> & He & _)|(-> & He & _)]; rewrite He in Hp; apply list_elem_of_singleton in Hp as ->;
    vm_compute; lia.
Qed.

Lemma white_flag_order_witness :
  exists order out n, visits small_tangle true ∅ [msg_id Byte.x02] order out
    /\ msg_id Byte.x01 ∈ order
    /\ white_flag n small_tangle storage_6 [msg_id Byte.x02] (WhiteFlagMetadata_new seven)
       = Some (let? md := apply_order small_tangle storage_6 order (WhiteFlagMetadata_new seven) in
               match out with inl _ => white_flag_finish md | inr q => Err (MissingMessage q) end).
Proof.
  destruct (white_flag_order small_tangle storage_6 [msg_id Byte.x02] (WhiteFlagMetadata_new seven) small_tangle_acyclic)
    as (order & out & Hv & _ & Ho & Hall & n & Hn).
  assert (Hroot : past_cone small_tangle [msg_id Byte.x02] (msg_id Byte.x02)) by (apply cone_root; left).
  assert (Hcone : past_cone small_tangle [msg_id Byte.x02] (msg_id Byte.x01)).
  { eapply cone_parent; [exact Hroot | exists MessageMetadata_default; split; vm_compute; reflexivity | left]. }
  exists order, out, n. split; [exact Hv|]. split; [|apply Hn; apply le_n].
  destruct out as [V|q].
  - eapply Hall; [exact Hcone | exists MessageMetadata_default; split; vm_compute; reflexivity].
  - exfalso. destruct Hall as (Hq & Hnone & Hsep). destruct Hq as [i Hi|i m p _ (meta & Hm & _) Hp].
    + apply list_elem_of_singleton in Hi as ->. vm_compute in Hnone. discriminate.
    + apply small_tangle_messages in Hm as [(-> & He & _)|(-> & He & _)]; rewrite He in Hp; apply list_elem_of_singleton in Hp as ->.
      * vm_compute in Hsep. discriminate.
      * vm_compute in Hnone. discriminate.
Defined.

(** A parent of a milestone that is in the past cone of an earlier parent is applied a second time: the transaction of
    the message [1] is included and is then reported as a conflict with itself, and three messages are counted although
    the past cone has two. With the parents in the other order each message is applied once. *)
Theorem parents_applied_twice :
  summary (white_flag 10 small_tangle storage_6 [msg_id Byte.x02; msg_id Byte.x01] (WhiteFlagMetadata_new seven))
  = Some ([msg_id Byte.x01], [msg_id Byte.x02], [(msg_id Byte.x01, InputUtxoAlreadySpentInThisMilestone)])
  /\ summary (white_flag 10 small_tangle storage_6 [msg_id Byte.x01; msg_id Byte.x02] (WhiteFlagMetadata_new seven))
     = Some ([msg_id Byte.x01], [msg_id Byte.x02], []).
Proof. split; vm_compute; reflexivity. Qed.
End Examples.
