(* ===== verification/WhiteFlagLedger.v ===== *)
(** * White Flag keeps the ledger consistent

    What the confirmation of a milestone by [WhiteFlag] does to the ledger. [metadata_inv] is the invariant of the
    metadata while the past cone is traversed; a transaction that is included preserves it because its inputs were found
    unspent, its outputs are new, and its differences are the ones of these outputs. [history] relates the outputs that
    were ever spent to the transactions that spent them: it rules out that a transaction is applied twice. *)

From S2P Require Import Prelude Packable External MessageTypes Payload PayloadKeys PayloadCodec Message TangleTypes LedgerTypes Storage StorageTables StorageMemory LedgerStorage Ledger Merkle WhiteFlag WhiteFlagOrder.

Local Open Scope Z_scope.

(** ** Inputs *)

(** The differences of a set of outputs. *)
Definition total_diff (a : Address) (m : gmap OutputId CreatedOutput) : BalanceDiff :=
  mkBalanceDiff (balance_amount (total a m)) (balance_dust_allowance (total a m)) (balance_dust_outputs (total a m)).

Lemma total_diff_empty a : total_diff a ∅ = BalanceDiff_default.
Proof. unfold total_diff, total. cbn. by rewrite !sum_map_empty. Qed.

Lemma total_diff_insert a m id c :
  m !! id = None -> total_diff a (<[id := c]> m) = diff_plus (contrib a c) (total_diff a m).
Proof. intros Hn. unfold total_diff, total. cbn. by rewrite !sum_map_insert. Qed.

Lemma total_diff_union a m m' : m ##ₘ m' -> total_diff a (m ∪ m') = diff_plus (total_diff a m) (total_diff a m').
Proof. intros Hd. unfold total_diff. by rewrite total_union. Qed.

Lemma amounts_insert m id c : m !! id = None -> amounts (<[id := c]> m) = output_amount (created_inner c) + amounts m.
Proof. intros Hn. unfold amounts. by rewrite sum_map_insert. Qed.

Lemma amounts_union m m' : m ##ₘ m' -> amounts (m ∪ m') = amounts m + amounts m'.
Proof. intros Hd. unfold amounts. by rewrite sum_map_union. Qed.

Lemma amounts_empty : amounts ∅ = 0.
Proof. apply sum_map_empty. Qed.

Lemma total_empty a : total a ∅ = Balance_default.
Proof. unfold total. by rewrite !sum_map_empty. Qed.

(** The sum of the amounts of balance differences. *)
Definition diffs_sum (d : BalanceDiffs) : Z := sum_map diff_amount d.

Lemma diffs_sum_insert d a x : diffs_sum (<[a := x]> d) = diffs_sum d - diff_amount (entry_or_default d a) + diff_amount x.
Proof.
  unfold diffs_sum, entry_or_default. destruct (d !! a) as [y|] eqn:E; cbn.
  - rewrite <- (insert_delete_id d a y E) at 2. rewrite <- insert_delete_eq, !sum_map_insert by apply lookup_delete_eq. lia.
  - rewrite sum_map_insert by done. lia.
Qed.

Lemma output_add_sum m o m' : wf_Output o -> output_add m o = Ok m' -> diffs_sum m' = diffs_sum m + output_amount o.
Proof.
  intros Ho Hm. pose proof (wf_output_amount o Ho) as Ha. destruct o as [x|x|x]; cbn in Hm, Ha; [| |done].
  - unfold amount_add, dust_outputs_inc in Hm. inv_entry. rewrite supply_as_i in * by done.
    destruct (single_amount x <? DUST_THRESHOLD); inv_entry;
      rewrite !diffs_sum_insert, ?entry_insert, ?decide_True by done; cbn; lia.
  - unfold amount_add, dust_allowance_add in Hm. inv_entry. rewrite supply_as_i in * by done.
    rewrite !diffs_sum_insert, ?entry_insert, ?decide_True by done. cbn. lia.
Qed.

Lemma output_sub_sum m o m' : wf_Output o -> output_sub m o = Ok m' -> diffs_sum m' = diffs_sum m - output_amount o.
Proof.
  intros Ho Hm. pose proof (wf_output_amount o Ho) as Ha. destruct o as [x|x|x]; cbn in Hm, Ha; [| |done].
  - unfold amount_sub, dust_outputs_dec in Hm. inv_entry. rewrite supply_as_i in * by done.
    destruct (single_amount x <? DUST_THRESHOLD); inv_entry;
      rewrite !diffs_sum_insert, ?entry_insert, ?decide_True by done; cbn; lia.
  - unfold amount_sub, dust_allowance_sub in Hm. inv_entry. rewrite supply_as_i in * by done.
    rewrite !diffs_sum_insert, ?entry_insert, ?decide_True by done. cbn. lia.
Qed.

Lemma merge_entries_sum l m m' :
  merge_entries m l = Ok m' -> diffs_sum m' = diffs_sum m + sum_Z (fun e => diff_amount e.2) l.
Proof.
  revert m. induction l as [|[k d] l IH]; intros m; cbn [merge_entries].
  - intros Hm. inv_ok. cbn. lia.
  - intros (m1 & Hm1 & Hm)%result_bind_Ok. apply IH in Hm. rewrite sum_Z_cons. cbn [snd].
    unfold merge_entry in Hm1. inv_entry. rewrite diffs_sum_insert in Hm. cbn [diff_amount] in Hm. lia.
Qed.

Lemma merge_sum `{HashOrderOk} m d m' : BalanceDiffs_merge m d = Ok m' -> diffs_sum m' = diffs_sum m + diffs_sum d.
Proof.
  unfold BalanceDiffs_merge. intros Hm%merge_entries_sum. rewrite Hm.
  by rewrite (sum_Z_perm _ _ _ (hash_iter_perm d)).
Qed.

(** The owner of an output has to unlock it. *)
Definition output_owner (o : Output) : option Address :=
  match o with
  | Output_SignatureLockedSingle s => Some (single_address s)
  | Output_SignatureLockedDustAllowance s => Some (dust_address s)
  | Output_Treasury _ => None
  end.

(** The outputs of a transaction, as they are stored. *)
Fixpoint new_outputs (message_id : MessageId) (tx : TransactionId) (index : Z) (outputs : list Output)
    : gmap OutputId CreatedOutput :=
  match outputs with
  | [] => ∅
  | o :: outputs =>
      <[mkOutputId tx index := CreatedOutput_new message_id o]> (new_outputs message_id tx (index + 1) outputs)
  end.

(** What a list of outputs adds to the balance of an address. *)
Fixpoint outputs_diff (a : Address) (outputs : list Output) : BalanceDiff :=
  match outputs with
  | [] => BalanceDiff_default
  | o :: outputs => diff_plus (output_contrib a o) (outputs_diff a outputs)
  end.

Lemma new_outputs_lookup m tx i outputs id c :
  new_outputs m tx i outputs !! id = Some c ->
  output_transaction_id id = tx /\ i <= output_index id /\ exists o, o ∈ outputs /\ c = CreatedOutput_new m o.
Proof.
  revert i. induction outputs as [|o outputs IH]; intros i; cbn [new_outputs]; [by rewrite lookup_empty|].
  intros [[<- <-]|[_ Hc]]%lookup_insert_Some; cbn.
  - split_and!; [done | lia|]. exists o. split; [by left | done].
  - apply IH in Hc as (? & ? & o' & ? & ?). split_and!; [done | lia|]. exists o'. split; [by right | done].
Qed.

Lemma new_outputs_fresh m tx i outputs : new_outputs m tx (i + 1) outputs !! mkOutputId tx i = None.
Proof. apply eq_None_not_Some. intros [c (_ & Hi & _)%new_outputs_lookup]. cbn in Hi. lia. Qed.

Lemma new_outputs_total a m tx i outputs : total_diff a (new_outputs m tx i outputs) = outputs_diff a outputs.
Proof.
  revert i. induction outputs as [|o outputs IH]; intros i; cbn [new_outputs outputs_diff]; [apply total_diff_empty|].
  rewrite total_diff_insert, IH by apply new_outputs_fresh. done.
Qed.

Lemma new_outputs_amounts m tx i outputs : amounts (new_outputs m tx i outputs) = sum_Z output_amount outputs.
Proof.
  revert i. induction outputs as [|o outputs IH]; intros i; cbn [new_outputs]; [apply amounts_empty|].
  rewrite amounts_insert, IH, sum_Z_cons by apply new_outputs_fresh. done.
Qed.

Lemma insert_outputs_eq m tx i outputs created :
  0 <= i -> i + len outputs <= INPUT_OUTPUT_COUNT_MAX ->
  insert_outputs m tx i outputs created = Ok (new_outputs m tx i outputs ∪ created).
Proof.
  revert i created. induction outputs as [|o outputs IH]; intros i created Hi Hn; cbn [insert_outputs new_outputs].
  - by rewrite (left_id_L ∅ (∪)).
  - assert (Hl : len (o :: outputs) = len outputs + 1) by (unfold len; cbn; lia). rewrite Hl in Hn.
    unfold OutputId_new. rewrite as_u_id by (unfold fits, INPUT_OUTPUT_COUNT_MAX in *; unfold len in *; lia).
    assert (input_output_index_range i = true) as ->.
    { unfold input_output_index_range, range_contains. unfold INPUT_OUTPUT_COUNT_MAX, len in *.
      cbn in *. lia. }
    cbn [ensure result_bind map_err]. rewrite IH by lia.
    rewrite <- insert_union_r by apply new_outputs_fresh. by rewrite insert_union_l.
Qed.

Lemma apply_outputs_Ok outputs diffs amount diffs' amount' :
  Forall wf_Output outputs -> apply_outputs outputs diffs amount = Ok (diffs', amount') ->
  (forall a, entry_or_default diffs' a = diff_plus (entry_or_default diffs a) (outputs_diff a outputs))
  /\ amount' = amount + sum_Z output_amount outputs
  /\ diffs_sum diffs' = diffs_sum diffs + sum_Z output_amount outputs
  /\ Forall (fun o => is_Some (output_owner o)) outputs.
Proof.
  revert diffs amount. induction outputs as [|o outputs IH]; intros diffs amount; cbn [apply_outputs].
  { intros _ [= <- <-]. split_and!; [intros a; by rewrite diff_plus_0_r | cbn; lia..|constructor]. }
  intros [Ho Hos]%Forall_cons.
  assert (Hstep : forall d1, output_add diffs o = Ok d1 ->
    apply_outputs outputs d1 (amount + output_amount o) = Ok (diffs', amount') -> is_Some (output_owner o) ->
    (forall a, entry_or_default diffs' a = diff_plus (entry_or_default diffs a) (outputs_diff a (o :: outputs)))
    /\ amount' = amount + sum_Z output_amount (o :: outputs)
    /\ diffs_sum diffs' = diffs_sum diffs + sum_Z output_amount (o :: outputs)
    /\ Forall (fun o => is_Some (output_owner o)) (o :: outputs)).
  { intros d1 Ha Hr Hw. apply IH in Hr as (He & -> & Hsum & Hf); [|done]. rewrite sum_Z_cons. split_and!; [|lia| |by constructor].
    - intros a. rewrite He, (output_add_entry _ _ _ a Ho Ha). cbn [outputs_diff]. by rewrite diff_plus_assoc.
    - rewrite Hsum, (output_add_sum _ _ _ Ho Ha). lia. }
  destruct o as [x|x|x]; [| |done]; intros (n & Hn & Hr)%result_bind_Ok;
    apply ok_or_Ok, u_checked_add_Some in Hn as [-> _]; apply result_bind_Ok in Hr as (d1 & Hd1 & Hr);
    apply result_bind_Ok in Hr as (d2 & Hd2 & Hr); apply (Hstep d2); try done; cbn [output_add]; by rewrite Hd1.
Qed.

(** Inserting the entries of a map one after the other. *)
Lemma foldl_insert_union `{Countable K} {A C} (f : A -> C) (l : list (K * A)) (m : gmap K C) :
  NoDup l.*1 -> foldl (fun m '(k, v) => <[k := f v]> m) m l = (f <$> list_to_map l) ∪ m.
Proof.
  revert m. induction l as [|[k v] l IH]; intros m; cbn [foldl fmap list_fmap fst].
  - intros _. cbn. by rewrite fmap_empty, (left_id_L ∅ (∪)).
  - intros [Hk Hd]%NoDup_cons. rewrite IH by done. rewrite list_to_map_cons, fmap_insert, <- insert_union_l.
    rewrite <- insert_union_r; [done|]. by rewrite lookup_fmap, (not_elem_of_list_to_map_1 l k Hk).
Qed.

(** ** The history of the ledger *)

Definition tx_essence (tx : TransactionPayload) : RegularEssence := regular_essence (transaction_essence tx).

(** An output is an input of a transaction. *)
Definition tx_spends (tx : TransactionPayload) (id : OutputId) : Prop :=
  Input_Utxo (mkUtxoInput id) ∈ essence_inputs (tx_essence tx).

(** A set of transactions that were checked when they were decoded and whose identifiers do not collide. *)
Record known_transactions `{IteratorSorted} `{Crypto} (P : TransactionPayload -> Prop) : Prop := {
  kt_wf tx : P tx -> wf_Payload (Payload_Transaction tx);
  kt_id tx tx' : P tx -> P tx' -> TransactionPayload_id tx = TransactionPayload_id tx' -> tx = tx';
}.

(** [spent] are the outputs that were spent up to the current state of the ledger, whether or not they are still stored:
    they cannot be spent again, and when an output of a transaction exists or was spent then the inputs of the transaction
    were spent as well. *)
Record history `{IteratorSorted} `{Crypto} (P : TransactionPayload -> Prop) (t : LedgerTables) (spent : gset OutputId)
    : Prop := {
  hist_spent id : id ∈ spent -> live t !! id = None;
  hist_applied tx id : P tx -> output_transaction_id id = TransactionPayload_id tx ->
    is_Some (t_created t !! id) \/ id ∈ spent -> forall i, tx_spends tx i -> i ∈ spent;
}.

Lemma tx_essence_wf tx :
  wf_Payload (Payload_Transaction tx) ->
  Forall wf_Output (essence_outputs (tx_essence tx))
  /\ essence_spec (essence_inputs (tx_essence tx)) (essence_outputs (tx_essence tx)) (essence_payload (tx_essence tx)).
Proof. intros ((_ & Ho & He & _) & _). done. Qed.

(** An address holds no more dust outputs than its dust allowance permits. *)
Definition dust_ok (b : Balance) : Prop := balance_dust_outputs b <= dust_outputs_max (balance_dust_allowance b).

Lemma dust_outputs_max_mono x y : 0 <= x <= y -> dust_outputs_max x <= dust_outputs_max y.
Proof.
  intros Hxy. unfold dust_outputs_max, DUST_ALLOWANCE_DIVISOR, DUST_OUTPUTS_MAX.
  pose proof (Z.div_le_mono x y 100000). lia.
Qed.

Lemma dust_ok_mono b d :
  nonneg_Balance b -> is_dust_mutating d = false -> dust_ok b -> dust_ok (balance_plus b d).
Proof.
  unfold is_dust_mutating, dust_ok, nonneg_Balance. intros Hb Hd Hok. bool_to_prop.
  unfold balance_plus. cbn. pose proof (dust_outputs_max_mono (balance_dust_allowance b)
    (balance_dust_allowance b + diff_dust_allowance d)). lia.
Qed.

Section proofs.
Context `{IteratorSorted} `{Crypto} `{Hex} `{HashOrderOk} `{Bitflags} `{LedgerBackendOk B} `{TangleAccess T}.
Context (s : B) (Hs : healthy s).
Implicit Types (md : WhiteFlagMetadata).
Let t := tables s.

Lemma find_input_inr md i id c :
  find_input s md i = Ok (inr (id, c)) ->
  i = Input_Utxo (mkUtxoInput id) /\ consumed_outputs md !! id = None
  /\ (created_outputs md !! id = Some c
      \/ created_outputs md !! id = None /\ t_created t !! id = Some c /\ t_unspent t !! Unspent_new id = Some tt).
Proof.
  destruct i as [[o]|]; [|done]. unfold find_input. cbn [utxo_output_id]. case_bool_decide as Hc; [done|].
  apply eq_None_not_Some in Hc. destruct (created_outputs md !! o) as [c'|] eqn:E.
  { intros [= <- <-]. split_and!; [done..|by left]. }
  unfold fetch_output, is_output_unspent. rewrite (fetch_ok (FetchOk := fetch_created_ok)) by done.
  rewrite (exist_ok (ExistOk := exist_unspent_ok)) by done. cbn.
  destruct (t_created (tables s) !! o) as [c'|] eqn:F; [|done]. case_bool_decide as G; cbn; [|done].
  intros [= <- <-]. destruct G as [[] G]. split_and!; [done..|]. right. done.
Qed.

Lemma consume_output_inr u h i st id c st' :
  consume_output u h i st id c = Ok (inr st') ->
  exists diffs owner, output_sub (is_diffs st) (created_inner c) = Ok diffs
    /\ output_owner (created_inner c) = Some owner /\ verify_signature owner u i h = true
    /\ st' = mkInputState (<[id := c]> (is_consumed st)) diffs (is_amount st + output_amount (created_inner c)).
Proof.
  unfold consume_output. destruct (created_inner c) as [o|o|o]; cbn [output_owner output_amount]; [| |done];
    intros Hr; apply result_bind_Ok in Hr as (x & Hx & Hr); apply ok_or_Ok, u_checked_add_Some in Hx as [-> _];
    apply result_bind_Ok in Hr as (d1 & Hd1 & Hr); apply result_bind_Ok in Hr as (d2 & Hd2 & Hr);
    (destruct (verify_signature _ _ _ _) eqn:Hv; cbn [negb] in Hr; [|done]); injection Hr as <-.
  - exists d2, (single_address o). cbn [output_sub]. rewrite Hd1. done.
  - exists d2, (dust_address o). cbn [output_sub]. rewrite Hd1. done.
Qed.

(** What the loop over the inputs has found. *)
Record inputs_ok md (done : list Input) (st : input_state) : Prop := {
  io_diffs a : entry_or_default (is_diffs st) a = diff_opp (total_diff a (is_consumed st));
  io_amount : is_amount st = amounts (is_consumed st);
  io_sum : diffs_sum (is_diffs st) = - is_amount st;
  io_found id c : is_consumed st !! id = Some c ->
    consumed_outputs md !! id = None /\ (created_outputs md ∪ t_created t) !! id = Some c /\ t_consumed t !! id = None;
  io_done id : is_Some (is_consumed st !! id) <-> Input_Utxo (mkUtxoInput id) ∈ done;
  io_utxo i : i ∈ done -> exists id, i = Input_Utxo (mkUtxoInput id);
}.

(** The part of the invariant of the metadata that the inputs rely on. *)
Definition outputs_known md : Prop :=
  created_outputs md ##ₘ t_created t /\ wf_outputs (created_outputs md).

Lemma found_output md id c :
  ledger_inv t -> outputs_known md ->
  created_outputs md !! id = Some c
  \/ created_outputs md !! id = None /\ t_created t !! id = Some c /\ t_unspent t !! Unspent_new id = Some tt ->
  (created_outputs md ∪ t_created t) !! id = Some c /\ t_consumed t !! id = None.
Proof.
  intros Hinv [Hd _] [Hc|(Hn & Hc & Hu)].
  - split; [by apply lookup_union_Some_l|]. apply eq_None_not_Some. intros Hx%(inv_consumed t Hinv).
    rewrite (map_disjoint_Some_l _ _ _ _ Hd Hc) in Hx. by destruct Hx.
  - split; [by apply lookup_union_Some_raw; right|]. by apply (inv_unspent t Hinv).
Qed.

Lemma wf_found md id c :
  ledger_inv t -> outputs_known md -> (created_outputs md ∪ t_created t) !! id = Some c ->
  wf_Output (created_inner c) /\ is_Some (created_address c).
Proof. intros Hinv [_ Hw]. apply wf_outputs_union; [done | by apply inv_created]. Qed.

Lemma inputs_ok_init md : inputs_ok md [] (mkInputState ∅ BalanceDiffs_new 0).
Proof.
  split; cbn [is_consumed is_diffs is_amount].
  - intros a. rewrite total_diff_empty. done.
  - by rewrite amounts_empty.
  - apply sum_map_empty.
  - intros id c. by rewrite lookup_empty.
  - intros id. rewrite lookup_empty. split; [by intros [? ?] | by intros ?%not_elem_of_nil].
  - by intros i ?%not_elem_of_nil.
Qed.

Lemma inputs_ok_step md u h n st i id c st' done :
  ledger_inv t -> outputs_known md -> inputs_ok md done st -> i ∉ done ->
  find_input s md i = Ok (inr (id, c)) -> consume_output u h n st id c = Ok (inr st') -> inputs_ok md (done ++ [i]) st'.
Proof.
  intros Hinv Hk [Hdi Ha Hsum Hf Hd Hu] Hi (-> & Hco & Hfound)%find_input_inr (diffs & owner & Hsub & _ & _ & ->)%consume_output_inr.
  destruct (found_output md id c Hinv Hk Hfound) as [Hc Hn]. destruct (wf_found md id c Hinv Hk Hc) as [Hw _].
  assert (Hnew : is_consumed st !! id = None) by (apply eq_None_not_Some; by rewrite Hd).
  split; cbn [is_consumed is_diffs is_amount].
  - intros a. rewrite (output_sub_entry _ _ _ a Hw Hsub), Hdi, total_diff_insert by done.
    change (output_contrib a (created_inner c)) with (contrib a c). diff_solve.
  - rewrite amounts_insert by done. lia.
  - rewrite (output_sub_sum _ _ _ Hw Hsub). lia.
  - intros id' c' [[<- <-]|[_ ?]]%lookup_insert_Some; [done | by apply Hf].
  - intros id'. rewrite lookup_insert_is_Some, elem_of_app, list_elem_of_singleton, Hd.
    destruct (decide (id = id')) as [->|]; naive_solver.
  - intros i [?|?%list_elem_of_singleton]%elem_of_app; [by apply Hu | subst; by eexists].
Qed.

Lemma apply_inputs_ok md u h n inputs st st' done :
  ledger_inv t -> outputs_known md -> inputs_ok md done st -> NoDup (done ++ inputs) ->
  apply_inputs s md u h n inputs st = Ok (inr st') -> inputs_ok md (done ++ inputs) st'.
Proof.
  intros Hinv Hk. revert n done st. induction inputs as [|i inputs IH]; intros n done st Hio Hd; cbn [apply_inputs].
  - intros [= <-]. by rewrite app_nil_r.
  - intros ([?|[id c]] & Hf & Hr)%result_bind_Ok; [done|]. apply result_bind_Ok in Hr as ([?|st1] & Hc & Hr); [done|].
    change (i :: inputs) with ([i] ++ inputs) in *. rewrite app_assoc in *. apply (IH (S n) (done ++ [i]) st1) in Hr; [done| |done].
    apply (inputs_ok_step md u h n st i id c); try done. apply NoDup_app in Hd as [[_ [Hd _]]%NoDup_app _].
    intros Hi. apply (Hd i Hi). by left.
Qed.

(** *** Transactions *)

Context (P : TransactionPayload -> Prop) (Hknown : known_transactions P) (spent : gset OutputId).
Context (Hinv : ledger_inv t) (Hhist : history P t spent).

(** The balance of an address after the transactions that were included so far. *)
Definition milestone_balance md (a : Address) : Balance :=
  balance_plus (total a (live t)) (entry_or_default (balance_diffs md) a).

(** What the metadata of a milestone means while its past cone is traversed. *)
Record metadata_inv md : Prop := {
  mi_valid : valid_milestone t (created_outputs md) (consumed_outputs md) (balance_diffs md) None;
  mi_sum : diffs_sum (balance_diffs md) = 0;
  mi_origin id : is_Some (created_outputs md !! id) ->
    exists tx, P tx /\ output_transaction_id id = TransactionPayload_id tx
               /\ forall i, tx_spends tx i -> is_Some (consumed_outputs md !! i);
  mi_unspent id : is_Some (created_outputs md !! id) -> id ∉ spent;
  mi_dust : (forall a, dust_ok (total a (live t))) -> forall a, dust_ok (milestone_balance md a);
}.

Lemma mi_known md : metadata_inv md -> outputs_known md.
Proof. intros Hmi. pose proof (mi_valid md Hmi) as Hv. split; [apply (vm_fresh _ _ _ _ _ Hv) | apply (vm_created _ _ _ _ _ Hv)]. Qed.

(** The inputs of a transaction that is applied were never spent before. *)
Lemma found_unspent md inputs st id :
  metadata_inv md -> inputs_ok md inputs st -> Input_Utxo (mkUtxoInput id) ∈ inputs ->
  consumed_outputs md !! id = None /\ id ∉ spent.
Proof.
  intros Hmi Hio Hid. apply (io_done _ _ _ Hio) in Hid as [c Hc]. apply (io_found _ _ _ Hio) in Hc as (Hn & Hc & Ht).
  split; [done|]. intros Hsp. apply lookup_union_Some_raw in Hc as [Hc|[_ Hc]].
  - by apply (mi_unspent md Hmi id).
  - apply (hist_spent _ _ _ Hhist) in Hsp. assert (live t !! id = Some c) by (by apply live_lookup). congruence.
Qed.

Lemma tx_nonempty tx : P tx -> exists id, tx_spends tx id.
Proof.
  intros (_ & Hl & _ & _ & Hu & _)%(kt_wf _ Hknown)%tx_essence_wf. unfold tx_spends.
  destruct (essence_inputs _) as [|i l]; [unfold len in Hl; cbn in Hl; lia|]. apply Forall_cons in Hu as [Hi _]. destruct i as [[id]|]; [|done].
  exists id. by left.
Qed.

(** The outputs of a transaction that is applied are new. *)
Lemma new_outputs_new md tx st m :
  P tx -> metadata_inv md -> inputs_ok md (essence_inputs (tx_essence tx)) st ->
  let new := new_outputs m (TransactionPayload_id tx) 0 (essence_outputs (tx_essence tx)) in
  new ##ₘ t_created t /\ new ##ₘ created_outputs md /\ forall id, is_Some (new !! id) -> id ∉ spent.
Proof.
  intros Htx Hmi Hio new. destruct (tx_nonempty tx Htx) as [i Hi]. destruct (found_unspent md _ st i Hmi Hio Hi) as [Hc Hs'].
  assert (Hnew : forall id c, new !! id = Some c -> output_transaction_id id = TransactionPayload_id tx)
    by (by intros id c (? & _)%new_outputs_lookup).
  split_and!.
  - apply map_disjoint_spec. intros id c c' Hn Hl. apply Hs'.
    apply (hist_applied _ _ _ Hhist tx id); [done | by eapply Hnew | left; by eexists | done].
  - apply map_disjoint_spec. intros id c c' Hn Hl. destruct (mi_origin md Hmi id) as (tx' & Htx' & He & Hall); [by eexists|].
    rewrite (Hnew _ _ Hn) in He. apply (kt_id _ Hknown) in He; [subst tx'|done..]. apply Hall in Hi as [? ?]. congruence.
  - intros id [c Hn] Hsp. apply Hs'. apply (hist_applied _ _ _ Hhist tx id); [done | by eapply Hnew | by right | done].
Qed.

Lemma find_input_inl md i r : find_input s md i = Ok (inl r) -> r <> ConflictReason_None.
Proof.
  destruct i as [[o]|]; [|done]. unfold find_input. case_bool_decide; [by intros [= <-]|].
  destruct (created_outputs md !! _); [done|]. intros (c & _ & Hr)%result_bind_Ok. destruct c; [|by injection Hr as <-].
  apply result_bind_Ok in Hr as (b & _ & Hr). destruct b; cbn in Hr; [done | by injection Hr as <-].
Qed.

Lemma consume_output_inl u h n st id c r : consume_output u h n st id c = Ok (inl r) -> r <> ConflictReason_None.
Proof.
  unfold consume_output. destruct (created_inner c); [| |done]; intros (? & _ & Hr)%result_bind_Ok;
    apply result_bind_Ok in Hr as (? & _ & Hr); apply result_bind_Ok in Hr as (? & _ & Hr);
    destruct (verify_signature _ _ _ _); cbn in Hr; by simplify_eq.
Qed.

Lemma apply_inputs_inl md u h n inputs st r :
  apply_inputs s md u h n inputs st = Ok (inl r) -> r <> ConflictReason_None.
Proof.
  revert n st. induction inputs as [|i inputs IH]; intros n st; cbn [apply_inputs]; [done|].
  intros ([c|[id o]] & Hf & Hr)%result_bind_Ok; [injection Hr as <-; by eapply find_input_inl|].
  apply result_bind_Ok in Hr as ([c|st1] & Hc & Hr); [injection Hr as <-; by eapply consume_output_inl | by eapply IH].
Qed.

Lemma balance_plus_plus b d e : balance_plus (balance_plus b d) e = balance_plus b (diff_plus e d).
Proof. unfold balance_plus, diff_plus. cbn. f_equal; lia. Qed.

(** The balance of every address in the milestone is in range. *)
Lemma milestone_nonneg md a : metadata_inv md -> nonneg_Balance (milestone_balance md a).
Proof.
  intros Hmi. unfold milestone_balance. rewrite <- (total_applied t (wfm_index md) _ _ _ _ Hinv (mi_valid md Hmi)).
  by apply nonneg_applied, Hmi.
Qed.

Lemma dust_allowance_valid_true md l a d :
  dust_allowance_valid s md l = Ok true -> (a, d) ∈ l -> is_dust_mutating d = true ->
  dust_ok (balance_plus (total a (live t)) (diff_plus (entry_or_default (balance_diffs md) a) d)).
Proof.
  induction l as [|[b e] l IH]; intros Hv Hin Hmut; [by apply not_elem_of_nil in Hin|]. cbn [dust_allowance_valid] in Hv.
  apply elem_of_cons in Hin as [[= <- <-]|Hin].
  - rewrite Hmut in Hv. rewrite fetch_balance_or_default_spec, stored_total in Hv by done. cbn [result_bind] in Hv.
    apply result_bind_Ok in Hv as (b1 & Hb1 & Hv). apply apply_diff_Ok in Hb1 as [-> Hn]; [|by apply supply_total].
    apply result_bind_Ok in Hv as (b2 & Hb2 & Hv). rewrite <- balance_plus_plus.
    assert (b2 = balance_plus (balance_plus (total a (live t)) d) (entry_or_default (balance_diffs md) a)) as <-.
    { unfold BalanceDiffs_get, entry_or_default in *. destruct (balance_diffs md !! a) as [d'|]; cbn.
      - by apply apply_diff_Ok in Hb2 as [-> _].
      - injection Hb2 as <-. unfold balance_plus. cbn. by rewrite !Z.add_0_r. }
    unfold dust_ok. destruct (_ <? _) eqn:E in Hv; [done|]. bool_to_prop. lia.
  - destruct (is_dust_mutating e); [|by apply IH]. apply result_bind_Ok in Hv as (b1 & _ & Hv).
    apply result_bind_Ok in Hv as (b2 & _ & Hv). apply result_bind_Ok in Hv as (b3 & _ & Hv).
    destruct (_ <? _) in Hv; [done | by apply IH].
Qed.

(** What it takes for a transaction to be included, and what it changes. *)
Definition included md m tx e u md' : Prop :=
  exists st diffs created merged,
    apply_inputs s md u (Essence_hash (Essence_Regular e)) 0 (essence_inputs e) (mkInputState ∅ BalanceDiffs_new 0)
      = Ok (inr st)
    /\ apply_outputs (essence_outputs e) (is_diffs st) 0 = Ok (diffs, is_amount st)
    /\ dust_allowance_valid s md (hash_iter diffs) = Ok true
    /\ insert_outputs m tx 0 (essence_outputs e) (created_outputs md) = Ok created
    /\ BalanceDiffs_merge (balance_diffs md) diffs = Ok merged
    /\ md' = set_ledger_changes md created
               (((fun c => (c, ConsumedOutput_new tx (wfm_index md))) <$> is_consumed st) ∪ consumed_outputs md) merged.

Lemma apply_regular_essence_Ok m tx e u md r md' :
  apply_regular_essence s m tx e u md = Ok (r, md') ->
  r <> ConflictReason_None /\ md' = md \/ r = ConflictReason_None /\ included md m tx e u md'.
Proof.
  unfold apply_regular_essence. intros ([c|st] & Hin & Hr)%result_bind_Ok.
  { injection Hr as <- <-. left. split; [by eapply apply_inputs_inl | done]. }
  apply result_bind_Ok in Hr as ([diffs amount] & Hout & Hr).
  destruct (amount =? is_amount st) eqn:Ha; cbn [negb] in Hr; [|left; injection Hr as <- <-; done].
  apply Z.eqb_eq in Ha as ->. apply result_bind_Ok in Hr as (b & Hdust & Hr).
  destruct b; cbn [negb] in Hr; [|left; injection Hr as <- <-; done].
  rewrite foldl_insert_union, list_to_map_hash_iter in Hr by apply hash_iter_NoDup.
  apply result_bind_Ok in Hr as (created & Hc & Hr). apply result_bind_Ok in Hr as (merged & Hm & Hr).
  injection Hr as <- <-. right. split; [done|]. exists st, diffs, created, merged. done.
Qed.

Lemma new_outputs_wf m tx i outputs :
  Forall wf_Output outputs -> Forall (fun o => is_Some (output_owner o)) outputs -> wf_outputs (new_outputs m tx i outputs).
Proof.
  rewrite !Forall_forall. intros Hw Hf id c (_ & _ & o & Ho & ->)%new_outputs_lookup. split; [by apply Hw|].
  specialize (Hf o Ho). unfold created_address, output_address. cbn. destruct o as [x|x|x]; cbn in *; [| |by destruct Hf].
  - destruct (single_address x). by eexists.
  - destruct (dust_address x). by eexists.
Qed.

(** What an included transaction changes: the outputs it creates and the ones it consumes. *)
Record tx_effect md m tx md' (st : input_state) : Prop := {
  te_inputs : inputs_ok md (essence_inputs (tx_essence tx)) st;
  te_created : created_outputs md'
    = new_outputs m (TransactionPayload_id tx) 0 (essence_outputs (tx_essence tx)) ∪ created_outputs md;
  te_consumed : fst <$> consumed_outputs md' = is_consumed st ∪ (fst <$> consumed_outputs md);
  te_diffs a : entry_or_default (balance_diffs md') a
    = diff_plus (entry_or_default (balance_diffs md) a)
        (diff_plus (outputs_diff a (essence_outputs (tx_essence tx))) (diff_opp (total_diff a (is_consumed st))));
  te_balanced : amounts (is_consumed st) = sum_Z output_amount (essence_outputs (tx_essence tx));
  te_sum : diffs_sum (balance_diffs md') = diffs_sum (balance_diffs md);
  te_dust a : dust_ok (milestone_balance md a) -> dust_ok (milestone_balance md' a);
  te_owners : Forall (fun o => is_Some (output_owner o)) (essence_outputs (tx_essence tx));
  te_rest : referenced_messages md' = referenced_messages md
    /\ excluded_no_transaction_messages md' = excluded_no_transaction_messages md
    /\ excluded_conflicting_messages md' = excluded_conflicting_messages md
    /\ included_messages md' = included_messages md /\ wfm_index md' = wfm_index md;
}.

Lemma included_effect md m tx u md' :
  P tx -> metadata_inv md -> included md m (TransactionPayload_id tx) (tx_essence tx) u md' ->
  exists st, tx_effect md m tx md' st.
Proof.
  intros Htx Hmi (st & diffs & created & merged & Hin & Hout & Hdust & Hcr & Hm & ->).
  assert (Hd' : forall a, dust_ok (milestone_balance md a) ->
                dust_ok (balance_plus (total a (live t)) (diff_plus (entry_or_default (balance_diffs md) a) (entry_or_default diffs a)))).
  { intros a Hok. unfold entry_or_default at 2. destruct (diffs !! a) as [d|] eqn:E; cbn; [|by rewrite diff_plus_0_r].
    destruct (is_dust_mutating d) eqn:Em; [eapply dust_allowance_valid_true; [done | by apply elem_of_hash_iter | done]|].
    rewrite diff_plus_comm, <- balance_plus_plus. apply dust_ok_mono; [by apply milestone_nonneg | done | done]. }
  destruct (tx_essence_wf tx (kt_wf _ Hknown tx Htx)) as [Hw (_ & Hl & _ & _ & Hnd & _)].
  pose proof (apply_inputs_ok md _ _ _ _ _ _ [] Hinv (mi_known md Hmi) (inputs_ok_init md) Hnd Hin) as Hio. cbn [app] in Hio.
  apply apply_outputs_Ok in Hout as (Hd & Ha & Hsum & Hown); [|done].
  rewrite insert_outputs_eq in Hcr by lia. injection Hcr as <-. exists st. unfold milestone_balance in Hd' |- *.
  destruct md. split; cbn in *.
  - done.
  - done.
  - rewrite map_fmap_union, <- map_fmap_compose. f_equal. unfold compose. cbn. apply map_fmap_id.
  - intros a. rewrite (merge_entry_lookup _ _ _ a Hm), Hd, (io_diffs _ _ _ Hio). f_equal. apply diff_plus_comm.
  - rewrite <- (io_amount _ _ _ Hio). lia.
  - rewrite (merge_sum _ _ _ Hm), Hsum, (io_sum _ _ _ Hio). cbn. lia.
  - intros a. unfold milestone_balance. cbn. rewrite (merge_entry_lookup _ _ _ a Hm). apply Hd'.
  - done.
  - done.
Qed.

Lemma consumed_disjoint md inputs st : inputs_ok md inputs st -> is_consumed st ##ₘ (fst <$> consumed_outputs md).
Proof.
  intros Hio. apply map_disjoint_spec. intros id c c' Hc Hf. apply (io_found _ _ _ Hio) in Hc as (Hn & _).
  rewrite lookup_fmap, Hn in Hf. done.
Qed.

Lemma consumed_is_Some md id : is_Some (consumed_outputs md !! id) <-> is_Some ((fst <$> consumed_outputs md) !! id).
Proof. by rewrite lookup_fmap, fmap_is_Some. Qed.

Lemma effect_valid md m tx md' st :
  P tx -> metadata_inv md -> tx_effect md m tx md' st ->
  valid_milestone t (created_outputs md') (consumed_outputs md') (balance_diffs md') None.
Proof.
  intros Htx Hmi [Hio Hcr Hco Hdi Hba Hsum Hdu Hown _]. pose proof (mi_valid md Hmi) as Hv.
  destruct (new_outputs_new md tx st m Htx Hmi Hio) as (Hnt & Hnc & _). pose proof (consumed_disjoint md _ st Hio) as Hdj.
  destruct (tx_essence_wf tx (kt_wf _ Hknown tx Htx)) as [Hw _]. rewrite Hcr. split.
  - apply map_disjoint_union_l. split; [done | apply (vm_fresh _ _ _ _ _ Hv)].
  - apply wf_outputs_union; [by apply new_outputs_wf | apply (vm_created _ _ _ _ _ Hv)].
  - intros id c x Hc. assert (Hf : (is_consumed st ∪ (fst <$> consumed_outputs md)) !! id = Some c).
    { by rewrite <- Hco, lookup_fmap, Hc. }
    assert (((created_outputs md ∪ t_created t) !! id = Some c) /\ t_consumed t !! id = None) as [Hl Hn].
    { apply lookup_union_Some_raw in Hf as [Hf|[_ Hf]]; [by apply (io_found _ _ _ Hio) in Hf as (_ & ? & ?)|].
      rewrite lookup_fmap in Hf. destruct (consumed_outputs md !! id) as [[c' x']|] eqn:E; [|done]. injection Hf as <-.
      by apply (vm_consumed _ _ _ _ _ Hv) in E. }
    split; [|done]. eapply lookup_weaken; [exact Hl|]. rewrite <- (assoc_L (∪)). apply map_union_subseteq_r.
    by apply map_disjoint_union_r.
  - intros a. rewrite Hdi, (vm_diffs _ _ _ _ _ Hv), Hco, !total_union by done.
    rewrite <- (new_outputs_total a m (TransactionPayload_id tx) 0). unfold total_diff. apply diff_eq; cbn; lia.
  - pose proof (vm_supply _ _ _ _ _ Hv) as Hs'. cbn in Hs'.
    rewrite Hco, !amounts_union, new_outputs_amounts by done. lia.
Qed.

Lemma effect_inv md m tx md' st :
  P tx -> metadata_inv md -> tx_effect md m tx md' st -> metadata_inv md'.
Proof.
  intros Htx Hmi He. pose proof (effect_valid md m tx md' st Htx Hmi He) as Hv.
  destruct (new_outputs_new md tx st m Htx Hmi (te_inputs _ _ _ _ _ He)) as (_ & _ & Hnew).
  destruct He as [Hio Hcr Hco Hdi Hba Hsum Hdu Hown _]. split; [done|..].
  - rewrite Hsum. apply Hmi.
  - intros id. rewrite Hcr, lookup_union_is_Some. setoid_rewrite consumed_is_Some. rewrite Hco.
    setoid_rewrite lookup_union_is_Some. intros [[c Hc]|Hc].
    + exists tx. apply new_outputs_lookup in Hc as (? & _). split_and!; [done..|]. intros i Hi'. left. by apply Hio.
    + apply (mi_origin md Hmi) in Hc as (tx' & Htx' & Hid & Hall). exists tx'. split_and!; [done..|]. intros i Hi'. right.
      apply consumed_is_Some. by apply Hall.
  - intros id. rewrite Hcr, lookup_union_is_Some. intros [Hc|Hc]; [by apply Hnew | by apply (mi_unspent md Hmi)].
  - intros Ht a. apply Hdu. by apply Hmi.
Qed.

(** Changes of the lists of messages only. *)
Lemma metadata_inv_lists md md' :
  metadata_inv md -> created_outputs md' = created_outputs md -> consumed_outputs md' = consumed_outputs md ->
  balance_diffs md' = balance_diffs md -> metadata_inv md'.
Proof. intros [] Hc Ho Hd. split; unfold milestone_balance; rewrite ?Hc, ?Ho, ?Hd; done. Qed.

(** Every referenced message is in one of the three lists. *)
Definition messages_counted md : Prop :=
  referenced_messages md = len (excluded_no_transaction_messages md) + len (excluded_conflicting_messages md)
                           + len (included_messages md).

Lemma len_snoc {A} (l : list A) x : len (l ++ [x]) = len l + 1.
Proof. unfold len. rewrite length_app. cbn. lia. Qed.

(** A message of the past cone is applied. *)
Lemma apply_message_inv md id m md' :
  (forall tx, message_payload m = Some (Payload_Transaction tx) -> P tx) ->
  metadata_inv md -> messages_counted md -> apply_message s id m md = Ok md' ->
  metadata_inv md' /\ messages_counted md' /\ wfm_index md' = wfm_index md.
Proof.
  intros Hp Hmi Hn. unfold apply_message.
  assert (Hnt : Ok (push_no_transaction (add_referenced md) id) = Ok (E := WorkerError) md' ->
                metadata_inv md' /\ messages_counted md' /\ wfm_index md' = wfm_index md).
  { intros [= <-]. split; [by apply (metadata_inv_lists md); destruct md|].
    unfold messages_counted in *. destruct md; cbn in *. rewrite len_snoc. split; [lia | done]. }
  destruct (message_payload m) as [[tx| | | |]|] eqn:E; try exact Hnt.
  intros ([r md1] & Ht & Hr)%result_bind_Ok. assert (Hmi1 : metadata_inv (add_referenced md))
    by (by apply (metadata_inv_lists md); destruct md).
  assert (Hcase : r <> ConflictReason_None /\ md1 = add_referenced md \/ r = ConflictReason_None
                  /\ exists st, tx_effect (add_referenced md) id tx md1 st).
  { unfold apply_transaction in Ht. destruct (transaction_essence tx) as [e] eqn:Ee.
    apply apply_regular_essence_Ok in Ht as [?|[-> Hi]]; [by left|]. right. split; [done|].
    eapply included_effect; [by apply Hp | done|]. unfold tx_essence. rewrite Ee. exact Hi. }
  assert (Hrest : (metadata_inv md1 /\ wfm_index md1 = wfm_index md)
    /\ referenced_messages md1 = len (excluded_no_transaction_messages md1) + len (excluded_conflicting_messages md1)
                                 + len (included_messages md1) + 1).
  { unfold messages_counted in Hn. destruct Hcase as [[_ ->]|[-> [st He]]].
    - split; [by destruct md|]. destruct md; cbn in *; lia.
    - split; [split; [eapply effect_inv; [by apply Hp|..]; done|]|];
        destruct (te_rest _ _ _ _ _ He) as (Hr1 & Hr2 & Hr3 & Hr4 & Hr5).
      + rewrite Hr5. by destruct md.
      + rewrite Hr1, Hr2, Hr3, Hr4. destruct md; cbn in *; lia. }
  destruct Hrest as [[Hmi2 Hix] Hc]. clear Hcase Ht Hnt.
  assert (Hfin : md' = push_included md1 id \/ exists r', md' = push_conflicting md1 id r').
  { destruct r; injection Hr as <-; eauto. }
  destruct Hfin as [->|[r' ->]]; unfold messages_counted; (split; [by apply (metadata_inv_lists md1); destruct md1|]);
    destruct md1; cbn in *; rewrite len_snoc; split; (lia || done).
Qed.

(** *** The past cone *)

Context (tangle : T) (Htangle : forall id m meta, tangle_message tangle id = Some (m, meta) ->
                                forall tx, message_payload m = Some (Payload_Transaction tx) -> P tx).

Lemma traverse_inv fuel st md' :
  metadata_inv (tr_metadata st) -> messages_counted (tr_metadata st) -> traverse fuel tangle s st = Some (Ok md') ->
  metadata_inv md' /\ messages_counted md' /\ wfm_index md' = wfm_index (tr_metadata st).
Proof.
  revert st. induction fuel as [|fuel IH]; intros [stack visited md] Hmi Hn; cbn [traverse tr_stack tr_visited tr_metadata] in *.
  - destruct stack; [|done]. by intros [= <-].
  - destruct stack as [|id rest]; [by intros [= <-]|].
    destruct (traverse_step tangle s id rest visited md) as [st|] eqn:E; [|done].
    assert (Hst : metadata_inv (tr_metadata st) /\ messages_counted (tr_metadata st) /\ wfm_index (tr_metadata st) = wfm_index md).
    { unfold traverse_step in E. destruct (tangle_message tangle id) as [[m meta]|] eqn:Em.
      - destruct (is_referenced _); [by injection E as <-|]. destruct (find _ _); [by injection E as <-|].
        apply result_bind_Ok in E as (md1 & Ha & E). injection E as <-. cbn. eapply apply_message_inv; [|done..].
        by eapply Htangle.
      - destruct (negb _); [done | by injection E as <-]. }
    destruct Hst as (Hmi1 & Hn1 & Hi1). intros Ht. apply IH in Ht as (? & ? & ->); done.
Qed.

Lemma metadata_inv_new index : metadata_inv (WhiteFlagMetadata_new index) /\ messages_counted (WhiteFlagMetadata_new index).
Proof.
  split; [|done]. split; cbn.
  - split.
    + apply map_disjoint_empty_l.
    + intros id c. by rewrite lookup_empty.
    + intros id c x. by rewrite lookup_empty.
    + intros a. rewrite fmap_empty, total_empty. done.
    + by rewrite fmap_empty.
  - apply sum_map_empty.
  - intros id. rewrite lookup_empty. by intros [? ?].
  - intros id. rewrite lookup_empty. by intros [? ?].
  - intros Hok a. specialize (Hok a). unfold milestone_balance, dust_ok, balance_plus in *. cbn. by rewrite !Z.add_0_r.
Qed.

(** The checks after the traversal never fail. *)
Lemma white_flag_finish_Ok md :
  metadata_inv md -> messages_counted md ->
  white_flag_finish md = Ok (set_merkle_proof md (merkle_digest blake2b256 (included_messages md))).
Proof.
  intros Hmi Hn. unfold white_flag_finish. destruct md as [i r e x n c o d p] eqn:E. cbn [set_merkle_proof] in *.
  unfold messages_counted in Hn. cbn in Hn. cbn [referenced_messages excluded_no_transaction_messages
    excluded_conflicting_messages included_messages balance_diffs].
  rewrite Hn, Z.eqb_refl. cbn [ensure result_bind].
  rewrite (sum_Z_perm _ _ _ (hash_iter_perm d)). pose proof (mi_sum _ Hmi) as Hs'. cbn in Hs'.
  change (sum_Z _ (map_to_list d)) with (diffs_sum d). rewrite Hs'. done.
Qed.

(** The history of the ledger after a milestone that creates the outputs [new] besides those of its transactions. *)
Lemma history_applied_with new md index diffs migration :
  metadata_inv md -> valid_milestone t (new ∪ created_outputs md) (consumed_outputs md) diffs migration ->
  (forall id, is_Some (new !! id) ->
     (id ∉ spent) /\ (forall tx, P tx -> output_transaction_id id <> TransactionPayload_id tx)) ->
  history P (applied index (new ∪ created_outputs md) (consumed_outputs md) diffs migration t)
    (spent ∪ dom (consumed_outputs md)).
Proof.
  intros Hmi Hv Hnew. split.
  - intros id Hid. rewrite (live_applied t index _ _ _ _ Hinv Hv). apply eq_None_not_Some. intros [c Hc].
    apply lookup_difference_Some in Hc as [Hc Hn]. rewrite lookup_fmap, fmap_None in Hn.
    apply elem_of_union in Hid as [Hid|Hid]; [|apply elem_of_dom in Hid as [? ?]; congruence].
    apply lookup_union_Some_raw in Hc as [[Hc|[_ Hc]]%lookup_union_Some_raw|[_ Hc]].
    + by destruct (Hnew id) as [? _]; [by eexists|].
    + by apply (mi_unspent md Hmi id).
    + apply (hist_spent _ _ _ Hhist) in Hid. congruence.
  - intros tx id Htx Hid Hex i Hi.
    assert (Hcr : is_Some ((new ∪ created_outputs md) !! id) -> i ∈ spent ∪ dom (consumed_outputs md)).
    { intros [Hn|Hc]%lookup_union_is_Some; [by destruct (Hnew id Hn) as [_ []%(fun H => H tx Htx)]|].
      destruct (mi_origin md Hmi id Hc) as (tx' & Htx' & Hid' & Hall). rewrite Hid in Hid'. apply (kt_id _ Hknown) in Hid' as ->; [|done..].
      apply elem_of_union_r, elem_of_dom. by apply Hall. }
    assert (Hold : is_Some (t_created t !! id) \/ id ∈ spent -> i ∈ spent ∪ dom (consumed_outputs md)).
    { intros Ho. apply elem_of_union_l. by eapply (hist_applied _ _ _ Hhist). }
    destruct Hex as [Hex|[?|Hex]%elem_of_union].
    + unfold applied in Hex. cbn in Hex. apply lookup_union_is_Some in Hex as [?|?]; [by apply Hcr | apply Hold; by left].
    + apply Hold. by right.
    + apply elem_of_dom in Hex as [[c x] Hx]. apply (vm_consumed _ _ _ _ _ Hv) in Hx as [Hx _].
      apply lookup_union_Some_raw in Hx as [Hx|[_ Hx]]; [apply Hcr; by eexists | apply Hold; left; by eexists].
Qed.

Lemma history_applied md index :
  metadata_inv md ->
  history P (applied index (created_outputs md) (consumed_outputs md) (balance_diffs md) None t)
    (spent ∪ dom (consumed_outputs md)).
Proof.
  intros Hmi. rewrite <- (left_id_L ∅ (∪) (created_outputs md)). apply history_applied_with; [done|..].
  - rewrite (left_id_L ∅ (∪)). apply (mi_valid md Hmi).
  - intros id. rewrite lookup_empty. by intros [? ?].
Qed.

Lemma white_flag_inv fuel parents index md :
  white_flag fuel tangle s parents (WhiteFlagMetadata_new index) = Some (Ok md) ->
  metadata_inv md /\ messages_counted md /\ wfm_index md = index
  /\ merkle_proof md = merkle_digest blake2b256 (included_messages md).
Proof.
  unfold white_flag, traverse_past_cone. intros (r & Ht & Hr)%bind_Some. injection Hr as Hr.
  apply result_bind_Ok in Hr as (md1 & -> & Hr). destruct (metadata_inv_new index) as [Hmi Hn].
  apply traverse_inv in Ht as (Hmi1 & Hn1 & Hix); [|done..]. cbn in Hix. rewrite white_flag_finish_Ok in Hr by done.
  injection Hr as <-. split; [by apply (metadata_inv_lists md1); destruct md1|]. by destruct md1.
Qed.
End proofs.

(** ** Claims *)

(** The transactions of a tangle are known. *)
Definition tangle_known `{TangleAccess T} (tangle : T) (P : TransactionPayload -> Prop) : Prop :=
  forall id m meta, tangle_message tangle id = Some (m, meta) ->
  forall tx, message_payload m = Some (Payload_Transaction tx) -> P tx.

Section claims.
Context `{IteratorSorted} `{Crypto} `{Hex} `{HashOrderOk} `{Bitflags} `{LedgerBackendOk B} `{TangleAccess T}.

(** C20. What White Flag computes for a milestone can be applied to the ledger: if the confirmation of the past cone
    returns, then applying its created and consumed outputs and its balance differences succeeds, and keeps the ledger
    consistent (no output is spent twice, every balance is the sum of the unspent outputs, the supply is conserved);
    afterwards the outputs that were consumed count as spent, so that no transaction can be applied a second time. *)
Theorem white_flag_preserves_ledger (s : B) (tangle : T) P spent fuel parents index md :
  healthy s -> ledger_inv (tables s) -> known_transactions P -> tangle_known tangle P -> history P (tables s) spent ->
  white_flag fuel tangle s parents (WhiteFlagMetadata_new index) = Some (Ok md) ->
  exists s', apply_milestone s index (created_outputs md) (consumed_outputs md) (balance_diffs md) None = Ok s'
    /\ healthy s' /\ ledger_inv (tables s') /\ history P (tables s') (spent ∪ dom (consumed_outputs md)).
Proof.
  intros Hs Hinv Hk Ht Hh Hw. destruct (white_flag_inv s Hs P Hk spent Hinv Hh tangle Ht _ _ _ _ Hw) as (Hmi & _).
  pose proof (mi_valid s P spent md Hmi) as Hv.
  destruct (apply_milestone_does s Hs index (created_outputs md) (consumed_outputs md) (balance_diffs md) None)
    as (s' & Ha & Hs' & Hts); [by eapply valid_no_treasury | by eapply valid_diffs_apply|].
  exists s'. split_and!; [done..| |]; rewrite Hts; [by apply applied_inv | by apply history_applied].
Qed.

(** C23. White Flag enforces the dust protection: if no address holds more dust outputs than its dust allowance permits,
    then this holds after the milestone as well. *)
Theorem white_flag_dust_limit (s s' : B) (tangle : T) P spent fuel parents index md :
  healthy s -> ledger_inv (tables s) -> known_transactions P -> tangle_known tangle P -> history P (tables s) spent ->
  (forall a, dust_ok (default Balance_default (t_balance (tables s) !! a))) ->
  white_flag fuel tangle s parents (WhiteFlagMetadata_new index) = Some (Ok md) ->
  apply_milestone s index (created_outputs md) (consumed_outputs md) (balance_diffs md) None = Ok s' ->
  forall a, dust_ok (default Balance_default (t_balance (tables s') !! a)).
Proof.
  intros Hs Hinv Hk Ht Hh Hd Hw Ha a. destruct (white_flag_inv s Hs P Hk spent Hinv Hh tangle Ht _ _ _ _ Hw) as (Hmi & _).
  pose proof (mi_valid s P spent md Hmi) as Hv.
  destruct (apply_milestone_does s Hs index (created_outputs md) (consumed_outputs md) (balance_diffs md) None)
    as (s'' & Ha' & _ & Hts); [by eapply valid_no_treasury | by eapply valid_diffs_apply|].
  rewrite Ha in Ha'. injection Ha' as <-. rewrite Hts, stored_total by by apply applied_inv.
  rewrite (total_applied (tables s) index _ _ _ _ Hinv Hv). apply (mi_dust s P spent md Hmi). intros b.
  specialize (Hd b). by rewrite stored_total in Hd.
Qed.

(** C22. The checks at the end of White Flag never fail: when the past cone has been traversed, the number of messages that
    were applied is the number of entries in the lists of included, conflicting and other messages, the balance
    differences sum up to zero exactly and not only as 64-bit numbers, and the result carries the Merkle root of the
    included messages. (A message that is applied twice has two entries.) *)
Theorem white_flag_checks (s : B) (tangle : T) P spent fuel parents index md :
  healthy s -> ledger_inv (tables s) -> known_transactions P -> tangle_known tangle P -> history P (tables s) spent ->
  traverse_past_cone fuel tangle s (reverse parents) (WhiteFlagMetadata_new index) = Some (Ok md) ->
  messages_counted md /\ diffs_sum (balance_diffs md) = 0
  /\ white_flag fuel tangle s parents (WhiteFlagMetadata_new index)
     = Some (Ok (set_merkle_proof md (merkle_digest blake2b256 (included_messages md)))).
Proof.
  intros Hs Hinv Hk Ht Hh Hw. unfold white_flag. rewrite Hw. destruct (metadata_inv_new s P spent index) as [Hmi Hn].
  apply (traverse_inv s Hs P Hk spent Hinv Hh tangle Ht) in Hw as (Hmi' & Hn' & _); [|done..]. cbn.
  rewrite (white_flag_finish_Ok s P spent) by done. split; [done|]. split; [apply Hmi' | done].
Qed.
End claims.

(** ** Evaluation *)

Module Examples.
Import Concrete Ledger.Examples WhiteFlagOrder.Examples.

Definition only_transfer (tx : TransactionPayload) : Prop := tx = transfer.

Lemma transfer_wf : wf_Payload (Payload_Transaction transfer).
Proof.
  apply (unpack_wf (P := Payload_packable) (pack Payload_packable (Payload_Transaction transfer)) _ []). vm_compute. reflexivity.
Qed.

Lemma transfer_known : known_transactions only_transfer.
Proof. split; [intros tx ->; exact transfer_wf | by intros tx tx' -> ->]. Qed.

Lemma small_tangle_known : tangle_known small_tangle only_transfer.
Proof.
  intros i m meta Hm tx Htx. apply small_tangle_messages in Hm as [(_ & _ & Hp)|(_ & _ & Hp)]; [|congruence].
  rewrite Hp in Htx. by injection Htx as <-.
Qed.

Lemma transfer_history : history only_transfer (tables storage_6) ∅.
Proof.
  rewrite storage_6_tables. split; [by intros ? ?%not_elem_of_empty|].
  intros tx i -> Hid [[c Hc]|?%not_elem_of_empty]; [|done]. cbn [tables_6 t_created] in Hc.
  apply lookup_singleton_Some in Hc as [<- _]. vm_compute in Hid. discriminate.
Qed.

Definition returns {E A} (r : option (result E A)) : bool := match r with Some r => is_ok r | None => false end.

(** The result of the confirmation of the small tangle. *)
Definition confirmed : WhiteFlagMetadata :=
  match white_flag 10 small_tangle storage_6 [msg_id Byte.x02] (WhiteFlagMetadata_new seven) with
  | Some (Ok md) => md
  | _ => WhiteFlagMetadata_new seven
  end.

Lemma confirmed_included : included_messages confirmed = [msg_id Byte.x01].
Proof. vm_compute. reflexivity. Qed.

Lemma confirmed_eq :
  white_flag 10 small_tangle storage_6 [msg_id Byte.x02] (WhiteFlagMetadata_new seven) = Some (Ok confirmed).
Proof.
  assert (Hok : returns (white_flag 10 small_tangle storage_6 [msg_id Byte.x02] (WhiteFlagMetadata_new seven)) = true)
    by (vm_compute; reflexivity).
  unfold confirmed. destruct (white_flag 10 small_tangle storage_6 [msg_id Byte.x02] (WhiteFlagMetadata_new seven)) as [[md|]|];
    [reflexivity | discriminate Hok..].
Qed.

Lemma storage_6_inv : ledger_inv (tables storage_6).
Proof. rewrite storage_6_tables. exact tables_6_inv. Qed.

Lemma white_flag_preserves_ledger_witness :
  exists s, apply_milestone storage_6 seven (created_outputs confirmed) (consumed_outputs confirmed) (balance_diffs confirmed) None
            = Ok s /\ ledger_inv (tables s).
Proof.
  destruct (white_flag_preserves_ledger storage_6 small_tangle only_transfer ∅ 10 [msg_id Byte.x02] seven confirmed
              storage_6_healthy storage_6_inv transfer_known small_tangle_known transfer_history confirmed_eq)
    as (s & Ha & _ & Hi & _).
  exists s. split; [exact Ha | exact Hi].
Defined.

Lemma storage_6_dust a : dust_ok (default Balance_default (t_balance (tables storage_6) !! a)).
Proof.
  rewrite storage_6_tables. cbn [tables_6 t_balance]. destruct (decide (owner Byte.x01 = a)) as [<-|Hne].
  - rewrite lookup_singleton_eq. vm_compute. congruence.
  - rewrite lookup_singleton_ne by done. vm_compute. congruence.
Qed.

Lemma white_flag_dust_limit_witness :
  exists s, apply_milestone storage_6 seven (created_outputs confirmed) (consumed_outputs confirmed) (balance_diffs confirmed) None
            = Ok s /\ dust_ok (default Balance_default (t_balance (tables s) !! owner Byte.x02)).
Proof.
  assert (Hok : is_ok (apply_milestone storage_6 seven (created_outputs confirmed) (consumed_outputs confirmed)
                         (balance_diffs confirmed) None) = true) by (vm_compute; reflexivity).
  destruct (apply_milestone storage_6 seven (created_outputs confirmed) (consumed_outputs confirmed) (balance_diffs confirmed) None)
    as [s|] eqn:Ha; [|discriminate Hok].
  exists s. split; [reflexivity|].
  apply (white_flag_dust_limit storage_6 s small_tangle only_transfer ∅ 10 [msg_id Byte.x02] seven confirmed
           storage_6_healthy storage_6_inv transfer_known small_tangle_known transfer_history storage_6_dust confirmed_eq Ha).
Defined.

Lemma white_flag_checks_witness :
  exists md, traverse_past_cone 10 small_tangle storage_6 (reverse [msg_id Byte.x02]) (WhiteFlagMetadata_new seven) = Some (Ok md)
    /\ messages_counted md /\ diffs_sum (balance_diffs md) = 0
    /\ white_flag 10 small_tangle storage_6 [msg_id Byte.x02] (WhiteFlagMetadata_new seven)
       = Some (Ok (set_merkle_proof md (merkle_digest blake2b256 (included_messages md)))).
Proof.
  assert (Hok : returns (traverse_past_cone 10 small_tangle storage_6 (reverse [msg_id Byte.x02]) (WhiteFlagMetadata_new seven))
                = true) by (vm_compute; reflexivity).
  destruct (traverse_past_cone 10 small_tangle storage_6 (reverse [msg_id Byte.x02]) (WhiteFlagMetadata_new seven))
    as [[md|]|] eqn:E; [|discriminate Hok..].
  exists md. split; [reflexivity|].
  apply (white_flag_checks storage_6 small_tangle only_transfer ∅ 10 [msg_id Byte.x02] seven md
           storage_6_healthy storage_6_inv transfer_known small_tangle_known transfer_history E).
Defined.

(** Two transactions of one milestone: the first creates a dust allowance output, the second spends it. *)
Definition allow : TransactionPayload :=
  signed Byte.x01 (id Byte.x01) (Output_SignatureLockedDustAllowance (mkDustAllowance (owner Byte.x02) 10000000)).
Definition spend_allowance : TransactionPayload :=
  signed Byte.x02 (mkOutputId (TransactionPayload_id allow) 0)
    (Output_SignatureLockedSingle (mkSingle (owner Byte.x03) 10000000)).
Definition allowance_tangle : MapTangle :=
  mkMapTangle (<[msg_id Byte.x01 := vertex [msg_id Byte.x00] (Some (Payload_Transaction allow))]>
                 {[msg_id Byte.x02 := vertex [msg_id Byte.x01] (Some (Payload_Transaction spend_allowance))]})
    {[msg_id Byte.x00]}.

(** A dust allowance that is created and spent in the same milestone makes the confirmation of the milestone fail: the
    dust check applies the difference of the transaction to the stored balance before the differences of the milestone, and
    the intermediate balance is negative. *)
Theorem dust_allowance_spent_at_once :
  exists balance, white_flag 10 allowance_tangle storage_6 [msg_id Byte.x02] (WhiteFlagMetadata_new seven)
    = Some (Err (Worker_Types (NegativeBalance balance))).
Proof. eexists. vm_compute. reflexivity. Qed.
End Examples.
