(* ===== verification/Confirm.v ===== *)
(** * Confirming milestones

    Models [bee-ledger/src/workers/consensus/worker.rs] ([migration_from_milestone] and [confirm]) and [state.rs]: a
    milestone is confirmed by running White Flag on its past cone, comparing the Merkle root with the one the milestone
    carries, turning its receipt into outputs and a new treasury, applying the changes to the ledger, and marking the
    messages as referenced. [validate_ledger_state] is the check at the start of the node.

    The storage of the ledger is the one of the tangle. White Flag reads the tangle through [get_vertex]; what this leaves
    in the cache of the tangle is not part of the result, since no reading depends on it. Events sent on the bus are the
    list of the result. [None] is a panic or missing fuel of the traversal. *)

From S2P Require Import Prelude External MessageTypes Payload PayloadKeys PayloadCodec Message TangleTypes LedgerTypes.
From S2P Require Import Vertices Storage StorageTables StorageMemory Tangle TangleCache LedgerStorage Ledger Merkle.
From S2P Require Import WhiteFlag WhiteFlagOrder WhiteFlagLedger.

Local Open Scope Z_scope.

(** ** The tangle as White Flag uses it *)

Section access.
Context `{TableHasher MessageId} `{HashOrder} `{Environment} `{LedgerBackend B}.

#[export] Instance Tangle_access : TangleAccess (Tangle B) := {|
  tangle_vertex tangle id := match get_vertex id tangle with Some (v, _) => v | None => None end;
  tangle_is_solid_entry_point := is_solid_entry_point;
|}.
End access.

(** ** Events: [event.rs] *)

Inductive LedgerEvent :=
| MilestoneConfirmed (message_id : MessageId) (index : MilestoneIndex) (timestamp : Z) (referenced_messages : Z)
    (excluded_no_transaction_messages : list MessageId)
    (excluded_conflicting_messages : list (MessageId * ConflictReason)) (included_messages : list MessageId)
    (consumed_outputs created_outputs : Z) (receipt : bool)
| MessageReferenced (message_id : MessageId)
| OutputConsumed (message_id : MessageId) (output_id : OutputId) (output : Output)
| OutputCreated (message_id : MessageId) (output_id : OutputId) (output : Output).

(** ** Receipts *)

Definition migration_from_milestone (milestone_index : MilestoneIndex) (milestone_id : MilestoneId) (receipt : ReceiptPayload)
    (consumed_treasury : LedgerTreasuryOutput) : result WorkerError Migration :=
  let receipt := Receipt_new receipt milestone_index in
  let? _ := Receipt_validate receipt consumed_treasury in
  let? created :=
    match receipt_transaction (receipt_inner receipt) with
    | Payload_TreasuryTransaction treasury =>
        match treasury_output treasury with
        | Output_Treasury output => Ok output
        | _ => Err (Worker_UnsupportedOutputKind (Output_kind (treasury_output treasury)))
        end
    | _ => Err (Worker_UnsupportedPayloadKind (Payload_kind (receipt_transaction (receipt_inner receipt))))
    end in
  Ok (Migration_new receipt consumed_treasury (LedgerTreasuryOutput_new created milestone_id)).

(** The loop over the funds of a receipt. *)
Fixpoint insert_funds (message_id : MessageId) (transaction_id : TransactionId) (index : Z) (funds : list MigratedFundsEntry)
    (metadata : WhiteFlagMetadata) : result WorkerError WhiteFlagMetadata :=
  match funds with
  | [] => Ok metadata
  | fund :: funds =>
      let? id := OutputId_new transaction_id (as_u 16 index) in
      let output := migrated_output fund in
      let created :=
        <[id := CreatedOutput_new message_id (Output_SignatureLockedSingle output)]> (created_outputs metadata) in
      let? diffs := amount_add (balance_diffs metadata) (single_address output) (single_amount output) in
      insert_funds message_id transaction_id (index + 1) funds
        (set_ledger_changes metadata created (consumed_outputs metadata) diffs)
  end.

(** Accounts for the milestone itself. *)
Definition count_milestone (metadata : WhiteFlagMetadata) (message_id : MessageId) : WhiteFlagMetadata :=
  push_no_transaction (add_referenced metadata) message_id.

Section confirm.
Context `{IteratorSorted} `{Crypto} `{Hex} `{TableHasher MessageId} `{HashOrder} `{Environment} `{Bitflags} `{LedgerBackend B}.
Implicit Types (storage : B) (metadata : WhiteFlagMetadata).

(** The branch of a milestone with a receipt: the metadata, the new value of [receipt_migrated_at], and the migration. *)
Definition confirm_receipt storage (message_id : MessageId) (milestone : MilestonePayload) (receipt : ReceiptPayload)
    (migrated_at : MilestoneIndex) metadata : result WorkerError (WhiteFlagMetadata * MilestoneIndex * Migration) :=
  let milestone_id := MilestonePayload_id milestone in
  let transaction_id := TransactionId_new (milestone_id_bytes milestone_id) in
  let? metadata := insert_funds message_id transaction_id 0 (receipt_funds receipt) metadata in
  let? _ := ensure (negb (milestone_index (receipt_migrated_at receipt) <? milestone_index migrated_at))
              (DecreasingReceiptMigratedAtIndex (receipt_migrated_at receipt) migrated_at) in
  let migrated_at := receipt_migrated_at receipt in
  let migrated_at := if receipt_last receipt then MilestoneIndex_new (as_u 32 (milestone_index migrated_at + 1)) else migrated_at in
  let? treasury := fetch_unspent_treasury_output storage in
  let? migration := migration_from_milestone (essence_index (milestone_essence milestone)) milestone_id receipt treasury in
  Ok (metadata, migrated_at, migration).

(** One iteration of the loops that mark messages: the update and the event. *)
Definition mark_referenced (timestamp : Z) (message_id : MessageId) (conflict : ConflictReason) : st (Tangle B) unit :=
  let* _ := update_metadata message_id (fun message => (tt, reference (set_conflict message conflict) timestamp)) in
  sret tt.

Definition mark_all (timestamp : Z) (messages : list (MessageId * ConflictReason)) : st (Tangle B) unit :=
  sfor (fun '(message_id, conflict) => mark_referenced timestamp message_id conflict) messages.

(** The messages the three loops mark, in their order. *)
Definition marked metadata : list (MessageId * ConflictReason) :=
  ((fun id => (id, ConflictReason_None)) <$> excluded_no_transaction_messages metadata)
  ++ excluded_conflicting_messages metadata
  ++ ((fun id => (id, ConflictReason_None)) <$> included_messages metadata).

Definition confirm_events (message_id : MessageId) (milestone : MilestonePayload) metadata (receipt : bool) : list LedgerEvent :=
  ((fun '(id, _) => MessageReferenced id) <$> marked metadata)
  ++ [MilestoneConfirmed message_id (essence_index (milestone_essence milestone)) (essence_timestamp (milestone_essence milestone))
        (referenced_messages metadata) (excluded_no_transaction_messages metadata) (excluded_conflicting_messages metadata)
        (included_messages metadata) (Z.of_nat (size (consumed_outputs metadata))) (Z.of_nat (size (created_outputs metadata)))
        receipt]
  ++ ((fun '(id, created) => OutputCreated (created_message_id created) id (created_inner created))
        <$> hash_iter (created_outputs metadata))
  ++ ((fun '(id, (created, _)) => OutputConsumed (created_message_id created) id (created_inner created))
        <$> hash_iter (consumed_outputs metadata)).

(** What is computed before the ledger changes: the metadata, [receipt_migrated_at] and the migration. *)
Definition confirm_changes storage (message_id : MessageId) (milestone : MilestonePayload) (migrated_at : MilestoneIndex) metadata
    : result WorkerError (WhiteFlagMetadata * MilestoneIndex * option Migration) :=
  let essence := milestone_essence milestone in
  let? _ := ensure (bool_decide (merkle_proof metadata = essence_merkle_proof essence))
              (MerkleProofMismatch (essence_index essence) (hex_encode (merkle_proof metadata))
                 (hex_encode (essence_merkle_proof essence))) in
  let metadata := count_milestone metadata message_id in
  match essence_receipt essence with
  | Some (Payload_Receipt receipt) =>
      let? r := confirm_receipt storage message_id milestone receipt migrated_at metadata in
      let '(metadata, migrated_at, migration) := r in
      Ok (metadata, migrated_at, Some migration)
  | _ => Ok (metadata, migrated_at, None)
  end.

(** The milestone of a message. *)
Definition milestone_of (message_id : MessageId) (message : option Message) : result WorkerError (Message * MilestonePayload) :=
  let? message := ok_or message (MilestoneMessageNotFound message_id) in
  match message_payload message with
  | Some (Payload_Milestone milestone) => Ok (message, milestone)
  | _ => Err NoMilestonePayload
  end.

Record Confirmed := mkConfirmed {
  confirmed_ledger_index : LedgerIndex;
  confirmed_migrated_at : MilestoneIndex;
  confirmed_events : list LedgerEvent;
}.

Definition confirm (fuel : nat) (message_id : MessageId) (index : LedgerIndex) (migrated_at : MilestoneIndex)
    : st (Tangle B) (result WorkerError Confirmed) :=
  let* found := Tangle_get message_id in
  match milestone_of message_id found with
  | Err e => sret (Err e)
  | Ok (message, milestone) =>
      let essence := milestone_essence milestone in
      let next := as_u 32 (milestone_index (ledger_index index) + 1) in
      if negb (milestone_index (essence_index essence) =? next)
      then sret (Err (NonContiguousMilestones (milestone_index (essence_index essence)) (milestone_index (ledger_index index))))
      else fun tangle =>
        match white_flag fuel tangle (tg_storage tangle) (parents_inner (message_parents message))
                (WhiteFlagMetadata_new (essence_index essence)) with
        | None => None
        | Some r =>
            match
              let? metadata := r in
              let? changes := confirm_changes (tg_storage tangle) message_id milestone migrated_at metadata in
              let '(metadata, migrated_at, migration) := changes in
              let? storage := apply_milestone (tg_storage tangle) (wfm_index metadata) (created_outputs metadata)
                                (consumed_outputs metadata) (balance_diffs metadata) migration in
              Ok (metadata, migrated_at, migration, storage)
            with
            | Err e => Some (Err e, tangle)
            | Ok (metadata, migrated_at, migration, storage) =>
                let tangle := update_confirmed_milestone_index (essence_index essence) (with_storage storage tangle) in
                (let* _ := mark_all (essence_timestamp essence) (marked metadata) in
                 sret (Ok (mkConfirmed (LedgerIndex_new (essence_index essence)) migrated_at
                             (confirm_events message_id milestone metadata (bool_decide (is_Some migration)))))) tangle
            end
        end
  end.
End confirm.

(** ** Validation: [state.rs] *)

Section state.
Context `{HashOrder} `{LedgerBackend B}.
Implicit Types (storage : B).

Definition add_supply (supply amount : Z) : result WorkerError Z :=
  ok_or (u_checked_add 64 supply amount) (LedgerStateOverflow (supply + amount)).

(** One iteration of the loop over the unspent outputs. *)
Definition validate_unspent storage (supply : Z) (entry : result (storage_error B) (Unspent * unit)) : result WorkerError Z :=
  let? entry := storage_result entry in
  let '(output_id, _) := entry in
  let? output := fetch_output storage (unspent_id output_id) in
  let? output := ok_or output (MissingUnspentOutput output_id) in
  let? amount :=
    match created_inner output with
    | Output_SignatureLockedSingle output => Ok (single_amount output)
    | Output_SignatureLockedDustAllowance output => Ok (dust_amount output)
    | Output_Treasury _ => Err (Worker_UnsupportedOutputKind (Output_kind (created_inner output)))
    end in
  add_supply supply amount.

Definition validate_ledger_unspent_state storage (treasury : Z) : result WorkerError unit :=
  let? entries := storage_result (storage_iter Unspent unit storage) in
  let? supply := try_fold (validate_unspent storage) 0 entries in
  let? sum := add_supply supply treasury in
  if sum =? IOTA_SUPPLY then Ok tt else Err (InvalidLedgerUnspentState supply).

(** One iteration of the loop over the balances. *)
Definition validate_balance (supply : Z) (entry : result (storage_error B) (Address * Balance)) : result WorkerError Z :=
  let? entry := storage_result entry in
  let '(address, balance) := entry in
  let? _ := ensure (negb (dust_outputs_max (balance_dust_allowance balance) <? balance_dust_outputs balance))
              (InvalidLedgerDustState address balance) in
  add_supply supply (balance_amount balance).

Definition validate_ledger_balance_state storage (treasury : Z) : result WorkerError unit :=
  let? entries := storage_result (storage_iter Address Balance storage) in
  let? supply := try_fold validate_balance 0 entries in
  let? sum := add_supply supply treasury in
  if sum =? IOTA_SUPPLY then Ok tt else Err (InvalidLedgerBalanceState supply).

Definition validate_ledger_state storage : result WorkerError unit :=
  let? treasury := fetch_unspent_treasury_output storage in
  let treasury := treasury_amount (ledger_treasury_inner treasury) in
  let? _ := validate_ledger_unspent_state storage treasury in
  validate_ledger_balance_state storage treasury.
End state.
