(* ===== verification/SnapshotImport.v ===== *)
(** * Importing snapshots

    Models [bee-ledger/src/workers/snapshot/import.rs] and [worker.rs]. A file is the list of its bytes, or [None] if it
    does not exist; a file system error when it is opened is the absence of the file. The storage is changed while a file
    is read, so that the changes before an error remain: the result of a step is the storage together with a value and the
    rest of the file, or an error. [download.rs], which fetches the files over the network, is not modelled: what it leaves
    in the file system is an argument of [import_snapshots]. *)

From S2P Require Import Prelude Packable External MessageTypes Payload PayloadKeys PayloadCodec Message TangleTypes LedgerTypes.
From S2P Require Import Snapshot StorageSystem Vertices Storage StorageTables StorageMemory Tangle TangleCache LedgerStorage.
From S2P Require Import Ledger Merkle WhiteFlag WhiteFlagOrder WhiteFlagLedger Confirm.

Local Open Scope Z_scope.

(** ** Steps *)

Definition imp (B A : Type) : Type := B -> bytes -> B * result WorkerError (A * bytes).

Definition iret {B A} (a : A) : imp B A := fun storage bs => (storage, Ok (a, bs)).
Definition ibind {B A A'} (m : imp B A) (k : A -> imp B A') : imp B A' := fun storage bs =>
  match m storage bs with
  | (storage, Ok (a, bs)) => k a storage bs
  | (storage, Err e) => (storage, Err e)
  end.
Notation "'let%' x ':=' m 'in' k" := (ibind m (fun x => k))
  (at level 10, x pattern, m at level 100, k at level 200) : bee_scope.

(** Reading, checking, and changing or reading the storage. *)
Definition iread {B E A} `{From E WorkerError} (r : reader E A) : imp B A := fun storage bs =>
  (storage, map_err from (r bs)).
Definition icheck {B A} (r : result WorkerError A) : imp B A := fun storage bs =>
  (storage, let? a := r in Ok (a, bs)).
Definition ichange {B} (f : B -> result WorkerError B) : imp B unit := fun storage bs =>
  match f storage with
  | Ok storage => (storage, Ok (tt, bs))
  | Err e => (storage, Err e)
  end.
Definition iask {B A} (f : B -> result WorkerError A) : imp B A := fun storage bs =>
  (storage, let? a := f storage in Ok (a, bs)).

Fixpoint irepeat {B S} (n : nat) (step : S -> imp B S) (s : S) : imp B S :=
  match n with
  | O => iret s
  | Datatypes.S n => let% s := step s in irepeat n step s
  end.

(** ** Importing *)

Section import.
Context `{IteratorSorted} `{Crypto} `{Hex} `{HashOrder} `{LedgerBackend B}.

Definition import_solid_entry_points (sep_count : Z) (index : MilestoneIndex) : imp B unit :=
  let% _ := ichange (fun storage => storage_result (storage_truncate SolidEntryPoint MilestoneIndex storage)) in
  irepeat (Z.to_nat sep_count)
    (fun _ =>
       let% sep := iread (unpack_inner SolidEntryPoint_packable true) in
       ichange (fun storage => storage_result (storage_insert storage sep index)))
    tt.

(** One iteration of the loop over the outputs. *)
Definition import_output (balance_diffs : BalanceDiffs) : imp B BalanceDiffs :=
  let% message_id := iread (unpack_inner MessageId_packable true) in
  let% output_id := iread (unpack_inner OutputId_packable true) in
  let% output := iread (unpack_inner Output_packable true) in
  let created_output := CreatedOutput_new message_id output in
  let% _ := ichange (fun storage => create_output storage output_id created_output) in
  icheck (let? diffs := output_add balance_diffs (created_inner created_output) in Ok diffs).

Definition import_outputs (output_count : Z) : imp B unit :=
  let% balance_diffs := irepeat (Z.to_nat output_count) import_output BalanceDiffs_new in
  ichange (fun storage => apply_balance_diffs storage balance_diffs).

(** The balance differences of a milestone. *)
Definition milestone_balance_diffs (diff : MilestoneDiff) : result WorkerError BalanceDiffs :=
  let? diffs := try_fold (fun diffs '(_, output) => output_add diffs (created_inner output)) BalanceDiffs_new
                  (hash_iter (milestone_created diff)) in
  let? diffs := try_fold (fun diffs '(_, (created_output, _)) => output_sub diffs (created_inner created_output)) diffs
                  (hash_iter (milestone_consumed diff)) in
  Ok diffs.

Definition milestone_migration (diff : MilestoneDiff) : result WorkerError (option Migration) :=
  let milestone := diff_milestone diff in
  match essence_receipt (milestone_essence milestone) with
  | Some (Payload_Receipt receipt) =>
      let? consumed_treasury := ok_or (diff_consumed_treasury diff) (Worker_Snapshot Snapshot_MissingConsumedTreasury) in
      let? migration := migration_from_milestone (essence_index (milestone_essence milestone)) (MilestonePayload_id milestone)
                          receipt (LedgerTreasuryOutput_new consumed_treasury.1 consumed_treasury.2) in
      Ok (Some migration)
  | _ => Ok None
  end.

(** One iteration of the loop over the milestone differences. *)
Definition import_milestone_diff : imp B unit :=
  let% diff := iread (MilestoneDiff_unpack_inner true) in
  let index := essence_index (milestone_essence (diff_milestone diff)) in
  let% stored := iask fetch_ledger_index in
  let% last := icheck (ok_or stored (Worker_Panic "called `Option::unwrap()` on a `None` value")) in
  let ledger_index := milestone_index (ledger_index last) in
  let% balance_diffs := icheck (milestone_balance_diffs diff) in
  let% migration := icheck (milestone_migration diff) in
  if milestone_index index =? as_u 32 (ledger_index + 1) then
    ichange (fun storage => apply_milestone storage index (milestone_created diff) (milestone_consumed diff) balance_diffs migration)
  else if milestone_index index =? ledger_index then
    ichange (fun storage => rollback_milestone storage index (milestone_created diff) (milestone_consumed diff) balance_diffs migration)
  else icheck (Err (Worker_Snapshot (UnexpectedMilestoneDiffIndex index))).

Definition import_milestone_diffs (milestone_diff_count : Z) : imp B unit :=
  irepeat (Z.to_nat milestone_diff_count) (fun _ => import_milestone_diff) tt.

Definition check_header (header : SnapshotHeader) (kind : SnapshotKind) (id : Z) : result WorkerError unit :=
  if negb (bool_decide (kind = header_kind header)) then Err (Worker_Snapshot (UnexpectedSnapshotKind kind (header_kind header)))
  else if negb (id =? header_network_id header) then Err (Worker_Snapshot (NetworkIdMismatch id (header_network_id header)))
  else Ok tt.

(** The check of the two indexes and of the count of the milestone differences, [to - from]. *)
Definition check_indexes (header : SnapshotHeader) (from to : MilestoneIndex) (count : Z) : result WorkerError unit :=
  let? _ := ensure (negb (milestone_index to <? milestone_index from))
              (Worker_Snapshot (LedgerSepIndexesInconsistency (header_ledger_index header) (header_sep_index header))) in
  ensure (milestone_index to - milestone_index from =? count)
    (Worker_Snapshot (InvalidMilestoneDiffsCount (milestone_index to - milestone_index from) count)).

(** What both imports store from the header. *)
Definition import_header (header : SnapshotHeader) (id : Z) : imp B unit :=
  let% _ := ichange (fun storage => insert_ledger_index storage (LedgerIndex_new (header_ledger_index header))) in
  ichange (fun storage => insert_snapshot_info storage
    (SnapshotInfo_new id (header_sep_index header) (header_sep_index header) (header_sep_index header) (header_timestamp header))).

(** [reader.bytes().next().is_some()] *)
Definition check_remaining : imp B unit := fun storage bs =>
  (storage, match bs with [] => Ok (tt, bs) | _ => Err (Worker_Snapshot RemainingBytes) end).

Definition import_full_snapshot (id : Z) : imp B unit :=
  let% header := iread (unpack_inner SnapshotHeader_packable true) in
  let% _ := icheck (check_header header SnapshotKind_Full id) in
  let% full_header := iread (unpack_inner FullSnapshotHeader_packable true) in
  let% _ := icheck (check_indexes header (header_sep_index header) (header_ledger_index header) (full_milestone_diff_count full_header)) in
  let% treasury := icheck (let? treasury := TreasuryOutput_new (treasury_output_amount full_header) in Ok treasury) in
  let% _ := ichange (fun storage => insert_treasury_output storage
              (LedgerTreasuryOutput_new treasury (treasury_output_milestone_id full_header))) in
  let% _ := import_header header id in
  let% _ := import_solid_entry_points (full_sep_count full_header) (header_sep_index header) in
  let% _ := import_outputs (full_output_count full_header) in
  let% _ := import_milestone_diffs (full_milestone_diff_count full_header) in
  check_remaining.

Definition import_delta_snapshot (id : Z) : imp B unit :=
  let% header := iread (unpack_inner SnapshotHeader_packable true) in
  let% _ := icheck (check_header header SnapshotKind_Delta id) in
  let% delta_header := iread (unpack_inner DeltaSnapshotHeader_packable true) in
  let% _ := icheck (check_indexes header (header_ledger_index header) (header_sep_index header) (delta_milestone_diff_count delta_header)) in
  let% _ := import_header header id in
  let% _ := import_solid_entry_points (delta_sep_count delta_header) (header_sep_index header) in
  let% _ := import_milestone_diffs (delta_milestone_diff_count delta_header) in
  check_remaining.

(** [snapshot_reader] followed by an import. *)
Definition import_file (import : imp B unit) (storage : B) (file : option bytes) : B * result WorkerError unit :=
  match file with
  | Some bs => let '(storage, r) := import storage bs in (storage, let? _ := r in Ok tt)
  | None => (storage, Err (Worker_Snapshot Snapshot_Io))
  end.

(** [full] and [delta] are the files at the two paths; [download] is the state of the file system after a download. *)
Definition import_snapshots (storage : B) (id : Z) (full delta : option bytes)
    (download : result WorkerError (option bytes * option bytes)) : B * result WorkerError unit :=
  let files :=
    match full, delta with
    | None, Some _ => Err (Worker_Snapshot OnlyDeltaSnapshotFileExists)
    | None, None => download
    | _, _ => Ok (full, delta)
    end in
  match files with
  | Err e => (storage, Err e)
  | Ok (full, delta) =>
      match import_file (import_full_snapshot id) storage full with
      | (storage, Err e) => (storage, Err e)
      | (storage, Ok _) =>
          match delta with
          | Some _ => import_file (import_delta_snapshot id) storage delta
          | None => (storage, Ok tt)
          end
      end
  end.
End import.

(** ** The worker *)

Section worker.
Context `{IteratorSorted} `{Crypto} `{Hex} `{TableHasher MessageId} `{HashOrder} `{Environment} `{LedgerBackend B} `{!HealthBackend B}.

(** The end of [start]: the tangle takes its entry points and indexes from the storage. *)
Definition load_tangle (tangle : Tangle B) : result WorkerError (Tangle B) :=
  let storage := tg_storage tangle in
  let? solid_entry_points := storage_result (storage_iter SolidEntryPoint MilestoneIndex storage) in
  let? solid_entry_points := try_fold (fun l r => let? e := storage_result r in Ok (l ++ [e])) [] solid_entry_points in
  let? index := fetch_ledger_index storage in
  let? index := ok_or index (Worker_Panic "called `Option::unwrap()` on a `None` value") in
  let? info := fetch_snapshot_info storage in
  let? info := ok_or info (Worker_Panic "called `Option::unwrap()` on a `None` value") in
  let index := ledger_index index in
  Ok (update_latest_milestone_index index (update_confirmed_milestone_index index (update_solid_milestone_index index
        (update_pruning_index (pruning_index info) (update_snapshot_index (snapshot_index info)
          (replace_solid_entry_points solid_entry_points tangle)))))).

(** A failed import marks the storage as corrupted. The files and the download are those of [import_snapshots]. *)
Definition SnapshotWorker_start (id : Z) (full delta : option bytes) (download : result WorkerError (option bytes * option bytes))
    (tangle : Tangle B) : Tangle B * result WorkerError (Tangle B) :=
  match fetch_snapshot_info (tg_storage tangle) with
  | Err e => (tangle, Err e)
  | Ok (Some info) =>
      if negb (network_id info =? id) then (tangle, Err (Worker_Snapshot (NetworkIdMismatch (network_id info) id)))
      else (tangle, load_tangle tangle)
  | Ok None =>
      match import_snapshots (tg_storage tangle) id full delta download with
      | (storage, Ok _) => let tangle := with_storage storage tangle in (tangle, load_tangle tangle)
      | (storage, Err e) =>
          match storage_result (storage_set_health storage Corrupted) with
          | Ok storage => (with_storage storage tangle, Err e)
          | Err e => (with_storage storage tangle, Err e)
          end
      end
  end.
End worker.
