(* ===== verification/Consensus.v ===== *)
(** * The consensus worker

    Models the worker of [bee-ledger/src/workers/consensus/worker.rs] with the configuration and the condition of snapshots
    ([workers/snapshot/config.rs], [workers/snapshot/condition.rs]): what the worker computes when it starts, and what it
    does with each of its commands. [None] is a panic, which stops the worker, or missing fuel. *)

From S2P Require Import Prelude External MessageTypes Payload Message TangleTypes LedgerTypes.
From S2P Require Import Vertices Storage StorageTables StorageMemory Tangle LedgerStorage Pruning Ledger Merkle WhiteFlag Confirm.

Local Open Scope Z_scope.

(** ** Snapshots: [config.rs] and [condition.rs] *)

Definition DEFAULT_FULL_PATH : string := "./snapshots/mainnet/latest-full_snapshot.bin".
Definition DEFAULT_DEPTH : Z := 50.
Definition DEFAULT_INTERVAL_SYNCED : Z := 50.
Definition DEFAULT_INTERVAL_UNSYNCED : Z := 1000.

Record DownloadUrls := mkDownloadUrls {
  url_full : string;
  url_delta : string;
}.

Record SnapshotConfigBuilder := mkSnapshotConfigBuilder {
  builder_full_path : option string;
  builder_delta_path : option string;
  builder_download_urls : option (list DownloadUrls);
  builder_depth : option Z;
  builder_interval_synced : option Z;
  builder_interval_unsynced : option Z;
}.

Record SnapshotConfig := mkSnapshotConfig {
  config_full_path : string;
  config_delta_path : option string;
  config_download_urls : list DownloadUrls;
  config_depth : Z;
  config_interval_synced : Z;
  config_interval_unsynced : Z;
}.

Definition SnapshotConfigBuilder_finish (self : SnapshotConfigBuilder) : SnapshotConfig :=
  mkSnapshotConfig (default DEFAULT_FULL_PATH (builder_full_path self)) (builder_delta_path self)
    (default [] (builder_download_urls self)) (default DEFAULT_DEPTH (builder_depth self))
    (default DEFAULT_INTERVAL_SYNCED (builder_interval_synced self))
    (default DEFAULT_INTERVAL_UNSYNCED (builder_interval_unsynced self)).

Inductive SnapshottingSkipReason :=
| SnapshottingBelowThreshold (reached_in : Z)
| SnapshottingDeferred (next_in : Z).

Definition should_snapshot `{Environment} {B} (tangle : Tangle B) (index : LedgerIndex) (snapshot_depth : Z)
    (config : SnapshotConfig) : result SnapshottingSkipReason unit :=
  let index := milestone_index (ledger_index index) in
  let snapshot_interval := if is_synced tangle then config_interval_synced config else config_interval_unsynced config in
  let next := as_u 32 (milestone_index (tg_snapshot tangle) + snapshot_interval) in
  if index <? snapshot_depth then Err (SnapshottingBelowThreshold (as_u 32 (snapshot_depth - index)))
  else if index <? next then Err (SnapshottingDeferred (as_u 32 (next - index)))
  else Ok tt.

(** ** Commands: [worker.rs] *)

Definition EXTRA_SNAPSHOT_DEPTH : Z := 5.

(** The senders of the replies are not part of the commands: a reply is what [handle_command] returns. *)
Inductive ConsensusWorkerCommand :=
| ConfirmMilestone (message_id : MessageId)
| FetchBalance (address : Address)
| FetchOutput (output_id : OutputId)
| FetchOutputs (address : Address).

Inductive ConsensusReply :=
| Reply_None
| Reply_Balance (balance : result WorkerError (option Balance)) (index : LedgerIndex)
| Reply_Output (output : result WorkerError (option CreatedOutput)) (index : LedgerIndex)
| Reply_Outputs (outputs : result WorkerError (option (list OutputId))) (index : LedgerIndex).

(** The depth of snapshots and the delay of pruning, raised to what the configuration of the tangle requires. *)
Definition effective_snapshot_depth (bmd : Z) (config : SnapshotConfig) : Z :=
  let snapshot_depth_min := as_u 32 (bmd + EXTRA_SNAPSHOT_DEPTH) in
  if config_depth config <? snapshot_depth_min then snapshot_depth_min else config_depth config.

Definition effective_pruning_delay (bmd : Z) (snapshot_depth : Z) (config : PruningConfig) : Z :=
  let snapshot_pruning_delta := as_u 32 (bmd + EXTRA_PRUNING_DEPTH) in
  let pruning_delay_min := as_u 32 (snapshot_depth + snapshot_pruning_delta) in
  if pruning_delay config <? pruning_delay_min then pruning_delay_min else pruning_delay config.

(** What does not change while the worker runs. *)
Record ConsensusSettings := mkConsensusSettings {
  snapshot_config : SnapshotConfig;
  pruning_config : PruningConfig;
  worker_snapshot_depth : Z;
  worker_pruning_delay : Z;
}.

(** The tangle with its storage, the variables of the loop, and the counter [NUM_PRUNINGS] of [prune]. *)
Record ConsensusWorker (B : Type) `{Environment} := mkConsensusWorker {
  cw_tangle : Tangle B;
  cw_ledger_index : LedgerIndex;
  cw_receipt_migrated_at : MilestoneIndex;
  cw_num_prunings : Z;
  cw_settings : ConsensusSettings;
}.
Arguments mkConsensusWorker {B _} _ _ _ _ _.
Arguments cw_tangle {B _} _.
Arguments cw_ledger_index {B _} _.
Arguments cw_receipt_migrated_at {B _} _.
Arguments cw_num_prunings {B _} _.
Arguments cw_settings {B _} _.

(** The events of a confirmation and of the prunings that follow it. *)
Inductive ConsensusEvent :=
| Event_Ledger (e : LedgerEvent)
| Event_Pruned (e : PrunedIndex).

Section worker.
Context `{IteratorSorted} `{Crypto} `{Hex} `{TableHasher MessageId} `{HashOrder} `{Environment} `{Bitflags} `{LedgerBackend B}.
Implicit Types (self : ConsensusWorker B).

(** The start, up to the loop: the validation of the ledger, the settings, and the index in the storage. *)
Definition ConsensusWorker_start (snapshot_config : SnapshotConfig) (pruning_config : PruningConfig) (tangle : Tangle B)
    : result WorkerError (ConsensusWorker B) :=
  let? _ := validate_ledger_state (tg_storage tangle) in
  let bmd := below_max_depth (tg_config tangle) in
  let snapshot_depth := effective_snapshot_depth bmd snapshot_config in
  let pruning_delay := effective_pruning_delay bmd snapshot_depth pruning_config in
  let? index := fetch_ledger_index (tg_storage tangle) in
  let? index := ok_or index (Worker_Panic "called `Option::unwrap()` on a `None` value") in
  Ok (mkConsensusWorker tangle index (MilestoneIndex_new 0) 0
        (mkConsensusSettings snapshot_config pruning_config snapshot_depth pruning_delay)).

(** What follows a confirmation. The decision about a snapshot has no effect: the snapshot itself is still to be written.
    An error of [prune] is logged. *)
Definition after_confirmation (fuel : nat) (now : MilestoneIndex -> Z) self : option (ConsensusWorker B * list PrunedIndex) :=
  let tangle := cw_tangle self in
  let settings := cw_settings self in
  if negb (is_confirmed tangle) then Some (self, [])
  else
    match should_snapshot tangle (cw_ledger_index self) (worker_snapshot_depth settings) (snapshot_config settings) with
    | Ok _ | Err _ =>
        match should_prune tangle (cw_ledger_index self) (worker_pruning_delay settings) (pruning_config settings) with
        | Ok (start_index, target_index) =>
            r ← prune fuel now start_index target_index (pruning_config settings) (mkPruneState tangle (cw_num_prunings self));
            let '(state, events, _) := r in
            Some (mkConsensusWorker (prune_tangle state) (cw_ledger_index self) (cw_receipt_migrated_at self)
                    (num_prunings state) settings, events)
        | Err _ => Some (self, [])
        end
    end.

(** The command [ConfirmMilestone]; a confirmation that fails aborts the worker. *)
Definition handle_confirm (fuel : nat) (now : MilestoneIndex -> Z) (message_id : MessageId) self
    : option (ConsensusWorker B * list ConsensusEvent) :=
  r ← confirm fuel message_id (cw_ledger_index self) (cw_receipt_migrated_at self) (cw_tangle self);
  match r with
  | (Err _, _) => None
  | (Ok c, tangle) =>
      r ← after_confirmation fuel now
            (mkConsensusWorker tangle (confirmed_ledger_index c) (confirmed_migrated_at c) (cw_num_prunings self) (cw_settings self));
      let '(self, pruned) := r in
      Some (self, (Event_Ledger <$> confirmed_events c) ++ (Event_Pruned <$> pruned))
  end.

(** One iteration of the loop: the worker afterwards, the events, and the reply. *)
Definition handle_command (fuel : nat) (now : MilestoneIndex -> Z) (event : ConsensusWorkerCommand) self
    : option (ConsensusWorker B * list ConsensusEvent * ConsensusReply) :=
  let storage := tg_storage (cw_tangle self) in
  match event with
  | ConfirmMilestone message_id => r ← handle_confirm fuel now message_id self; Some (r, Reply_None)
  | FetchBalance address => Some (self, [], Reply_Balance (fetch_balance storage address) (cw_ledger_index self))
  | FetchOutput output_id => Some (self, [], Reply_Output (fetch_output storage output_id) (cw_ledger_index self))
  | FetchOutputs (Address_Ed25519 address) =>
      Some (self, [], Reply_Outputs (fetch_outputs_for_ed25519_address storage address) (cw_ledger_index self))
  end.

(** The loop over the commands that arrive; [now] is the clock at each of them. *)
Fixpoint run_commands (fuel : nat) (events : list ((MilestoneIndex -> Z) * ConsensusWorkerCommand)) self
    : option (ConsensusWorker B * list ConsensusReply) :=
  match events with
  | [] => Some (self, [])
  | (now, event) :: events =>
      r ← handle_command fuel now event self;
      let '(self, _, reply) := r in
      r ← run_commands fuel events self;
      let '(self, replies) := r in
      Some (self, reply :: replies)
  end.
End worker.

(** ** What is never pruned *)

Section claims.
Context `{IteratorSorted} `{Crypto} `{Hex} `{TableHasher MessageId} `{HashOrder} `{Environment} `{Bitflags} `{LedgerBackend B}.

(** The depth and the delay that the configuration and the tangle call for. *)
Definition intended_depth (bmd : Z) (config : SnapshotConfig) : Z := Z.max (config_depth config) (bmd + EXTRA_SNAPSHOT_DEPTH).
Definition intended_delay (bmd : Z) (snapshots : SnapshotConfig) (prunings : PruningConfig) : Z :=
  Z.max (pruning_delay prunings) (intended_depth bmd snapshots + bmd + EXTRA_PRUNING_DEPTH).

Lemma effective_depth_intended bmd config :
  0 <= bmd -> 0 <= config_depth config -> intended_depth bmd config < 2 ^ 32 -> effective_snapshot_depth bmd config = intended_depth bmd config.
Proof.
  unfold effective_snapshot_depth, intended_depth, EXTRA_SNAPSHOT_DEPTH. intros. rewrite as_u_id by (unfold fits; lia).
  destruct (Z.ltb_spec (config_depth config) (bmd + 5)); lia.
Qed.

Lemma effective_delay_intended bmd snapshots prunings :
  0 <= bmd -> 0 <= config_depth snapshots -> 0 <= pruning_delay prunings -> intended_delay bmd snapshots prunings < 2 ^ 32 ->
  effective_pruning_delay bmd (intended_depth bmd snapshots) prunings = intended_delay bmd snapshots prunings.
Proof.
  unfold effective_pruning_delay, intended_delay, intended_depth, EXTRA_SNAPSHOT_DEPTH, EXTRA_PRUNING_DEPTH. intros.
  rewrite !as_u_id by (unfold fits; rewrite ?as_u_id; unfold fits; lia).
  destruct (Z.ltb_spec (pruning_delay prunings) (Z.max (config_depth snapshots) (bmd + 5) + (bmd + 5))); lia.
Qed.

(** C15. A worker that has started keeps the depth of snapshots that is configured, or the maximal depth of a message and five
    milestones more if that is deeper, and delays pruning as configured, or by that depth, the maximal depth of a message
    and five milestones more if that is longer. What it prunes is older than this delay: it starts after the last
    milestone that was pruned, prunes at most 201 milestones at a time, and [prune] does not refuse the range. This is so
    if the sums do not overflow [u32]: neither the index of the next milestone to prune plus the delay, nor this index
    plus the size of a batch. *)
Theorem pruning_keeps_depth (t : Tangle B) snapshots prunings w (t' : Tangle B) (index : LedgerIndex) start target :
  let bmd := below_max_depth (tg_config t) in
  0 <= bmd -> 0 <= config_depth snapshots -> 0 <= pruning_delay prunings ->
  0 <= milestone_index (tg_pruning t') -> 0 <= milestone_index (ledger_index index) < 2 ^ 32 ->
  milestone_index (tg_pruning t') + 1 + intended_delay bmd snapshots prunings < 2 ^ 32 ->
  milestone_index (tg_pruning t') + 1 + PRUNING_BATCH_SIZE_MAX < 2 ^ 32 ->
  ConsensusWorker_start snapshots prunings t = Ok w ->
  should_prune t' index (worker_pruning_delay (cw_settings w)) prunings = Ok (start, target) ->
  worker_snapshot_depth (cw_settings w) = intended_depth bmd snapshots
  /\ worker_pruning_delay (cw_settings w) = intended_delay bmd snapshots prunings
  /\ milestone_index start = milestone_index (tg_pruning t') + 1
  /\ milestone_index start <= milestone_index target
  /\ milestone_index target - milestone_index start <= PRUNING_BATCH_SIZE_MAX
  /\ milestone_index target <= milestone_index (ledger_index index) - intended_delay bmd snapshots prunings.
Proof.
  cbn zeta. intros Hb Hd Hp Hpi Hi Ho Hbatch Hw Hr. unfold ConsensusWorker_start in Hw. apply result_bind_Ok in Hw as ([] & _ & Hw).
  apply result_bind_Ok in Hw as (o & _ & Hw). apply result_bind_Ok in Hw as (i & _ & [= <-]). cbn [cw_settings worker_pruning_delay worker_snapshot_depth] in *.
  set (bmd := below_max_depth _) in *.
  assert (Hdelay : intended_depth bmd snapshots + bmd + EXTRA_PRUNING_DEPTH <= intended_delay bmd snapshots prunings) by apply Z.le_max_r.
  assert (Hdepth : config_depth snapshots <= intended_depth bmd snapshots) by apply Z.le_max_l.
  unfold EXTRA_PRUNING_DEPTH in Hdelay. rewrite effective_depth_intended in * by lia. rewrite effective_delay_intended in * by lia.
  apply should_prune_range in Hr as (? & [? ?] & ?); [by split_and! | lia..].
Qed.
End claims.

Module Examples.
Import Concrete Ledger.Examples.

#[local] Remove Hints Storage_backend Storage_tangle_backend : typeclass_instances.
#[local] Instance message_hasher : TableHasher MessageId := byte_hasher message_id_bytes.

Definition config : TangleConfig := TangleConfigBuilder_finish (mkTangleConfigBuilder None None None).
Definition snapshots : SnapshotConfig := SnapshotConfigBuilder_finish (mkSnapshotConfigBuilder None None None (Some 3) None None).
Definition prunings : PruningConfig := PruningConfigBuilder_finish (mkPruningConfigBuilder None (Some 7) None).
Definition tangle_6 : Tangle Storage := update_pruning_index (MilestoneIndex_new 6) (Tangle_new config storage_6 (0 : @env counter)).

Lemma started snapshots prunings :
  is_ok (ConsensusWorker_start snapshots prunings tangle_6) = true -> exists w, ConsensusWorker_start snapshots prunings tangle_6 = Ok w.
Proof. destruct (ConsensusWorker_start snapshots prunings tangle_6) as [w|e]; [by exists w | done]. Qed.

(** The depth 3 becomes 20, and the delay 7 becomes 40. *)
Lemma pruning_keeps_depth_witness :
  exists w, ConsensusWorker_start snapshots prunings tangle_6 = Ok w
    /\ should_prune tangle_6 (LedgerIndex_new (MilestoneIndex_new 60)) (worker_pruning_delay (cw_settings w)) prunings
       = Ok (MilestoneIndex_new 7, MilestoneIndex_new 20)
    /\ worker_snapshot_depth (cw_settings w) = 20 /\ worker_pruning_delay (cw_settings w) = 40 /\ 20 <= 60 - 40.
Proof.
  destruct (started snapshots prunings) as [w Hw]; [vm_compute; reflexivity|]. exists w. split; [exact Hw|].
  assert (Hd : worker_pruning_delay (cw_settings w) = 40).
  { assert (Hv : match ConsensusWorker_start snapshots prunings tangle_6 with Ok w => worker_pruning_delay (cw_settings w) | Err _ => 0 end = 40)
      by (vm_compute; reflexivity). rewrite Hw in Hv. exact Hv. }
  assert (Hr : should_prune tangle_6 (LedgerIndex_new (MilestoneIndex_new 60)) (worker_pruning_delay (cw_settings w)) prunings
               = Ok (MilestoneIndex_new 7, MilestoneIndex_new 20)) by (rewrite Hd; vm_compute; reflexivity).
  split; [exact Hr|].
  destruct (pruning_keeps_depth tangle_6 snapshots prunings w tangle_6 (LedgerIndex_new (MilestoneIndex_new 60)) (MilestoneIndex_new 7)
              (MilestoneIndex_new 20)) as (Hs & Hp & _ & _ & _ & Hle);
    [discriminate | discriminate | discriminate | discriminate | split; [discriminate | reflexivity] | reflexivity | reflexivity | exact Hw | exact Hr|].
  split; [exact Hs|]. split; [exact Hp | exact Hle].
Defined.

(** With the greatest depth the sum overflows: the delay becomes 19, less than the depth of a message plus five. *)
Definition deep_snapshots : SnapshotConfig := SnapshotConfigBuilder_finish (mkSnapshotConfigBuilder None None None (Some (2 ^ 32 - 1)) None None).

Example pruning_delay_overflows :
  exists w, ConsensusWorker_start deep_snapshots prunings tangle_6 = Ok w
    /\ worker_snapshot_depth (cw_settings w) = 2 ^ 32 - 1 /\ worker_pruning_delay (cw_settings w) = 19
    /\ should_prune tangle_6 (LedgerIndex_new (MilestoneIndex_new 60)) 19 prunings = Ok (MilestoneIndex_new 7, MilestoneIndex_new 41).
Proof.
  destruct (started deep_snapshots prunings) as [w Hw]; [vm_compute; reflexivity|]. exists w. split; [exact Hw|].
  assert (Hv : match ConsensusWorker_start deep_snapshots prunings tangle_6 with
               | Ok w => (worker_snapshot_depth (cw_settings w), worker_pruning_delay (cw_settings w)) | Err _ => (0, 0) end = (2 ^ 32 - 1, 19))
    by (vm_compute; reflexivity).
  rewrite Hw in Hv. injection Hv as -> ->. split; [reflexivity|]. split; [reflexivity|]. vm_compute. reflexivity.
Qed.
End Examples.
