(* ===== verification/Workers.v ===== *)
(** * Workers of the protocol

    Models the workers of [bee-protocol/src/workers/]: the hasher, which filters duplicates and checks the proof of work; the
    processor, which inserts messages into the tangle; the workers of the payloads; the requesters of messages and
    milestones and their responders; the solidifier of milestones, the propagator ([Solidity.v]) and the index updater.
    [Protocol.v] composes them.

    A worker is a loop over the events of its channel; its handler is a function of the state that the workers share. The
    channels are one list of events, each addressed to a worker; what a handler sends is appended. The clock is an
    argument; the metrics, the bus and the log are left out. The hash of the cache is a function of the crate [twox-hash]. *)

From S2P Require Import Prelude Packable External MessageTypes Payload PayloadKeys PayloadCodec Message Packets Pow.
From S2P Require Import TangleTypes LedgerTypes Vertices Storage Tangle TipPool Solidity Peers LedgerStorage Pruning Confirm Consensus.

Local Open Scope Z_scope.

(** [XxHash64] *)
Class XxHash := xx_hash : bytes -> Z.

(** The helper trait of the protocol: the backend of the ledger and the index of indexation payloads. *)
Class ProtocolBackend (B : Type) `{LedgerBackend B} := insert_indexation :: StorageInsert B (PaddedIndex * MessageId) unit.

(** ** Keys of the coordinator: [milestone_key_range.rs] and [milestone_key_manager.rs] *)

Record MilestoneKeyRange := mkMilestoneKeyRange {
  range_public_key : string;
  range_start : MilestoneIndex;
  range_end : MilestoneIndex;
}.

Record MilestoneKeyManager := mkMilestoneKeyManager {
  min_threshold : Z;
  key_ranges : list MilestoneKeyRange;
}.

(** The order of key ranges compares their start; [sort] is stable. *)
Fixpoint insert_range (r : MilestoneKeyRange) (l : list MilestoneKeyRange) : list MilestoneKeyRange :=
  match l with
  | [] => [r]
  | r' :: l => if milestone_index (range_start r) <? milestone_index (range_start r') then r :: r' :: l else r' :: insert_range r l
  end.
Definition MilestoneKeyManager_new (min_threshold : Z) (key_ranges : list MilestoneKeyRange) : MilestoneKeyManager :=
  mkMilestoneKeyManager min_threshold (foldl (fun l r => insert_range r l) [] key_ranges).

(** The loop of [get_public_keys], with its [break]. *)
Fixpoint public_keys_loop (index : Z) (l : list MilestoneKeyRange) (public_keys : gmap string unit) : gmap string unit :=
  match l with
  | [] => public_keys
  | r :: l =>
      let s := milestone_index (range_start r) in
      let e := milestone_index (range_end r) in
      if index <? s then public_keys
      else if (index <=? e) || (s =? e) then public_keys_loop index l (<[range_public_key r := tt]> public_keys)
      else public_keys_loop index l public_keys
  end.
Definition get_public_keys (self : MilestoneKeyManager) (index : MilestoneIndex) : gmap string unit :=
  public_keys_loop (milestone_index index) (key_ranges self) ∅.

(** ** The cache of hashes: [hash_cache.rs] *)

Record HashCache := mkHashCache {
  max_capacity : Z;
  cache_hashes : gset Z;
  elem_order : list Z;
}.

Definition HashCache_new (max_capacity : Z) : HashCache := mkHashCache max_capacity ∅ [].

(** The oldest hash makes room; [unwrap] panics if there is none. *)
Definition HashCache_insert `{XxHash} (self : HashCache) (bs : bytes) : option (bool * HashCache) :=
  let hash := xx_hash bs in
  let 'mkHashCache max cache order := self in
  if bool_decide (hash ∈ cache) then Some (false, self)
  else if max <=? Z.of_nat (size cache) then
    match order with
    | [] => None
    | first :: order => Some (true, mkHashCache max ({[hash]} ∪ cache ∖ {[first]}) (order ++ [hash]))
    end
  else Some (true, mkHashCache max ({[hash]} ∪ cache) (order ++ [hash])).

(** ** Configuration: [config.rs] *)

Record ProtocolConfig := mkProtocolConfig {
  minimum_pow_score : f64;
  coordinator_public_key_count : Z;
  coordinator_public_key_ranges : list MilestoneKeyRange;
  message_worker_cache : Z;
  milestone_sync_count : Z;
  protocol_network_id : Z;
}.

(** ** Events and state *)

Section workers.
Context `{IteratorSorted} `{Crypto} `{Hex} `{Curl} `{XxHash} `{PeerIds} `{TableHasher MessageId} `{HashOrder} `{Environment} `{Bitflags}
  `{ProtocolBackend B}.

(** A notifier is the number of the request of the submitter. *)
Inductive WorkerEvent :=
| To_Hasher (from : option PeerId) (packet : MessagePacket) (notifier : option Z)
| To_Processor (from : option PeerId) (packet : MessagePacket) (notifier : option Z)
| To_Propagator (message_id : MessageId)
| To_TipPool (solidified : Solidified)
| To_Broadcaster (source : option PeerId) (message : MessagePacket)
| To_UnreferencedInserter (message_id : MessageId) (index : MilestoneIndex)
| To_Payload (message_id : MessageId) (message : Message)
| To_TransactionPayload (message_id : MessageId) (message : Message)
| To_MilestonePayload (message_id : MessageId) (message : Message)
| To_IndexationPayload (message_id : MessageId) (message : Message)
| To_MessageRequester (message_id : MessageId) (index : MilestoneIndex)
| To_MilestoneRequester (index : MilestoneIndex) (peer : option PeerId)
| To_MessageResponder (peer : PeerId) (request : MessageRequestPacket)
| To_MilestoneResponder (peer : PeerId) (request : MilestoneRequestPacket)
| To_Solidifier (index : MilestoneIndex)
| To_IndexUpdater (index : MilestoneIndex) (milestone : Milestone)
| To_Consensus (command : ConsensusWorkerCommand)
| To_Submitter (notifier : Z) (reply : result string MessageId).

(** The state that the workers share, and what they keep to themselves: the cache of the hasher, the index [next] of the
    solidifier, and the batch of the inserter with its counter. *)
Record Protocol := mkProtocol {
  pr_tangle : Tangle B;
  pr_peers : PeerManager;
  pr_requested_messages : gmap MessageId (MilestoneIndex * Z);
  pr_requested_milestones : gmap MilestoneIndex Z;
  pr_cache : HashCache;
  pr_next : MilestoneIndex;
  pr_batch : storage_batch B;
  pr_counter : Z;
  pr_queue : list WorkerEvent;
}.

Definition set_pr_tangle (t : Tangle B) (p : Protocol) : Protocol :=
  let 'mkProtocol _ peers rm rs c n b k q := p in mkProtocol t peers rm rs c n b k q.
Definition set_pr_peers (peers : PeerManager) (p : Protocol) : Protocol :=
  let 'mkProtocol t _ rm rs c n b k q := p in mkProtocol t peers rm rs c n b k q.
Definition set_pr_requested_messages (rm : gmap MessageId (MilestoneIndex * Z)) (p : Protocol) : Protocol :=
  let 'mkProtocol t peers _ rs c n b k q := p in mkProtocol t peers rm rs c n b k q.
Definition set_pr_requested_milestones (rs : gmap MilestoneIndex Z) (p : Protocol) : Protocol :=
  let 'mkProtocol t peers rm _ c n b k q := p in mkProtocol t peers rm rs c n b k q.
Definition set_pr_cache (c : HashCache) (p : Protocol) : Protocol :=
  let 'mkProtocol t peers rm rs _ n b k q := p in mkProtocol t peers rm rs c n b k q.
Definition set_pr_next (n : MilestoneIndex) (p : Protocol) : Protocol :=
  let 'mkProtocol t peers rm rs c _ b k q := p in mkProtocol t peers rm rs c n b k q.
Definition set_pr_batch (b : storage_batch B) (k : Z) (p : Protocol) : Protocol :=
  let 'mkProtocol t peers rm rs c n _ _ q := p in mkProtocol t peers rm rs c n b k q.
Definition set_pr_queue (q : list WorkerEvent) (p : Protocol) : Protocol :=
  let 'mkProtocol t peers rm rs c n b k _ := p in mkProtocol t peers rm rs c n b k q.

Definition on_tangle {A} (m : st (Tangle B) A) : st Protocol A := fun p =>
  match m (pr_tangle p) with
  | Some (a, t) => Some (a, set_pr_tangle t p)
  | None => None
  end.
Definition pgets {A} (f : Protocol -> A) : st Protocol A := fun p => Some (f p, p).
Definition pmodify (f : Protocol -> Protocol) : st Protocol unit := fun p => Some (tt, f p).
Definition emit (e : WorkerEvent) : st Protocol unit := pmodify (fun p => set_pr_queue (pr_queue p ++ [e]) p).
Definition on_peers {A} (f : PeerManager -> A * PeerManager) : st Protocol A := fun p =>
  let '(a, peers) := f (pr_peers p) in Some (a, set_pr_peers peers p).

(** ** Submission and hashing: [submitter.rs], [hasher.rs] *)

Definition notify (notifier : option Z) (reply : result string MessageId) : st Protocol unit :=
  match notifier with
  | Some n => emit (To_Submitter n reply)
  | None => sret tt
  end.

Definition submit (message : bytes) (notifier : Z) : st Protocol unit :=
  emit (To_Hasher None (MessagePacket_new message) (Some notifier)).

Definition handle_hasher (config : ProtocolConfig) (from : option PeerId) (packet : MessagePacket) (notifier : option Z) : st Protocol unit :=
  let* cache := pgets pr_cache in
  match HashCache_insert cache (message_packet_bytes packet) with
  | None => spanic
  | Some (inserted, cache) =>
      let* _ := pmodify (set_pr_cache cache) in
      if negb inserted then notify notifier (Err "message already received"%string)
      else
        match PoWScorer_score (message_packet_bytes packet) with
        | None => spanic
        | Some pow_score =>
            if f64_ltb pow_score (minimum_pow_score config) then notify notifier (Err "Insufficient pow score"%string)
            else emit (To_Processor from packet notifier)
        end
  end.

(** ** Requests: [requester/message.rs], [requester/milestone.rs] *)

Definition RETRY_INTERVAL : Z := 2500.

Definition request_message (message_id : MessageId) (index : MilestoneIndex) : st Protocol unit :=
  let* known := on_tangle (Tangle_contains message_id) in
  if known then sret tt
  else
    let* skip := pgets (fun p => is_solid_entry_point (pr_tangle p) message_id
                                 || bool_decide (is_Some (pr_requested_messages p !! message_id))) in
    if skip then sret tt else emit (To_MessageRequester message_id index).

Definition request_milestone (index : MilestoneIndex) (peer : option PeerId) : st Protocol unit :=
  let* requested := pgets (fun p => bool_decide (is_Some (pr_requested_milestones p !! index))) in
  if requested then sret tt
  else
    let* known := on_tangle (contains_milestone index) in
    if known then sret tt else emit (To_MilestoneRequester index peer).
Definition request_latest_milestone (peer : option PeerId) : st Protocol unit := request_milestone (MilestoneIndex_new 0) peer.

(** The peer that is asked for a message: one that has the data, or else one that may have them. *)
Definition message_request_unchecked (message_id : MessageId) (index : MilestoneIndex) : st Protocol unit :=
  let* peer := on_peers (fair_find (fun peer => has_data peer index)) in
  let* peer := match peer with
               | Some id => sret (Some id)
               | None => on_peers (fair_find (fun peer => maybe_has_data peer index))
               end in
  match peer with
  | Some id => on_peers (fun peers => (tt, Sender_send (MessageRequestPacket_new message_id) id peers))
  | None => sret tt
  end.

Definition handle_message_requester (now : Z) (message_id : MessageId) (index : MilestoneIndex) : st Protocol unit :=
  let* skip := pgets (fun p => bool_decide (is_Some (pr_requested_messages p !! message_id)) || PeerManager_is_empty (pr_peers p)) in
  if skip then sret tt
  else
    let* _ := pmodify (fun p => set_pr_requested_messages (<[message_id := (index, now)]> (pr_requested_messages p)) p) in
    message_request_unchecked message_id index.

Definition milestone_request_unchecked (index : MilestoneIndex) (peer : option PeerId) : st Protocol unit :=
  let send id := on_peers (fun peers => (tt, Sender_send (MilestoneRequestPacket_new (milestone_index index)) id peers)) in
  match peer with
  | Some id => send id
  | None =>
      let* peer := on_peers (fair_find (fun peer => maybe_has_data peer index)) in
      match peer with
      | Some id => send id
      | None => sret tt
      end
  end.

Definition handle_milestone_requester (now : Z) (index : MilestoneIndex) (peer : option PeerId) : st Protocol unit :=
  let* known := on_tangle (contains_milestone index) in
  if known then sret tt
  else
    let* skip := pgets (fun p => bool_decide (is_Some (pr_requested_milestones p !! index)) || PeerManager_is_empty (pr_peers p)) in
    if skip then sret tt
    else
      let* _ := (if milestone_index index =? 0 then sret tt
                 else pmodify (fun p => set_pr_requested_milestones (<[index := now]> (pr_requested_milestones p)) p)) in
      milestone_request_unchecked index peer.

(** The requests that have waited for longer than the interval. *)
Definition expired_request (now instant : Z) : bool := RETRY_INTERVAL <? now - instant.

Definition retry_messages (now : Z) : st Protocol unit :=
  let* empty := pgets (fun p => PeerManager_is_empty (pr_peers p)) in
  if empty then sret tt
  else
    let* requested := pgets (fun p => hash_iter (pr_requested_messages p)) in
    sfor (fun '(message_id, (index, _)) =>
      let* known := on_tangle (Tangle_contains message_id) in
      if known then pmodify (fun p => set_pr_requested_messages (delete message_id (pr_requested_messages p)) p)
      else message_request_unchecked message_id index)
      (filter (fun e : MessageId * (MilestoneIndex * Z) => expired_request now e.2.2 = true) requested).

Definition retry_milestones (now : Z) : st Protocol unit :=
  let* empty := pgets (fun p => PeerManager_is_empty (pr_peers p)) in
  if empty then sret tt
  else
    let* requested := pgets (fun p => hash_iter (pr_requested_milestones p)) in
    sfor (fun '(index, _) =>
      let* known := on_tangle (contains_milestone index) in
      if known then pmodify (fun p => set_pr_requested_milestones (delete index (pr_requested_milestones p)) p)
      else milestone_request_unchecked index None)
      (filter (fun e : MilestoneIndex * Z => expired_request now e.2 = true) requested).

(** ** Responses: [responder/message.rs], [responder/milestone.rs] *)

Definition respond (peer : PeerId) (message : option Message) : st Protocol unit :=
  match message with
  | Some message => on_peers (fun peers => (tt, Sender_send (MessagePacket_new (pack_new Message_packable message)) peer peers))
  | None => sret tt
  end.

Definition handle_message_responder (peer : PeerId) (request : MessageRequestPacket) : st Protocol unit :=
  let* message := on_tangle (Tangle_get (request_message_id request)) in respond peer message.

Definition handle_milestone_responder (peer : PeerId) (request : MilestoneRequestPacket) : st Protocol unit :=
  let* index := pgets (fun p => if request_index request =? 0 then tg_latest (pr_tangle p)
                                else MilestoneIndex_new (request_index request)) in
  let* message := on_tangle (get_milestone_message index) in respond peer message.

(** ** Processing: [processor.rs] *)

Definition handle_processor (config : ProtocolConfig) (now : Z) (from : option PeerId) (packet : MessagePacket) (notifier : option Z)
    : st Protocol unit :=
  match unpack Message_packable (message_packet_bytes packet) with
  | Err _ => notify notifier (Err "Invalid message"%string)
  | Ok (message, _) =>
      if negb (message_network_id message =? protocol_network_id config) then notify notifier (Err "Incompatible network ID"%string)
      else
        let '(message_id, _) := Message_id message in
        let* inserted := on_tangle (Tangle_insert message message_id (arrived now)) in
        match inserted with
        | None => sret tt
        | Some message =>
            let* _ := emit (To_Propagator message_id) in
            let* requested := pgets (fun p => pr_requested_messages p !! message_id) in
            let* _ := pmodify (fun p => set_pr_requested_messages (delete message_id (pr_requested_messages p)) p) in
            let* _ :=
              match requested with
              | Some (index, _) => sfor (fun parent => request_message parent index) (parents_inner (message_parents message))
              | None =>
                  let* _ := emit (To_Broadcaster from packet) in
                  let* latest := pgets (fun p => tg_latest (pr_tangle p)) in
                  emit (To_UnreferencedInserter message_id latest)
              end in
            let* _ := emit (To_Payload message_id message) in
            notify notifier (Ok message_id)
        end
  end.

(** [unreferenced_inserter.rs]; an error of the storage is logged. *)
Definition UNREFERENCED_MESSAGE_BATCH_SIZE : Z := 1000.

Definition commit_batch (batch : storage_batch B) : st Protocol unit :=
  pmodify (fun p =>
    match batch_commit (tg_storage (pr_tangle p)) batch true with
    | Ok s => set_pr_tangle (with_storage s (pr_tangle p)) p
    | Err _ => p
    end).

Definition handle_unreferenced_inserter (message_id : MessageId) (index : MilestoneIndex) : st Protocol unit :=
  let* storage := pgets (fun p => tg_storage (pr_tangle p)) in
  let* batch := pgets (fun p =>
    match batch_insert storage (pr_batch p) (index, UnreferencedMessage_new message_id) tt with Ok b => b | Err _ => pr_batch p end) in
  let* counter := pgets (fun p => pr_counter p + 1) in
  if counter =? UNREFERENCED_MESSAGE_BATCH_SIZE then
    let* _ := commit_batch batch in pmodify (set_pr_batch (batch_begin B) 0)
  else pmodify (set_pr_batch batch counter).

(** ** Payloads: [payload/mod.rs], [payload/transaction.rs], [payload/indexation.rs] *)

Definition handle_payload (message_id : MessageId) (message : Message) : st Protocol unit :=
  match message_payload message with
  | Some (Payload_Transaction _) => emit (To_TransactionPayload message_id message)
  | Some (Payload_Milestone _) => emit (To_MilestonePayload message_id message)
  | Some (Payload_Indexation _) => emit (To_IndexationPayload message_id message)
  | _ => sret tt
  end.

(** The payload of the essence of a transaction. *)
Definition transaction_inner_payload (transaction : TransactionPayload) : option Payload :=
  essence_payload (regular_essence (transaction_essence transaction)).

Definition handle_transaction_payload (message_id : MessageId) (message : Message) : st Protocol unit :=
  match message_payload message with
  | Some (Payload_Transaction transaction) =>
      match transaction_inner_payload transaction with
      | Some (Payload_Indexation _) => emit (To_IndexationPayload message_id message)
      | _ => sret tt
      end
  | _ => sret tt
  end.

Definition indexation_of (message : Message) : option IndexationPayload :=
  match message_payload message with
  | Some (Payload_Indexation indexation) => Some indexation
  | Some (Payload_Transaction transaction) =>
      match transaction_inner_payload transaction with
      | Some (Payload_Indexation indexation) => Some indexation
      | _ => None
      end
  | _ => None
  end.

Definition handle_indexation_payload (message_id : MessageId) (message : Message) : st Protocol unit :=
  match indexation_of message with
  | Some indexation =>
      pmodify (fun p =>
        match storage_insert (tg_storage (pr_tangle p)) (padded_index indexation, message_id) tt with
        | Ok s => set_pr_tangle (with_storage s (pr_tangle p)) p
        | Err _ => p
        end)
  | None => sret tt
  end.

(** *** Milestones: [payload/milestone.rs] *)

Inductive MilestoneError :=
| MessageMilestoneParentsMismatch
| InvalidMilestone (e : MilestoneValidationError).

Definition validate_milestone (message_id : MessageId) (message : Message) (milestone : MilestonePayload) (key_manager : MilestoneKeyManager)
    : result MilestoneError Milestone :=
  let? _ := ensure (bool_decide (message_parents message = essence_parents (milestone_essence milestone))) MessageMilestoneParentsMismatch in
  let? _ := map_err InvalidMilestone
              (MilestonePayload_validate milestone (hash_iter (get_public_keys key_manager (essence_index (milestone_essence milestone)))).*1
                 (min_threshold key_manager)) in
  Ok (Milestone_new message_id (essence_timestamp (milestone_essence milestone))).

Definition heartbeat (now : Z) : st Protocol unit :=
  pmodify (fun p => set_pr_peers (broadcast_heartbeat now (pr_tangle p) (pr_peers p)) p).

Definition handle_milestone_payload (config : ProtocolConfig) (now : Z) (message_id : MessageId) (message : Message) : st Protocol unit :=
  match message_payload message with
  | Some (Payload_Milestone milestone) =>
      let index := essence_index (milestone_essence milestone) in
      let* solid := pgets (fun p => milestone_index (tg_solid (pr_tangle p))) in
      if milestone_index index <=? solid then sret tt
      else
        match validate_milestone message_id message milestone
                (MilestoneKeyManager_new (coordinator_public_key_count config) (coordinator_public_key_ranges config)) with
        | Ok milestone =>
            let* _ := on_tangle (add_milestone index milestone) in
            let* latest := pgets (fun p => milestone_index (tg_latest (pr_tangle p))) in
            let* _ :=
              (if latest <? milestone_index index then
                 let* _ := pmodify (fun p => set_pr_tangle (update_latest_milestone_index index (pr_tangle p)) p) in heartbeat now
               else sret tt) in
            let* _ := pmodify (fun p => set_pr_requested_milestones (delete index (pr_requested_milestones p)) p) in
            emit (To_Solidifier index)
        | Err _ => sret tt
        end
  | _ => sret tt
  end.

(** ** Solidification of milestones: [solidifier.rs], and [traversal.rs] of the tangle *)

Inductive Visited :=
| Visit_Apply (message_id : MessageId) (message : Message) (metadata : MessageMetadata)
| Visit_Else (message_id : MessageId) (message : Message) (metadata : MessageMetadata)
| Visit_Missing (message_id : MessageId).

(** [visit_parents_depth_first]: the calls of its closures, in their order. *)
Fixpoint visit_parents_depth_first (fuel : nat) (matches : MessageId -> Message -> MessageMetadata -> bool) (parents : list MessageId)
    (visited : gset MessageId) : st (Tangle B) (list Visited) :=
  match parents with
  | [] => sret []
  | message_id :: parents =>
      match fuel with
      | O => spanic
      | S fuel =>
          if bool_decide (message_id ∈ visited) then visit_parents_depth_first fuel matches parents visited
          else
            let visited := {[message_id]} ∪ visited in
            let* vertex := get_vertex message_id in
            match vertex ≫= message_and_metadata with
            | Some (msg, meta) =>
                if matches message_id msg meta then
                  let* rest := visit_parents_depth_first fuel matches (reverse (parents_inner (message_parents msg)) ++ parents) visited in
                  sret (Visit_Apply message_id msg meta :: rest)
                else
                  let* rest := visit_parents_depth_first fuel matches parents visited in
                  sret (Visit_Else message_id msg meta :: rest)
            | None =>
                let* rest := visit_parents_depth_first fuel matches parents visited in
                sret (Visit_Missing message_id :: rest)
            end
      end
  end.

Definition visit_missing (v : Visited) : option MessageId := match v with Visit_Missing id => Some id | _ => None end.

Definition heavy_solidification (fuel : nat) (target_index : MilestoneIndex) (target_id : MessageId) : st Protocol unit :=
  let* requested := pgets pr_requested_messages in
  let* visits := on_tangle (visit_parents_depth_first fuel
    (fun id _ metadata => negb (is_solid (metadata_flags metadata)) && negb (bool_decide (is_Some (requested !! id)))) [target_id] ∅) in
  sfor (fun missing_id => request_message missing_id target_index) (omap visit_missing visits).

(** [solidify] *)
Definition solidify_milestone (now : Z) (id : MessageId) (index : MilestoneIndex) : st Protocol unit :=
  let* _ := pmodify (fun p => set_pr_tangle (update_solid_milestone_index index (pr_tangle p)) p) in
  let* _ := emit (To_Consensus (ConfirmMilestone id)) in
  let* _ := emit (To_IndexUpdater index (Milestone_new id 0)) in
  heartbeat now.

(** The loop that requests milestones. *)
Fixpoint request_milestones (fuel : nat) (last : Z) : st Protocol unit :=
  let* next := pgets pr_next in
  if milestone_index next <=? last then
    match fuel with
    | O => spanic
    | S fuel =>
        let* _ := request_milestone next None in
        let* _ := pmodify (set_pr_next (MilestoneIndex_add next (MilestoneIndex_new 1))) in
        request_milestones fuel last
    end
  else sret tt.

Definition light_solidification (index : MilestoneIndex) : st Protocol unit :=
  let* message_id := on_tangle (get_milestone_message_id index) in
  match message_id with
  | Some message_id =>
      let* message := on_tangle (Tangle_get message_id) in
      match message with
      | Some message => sfor (fun parent => request_message parent index) (parents_inner (message_parents message))
      | None => sret tt
      end
  | None => sret tt
  end.

(** The loop over the milestones that follow the solid one. *)
Fixpoint solidify_milestones (fuel : nat) (now : Z) (target : MilestoneIndex) (lmi : Z) : st Protocol unit :=
  if milestone_index target <=? lmi then
    match fuel with
    | O => spanic
    | S fuel =>
        let* id := on_tangle (get_milestone_message_id target) in
        match id with
        | Some id =>
            let* solid := on_tangle (is_solid_message id) in
            if solid then
              let* _ := solidify_milestone now id target in
              solidify_milestones fuel now (MilestoneIndex_add target (MilestoneIndex_new 1)) lmi
            else heavy_solidification fuel target id
        | None => sret tt
        end
    end
  else sret tt.

Definition handle_solidifier (config : ProtocolConfig) (fuel : nat) (now : Z) (index : MilestoneIndex) : st Protocol unit :=
  let* smi := pgets (fun p => tg_solid (pr_tangle p)) in
  let* lmi := pgets (fun p => milestone_index (tg_latest (pr_tangle p))) in
  let* _ := request_milestones fuel
              (Z.min (milestone_index (MilestoneIndex_add smi (MilestoneIndex_new (milestone_sync_count config)))) lmi) in
  let* next := pgets pr_next in
  let* _ := (if milestone_index index <? milestone_index next then light_solidification index else sret tt) in
  solidify_milestones fuel now (MilestoneIndex_add smi (MilestoneIndex_new 1)) lmi.

(** ** The index updater: [index_updater.rs] *)

Fixpoint update_past_cone (fuel : nat) (parents : list MessageId) (index : MilestoneIndex) (updated : gset MessageId)
    : st (Tangle B) (gset MessageId) :=
  match parents with
  | [] => sret updated
  | parent_id :: parents =>
      match fuel with
      | O => spanic
      | S fuel =>
          if bool_decide (parent_id ∈ updated) then update_past_cone fuel parents index updated
          else
            let* sep := gets (fun tangle => is_solid_entry_point tangle parent_id) in
            if sep then update_past_cone fuel parents index updated
            else
              let* metadata := get_metadata parent_id in
              match metadata with
              | None => spanic
              | Some metadata =>
                  if bool_decide (is_Some (metadata_milestone_index metadata)) then update_past_cone fuel parents index updated
                  else
                    let* _ := update_metadata parent_id (fun metadata =>
                      (tt, set_ymrsi (set_omrsi (set_milestone_index metadata index) (IndexId_new index parent_id)) (IndexId_new index parent_id))) in
                    let* parent := Tangle_get parent_id in
                    let grandparents := match parent with Some parent => parents_inner (message_parents parent) | None => [] end in
                    update_past_cone fuel (reverse grandparents ++ parents) index ({[parent_id]} ∪ updated)
              end
      end
  end.

(** The update of one child; whether the walk continues with it. *)
Definition update_child (parent_id : MessageId) (parent_omrsi parent_ymrsi : IndexId) (child : MessageId) : st (Tangle B) bool :=
  let* metadata := get_metadata child in
  match metadata with
  | None => sret false
  | Some metadata =>
      if bool_decide (is_Some (metadata_milestone_index metadata)) then sret false
      else
        let* _ :=
          match metadata_omrsi metadata with
          | Some omrsi =>
              if bool_decide (index_id_id omrsi = parent_id)
              then let* _ := update_metadata child (fun md => (tt, set_omrsi md (IndexId_new (index_id_index parent_omrsi) parent_id))) in sret tt
              else sret tt
          | None => sret tt
          end in
        let* _ :=
          match metadata_ymrsi metadata with
          | Some ymrsi =>
              if bool_decide (index_id_id ymrsi = parent_id)
              then let* _ := update_metadata child (fun md => (tt, set_ymrsi md (IndexId_new (index_id_index parent_ymrsi) parent_id))) in sret tt
              else sret tt
          | None => sret tt
          end in
        sret true
  end.

Fixpoint update_children (parent_id : MessageId) (parent_omrsi parent_ymrsi : IndexId) (processed : gset MessageId) (children : list MessageId)
    : st (Tangle B) (list MessageId) :=
  match children with
  | [] => sret []
  | child :: children =>
      let* walk := update_child parent_id parent_omrsi parent_ymrsi child in
      let* rest := update_children parent_id parent_omrsi parent_ymrsi processed children in
      sret (if walk && negb (bool_decide (child ∈ processed)) then child :: rest else rest)
  end.

Fixpoint update_future_cone (fuel : nat) (to_process : list MessageId) (processed : gset MessageId) : st (Tangle B) unit :=
  match to_process with
  | [] => sret tt
  | parent_id :: to_process =>
      match fuel with
      | O => spanic
      | S fuel =>
          let* children := get_children parent_id in
          match children with
          | None => update_future_cone fuel to_process processed
          | Some children =>
              let* metadata := get_metadata parent_id in
              match metadata with
              | None => spanic
              | Some metadata =>
                  match metadata_omrsi metadata, metadata_ymrsi metadata with
                  | Some parent_omrsi, Some parent_ymrsi =>
                      let* pushed := update_children parent_id parent_omrsi parent_ymrsi processed children in
                      update_future_cone fuel (reverse pushed ++ to_process) ({[parent_id]} ∪ processed)
                  | _, _ => update_future_cone fuel to_process processed
                  end
              end
          end
      end
  end.

(** [process]; the subtraction of type [u32] wraps around. *)
Definition handle_index_updater (fuel : nat) (index : MilestoneIndex) (milestone : Milestone) : st Protocol unit :=
  let* message := on_tangle (Tangle_get (milestone_message_id milestone)) in
  match message with
  | None => sret tt
  | Some message =>
      let* roots := on_tangle (update_past_cone fuel (reverse (parents_inner (message_parents message))) index ∅) in
      let* first := pgets (fun p => MilestoneIndex_sub_u32 (tg_latest (pr_tangle p)) (below_max_depth (tg_config (pr_tangle p)))) in
      if milestone_index first <? milestone_index index then
        let* _ := on_tangle (update_future_cone fuel (reverse (hash_iter (gset_to_gmap tt roots)).*1) ∅) in
        on_tangle update_tip_scores
      else sret tt
  end.

(** ** The propagator: [propagator.rs] *)

Definition handle_propagator (fuel : nat) (now : Z) (message_id : MessageId) : st Protocol unit :=
  let* sent := on_tangle (propagate fuel (fun _ => now) message_id) in
  sfor (fun s => emit (To_TipPool s)) sent.

Definition handle_tip_pool (now : Z) (solidified : Solidified) : st Protocol unit :=
  let* index := on_tangle (message_solidified now solidified) in
  match index with
  | Some index => emit (To_Solidifier index)
  | None => sret tt
  end.

(** ** Dispatch *)

(** One event; the commands of the consensus worker and the replies leave the protocol. *)
Definition handle_event (config : ProtocolConfig) (fuel : nat) (now : Z) (event : WorkerEvent) : st Protocol unit :=
  match event with
  | To_Hasher from packet notifier => handle_hasher config from packet notifier
  | To_Processor from packet notifier => handle_processor config now from packet notifier
  | To_Propagator message_id => handle_propagator fuel now message_id
  | To_TipPool solidified => handle_tip_pool now solidified
  | To_Broadcaster source message => on_peers (fun peers => (tt, broadcast source message peers))
  | To_UnreferencedInserter message_id index => handle_unreferenced_inserter message_id index
  | To_Payload message_id message => handle_payload message_id message
  | To_TransactionPayload message_id message => handle_transaction_payload message_id message
  | To_MilestonePayload message_id message => handle_milestone_payload config now message_id message
  | To_IndexationPayload message_id message => handle_indexation_payload message_id message
  | To_MessageRequester message_id index => handle_message_requester now message_id index
  | To_MilestoneRequester index peer => handle_milestone_requester now index peer
  | To_MessageResponder peer request => handle_message_responder peer request
  | To_MilestoneResponder peer request => handle_milestone_responder peer request
  | To_Solidifier index => handle_solidifier config fuel now index
  | To_IndexUpdater index milestone => handle_index_updater fuel index milestone
  | To_Consensus _ | To_Submitter _ _ => sret tt
  end.

(** A packet of a peer: [process_packet] of [peer/mod.rs]; an error is logged. *)
Definition process_packet (now : Z) (peer : PeerId) (header : HeaderPacket) (bs : bytes) : st Protocol unit :=
  match parse_packet header bs with
  | None => spanic
  | Some (Err _) => sret tt
  | Some (Ok (Packet_MilestoneRequest request)) => emit (To_MilestoneResponder peer request)
  | Some (Ok (Packet_Message packet)) => emit (To_Hasher (Some peer) packet None)
  | Some (Ok (Packet_MessageRequest request)) => emit (To_MessageResponder peer request)
  | Some (Ok (Packet_Heartbeat packet)) =>
      pmodify (fun p => set_pr_peers (PeerManager_get_mut (fun t => (heartbeat_received now packet t.1, t.2)) (pr_peers p) peer) p)
  end.
End workers.
Arguments Protocol {_ _} B {_}.
