(* ===== verification/ConfirmLedger.v ===== *)
(** * Confirmation and the ledger

    That [confirm] keeps the tangle and the ledger consistent, whether or not the milestone carries a receipt, and that
    the messages it reports are marked. *)

From S2P Require Import Prelude External MessageTypes Payload PayloadKeys PayloadCodec Message TangleTypes LedgerTypes.
From S2P Require Import Vertices Storage StorageTables StorageMemory Tangle TangleCache LedgerStorage Ledger Merkle.
From S2P Require Import WhiteFlag WhiteFlagOrder WhiteFlagLedger Confirm.

Local Open Scope Z_scope.

(** ** Tables that differ in the node's part *)

Definition same_ledger (tb tb' : LedgerTables) : Prop := exists n, tb' = set_field (n : NodeTables) tb.

Lemma same_ledger_node tb tb' : tb' = set_field (t_node tb') tb -> same_ledger tb tb'.
Proof. by exists (t_node tb'). Qed.
Lemma same_ledger_refl tb : same_ledger tb tb.
Proof. exists (t_node tb). by destruct tb. Qed.
Lemma same_ledger_trans tb1 tb2 tb3 : same_ledger tb1 tb2 -> same_ledger tb2 tb3 -> same_ledger tb1 tb3.
Proof. intros [n ->] [n' ->]. exists n'. by destruct tb1. Qed.
Lemma same_ledger_stored id m md tb : same_ledger tb (insert_stored id m md tb).
Proof. eexists. by destruct tb as [? ? ? ? ? ? ? ? ? ? []]. Qed.
Lemma same_ledger_edges id ps tb : same_ledger tb (insert_edges id ps tb).
Proof.
  unfold insert_edges. revert tb. induction ps as [|p ps IH]; intros tb; cbn [foldl]; [apply same_ledger_refl|].
  eapply same_ledger_trans, IH. eexists. by destruct tb as [? ? ? ? ? ? ? ? ? ? []].
Qed.

Lemma same_ledger_inv tb tb' : same_ledger tb tb' -> ledger_inv tb -> ledger_inv tb'.
Proof. intros [n ->] [? ? ? ? ? ?]. destruct tb. by split. Qed.
Lemma same_ledger_history `{IteratorSorted} `{Crypto} P spent tb tb' :
  same_ledger tb tb' -> history P tb spent -> history P tb' spent.
Proof. intros [n ->] [? ?]. destruct tb. by split. Qed.
Lemma same_ledger_tables tb tb' : same_ledger tb tb' -> t_balance tb' = t_balance tb /\ t_index tb' = t_index tb.
Proof. intros [n ->]. by destruct tb. Qed.

Section proofs.
Context `{IteratorSorted} `{Crypto} `{Hex} `{TableHasherOk MessageId} `{HashOrderOk} `{EnvironmentOk} `{BitflagsOk}
  `{LedgerBackendOk B}.
Implicit Types (t : Tangle B) (id : MessageId) (md : WhiteFlagMetadata).

(** White Flag sees what the storage holds. *)
Lemma tangle_message_stored t id : tangle_inv t -> tangle_message t id = stored (tables (tg_storage t)) id.
Proof.
  intros Hi. unfold tangle_message, tangle_vertex. cbn.
  by destruct (get_vertex_spec _ _ _ id t (ti_cache _ Hi) (inv_reads t id Hi)) as (r & t' & -> & _ & _ & ?).
Qed.

(** Replacing the storage by one with the same messages. *)
Lemma inv_with_storage t s :
  tangle_inv t -> healthy s -> t_node (tables s) = t_node (tables (tg_storage t)) -> tangle_inv (with_storage s t).
Proof.
  intros [Hh Hc He Hm] Hs Hn. destruct (with_storage_fields s t) as (Hst & Hvs & Hms & _).
  assert (Hstored : forall id, stored (tables s) id = stored (tables (tg_storage t)) id) by (intros id; unfold stored; by rewrite Hn).
  assert (Hedge : forall p c, edge (tables s) p c <-> edge (tables (tg_storage t)) p c) by (intros p c; unfold edge; by rewrite Hn).
  split; rewrite ?Hst, ?Hvs, ?Hms; [done|..].
  - eapply cache_ok_D, cache_ok_proper, Hc; [by intros id | by intros p c].
  - intros id m meta p. rewrite Hstored, Hedge. apply He.
  - intros i ms. rewrite Hn. apply Hm.
Qed.

Lemma inv_update_confirmed t i : tangle_inv t -> tangle_inv (update_confirmed_milestone_index i t).
Proof. intros [? ? ? ?]. destruct t. by split. Qed.

(** ** Marking messages *)

Lemma reference_is_referenced m c ts : is_referenced (metadata_flags (reference (set_conflict m c) ts)) = true.
Proof. apply reference_flags. Qed.

(** What marking the messages [ids] does to the stored messages. *)
Definition marks (ids : list MessageId) (tb tb' : LedgerTables) : Prop := forall id,
  match stored tb id with
  | None => stored tb' id = None
  | Some (m, meta) => exists meta', stored tb' id = Some (m, meta')
      /\ (id ∈ ids -> is_referenced (metadata_flags meta') = true) /\ (id ∉ ids -> meta' = meta)
  end.

Lemma mark_referenced_spec ts id c t :
  tangle_inv t ->
  exists t', mark_referenced ts id c t = Some (tt, t') /\ tangle_inv t'
    /\ same_ledger (tables (tg_storage t)) (tables (tg_storage t')) /\ marks [id] (tables (tg_storage t)) (tables (tg_storage t')).
Proof.
  intros Hi. unfold mark_referenced.
  destruct (stored (tables (tg_storage t)) id) as [[m meta]|] eqn:Hs.
  - destruct (update_metadata_known id (fun message => (tt, reference (set_conflict message c) ts)) m meta t Hi Hs)
      as (t' & Hrun & Hi' & Ht). rewrite (sbind_run _ _ _ _ _ Hrun). exists t'. rewrite Ht.
    split_and!; [done | done | apply same_ledger_stored|]. intros id'. rewrite stored_insert_stored. case_decide as Hid.
    + subst id'. rewrite Hs. eexists. split; [done|]. split; [intros _; apply reference_is_referenced | set_solver].
    + destruct (stored (tables (tg_storage t)) id') as [[m' meta']|]; [|done]. exists meta'. set_solver.
  - destruct (update_metadata_unknown id (fun message => (tt, reference (set_conflict message c) ts)) t Hi Hs)
      as (t' & Hrun & Hi' & Ht). rewrite (sbind_run _ _ _ _ _ Hrun). exists t'. rewrite Ht.
    split_and!; [done | done | apply same_ledger_refl|]. intros id'.
    destruct (stored (tables (tg_storage t)) id') as [[m' meta']|] eqn:Hs'; [|done]. exists meta'. split; [done|].
    split; [intros ->%list_elem_of_singleton; congruence | done].
Qed.

Lemma marks_app ids ids' tb1 tb2 tb3 : marks ids tb1 tb2 -> marks ids' tb2 tb3 -> marks (ids ++ ids') tb1 tb3.
Proof.
  intros Ha Hb id. specialize (Ha id). specialize (Hb id). destruct (stored tb1 id) as [[m meta]|].
  - destruct Ha as (meta1 & Hs1 & Hr1 & Hn1). rewrite Hs1 in Hb. destruct Hb as (meta2 & Hs2 & Hr2 & Hn2).
    exists meta2. split; [done|]. split.
    + intros Hin. destruct (decide (id ∈ ids')) as [?|Hnot]; [by apply Hr2|]. rewrite (Hn2 Hnot). apply Hr1. set_solver.
    + intros Hin. rewrite Hn2, Hn1; [done | set_solver..].
  - by rewrite Ha in Hb.
Qed.

Lemma mark_all_spec ts l t :
  tangle_inv t ->
  exists t', mark_all ts l t = Some (tt, t') /\ tangle_inv t'
    /\ same_ledger (tables (tg_storage t)) (tables (tg_storage t')) /\ marks l.*1 (tables (tg_storage t)) (tables (tg_storage t')).
Proof.
  unfold mark_all. revert t. induction l as [|[id c] l IH]; intros t Hi; cbn [sfor].
  - exists t. split_and!; [done | done | apply same_ledger_refl|]. intros id.
    destruct (stored _ id) as [[m meta]|] eqn:Hs; [|done]. exists meta. set_solver.
  - destruct (mark_referenced_spec ts id c t Hi) as (t1 & Hrun & Hi1 & Hl1 & Hm1). rewrite (sbind_run _ _ _ _ _ Hrun).
    destruct (IH t1 Hi1) as (t2 & -> & Hi2 & Hl2 & Hm2). exists t2. split_and!; [done | done | by eapply same_ledger_trans|].
    exact (marks_app [id] l.*1 _ _ _ Hm1 Hm2).
Qed.

(** ** Receipts *)

Definition funds_outputs (funds : list MigratedFundsEntry) : list Output :=
  (fun f => Output_SignatureLockedSingle (migrated_output f)) <$> funds.

Definition amounts_of_funds (funds : list MigratedFundsEntry) : Z := sum_Z (fun f => single_amount (migrated_output f)) funds.

Lemma insert_funds_Ok m tx i funds md md' :
  Forall wf_MigratedFundsEntry funds -> 0 <= i -> i + len funds <= INPUT_OUTPUT_COUNT_MAX ->
  insert_funds m tx i funds md = Ok md' ->
  exists diffs, md' = set_ledger_changes md (new_outputs m tx i (funds_outputs funds) ∪ created_outputs md) (consumed_outputs md) diffs
    /\ forall a, entry_or_default diffs a = diff_plus (entry_or_default (balance_diffs md) a) (outputs_diff a (funds_outputs funds)).
Proof.
  revert i md. induction funds as [|f funds IH]; intros i md Hf Hi Hn; cbn [insert_funds].
  - intros [= <-]. exists (balance_diffs md). cbn. rewrite (left_id_L ∅ (∪)). split; [by destruct md|]. intros a. by rewrite diff_plus_0_r.
  - apply Forall_cons in Hf as [(_ & Hw & Ha) Hf]. rewrite len_cons in Hn. pose proof (len_nonneg funds).
    intros (oid & Ho & Hr)%result_bind_Ok. apply OutputId_new_Ok in Ho as [_ ->].
    rewrite as_u_id in Hr by (unfold fits, INPUT_OUTPUT_COUNT_MAX in *; lia).
    apply result_bind_Ok in Hr as (d1 & Hd1 & Hr). apply IH in Hr as (diffs & -> & He); [|done|lia|lia].
    assert (Hadd : output_add (balance_diffs md) (Output_SignatureLockedSingle (migrated_output f)) = Ok d1).
    { cbn. rewrite Hd1. cbn. by replace (single_amount (migrated_output f) <? DUST_THRESHOLD) with false by lia. }
    exists diffs. destruct md as [? ? ? ? ? c o d ?]. cbn in *. split.
    + f_equal. rewrite <- insert_union_r by apply new_outputs_fresh. by rewrite insert_union_l.
    + intros a. rewrite He, (output_add_entry _ _ _ a (Hw : wf_Output (Output_SignatureLockedSingle (migrated_output f))) Hadd). by rewrite diff_plus_assoc.
Qed.

Lemma funds_wf funds : Forall wf_MigratedFundsEntry funds -> Forall wf_Output (funds_outputs funds).
Proof. intros Hf. apply Forall_fmap. eapply Forall_impl; [exact Hf|]. intros f (_ & ? & _). done. Qed.

Lemma funds_amounts funds : sum_Z output_amount (funds_outputs funds) = amounts_of_funds funds.
Proof. unfold amounts_of_funds. induction funds as [|f funds IH]; [done|]. cbn [funds_outputs fmap list_fmap]. rewrite !sum_Z_cons. cbn. unfold funds_outputs in IH. by rewrite IH. Qed.

(** Migrated funds do not change what an address holds of dust. *)
Lemma funds_no_dust a funds :
  Forall wf_MigratedFundsEntry funds ->
  diff_dust_allowance (outputs_diff a (funds_outputs funds)) = 0 /\ diff_dust_outputs (outputs_diff a (funds_outputs funds)) = 0
  /\ 0 <= diff_amount (outputs_diff a (funds_outputs funds)).
Proof.
  induction 1 as [|f funds (_ & _ & Ha) Hf IH]; [done|]. cbn [funds_outputs fmap list_fmap outputs_diff].
  fold (funds_outputs funds). cbn [diff_plus diff_dust_allowance diff_dust_outputs diff_amount output_contrib].
  case_bool_decide; cbn; [replace (single_amount (migrated_output f) <? DUST_THRESHOLD) with false by lia; cbn|]; unfold DUST_THRESHOLD in *; lia.
Qed.

(** Adding the outputs of a migration to the changes of a milestone. *)
Lemma valid_with_new tb new created consumed diffs diffs' mig :
  valid_milestone tb created consumed diffs None -> new ##ₘ t_created tb -> new ##ₘ created -> wf_outputs new ->
  (forall a, entry_or_default diffs' a = diff_plus (entry_or_default diffs a) (total_diff a new)) ->
  treasury_is tb (migration_consumed_treasury mig) -> migration_created_treasury mig <> migration_consumed_treasury mig ->
  wf_TreasuryOutput (ledger_treasury_inner (migration_created_treasury mig)) ->
  treasury_amount (ledger_treasury_inner (migration_consumed_treasury mig))
  = amounts new + treasury_amount (ledger_treasury_inner (migration_created_treasury mig)) ->
  valid_milestone tb (new ∪ created) consumed diffs' (Some mig).
Proof.
  intros [Hf Hc Hx Hd Ha] Hn Hnc Hw He Ht Hne Hwt Hsum. split.
  - by apply map_disjoint_union_l.
  - by apply wf_outputs_union.
  - intros id c x Hid. apply Hx in Hid as [Hid ?]. split; [|done]. rewrite <- (assoc_L (∪)). rewrite lookup_union_r; [done|].
    apply eq_None_not_Some. intros [c' Hc']. apply lookup_union_Some_raw in Hid as [Hid|[_ Hid]];
      [by eapply (map_disjoint_spec new created) | by eapply (map_disjoint_spec new (t_created tb))].
  - intros a. rewrite He, Hd, total_union by done. unfold diff_plus, total_diff. cbn. f_equal; lia.
  - rewrite amounts_union by done. split_and!; [done..|]. lia.
Qed.

(** ** Milestones *)

(** The outputs of the receipt of a milestone. *)
Definition milestone_transaction (ms : MilestonePayload) : TransactionId :=
  TransactionId_new (milestone_id_bytes (MilestonePayload_id ms)).
Definition milestone_number (ms : MilestonePayload) : Z := milestone_index (essence_index (milestone_essence ms)).

(** A set of milestones that were checked when they were decoded, and whose identifiers do not collide with those of
    milestones of another index and of transactions. *)
Record known_milestones (P : TransactionPayload -> Prop) (Q : MilestonePayload -> Prop) : Prop := {
  km_wf ms : Q ms -> wf_Payload (Payload_Milestone ms);
  km_id ms ms' : Q ms -> Q ms' -> MilestonePayload_id ms = MilestonePayload_id ms' -> milestone_number ms = milestone_number ms';
  km_tx ms tx : Q ms -> P tx -> milestone_transaction ms <> TransactionPayload_id tx;
}.

(** The ledger has not seen a milestone. *)
Record unseen (tb : LedgerTables) (spent : gset OutputId) (ms : MilestonePayload) : Prop := {
  us_outputs (id : OutputId) : output_transaction_id id = milestone_transaction ms -> t_created tb !! id = None /\ id ∉ spent;
  us_treasury x : treasury_is tb x -> ledger_treasury_milestone_id x <> MilestonePayload_id ms;
}.

(** What a milestone changes, with the outputs [new] of its receipt. *)
Record milestone_changes (tb : LedgerTables) ms md md' mig (new : gmap OutputId CreatedOutput) : Prop := {
  mc_created : created_outputs md' = new ∪ created_outputs md;
  mc_consumed : consumed_outputs md' = consumed_outputs md;
  mc_index : wfm_index md' = wfm_index md;
  mc_valid : valid_milestone tb (created_outputs md') (consumed_outputs md') (balance_diffs md') mig;
  mc_new (id : OutputId) : is_Some (new !! id) -> output_transaction_id id = milestone_transaction ms;
  mc_treasury m : mig = Some m -> ledger_treasury_milestone_id (migration_created_treasury m) = MilestonePayload_id ms;
  mc_dust a : diff_dust_allowance (entry_or_default (balance_diffs md') a) = diff_dust_allowance (entry_or_default (balance_diffs md) a)
    /\ diff_dust_outputs (entry_or_default (balance_diffs md') a) = diff_dust_outputs (entry_or_default (balance_diffs md) a);
}.

Lemma unspent_treasury (s : B) x :
  healthy s -> treasury_is (tables s) x -> fetch_unspent_treasury_output s = Ok x.
Proof.
  intros Hs Hx. unfold fetch_unspent_treasury_output. destruct (fetch_vec_ok s false Hs) as (l & -> & Hnd & Hl). cbn.
  assert (Hin : forall y, y ∈ l <-> y = x) by (intros y; rewrite Hl; apply Hx).
  destruct l as [|y l]; [by specialize (proj2 (Hin x) eq_refl) as []%elem_of_nil|].
  assert (y = x) as -> by (apply Hin; left). destruct l as [|z l]; [done|]. exfalso.
  assert (z = x) as -> by (apply Hin; right; left). apply NoDup_cons in Hnd as [Hnd _]. apply Hnd. left.
Qed.

(** What a receipt needs to be accepted. *)
Definition receipt_valid (x : LedgerTreasuryOutput) (receipt : ReceiptPayload) (i : TreasuryInput) (o : TreasuryOutput) : Prop :=
  receipt_transaction receipt = Payload_TreasuryTransaction (mkTreasuryTransactionPayload (Input_Treasury i) (Output_Treasury o))
  /\ treasury_milestone_id i = ledger_treasury_milestone_id x
  /\ treasury_amount (ledger_treasury_inner x) = amounts_of_funds (receipt_funds receipt) + treasury_amount o.

Lemma milestone_receipt_wf ms receipt :
  wf_Payload (Payload_Milestone ms) -> essence_receipt (milestone_essence ms) = Some (Payload_Receipt receipt) ->
  wf_Receipt (Receipt_new receipt (essence_index (milestone_essence ms))).
Proof.
  intros [(Hi & _ & _ & _ & _ & _ & _ & _ & Hr) _] He. rewrite He in Hr. destruct Hr as (Hm & Hf & Hs & Ht).
  split; [|done]. split_and!; [done..|]. by apply wf_Payload_collapse in Ht.
Qed.

Lemma migration_from_milestone_Ok index (mid : MilestoneId) receipt x mig :
  wf_Receipt (Receipt_new receipt index) -> wf_TreasuryOutput (ledger_treasury_inner x) ->
  migration_from_milestone index mid receipt x = Ok mig
  <-> exists i o, receipt_valid x receipt i o /\ wf_TreasuryOutput o
      /\ mig = Migration_new (Receipt_new receipt index) x (LedgerTreasuryOutput_new o mid).
Proof.
  intros Hw Hx. unfold migration_from_milestone, receipt_valid. rewrite result_bind_Ok.
  assert (Hv := Receipt_validate_Ok _ _ Hw Hx). cbn [receipt_inner] in *. split.
  - intros ([] & Ho & Hm). apply Hv in Ho as (i & o & Ht & Hi & Ha). rewrite Ht in Hm. cbn in Hm. injection Hm as <-.
    exists i, o. split_and!; [done..| |done]. destruct Hw as [(_ & _ & _ & Hwt) _]. cbn in Hwt. rewrite Ht in Hwt.
    by destruct Hwt as (_ & ? & _).
  - intros (i & o & (Ht & Hi & Ha) & _ & ->). exists tt. split; [apply Hv; by exists i, o|]. by rewrite Ht.
Qed.

Section milestone.
Context (P : TransactionPayload -> Prop) (Q : MilestonePayload -> Prop) (Hkt : known_transactions P) (Hkm : known_milestones P Q).
Context (s : B) (spent : gset OutputId) (ms : MilestonePayload) (message : MessageId) (md : WhiteFlagMetadata).
Context (Hs : healthy s) (Hinv : ledger_inv (tables s)) (Hmi : metadata_inv s P spent md) (HQ : Q ms)
  (Hun : unseen (tables s) spent ms).

Lemma funds_fresh funds :
  new_outputs message (milestone_transaction ms) 0 (funds_outputs funds) ##ₘ t_created (tables s)
  /\ new_outputs message (milestone_transaction ms) 0 (funds_outputs funds) ##ₘ created_outputs md.
Proof.
  split; apply map_disjoint_spec; intros oid c c' Hn Hc; apply new_outputs_lookup in Hn as (Hid & _).
  - by rewrite (proj1 (us_outputs _ _ _ Hun oid Hid)) in Hc.
  - destruct (mi_origin _ _ _ _ Hmi oid) as (tx & HP & Htx & _); [by eexists|].
    apply (km_tx _ _ Hkm ms tx HQ HP). congruence.
Qed.

(** The branch of a receipt. *)
Lemma receipt_changes receipt migrated_at md' migrated_at' mig :
  essence_receipt (milestone_essence ms) = Some (Payload_Receipt receipt) ->
  confirm_receipt s message ms receipt migrated_at (count_milestone md message) = Ok (md', migrated_at', mig) ->
  exists new, milestone_changes (tables s) ms md md' (Some mig) new /\ marked md' = marked (count_milestone md message).
Proof.
  intros He. pose proof (milestone_receipt_wf ms receipt (km_wf _ _ Hkm ms HQ) He) as Hw.
  assert (Hwr := Hw). destruct Hwr as [(_ & Hf & ((_ & Hlen) & _) & _) _]. cbn in Hf, Hlen.
  destruct (inv_supply _ Hinv) as (x & Hx & Hwx & _). unfold confirm_receipt. intros (md1 & Hi & Hr)%result_bind_Ok.
  apply ensure_bind_Ok in Hr as [_ Hr]. rewrite (unspent_treasury s x Hs Hx) in Hr. cbn [result_bind] in Hr.
  apply result_bind_Ok in Hr as (mig' & Hm & Hr). injection Hr as -> _ ->.
  apply migration_from_milestone_Ok in Hm as (i & o & (Ht & _ & Hsum) & Hwo & ->); [|done..].
  apply insert_funds_Ok in Hi as (diffs & -> & Hd); [|done..].
  destruct (funds_fresh (receipt_funds receipt)) as [Hf1 Hf2].
  exists (new_outputs message (milestone_transaction ms) 0 (funds_outputs (receipt_funds receipt))).
  destruct md as [? ? ? ? ? cr co di ?] eqn:Emd. cbn in *. split; [|done]. split; cbn; [done | done | done| |..].
  - apply (valid_with_new _ _ _ _ di); cbn; [apply (mi_valid _ _ _ _ Hmi) | done | done| | |done| |done|].
    + apply new_outputs_wf; [by apply funds_wf|]. apply Forall_fmap, Forall_forall. intros f _. by eexists.
    + intros a. by rewrite new_outputs_total.
    + intros Heq. apply (us_treasury _ _ _ Hun x Hx). by rewrite <- Heq.
    + by rewrite new_outputs_amounts, funds_amounts.
  - by intros oid [c (? & _)%new_outputs_lookup].
  - by intros m [= <-].
  - intros a. destruct (funds_no_dust a _ Hf) as (Ha & Ho & _). rewrite Hd. cbn. rewrite Ha, Ho. lia.
Qed.

Lemma confirm_changes_Ok migrated_at md' migrated_at' mig :
  confirm_changes s message ms migrated_at md = Ok (md', migrated_at', mig) ->
  exists new, milestone_changes (tables s) ms md md' mig new /\ marked md' = marked (count_milestone md message).
Proof.
  unfold confirm_changes. intros [_ Hc]%ensure_bind_Ok.
  assert (Hplain : (count_milestone md message, migrated_at, None) = (md', migrated_at', mig) ->
    exists new, milestone_changes (tables s) ms md md' mig new /\ marked md' = marked (count_milestone md message)).
  { intros [= <- _ <-]. exists ∅. split; [|done]. pose proof (mi_valid _ _ _ _ Hmi) as Hv.
    destruct md. split; rewrite ?(left_id_L ∅ (∪)); [done | done | done | exact Hv| |done|done].
    intros oid. rewrite lookup_empty. by intros [? ?]. }
  destruct (essence_receipt (milestone_essence ms)) as [p|] eqn:He; [|apply Hplain; congruence].
  destruct p as [?|?|?|receipt|?]; try (apply Hplain; congruence).
  apply result_bind_Ok in Hc as ([[md1 at1] mig1] & Hr & Hc). injection Hc as -> -> <-. by eapply receipt_changes.
Qed.
End milestone.

(** A ledger at the milestone [index]: [spent] are the outputs spent so far. *)
Record ledger_state (P : TransactionPayload -> Prop) (Q : MilestonePayload -> Prop) (index : Z) (spent : gset OutputId)
    (tb : LedgerTables) : Prop := {
  ls_inv : ledger_inv tb;
  ls_history : history P tb spent;
  ls_unseen ms : Q ms -> index < milestone_number ms -> unseen tb spent ms;
  ls_index : t_index tb !! tt = Some (LedgerIndex_new (MilestoneIndex_new index));
  ls_info : is_Some (t_info tb !! tt);
  ls_dust a : dust_ok (total a (live tb));
  ls_diff i d oid : t_diff tb !! i = Some d -> oid ∈ diff_consumed_outputs d -> oid ∈ spent;
}.

Lemma ledger_state_same P Q index spent tb tb' : same_ledger tb tb' -> ledger_state P Q index spent tb -> ledger_state P Q index spent tb'.
Proof.
  intros Hsl [Hi Hh Hu Hx Hf Hd Hdf]. split; [by eapply same_ledger_inv | by eapply same_ledger_history|..]; destruct Hsl as [n ->];
    destruct tb; [|done..]. intros ms HQ Hlt. destruct (Hu ms HQ Hlt). by split.
Qed.

Section applied.
Context (P : TransactionPayload -> Prop) (Q : MilestonePayload -> Prop) (Hkt : known_transactions P) (Hkm : known_milestones P Q).
Context (s : B) (index : Z) (spent : gset OutputId) (Hs : healthy s) (Hst : ledger_state P Q index spent (tables s)).
Context (ms : MilestonePayload) (HQ : Q ms) (Hnum : milestone_number ms = index + 1).
Context (md md' : WhiteFlagMetadata) (mig : option Migration) (new : gmap OutputId CreatedOutput).
Context (Hmi : metadata_inv s P spent md) (Hc : milestone_changes (tables s) ms md md' mig new).

Abbreviation tb' := (applied (wfm_index md') (created_outputs md') (consumed_outputs md') (balance_diffs md') mig (tables s)).

Lemma applied_treasury x m : treasury_is tb' x -> mig = Some m -> x = migration_created_treasury m.
Proof.
  intros Hx Hm. pose proof (vm_supply _ _ _ _ _ (mc_valid _ _ _ _ _ _ Hc)) as Hv. rewrite Hm in Hv. destruct Hv as (_ & Hne & _).
  symmetry. apply Hx. cbn. rewrite Hm, lookup_delete_ne, lookup_insert_ne, lookup_insert_eq; congruence.
Qed.

Lemma transaction_number ms' : Q ms' -> milestone_transaction ms = milestone_transaction ms' -> milestone_number ms = milestone_number ms'.
Proof.
  intros HQ'. intros He. apply (km_id _ _ Hkm); [done..|]. unfold milestone_transaction in He.
  destruct (MilestonePayload_id ms), (MilestonePayload_id ms'). cbn in He. congruence.
Qed.

Lemma applied_unseen ms' : Q ms' -> index + 1 < milestone_number ms' -> unseen tb' (spent ∪ dom (consumed_outputs md')) ms'.
Proof.
  intros HQ' Hlt. pose proof (ls_unseen _ _ _ _ _ Hst ms' HQ' ltac:(lia)) as [Hold Htr]. split.
  - intros oid Hid. assert (Hn : t_created tb' !! oid = None).
    { cbn. apply lookup_union_None. split; [|by apply Hold]. rewrite (mc_created _ _ _ _ _ _ Hc). apply lookup_union_None. split.
      - apply eq_None_not_Some. intros Hn%(mc_new _ _ _ _ _ _ Hc). rewrite Hid in Hn. apply eq_sym, transaction_number in Hn; [lia | done].
      - apply eq_None_not_Some. intros (tx & HP & Htx & _)%(mi_origin _ _ _ _ Hmi). apply (km_tx _ _ Hkm ms' tx HQ' HP). congruence. }
    split; [done|]. intros [Hsp|Hsp]%elem_of_union; [by apply (Hold oid)|]. apply elem_of_dom in Hsp as [[c y] Hy].
    apply (vm_consumed _ _ _ _ _ (mc_valid _ _ _ _ _ _ Hc)) in Hy as [Hy _]. cbn in Hn. congruence.
  - intros x Hx Heq. pose proof (fun m => applied_treasury x m Hx) as Hap. clear Hst. destruct mig as [m|].
    + rewrite (Hap m eq_refl) in Heq. rewrite (mc_treasury _ _ _ _ _ _ Hc m) in Heq by done. apply (km_id _ _ Hkm) in Heq; [lia | done..].
    + by apply (Htr x).
Qed.

Lemma applied_dust a : dust_ok (total a (live tb')).
Proof.
  rewrite (total_applied _ _ _ _ _ _ (ls_inv _ _ _ _ _ Hst) (mc_valid _ _ _ _ _ _ Hc)).
  pose proof (mi_dust _ _ _ _ Hmi (ls_dust _ _ _ _ _ Hst) a) as Hd. destruct (mc_dust _ _ _ _ _ _ Hc a) as [Ha Ho].
  unfold dust_ok, milestone_balance, balance_plus in *. cbn in *. by rewrite Ha, Ho.
Qed.

(** The changes of a milestone can be applied, and lead to the ledger at the next index. *)
Lemma changes_applied :
  wfm_index md = essence_index (milestone_essence ms) ->
  exists s', apply_milestone s (wfm_index md') (created_outputs md') (consumed_outputs md') (balance_diffs md') mig = Ok s'
    /\ healthy s' /\ t_node (tables s') = t_node (tables s)
    /\ ledger_state P Q (index + 1) (spent ∪ dom (consumed_outputs md')) (tables s').
Proof.
  intros Hix. pose proof (mc_valid _ _ _ _ _ _ Hc) as Hv. pose proof (ls_inv _ _ _ _ _ Hst) as Hinv.
  destruct (apply_milestone_does s Hs (wfm_index md') (created_outputs md') (consumed_outputs md') (balance_diffs md') mig)
    as (s' & Ha & Hs' & Hts); [by eapply valid_no_treasury | by eapply valid_diffs_apply|].
  exists s'. rewrite Hts. split_and!; [done..|]. split.
  - by apply applied_inv.
  - rewrite (mc_created _ _ _ _ _ _ Hc), (mc_consumed _ _ _ _ _ _ Hc) in *.
    apply (history_applied_with s P Hkt spent Hinv (ls_history _ _ _ _ _ Hst)); [done..|].
    intros oid Hn%(mc_new _ _ _ _ _ _ Hc). split; [|intros tx HP Htx; apply (km_tx _ _ Hkm ms tx HQ HP); congruence].
    by apply (us_outputs _ _ _ (ls_unseen _ _ _ _ _ Hst ms HQ ltac:(lia)) oid).
  - apply applied_unseen.
  - cbn. rewrite lookup_insert_eq, (mc_index _ _ _ _ _ _ Hc), Hix. unfold milestone_number in Hnum.
    destruct (essence_index (milestone_essence ms)). cbn in Hnum. by subst.
  - apply (ls_info _ _ _ _ _ Hst).
  - apply applied_dust.
  - intros i d oid. cbn. rewrite elem_of_union. intros [[<- <-]|[_ Hd]]%lookup_insert_Some Hid.
    + right. cbn in Hid. apply list_elem_of_fmap in Hid as ([id' x] & -> & Hx%elem_of_hash_iter). apply elem_of_dom. by exists x.
    + left. by eapply (ls_diff _ _ _ _ _ Hst).
Qed.
End applied.

(** ** Nodes *)

(** The payloads of the messages of a node are known. *)
Definition payload_known (P : TransactionPayload -> Prop) (Q : MilestonePayload -> Prop) (p : option Payload) : Prop :=
  match p with
  | Some (Payload_Transaction tx) => P tx
  | Some (Payload_Milestone ms) => Q ms
  | _ => True
  end.

Record node_inv (P : TransactionPayload -> Prop) (Q : MilestonePayload -> Prop) (index : Z) (spent : gset OutputId) t : Prop := {
  ni_tangle : tangle_inv t;
  ni_ledger : ledger_state P Q index spent (tables (tg_storage t));
  ni_known id m meta : stored (tables (tg_storage t)) id = Some (m, meta) -> payload_known P Q (message_payload m);
}.

Lemma node_inv_same P Q index spent t t' :
  node_inv P Q index spent t -> tangle_inv t' -> same_ledger (tables (tg_storage t)) (tables (tg_storage t')) ->
  (forall id m meta, stored (tables (tg_storage t')) id = Some (m, meta) -> payload_known P Q (message_payload m)) ->
  node_inv P Q index spent t'.
Proof. intros [? ? ?] Hi Hsl Hk. split; [done | by eapply ledger_state_same | done]. Qed.

Lemma node_inv_storage P Q index spent t t' :
  node_inv P Q index spent t -> tangle_inv t' -> tg_storage t' = tg_storage t -> node_inv P Q index spent t'.
Proof. intros Hn Hi Hst. apply (node_inv_same _ _ _ _ t); [done..| |]; rewrite Hst; [apply same_ledger_refl | apply Hn]. Qed.

Lemma marks_known P Q ids tb tb' :
  marks ids tb tb' -> (forall id m meta, stored tb id = Some (m, meta) -> payload_known P Q (message_payload m)) ->
  forall id m meta, stored tb' id = Some (m, meta) -> payload_known P Q (message_payload m).
Proof.
  intros Hm Hk id m meta Hs'. specialize (Hm id). destruct (stored tb id) as [[m1 meta1]|] eqn:Hs1.
  - destruct Hm as (meta' & Hm & _). rewrite Hm in Hs'. injection Hs' as -> ->. by eapply Hk.
  - congruence.
Qed.

Lemma node_tangle_known P Q index spent t : node_inv P Q index spent t -> tangle_known t P.
Proof.
  intros Hn id m meta Hm tx Htx. rewrite (tangle_message_stored t id (ni_tangle _ _ _ _ _ Hn)) in Hm.
  apply (ni_known _ _ _ _ _ Hn) in Hm. by rewrite Htx in Hm.
Qed.

(** What a confirmed milestone has changed. *)
Record milestone_confirmed P Q (index : Z) (spent : gset OutputId) (message : MessageId) t (c : Confirmed) t'
    (m : Message) (ms : MilestonePayload) (md : WhiteFlagMetadata) : Prop := {
  cf_message : exists meta, stored (tables (tg_storage t)) message = Some (m, meta);
  cf_payload : message_payload m = Some (Payload_Milestone ms);
  cf_index : milestone_number ms = index + 1;
  cf_ledger_index : confirmed_ledger_index c = LedgerIndex_new (MilestoneIndex_new (index + 1));
  cf_inv : node_inv P Q (index + 1) (spent ∪ dom (consumed_outputs md)) t';
  cf_events : exists receipt, confirmed_events c = confirm_events message ms md receipt;
  cf_marks : marks (marked md).*1 (tables (tg_storage t)) (tables (tg_storage t'));
}.

Section confirming.
Context (P : TransactionPayload -> Prop) (Q : MilestonePayload -> Prop) (Hkt : known_transactions P) (Hkm : known_milestones P Q).
Context (index : Z) (spent : gset OutputId) (message : MessageId) (Hindex : 0 <= index < 2 ^ 32 - 1).
Abbreviation ledger := (LedgerIndex_new (MilestoneIndex_new index)).

Lemma milestone_of_Ok o m ms :
  milestone_of message o = Ok (m, ms) <-> o = Some m /\ message_payload m = Some (Payload_Milestone ms).
Proof.
  unfold milestone_of. destruct o as [m'|]; cbn; [|split; [done | by intros [? _]]].
  destruct (message_payload m') as [[]|] eqn:Hp; naive_solver.
Qed.

(** The computation that precedes the changes of the tangle. *)
Definition prepare (fuel : nat) (migrated_at : MilestoneIndex) t (m : Message) (ms : MilestonePayload)
    : option (result WorkerError (WhiteFlagMetadata * MilestoneIndex * option Migration * B)) :=
  r ← white_flag fuel t (tg_storage t) (parents_inner (message_parents m)) (WhiteFlagMetadata_new (essence_index (milestone_essence ms)));
  Some (let? metadata := r in
        let? changes := confirm_changes (tg_storage t) message ms migrated_at metadata in
        let '(metadata, migrated_at, migration) := changes in
        let? storage := apply_milestone (tg_storage t) (wfm_index metadata) (created_outputs metadata)
                          (consumed_outputs metadata) (balance_diffs metadata) migration in
        Ok (metadata, migrated_at, migration, storage)).

Lemma confirm_eq fuel migrated_at t m ms t1 :
  Tangle_get message t = Some (Some m, t1) -> message_payload m = Some (Payload_Milestone ms) -> milestone_number ms = index + 1 ->
  confirm fuel message ledger migrated_at t
  = r ← prepare fuel migrated_at t1 m ms;
    match r with
    | Err e => Some (Err e, t1)
    | Ok (md, migrated_at, migration, storage) =>
        (let* _ := mark_all (essence_timestamp (milestone_essence ms)) (marked md) in
         sret (Ok (mkConfirmed (LedgerIndex_new (essence_index (milestone_essence ms))) migrated_at
                     (confirm_events message ms md (bool_decide (is_Some migration))))))
          (update_confirmed_milestone_index (essence_index (milestone_essence ms)) (with_storage storage t1))
    end.
Proof.
  intros Hg Hp Hn. unfold confirm. rewrite (sbind_run _ _ _ _ _ Hg), (proj2 (milestone_of_Ok (Some m) m ms)) by done.
  unfold milestone_number in Hn. cbn [ledger_index milestone_index]. rewrite as_u_id by (unfold fits; lia).
  rewrite Hn, Z.eqb_refl. cbn [negb]. unfold prepare. by destruct (white_flag _ _ _ _ _).
Qed.

(** The marking of messages after the ledger has changed. *)
Lemma confirm_marks t t1 s' ms l :
  node_inv P Q index spent t -> tangle_inv t1 -> tg_storage t1 = tg_storage t ->
  healthy s' -> t_node (tables s') = t_node (tables (tg_storage t)) ->
  exists t', mark_all (essence_timestamp (milestone_essence ms)) l
      (update_confirmed_milestone_index (essence_index (milestone_essence ms)) (with_storage s' t1)) = Some (tt, t')
    /\ tangle_inv t' /\ same_ledger (tables s') (tables (tg_storage t')) /\ marks l.*1 (tables (tg_storage t)) (tables (tg_storage t')).
Proof.
  intros Hn Hi1 Hst1 Hs' Hnode.
  destruct (mark_all_spec (essence_timestamp (milestone_essence ms)) l
    (update_confirmed_milestone_index (essence_index (milestone_essence ms)) (with_storage s' t1))) as (t' & Hrun & Hi' & Hl & Hm).
  { apply inv_update_confirmed, inv_with_storage; [done | done|]. by rewrite Hst1. }
  replace (tg_storage (update_confirmed_milestone_index _ (with_storage s' t1))) with s' in * by (by destruct t1).
  exists t'. split_and!; [done..|]. intros id. specialize (Hm id). unfold stored in Hm at 1. rewrite Hnode in Hm. exact Hm.
Qed.

(** Either the message is the next milestone, or there is an error. *)
Lemma confirm_found t :
  node_inv P Q index spent t ->
  exists t1, tangle_inv t1 /\ tg_storage t1 = tg_storage t
    /\ ((exists e, forall fuel migrated_at, confirm fuel message ledger migrated_at t = Some (Err e, t1))
        \/ exists m meta ms, stored (tables (tg_storage t)) message = Some (m, meta) /\ Q ms
            /\ message_payload m = Some (Payload_Milestone ms) /\ milestone_number ms = index + 1
            /\ Tangle_get message t = Some (Some m, t1)).
Proof.
  intros Hn. pose proof (ni_tangle _ _ _ _ _ Hn) as Hi.
  destruct (Tangle_get_spec _ _ _ message t (ti_cache _ Hi) (inv_reads t message Hi)) as (t1 & Hg & Hs1 & Hc1).
  exists t1. split_and!; [by apply (inv_step t) | by apply cache_step_storage|]. unfold confirm.
  destruct (milestone_of message (fst <$> stored (tables (tg_storage t)) message)) as [[m ms]|e] eqn:Hms.
  2: { left. exists e. intros. by rewrite (sbind_run _ _ _ _ _ Hg), Hms. }
  destruct (Z.eqb_spec (milestone_number ms) (index + 1)) as [Hnum|Hnum].
  - right. apply milestone_of_Ok in Hms as [Hm Hp]. destruct (stored (tables (tg_storage t)) message) as [[m' meta]|] eqn:Hst; [|done].
    injection Hm as ->. exists m, meta, ms. split_and!; [done| |done..]. apply (ni_known _ _ _ _ _ Hn) in Hst. by rewrite Hp in Hst.
  - left. eexists. intros. rewrite (sbind_run _ _ _ _ _ Hg), Hms. cbn [ledger_index milestone_index].
    rewrite as_u_id by (unfold fits; lia). unfold milestone_number in Hnum. by rewrite (proj2 (Z.eqb_neq _ _) Hnum).
Qed.

Lemma prepare_Ok fuel migrated_at t m ms md migrated_at' mig s' :
  healthy (tg_storage t) -> ledger_state P Q index spent (tables (tg_storage t)) -> tangle_known t P ->
  Q ms -> milestone_number ms = index + 1 ->
  prepare fuel migrated_at t m ms = Some (Ok (md, migrated_at', mig, s')) ->
  healthy s' /\ t_node (tables s') = t_node (tables (tg_storage t))
  /\ ledger_state P Q (index + 1) (spent ∪ dom (consumed_outputs md)) (tables s').
Proof.
  intros Hs Hst Htk HQ Hnum (r & Hw & Hr)%bind_Some. injection Hr as Hr. apply result_bind_Ok in Hr as (md0 & -> & Hr).
  apply result_bind_Ok in Hr as ([[md1 at1] mig1] & Hc & Hr). apply result_bind_Ok in Hr as (s1 & Ha & Hr).
  injection Hr as -> _ -> ->.
  apply (white_flag_inv (tg_storage t) Hs P Hkt spent (ls_inv _ _ _ _ _ Hst) (ls_history _ _ _ _ _ Hst) t Htk) in Hw as (Hmi & _ & Hix & _).
  destruct (confirm_changes_Ok P Q Hkm (tg_storage t) spent ms message md0 Hs (ls_inv _ _ _ _ _ Hst) Hmi HQ
    (ls_unseen _ _ _ _ _ Hst ms HQ ltac:(lia)) _ _ _ _ Hc) as (new & Hch & _).
  destruct (changes_applied P Q Hkt Hkm (tg_storage t) index spent Hs Hst ms HQ Hnum md0 md mig new Hmi Hch Hix)
    as (s2 & Ha' & ?). rewrite Ha in Ha'. by injection Ha' as <-.
Qed.

Lemma confirm_Ok fuel migrated_at t c t' :
  node_inv P Q index spent t -> confirm fuel message ledger migrated_at t = Some (Ok c, t') ->
  exists m ms md, milestone_confirmed P Q index spent message t c t' m ms md.
Proof.
  intros Hn Hrun. destruct (confirm_found t Hn) as (t1 & Hi1 & Hst1 & [(e & He)|(m & meta & ms & Hst & HQ & Hp & Hnum & Hg)]).
  { by rewrite He in Hrun. }
  rewrite (confirm_eq _ _ _ _ _ _ Hg Hp Hnum) in Hrun. apply bind_Some in Hrun as ([r|e] & Hr & Hrun); [|done].
  destruct r as [[[md at'] mig] s']. assert (Hn1 : node_inv P Q index spent t1) by (by apply (node_inv_storage _ _ _ _ t)).
  apply prepare_Ok in Hr as (Hs' & Hnode & Hls); [|apply Hi1 | apply Hn1 | by eapply node_tangle_known | done..].
  rewrite Hst1 in Hnode. destruct (confirm_marks t t1 s' ms (marked md) Hn Hi1 Hst1 Hs' Hnode) as (t2 & Hm & Hi2 & Hsl & Hmarks).
  rewrite (sbind_run _ _ _ _ _ Hm) in Hrun. injection Hrun as <- <-. exists m, ms, md.
  split; [by eexists | done | done | | | by eexists | done].
  - cbn. unfold milestone_number in Hnum. destruct (essence_index (milestone_essence ms)). cbn in *. by subst.
  - split; [done | by eapply ledger_state_same|]. eapply marks_known, Hn. exact Hmarks.
Qed.

Lemma confirm_Err fuel migrated_at t e t' :
  node_inv P Q index spent t -> confirm fuel message ledger migrated_at t = Some (Err e, t') ->
  node_inv P Q index spent t' /\ tg_storage t' = tg_storage t.
Proof.
  intros Hn Hrun. destruct (confirm_found t Hn) as (t1 & Hi1 & Hst1 & [(e' & He)|(m & meta & ms & Hst & HQ & Hp & Hnum & Hg)]).
  { rewrite He in Hrun. injection Hrun as _ <-. split; [by apply (node_inv_storage _ _ _ _ t) | done]. }
  rewrite (confirm_eq _ _ _ _ _ _ Hg Hp Hnum) in Hrun. apply bind_Some in Hrun as ([r|e1] & Hr & Hrun).
  - destruct r as [[[md at'] mig] s']. by apply bind_Some in Hrun as ([[] t2] & _ & ?).
  - injection Hrun as _ <-. split; [by apply (node_inv_storage _ _ _ _ t) | done].
Qed.

(** ** Progress *)

(** White Flag sees only the messages and the solid entry points of the tangle. *)
Lemma white_flag_ext (s : B) fuel t1 t2 parents md :
  (forall id, tangle_message t1 id = tangle_message t2 id) -> (forall id, is_solid_entry_point t1 id = is_solid_entry_point t2 id) ->
  white_flag fuel t1 s parents md = white_flag fuel t2 s parents md.
Proof.
  intros Hm Hsep. unfold white_flag, traverse_past_cone. f_equal. generalize (mkTraversal (reverse (reverse parents)) ∅ md).
  induction fuel as [|fuel IH]; intros st; cbn [traverse]; [done|]. destruct (tr_stack st) as [|id rest]; [done|].
  assert (traverse_step t1 s id rest (tr_visited st) (tr_metadata st) = traverse_step t2 s id rest (tr_visited st) (tr_metadata st)) as ->.
  { unfold traverse_step. rewrite Hm. cbn [tangle_is_solid_entry_point Tangle_access]. by rewrite Hsep. }
  by destruct (traverse_step t2 s id rest (tr_visited st) (tr_metadata st)).
Qed.

Lemma insert_funds_total m tx i funds md :
  Forall wf_MigratedFundsEntry funds -> 0 <= i -> i + len funds <= INPUT_OUTPUT_COUNT_MAX ->
  (forall a, - IOTA_SUPPLY <= diff_amount (entry_or_default (balance_diffs md) a) <= (i + 1) * IOTA_SUPPLY) ->
  exists md', insert_funds m tx i funds md = Ok md'.
Proof.
  revert i md. induction funds as [|f funds IH]; intros i md Hf Hi Hn Hd; cbn [insert_funds]; [by eexists|].
  apply Forall_cons in Hf as [(_ & Hw & Ha) Hf]. rewrite len_cons in Hn. pose proof (len_nonneg funds).
  rewrite as_u_id by (unfold fits, INPUT_OUTPUT_COUNT_MAX in *; lia).
  rewrite (proj2 (OutputId_new_Ok tx i (mkOutputId tx i))) by (split; [lia | done]).
  cbn [result_bind]. unfold amount_add. pose proof (Hd (single_address (migrated_output f))) as Hda.
  rewrite supply_as_i by (unfold DUST_THRESHOLD in *; lia).
  erewrite (proj2 (i_checked_add_Some 64 _ _ _)).
  2: { split; [reflexivity|]. unfold sfits, INPUT_OUTPUT_COUNT_MAX, DUST_THRESHOLD, IOTA_SUPPLY in *. lia. }
  cbn [ok_or result_bind]. apply IH; [done | lia | lia|]. intros a. destruct md. cbn. rewrite entry_insert. cbn in Hda, Hd.
  case_decide; [cbn | pose proof (Hd a)]; unfold DUST_THRESHOLD, IOTA_SUPPLY in *; lia.
Qed.

(** The receipt of a milestone is valid for the treasury [x]. *)
Definition receipt_ok (x : LedgerTreasuryOutput) (migrated_at : MilestoneIndex) (ms : MilestonePayload) : Prop :=
  forall receipt, essence_receipt (milestone_essence ms) = Some (Payload_Receipt receipt) ->
  milestone_index migrated_at <= milestone_index (receipt_migrated_at receipt) /\ exists i o, receipt_valid x receipt i o.

Lemma metadata_diff_bounds (s : B) md a :
  ledger_inv (tables s) -> metadata_inv s P spent md ->
  - IOTA_SUPPLY <= diff_amount (entry_or_default (balance_diffs md) a) <= IOTA_SUPPLY.
Proof.
  intros Hinv Hmi. pose proof (applied_inv (tables s) (wfm_index md) _ _ _ _ Hinv (mi_valid _ _ _ _ Hmi)) as Hinv'.
  pose proof (total_applied (tables s) (wfm_index md) _ _ _ _ Hinv (mi_valid _ _ _ _ Hmi) a) as Ht.
  destruct (inv_supply _ Hinv) as (x & _ & Hx & Hsx), (inv_supply _ Hinv') as (y & _ & Hy & Hsy).
  destruct (total_bounds a _ (wf_live _ Hinv)) as (_ & _ & ?), (total_bounds a _ (wf_live _ Hinv')) as (_ & _ & ?).
  destruct (supply_total a _ Hinv) as [? _], (supply_total a _ Hinv') as [? _].
  apply (f_equal balance_amount) in Ht. unfold balance_plus in Ht. cbn in Ht. unfold wf_TreasuryOutput in *. lia.
Qed.

Lemma confirm_changes_total (s : B) md ms x migrated_at :
  healthy s -> ledger_inv (tables s) -> metadata_inv s P spent md -> Q ms -> treasury_is (tables s) x ->
  merkle_proof md = essence_merkle_proof (milestone_essence ms) -> receipt_ok x migrated_at ms ->
  exists r, confirm_changes s message ms migrated_at md = Ok r.
Proof.
  intros Hs Hinv Hmi HQ Hx Hroot Hr. unfold confirm_changes. rewrite bool_decide_eq_true_2 by done. cbn [ensure result_bind].
  destruct (essence_receipt (milestone_essence ms)) as [[?|?|?|receipt|?]|] eqn:He; try (by eexists).
  destruct (Hr receipt He) as (Hat & i & o & Hv). pose proof (milestone_receipt_wf ms receipt (km_wf _ _ Hkm ms HQ) He) as Hw.
  assert (Hwr := Hw). destruct Hwr as [(_ & Hf & ((_ & Hlen) & _) & Hwt) _]. cbn in Hf, Hlen, Hwt.
  destruct (inv_supply _ Hinv) as (y & Hy & Hwx & _). assert (y = x) as -> by by eapply treasury_is_unique.
  destruct (insert_funds_total message (milestone_transaction ms) 0 (receipt_funds receipt) (count_milestone md message))
    as (md' & Hi); [done | lia | lia | |].
  { intros a. pose proof (metadata_diff_bounds s md a Hinv Hmi). destruct md. cbn in *. lia. }
  unfold confirm_receipt. fold (milestone_transaction ms). rewrite Hi. cbn [result_bind]. rewrite (proj2 (Z.ltb_ge _ _) Hat).
  cbn [negb ensure result_bind]. rewrite (unspent_treasury s x Hs Hx). cbn [result_bind].
  erewrite (proj2 (migration_from_milestone_Ok _ _ _ _ _ Hw Hwx)); [by eexists|]. exists i, o. split_and!; [done| |done].
  destruct Hv as (Ht & _ & _). rewrite Ht in Hwt. by destruct Hwt as (_ & ? & _).
Qed.

Lemma confirm_total fuel migrated_at t m meta ms md x :
  node_inv P Q index spent t -> stored (tables (tg_storage t)) message = Some (m, meta) ->
  message_payload m = Some (Payload_Milestone ms) -> milestone_number ms = index + 1 ->
  white_flag fuel t (tg_storage t) (parents_inner (message_parents m)) (WhiteFlagMetadata_new (essence_index (milestone_essence ms)))
    = Some (Ok md) ->
  merkle_proof md = essence_merkle_proof (milestone_essence ms) ->
  treasury_is (tables (tg_storage t)) x -> receipt_ok x migrated_at ms ->
  exists c t', confirm fuel message ledger migrated_at t = Some (Ok c, t').
Proof.
  intros Hn Hst Hp Hnum Hw Hroot Hx Hr. pose proof (ni_tangle _ _ _ _ _ Hn) as Hi. pose proof (ni_ledger _ _ _ _ _ Hn) as Hls.
  assert (HQ : Q ms) by (apply (ni_known _ _ _ _ _ Hn) in Hst; by rewrite Hp in Hst).
  destruct (Tangle_get_spec _ _ _ message t (ti_cache _ Hi) (inv_reads t message Hi)) as (t1 & Hg & Hs1 & Hc1).
  assert (Hi1 : tangle_inv t1) by (by apply (inv_step t)). pose proof (cache_step_storage _ _ Hs1) as Hst1.
  rewrite Hst in Hg. change (fst <$> Some (m, meta)) with (Some m) in Hg.
  rewrite (confirm_eq _ _ _ _ _ _ Hg Hp Hnum). unfold prepare. rewrite Hst1, (white_flag_ext _ _ t1 t), Hw.
  2: { intros id. by rewrite !tangle_message_stored, Hst1. }
  2: { intros id. unfold is_solid_entry_point. by rewrite (proj2 (cache_step_milestones _ _ Hs1)). }
  pose proof (ti_healthy _ Hi) as Hs. cbn [mbind option_bind result_bind].
  apply (white_flag_inv (tg_storage t) Hs P Hkt spent (ls_inv _ _ _ _ _ Hls) (ls_history _ _ _ _ _ Hls) t
           (node_tangle_known _ _ _ _ _ Hn)) in Hw as (Hmi & _ & Hix & _).
  destruct (confirm_changes_total (tg_storage t) md ms x migrated_at) as ([[md' at'] mig] & Hc); [done | apply Hls | done..|].
  destruct (confirm_changes_Ok P Q Hkm (tg_storage t) spent ms message md Hs (ls_inv _ _ _ _ _ Hls) Hmi HQ
    (ls_unseen _ _ _ _ _ Hls ms HQ ltac:(lia)) _ _ _ _ Hc) as (new & Hch & _).
  destruct (changes_applied P Q Hkt Hkm (tg_storage t) index spent Hs Hls ms HQ Hnum md md' mig new Hmi Hch Hix)
    as (s' & Ha & Hs' & Hnode & _). rewrite Hc. cbn [result_bind]. rewrite Ha. cbn [result_bind].
  destruct (confirm_marks t t1 s' ms (marked md') Hn Hi1 Hst1 Hs' Hnode) as (t2 & Hm & _).
  rewrite (sbind_run _ _ _ _ _ Hm). by eexists _, t2.
Qed.
End confirming.
End proofs.
