(* ===== verification/ConfirmState.v ===== *)
(** * The validation of the ledger

    What [validate_ledger_state] of [bee-ledger/src/workers/consensus/state.rs] decides, and that a consistent ledger
    passes it. *)

From S2P Require Import Prelude External MessageTypes Payload PayloadKeys PayloadCodec Message TangleTypes LedgerTypes.
From S2P Require Import Vertices Storage StorageTables StorageMemory Tangle TangleCache LedgerStorage Ledger Merkle.
From S2P Require Import WhiteFlag WhiteFlagOrder WhiteFlagLedger Confirm ConfirmLedger.

Local Open Scope Z_scope.

(** A loop that adds up numbers and stops at an overflow. *)
Lemma try_fold_sum {E A} (f : Z -> A -> result E Z) (p : A -> Prop) (g : A -> Z) (N : Z) l s s' :
  (forall s a s', f s a = Ok s' <-> p a /\ s' = s + g a /\ s + g a < N) -> Forall (fun a => 0 <= g a) l -> s < N ->
  try_fold f s l = Ok s' <-> Forall p l /\ s' = s + sum_Z g l /\ s' < N.
Proof.
  intros Hf Hg. revert s. induction Hg as [|a l Ha Hg IH]; intros s Hs.
  - cbn. rewrite Ok_inj. split; [intros <-; split_and!; [done | lia | lia] | intros (_ & -> & _); lia].
  - rewrite try_fold_cons_Ok, Forall_cons, sum_Z_cons. split.
    + intros (s1 & (Hp & -> & Hlt)%Hf & Hr). apply IH in Hr as (Hl & -> & ?); [|lia]. split_and!; [done..|lia|lia].
    + intros ([Hp Hl] & -> & Hlt). assert (0 <= sum_Z g l).
      { clear -Hg. induction Hg as [|b l Hb Hl IHl]; [done|]. rewrite sum_Z_cons. lia. }
      exists (s + g a). split; [apply Hf; split_and!; [done..|lia]|]. apply IH; [lia|]. split_and!; [done|lia|lia].
Qed.

Lemma add_supply_Ok s x y : add_supply s x = Ok y <-> y = s + x /\ s + x < 2 ^ 64.
Proof. unfold add_supply. by rewrite ok_or_Ok, u_checked_add_Some. Qed.

(** The amount behind an unspent identifier. *)
Definition unspent_amount (tb : LedgerTables) (u : Unspent) : Z :=
  default 0 ((fun c => output_amount (created_inner c)) <$> t_created tb !! unspent_id u).

(** What validation demands. *)
Record state_valid (tb : LedgerTables) (treasury : Z) : Prop := {
  sv_unspent u : t_unspent tb !! u = Some tt ->
    exists c, t_created tb !! unspent_id u = Some c /\ ~ is_treasury_output (created_inner c);
  sv_outputs : sum_Z (fun e => unspent_amount tb e.1) (map_to_list (t_unspent tb)) + treasury = IOTA_SUPPLY;
  sv_dust a b : t_balance tb !! a = Some b -> dust_ok b;
  sv_balances : sum_map balance_amount (t_balance tb) + treasury = IOTA_SUPPLY;
}.

(** Stored amounts are unsigned. *)
Definition amounts_unsigned (tb : LedgerTables) : Prop :=
  (forall id c, t_created tb !! id = Some c -> 0 <= output_amount (created_inner c))
  /\ (forall a b, t_balance tb !! a = Some b -> 0 <= balance_amount b).

(** ** A consistent ledger is valid *)

Lemma sum_Z_fmap {A C} (f : C -> Z) (h : A -> C) l : sum_Z f (h <$> l) = sum_Z (fun a => f (h a)) l.
Proof. induction l as [|a l IH]; [done|]. rewrite fmap_cons, !sum_Z_cons. by rewrite IH. Qed.

Lemma sum_Z_ext {A} (f g : A -> Z) l : (forall a, a ∈ l -> f a = g a) -> sum_Z f l = sum_Z g l.
Proof.
  induction l as [|a l IH]; intros Hfg; [done|]. rewrite !sum_Z_cons, (Hfg a) by left. f_equal. apply IH. intros b Hb. apply Hfg. by right.
Qed.

Lemma unspent_sum tb :
  (forall id, t_unspent tb !! Unspent_new id = Some tt <-> is_Some (t_created tb !! id) /\ t_consumed tb !! id = None) ->
  sum_Z (fun e => unspent_amount tb e.1) (map_to_list (t_unspent tb)) = amounts (live tb).
Proof.
  intros Hu. rewrite <- (sum_Z_fmap (unspent_amount tb) fst).
  assert (Hp : Permutation (map_to_list (t_unspent tb)).*1 (Unspent_new <$> (map_to_list (live tb)).*1)).
  { apply NoDup_Permutation; [apply NoDup_fst_map_to_list | apply NoDup_fmap_2, NoDup_fst_map_to_list; congruence|].
    intros [id]. rewrite !list_elem_of_fmap. setoid_rewrite list_elem_of_fmap. split.
    - intros ([u []] & Hid & Hin%elem_of_map_to_list). cbn in Hid. subst u.
      apply Hu in Hin as [[c Hc] Hx]. exists id. split; [done|]. exists (id, c). split; [done|].
      apply elem_of_map_to_list. by apply live_lookup.
    - intros (id' & [= <-] & [id2 c] & Hid & Hin%elem_of_map_to_list). cbn in Hid. subst id2. apply live_lookup in Hin as [? ?].
      exists (Unspent_new id, tt). split; [done|]. apply elem_of_map_to_list, Hu. split; [by eexists | done]. }
  rewrite (sum_Z_perm _ _ _ Hp), !sum_Z_fmap. apply sum_Z_ext. intros [id c] Hin%elem_of_map_to_list.
  apply live_lookup in Hin as [Hc _]. unfold unspent_amount. cbn in *. by rewrite Hc.
Qed.

Lemma sum_map_delete `{Countable K} {A} (f : A -> Z) (m : gmap K A) k :
  sum_map f m = default 0 (f <$> m !! k) + sum_map f (delete k m).
Proof.
  destruct (m !! k) as [x|] eqn:Hk; cbn; [|by rewrite delete_id].
  rewrite <- (insert_delete_id m k x Hk) at 1. rewrite sum_map_insert; [done | by rewrite lookup_delete_eq].
Qed.

Lemma stored_amount b : default 0 (balance_amount <$> stored_balance b) = balance_amount b.
Proof. unfold stored_balance. destruct (Z.eqb_spec (balance_amount b) 0); cbn; lia. Qed.

(** Every output belongs to one address. *)
Lemma contrib_owner c :
  is_Some (created_address c) -> exists a0, forall a, diff_amount (contrib a c) = (if decide (a = a0) then output_amount (created_inner c) else 0)
    /\ (a <> a0 -> contrib a c = BalanceDiff_default).
Proof.
  unfold contrib, created_address, output_address. destruct (created_inner c) as [o|o|o]; cbn; intros [a1 Ha]; [| |done].
  - exists (single_address o). intros a. case_bool_decide; case_decide; subst; cbn; try done; by split.
  - exists (dust_address o). intros a. case_bool_decide; case_decide; subst; cbn; try done; by split.
Qed.

Lemma total_insert a m id c : m !! id = None -> total a (<[id := c]> m) = balance_plus (total a m) (contrib a c).
Proof. intros Hn. unfold total, balance_plus. cbn. rewrite !sum_map_insert by done. f_equal; lia. Qed.

(** The balances of all addresses add up to the outputs. *)
Lemma balances_sum m b :
  wf_outputs m -> (forall a, b !! a = stored_balance (total a m)) -> sum_map balance_amount b = amounts m.
Proof.
  revert b. induction m as [|id c m Hn IH] using map_ind; intros b Hw Hb.
  - assert (b = ∅) as -> by (apply map_eq; intros a; by rewrite Hb, total_empty). by rewrite sum_map_empty, amounts_empty.
  - rewrite amounts_insert by done. destruct (Hw id c) as [_ Ho]; [by rewrite lookup_insert_eq|].
    destruct (contrib_owner c Ho) as (a0 & Hc).
    set (b' := partial_alter (fun _ => stored_balance (total a0 m)) a0 b).
    assert (Hb' : sum_map balance_amount b' = amounts m).
    { apply IH; [intros id' c' Hc'; apply (Hw id'); rewrite lookup_insert_ne; [done | congruence]|]. intros a. unfold b'.
      destruct (decide (a = a0)) as [->|Ha]; [by rewrite lookup_partial_alter_eq|]. rewrite lookup_partial_alter_ne, Hb by done.
      rewrite total_insert by done. destruct (Hc a) as [_ ->]; [|done]. by destruct (total a m); unfold balance_plus; cbn; rewrite !Z.add_0_r. }
    rewrite (sum_map_delete _ b a0), <- Hb', (sum_map_delete _ b' a0), Hb, total_insert by done.
    unfold b' at 1. rewrite lookup_partial_alter_eq, !stored_amount. unfold b'. rewrite delete_partial_alter_eq.
    unfold balance_plus. cbn. rewrite (proj1 (Hc a0)), decide_True by done. lia.
Qed.

Lemma inv_unsigned tb : ledger_inv tb -> amounts_unsigned tb.
Proof.
  intros Hinv. split.
  - intros id c [Hw _]%(inv_created _ Hinv). destruct (created_inner c) as [o|o|o]; cbn in *;
      unfold wf_Single, wf_DustAllowance, wf_TreasuryOutput, DUST_THRESHOLD in *; lia.
  - intros a b Hb. rewrite (inv_balance _ Hinv) in Hb. unfold stored_balance in Hb. destruct (_ =? 0) in Hb; [done|].
    injection Hb as <-. by apply supply_total.
Qed.

Lemma inv_state_valid tb x :
  ledger_inv tb -> (forall a, dust_ok (total a (live tb))) -> treasury_is tb x ->
  state_valid tb (treasury_amount (ledger_treasury_inner x)).
Proof.
  intros Hinv Hd Hx. destruct (inv_supply _ Hinv) as (y & Hy & _ & Hs). assert (y = x) as -> by by apply Hx, Hy. split.
  - intros [id] Hu. apply (inv_unspent _ Hinv) in Hu as [[c Hc] _]. exists c. split; [done|].
    apply (inv_created _ Hinv) in Hc as [_ [a Ha]]. unfold created_address, output_address in Ha. destruct (created_inner c); cbn in *; naive_solver.
  - rewrite unspent_sum; [done | apply Hinv].
  - intros a b Hb. rewrite (inv_balance _ Hinv) in Hb. unfold stored_balance in Hb. destruct (_ =? 0) in Hb; [done|]. by injection Hb as <-.
  - rewrite (balances_sum (live tb)); [done | by apply wf_live | apply Hinv].
Qed.

Section proofs.
Context `{HashOrderOk} `{LedgerBackendOk B}.
Context (s : B) (Hs : healthy s).
Abbreviation tb := (tables s).

Lemma validate_unspent_Ok supply u x :
  validate_unspent s supply (Ok (u, tt)) = Ok x
  <-> (exists c, t_created tb !! unspent_id u = Some c /\ ~ is_treasury_output (created_inner c))
      /\ x = supply + unspent_amount tb u /\ supply + unspent_amount tb u < 2 ^ 64.
Proof.
  unfold validate_unspent, fetch_output, unspent_amount. cbn [storage_result map_err result_bind].
  rewrite (fetch_ok (FetchOk := fetch_created_ok)) by done. cbn.
  destruct (t_created tb !! unspent_id u) as [c|]; cbn; [|split; [done | by intros [(? & ? & _) _]]].
  assert (Hiff : forall a : Z, (exists c', Some c = Some c' /\ ~ is_treasury_output (created_inner c')) /\ x = supply + a /\ supply + a < 2 ^ 64
    <-> ~ is_treasury_output (created_inner c) /\ x = supply + a /\ supply + a < 2 ^ 64).
  { intros a. split; [intros [(c' & [= <-] & ?) ?]; done | intros [? ?]; split; [by exists c | done]]. }
  rewrite Hiff. clear Hiff. destruct (created_inner c) as [o|o|o]; cbn; rewrite ?add_supply_Ok; [tauto | tauto |].
  split; [done | tauto].
Qed.

Lemma validate_balance_Ok supply a b x :
  validate_balance supply (Ok (a, b)) = Ok x <-> dust_ok b /\ x = supply + balance_amount b /\ supply + balance_amount b < 2 ^ 64.
Proof.
  unfold validate_balance, dust_ok. cbn [storage_result map_err result_bind].
  by rewrite ensure_bind_Ok, add_supply_Ok, negb_true_iff, Z.ltb_ge.
Qed.

Lemma try_fold_Ok {E E' A S} (f : S -> result E A -> result E' S) s0 (l : list A) :
  try_fold f s0 (Ok <$> l) = try_fold (fun s a => f s (Ok a)) s0 l.
Proof. revert s0. induction l as [|a l IH]; intros s0; cbn; [done|]. destruct (f s0 (Ok a)); [apply IH | done]. Qed.

(** Both loops, with the check that follows. *)
Lemma supply_check {A} (f : Z -> A -> result WorkerError Z) (p : A -> Prop) (g : A -> Z) l treasury (e : Z -> WorkerError) :
  (forall s a s', f s a = Ok s' <-> p a /\ s' = s + g a /\ s + g a < 2 ^ 64) -> Forall (fun a => 0 <= g a) l -> 0 <= treasury ->
  (let? supply := try_fold f 0 l in
   let? sum := add_supply supply treasury in if sum =? IOTA_SUPPLY then Ok tt else Err (e supply)) = Ok tt
  <-> Forall p l /\ sum_Z g l + treasury = IOTA_SUPPLY.
Proof.
  intros Hf Hg Ht. rewrite result_bind_Ok. split.
  - intros (x & Hx & (y & Hy & Hsum)%result_bind_Ok). apply (try_fold_sum f p g (2 ^ 64)) in Hx as (Hp & -> & _); [|done..].
    apply add_supply_Ok in Hy as [-> _]. split; [done|]. destruct (Z.eqb_spec (0 + sum_Z g l + treasury) IOTA_SUPPLY); [lia | done].
  - intros [Hp Hsum]. exists (sum_Z g l). unfold IOTA_SUPPLY in Hsum. split.
    + apply (try_fold_sum f p g (2 ^ 64)); [done..|]. split_and!; [done | lia | lia].
    + apply result_bind_Ok. exists IOTA_SUPPLY. split; [|done]. apply add_supply_Ok. unfold IOTA_SUPPLY. lia.
Qed.

Lemma unspent_state_Ok treasury :
  amounts_unsigned tb -> 0 <= treasury ->
  validate_ledger_unspent_state s treasury = Ok tt
  <-> (forall u, t_unspent tb !! u = Some tt -> exists c, t_created tb !! unspent_id u = Some c /\ ~ is_treasury_output (created_inner c))
      /\ sum_Z (fun e => unspent_amount tb e.1) (map_to_list (t_unspent tb)) + treasury = IOTA_SUPPLY.
Proof.
  intros [Hu _] Ht. unfold validate_ledger_unspent_state. destruct (iter_ok (IterOk := iter_unspent_ok) s Hs) as (l & -> & Hl).
  cbn [storage_result map_err result_bind]. rewrite try_fold_Ok.
  rewrite (supply_check _ (fun e : Unspent * unit => exists c, t_created tb !! unspent_id e.1 = Some c /\ ~ is_treasury_output (created_inner c))
             (fun e => unspent_amount tb e.1)); [| |apply Forall_forall; intros [u []] _; unfold unspent_amount; cbn|done].
  2: { intros s0 [u []] s'. apply validate_unspent_Ok. }
  2: { destruct (t_created tb !! unspent_id u) as [c|] eqn:Hc; cbn; [by eapply Hu | done]. }
  change (get_field tb) with (t_unspent tb) in Hl. rewrite (sum_Z_perm _ _ _ Hl), Hl, Forall_forall.
  f_equiv. split; [intros Hp u Hin; apply (Hp (u, tt)); by apply elem_of_map_to_list|].
  intros Hp [u []] Hin%elem_of_map_to_list. by apply Hp.
Qed.

Lemma balance_state_Ok treasury :
  amounts_unsigned tb -> 0 <= treasury ->
  validate_ledger_balance_state s treasury = Ok tt
  <-> (forall a b, t_balance tb !! a = Some b -> dust_ok b) /\ sum_map balance_amount (t_balance tb) + treasury = IOTA_SUPPLY.
Proof.
  intros [_ Hu] Ht. unfold validate_ledger_balance_state, sum_map. destruct (iter_ok (IterOk := iter_balance_ok) s Hs) as (l & -> & Hl).
  cbn [storage_result map_err result_bind]. rewrite try_fold_Ok. change (get_field tb) with (t_balance tb) in Hl.
  rewrite (supply_check _ (fun e : Address * Balance => dust_ok e.2) (fun e => balance_amount e.2)); [| | |done].
  2: { intros s0 [a b] s'. apply validate_balance_Ok. }
  2: { rewrite Hl. apply Forall_forall. intros [a b] Hin%elem_of_map_to_list. by eapply Hu. }
  rewrite (sum_Z_perm _ _ _ Hl), Hl, Forall_forall.
  f_equiv. split; [intros Hp a b Hin; apply (Hp (a, b)); by apply elem_of_map_to_list|].
  intros Hp [a b] Hin%elem_of_map_to_list. by eapply Hp.
Qed.

Lemma validate_Ok x :
  amounts_unsigned tb -> treasury_is tb x -> 0 <= treasury_amount (ledger_treasury_inner x) ->
  validate_ledger_state s = Ok tt <-> state_valid tb (treasury_amount (ledger_treasury_inner x)).
Proof.
  intros Hu Hx Ht. unfold validate_ledger_state. rewrite (unspent_treasury s x Hs Hx). cbn [result_bind].
  rewrite result_bind_Ok. split.
  - intros ([] & Ho%unspent_state_Ok & Hb%balance_state_Ok); [|done..]. destruct Ho, Hb. by split.
  - intros [? ? ? ?]. exists tt. by rewrite unspent_state_Ok, balance_state_Ok.
Qed.
End proofs.

(** ** Claims *)

(** C24. The validation of the ledger accepts exactly the ledgers in which every unspent output is stored and not a treasury
    output, the unspent outputs and the treasury hold the supply, no address holds more dust outputs than its allowance
    permits, and the balances and the treasury hold the supply; a consistent ledger is accepted. *)
Theorem validate_ledger_state_spec `{HashOrderOk} `{LedgerBackendOk B} (s : B) x :
  healthy s -> treasury_is (tables s) x ->
  (amounts_unsigned (tables s) -> 0 <= treasury_amount (ledger_treasury_inner x) ->
   validate_ledger_state s = Ok tt <-> state_valid (tables s) (treasury_amount (ledger_treasury_inner x)))
  /\ (ledger_inv (tables s) -> (forall a, dust_ok (total a (live (tables s)))) -> validate_ledger_state s = Ok tt).
Proof.
  intros Hs Hx. split; [by intros; apply validate_Ok|]. intros Hinv Hd. apply (validate_Ok s Hs x); [by apply inv_unsigned | done| |].
  - destruct (inv_supply _ Hinv) as (y & Hy & Hw & _). assert (y = x) as -> by by apply Hx, Hy. apply Hw.
  - by apply inv_state_valid.
Qed.

(** ** Evaluation *)

Module Examples.
Import Concrete Ledger.Examples WhiteFlagLedger.Examples.

Lemma validate_ledger_state_spec_witness : validate_ledger_state storage_6 = Ok tt.
Proof.
  destruct (inv_supply _ storage_6_inv) as (x & Hx & _).
  apply (validate_ledger_state_spec storage_6 x storage_6_healthy Hx); [exact storage_6_inv|].
  intros a. rewrite <- stored_total by exact storage_6_inv. apply storage_6_dust.
Defined.
End Examples.
