(* ===== verification/SnapshotLedger.v ===== *)
(** * Imported ledgers

    That the ledger a node starts with is consistent: an imported full snapshot that passes the validation satisfies the
    invariant of the ledger, and milestone differences move the ledger by the milestones they encode. *)

From S2P Require Import Prelude Packable External MessageTypes Payload PayloadKeys PayloadCodec Message TangleTypes LedgerTypes.
From S2P Require Import Snapshot StorageSystem Vertices Storage StorageTables StorageMemory Tangle TangleCache LedgerStorage.
From S2P Require Import Ledger Merkle WhiteFlag WhiteFlagOrder WhiteFlagLedger Confirm SnapshotImport ConfirmLedger ConfirmState.

Local Open Scope Z_scope.

(** ** Steps *)

Section steps.
Context {B : Type}.

Lemma ibind_Ok {A A'} (m : imp B A) (k : A -> imp B A') s bs s' r :
  ibind m k s bs = (s', Ok r) <-> exists s1 a bs1, m s bs = (s1, Ok (a, bs1)) /\ k a s1 bs1 = (s', Ok r).
Proof.
  unfold ibind. destruct (m s bs) as [s1 [[a bs1]|e]]; [naive_solver|]. split; [done | by intros (? & ? & ? & ? & _)].
Qed.

Lemma iread_Ok {E A} `{From E WorkerError} (r : reader E A) (s : B) bs s' a rest :
  iread r s bs = (s', Ok (a, rest)) <-> s' = s /\ r bs = Ok (a, rest).
Proof. unfold iread. destruct (r bs) as [[a' rest']|e]; cbn; naive_solver. Qed.

Lemma icheck_Ok {A} (r : result WorkerError A) (s : B) bs s' a rest :
  icheck r s bs = (s', Ok (a, rest)) <-> s' = s /\ rest = bs /\ r = Ok a.
Proof. unfold icheck. destruct r; cbn; naive_solver. Qed.

Lemma iask_Ok {A} (f : B -> result WorkerError A) (s : B) bs s' a rest :
  iask f s bs = (s', Ok (a, rest)) <-> s' = s /\ rest = bs /\ f s = Ok a.
Proof. unfold iask. destruct (f s); cbn; naive_solver. Qed.

Lemma ichange_Ok (f : B -> result WorkerError B) (s : B) bs s' u rest :
  ichange f s bs = (s', Ok (u, rest)) <-> rest = bs /\ f s = Ok s'.
Proof. unfold ichange. destruct u. destruct (f s); naive_solver. Qed.

Lemma iread_pack {E A A'} `{From E WorkerError} (P : Packable E A) wf `{!PackableOk P wf} (k : A -> imp B A') (s : B) a rest :
  wf a -> ibind (iread (unpack_inner P true)) k s (pack P a ++ rest) = k a s rest.
Proof. intros Ha. unfold ibind, iread. by rewrite (unpack_pack (P := P)) by done. Qed.
End steps.

(** Inverts a successful sequence of steps. *)
Ltac inv_imp :=
  repeat match goal with
  | H : ibind _ _ _ _ = (_, Ok _) |- _ => apply ibind_Ok in H as (? & ? & ? & ? & ?)
  | H : iread _ _ _ = (_, Ok _) |- _ => apply iread_Ok in H as [-> ?]
  | H : icheck _ _ _ = (_, Ok _) |- _ => apply icheck_Ok in H as (-> & -> & ?)
  | H : iask _ _ _ = (_, Ok _) |- _ => apply iask_Ok in H as (-> & -> & ?)
  | H : ichange _ _ _ = (_, Ok _) |- _ => apply ichange_Ok in H as [-> ?]
  end.

(** ** Outputs *)

(** Inserting a list of entries, the later ones replacing the earlier ones. *)
Lemma fill_amounts (l : list (OutputId * CreatedOutput)) (m : gmap OutputId CreatedOutput) :
  Forall (fun e => 0 < output_amount (created_inner e.2)) l -> map_Forall (fun _ c => 0 < output_amount (created_inner c)) m ->
  amounts (foldl (fun m e => <[e.1 := e.2]> m) m l) <= amounts m + sum_Z (fun e => output_amount (created_inner e.2)) l
  /\ (amounts (foldl (fun m e => <[e.1 := e.2]> m) m l) = amounts m + sum_Z (fun e => output_amount (created_inner e.2)) l ->
      NoDup l.*1 /\ forall id, id ∈ l.*1 -> m !! id = None).
Proof.
  intros Hl. revert m. induction Hl as [|[id c] l Hc Hl IH]; intros m Hm.
  - cbn. split; [lia|]. intros _. split; [constructor | by intros id ?%elem_of_nil].
  - cbn [foldl fst snd fmap list_fmap]. rewrite sum_Z_cons. cbn [fst snd] in *.
    destruct (IH (<[id := c]> m)) as [Hle Heq]; [by apply map_Forall_insert_2|].
    assert (Ha : amounts (<[id := c]> m) = amounts m + output_amount (created_inner c)
      - default 0 ((fun c => output_amount (created_inner c)) <$> m !! id)).
    { rewrite <- insert_delete_eq, amounts_insert by apply lookup_delete_eq. unfold amounts. rewrite (sum_map_delete _ m id). lia. }
    assert (Hd : 0 <= default 0 ((fun c => output_amount (created_inner c)) <$> m !! id)
      /\ (default 0 ((fun c => output_amount (created_inner c)) <$> m !! id) = 0 -> m !! id = None)).
    { destruct (m !! id) as [x|] eqn:Hx; cbn; [|done]. specialize (Hm id x Hx). cbn in Hm. lia. }
    split; [lia|]. intros Hs. destruct Heq as [Hnd Hni]; [lia|]. destruct Hd as [Hd0 Hd1]. specialize (Hd1 ltac:(lia)).
    split; [constructor; [|done]|].
    + intros Hin. apply Hni in Hin. by rewrite lookup_insert_eq in Hin.
    + intros id' [->|Hin]%elem_of_cons; [done|]. apply Hni in Hin. by apply lookup_insert_None in Hin as [? _].
Qed.

Lemma merge_empty_sum (d : BalanceDiffs) :
  diffs_apply ∅ d -> sum_map balance_amount (merge new_balance ∅ d) = diffs_sum d.
Proof.
  unfold diffs_sum. induction d as [|a x d Hn IH] using map_ind; intros Hd.
  - assert (merge new_balance ∅ (∅ : BalanceDiffs) = ∅) as -> by (apply map_eq; intros a; by rewrite lookup_merge, !lookup_empty).
    by rewrite !sum_map_empty.
  - rewrite sum_map_insert by done. rewrite <- IH; [|intros b y Hb; apply Hd; rewrite lookup_insert_ne; [done | congruence]].
    rewrite (sum_map_delete _ (merge new_balance ∅ (<[a := x]> d)) a), (sum_map_delete _ (merge new_balance ∅ d) a).
    assert (delete a (merge new_balance ∅ (<[a := x]> d)) = delete a (merge new_balance ∅ d)) as ->.
    { apply map_eq. intros b. destruct (decide (a = b)) as [<-|Hb]; [by rewrite !lookup_delete_eq|].
      by rewrite !lookup_delete_ne, !balances_lookup, lookup_insert_ne by done. }
    rewrite !balances_lookup, lookup_insert_eq, Hn, lookup_empty. cbn [new_balance default fmap option_fmap option_map].
    specialize (Hd a x (lookup_insert_eq _ _ _)). rewrite lookup_empty in Hd. cbn [default] in Hd.
    destruct (apply_diff Balance_default x) as [b|] eqn:Hb; [|done]. apply apply_diff_Ok in Hb as [-> _]; [|done].
    unfold balance_plus, Balance_default. cbn. destruct (Z.eqb_spec (0 + diff_amount x) 0); cbn; lia.
Qed.

Section import.
Context `{IteratorSorted} `{Crypto} `{Hex} `{HashOrderOk} `{LedgerBackendOk B}.
Implicit Types (s : B) (l : list (OutputId * CreatedOutput)).

Definition entry_outputs l : list Output := (fun e => created_inner e.2) <$> l.

Lemma create_output_Ok s id c s' :
  healthy s -> create_output s id c = Ok s' ->
  is_Some (created_address c) /\ healthy s' /\ tables s' = insert_created (id, c) (tables s).
Proof.
  intros Hs Hc. destruct (created_address c) as [a|] eqn:Ha.
  - destruct (storage_does_begin s (create_output s id c) (insert_created (id, c)) (insert_created (id, c) (tables s)))
      as (s1 & Hr & Hs1 & Ht1); [|done|].
    + apply (storage_does_bind s _ _ (insert_created (id, c)) _ (fun t => t));
        [apply does_insert_created; [done | by eexists] | intros b; by apply storage_does_commit].
    + rewrite Hc in Hr. injection Hr as <-. split; [by eexists | done].
  - exfalso. unfold create_output, insert_created_output_batch in Hc. unfold created_address, output_address in Ha.
    destruct (batch_insert_ok s (batch_begin B) id c Hs) as (b1 & Hb1 & _). rewrite Hb1 in Hc. cbn in Hc.
    destruct (batch_insert_ok s b1 (Unspent_new id) tt Hs) as (b2 & Hb2 & _). rewrite Hb2 in Hc. cbn in Hc.
    destruct (created_inner c) as [o|o|o]; [by destruct (single_address o) | by destruct (dust_address o) | done].
Qed.

Lemma import_output_Ok d s bs s' d' rest :
  healthy s -> import_output d s bs = (s', Ok (d', rest)) ->
  exists id c, wf_Output (created_inner c) /\ is_Some (created_address c) /\ healthy s' /\ tables s' = insert_created (id, c) (tables s)
    /\ output_add d (created_inner c) = Ok d'.
Proof.
  intros Hs Hi. unfold import_output in Hi. inv_imp.
  match goal with Hc : create_output _ ?i ?c = _ |- _ => exists i, c; apply create_output_Ok in Hc as (? & ? & ?); [|done] end.
  match goal with Ho : unpack_inner Output_packable _ _ = Ok _ |- _ => apply (unpack_wf (P := Output_packable)) in Ho end.
  match goal with Hd : result_bind _ _ = Ok _ |- _ => apply result_bind_Ok in Hd as (? & ? & [= <-]) end. done.
Qed.

Lemma import_outputs_loop n d s bs s' d' rest :
  healthy s -> irepeat n import_output d s bs = (s', Ok (d', rest)) ->
  exists l, Forall (fun e => wf_Output (created_inner e.2) /\ is_Some (created_address e.2)) l
    /\ healthy s' /\ tables s' = run_effects insert_created l (tables s)
    /\ (forall a, entry_or_default d' a = diff_plus (entry_or_default d a) (outputs_diff a (entry_outputs l)))
    /\ diffs_sum d' = diffs_sum d + sum_Z (fun e => output_amount (created_inner e.2)) l.
Proof.
  revert d s bs. induction n as [|n IH]; intros d s bs Hs Hi; cbn [irepeat] in Hi.
  - injection Hi as <- <- _. exists []. split_and!; [constructor | done | done | intros a; by rewrite diff_plus_0_r | cbn; lia].
  - apply ibind_Ok in Hi as (s1 & d1 & bs1 & H1' & Hi). apply import_output_Ok in H1' as (id & c & Hw & Hc & Hs1 & Ht1 & Hd1); [|done].
    apply IH in Hi as (l & Hl & Hs' & Ht & He & Hsum); [|done]. exists ((id, c) :: l). split_and!; [by constructor | done | | |].
    + by rewrite Ht, Ht1.
    + intros a. rewrite He, (output_add_entry _ _ _ a Hw Hd1). cbn. by rewrite diff_plus_assoc.
    + rewrite Hsum, (output_add_sum _ _ _ Hw Hd1), sum_Z_cons. cbn. lia.
Qed.

Lemma apply_balance_diffs_Ok s d s' :
  healthy s -> apply_balance_diffs s d = Ok s' ->
  diffs_apply (t_balance (tables s)) d /\ healthy s'
  /\ tables s' = run_effects (change_balance (t_balance (tables s))) (hash_iter d) (tables s).
Proof.
  intros Hs Hr. assert (Hd : diffs_apply (t_balance (tables s)) d).
  { unfold apply_balance_diffs, apply_balance_diffs_batch in Hr. apply result_bind_Ok in Hr as (b & Hb & _).
    apply (try_fold_all (fun e => is_ok (apply_diff (default Balance_default (t_balance (tables s) !! e.1)) e.2) = true)) in Hb.
    - intros a x Hx. rewrite Forall_forall in Hb. apply (Hb (a, x)). by apply elem_of_hash_iter.
    - intros b' [a x] b''. unfold apply_balance_diff_batch. rewrite fetch_balance_or_default_spec by done. cbn.
      by destruct (apply_diff _ x). }
  split; [done|]. destruct (storage_does_begin s (apply_balance_diffs s d) (run_effects (change_balance (t_balance (tables s))) (hash_iter d))
      (run_effects (change_balance (t_balance (tables s))) (hash_iter d) (tables s)))
    as (s1 & H1' & Hs1 & Ht1); [|done|].
  - apply (storage_does_bind s _ _ _ _ (fun t => t)); [by apply does_change_balances | intros b; by apply storage_does_commit].
  - rewrite Hr in H1'. injection H1' as <-. done.
Qed.

(** What the loop leaves in the tables, whether or not an output occurs twice. *)
Lemma insert_created_fields l tb :
  Forall (fun e => is_Some (created_address e.2)) l ->
  let tb' := run_effects insert_created l tb in
  t_created tb' = foldl (fun m e => <[e.1 := e.2]> m) (t_created tb) l
  /\ (forall id, t_unspent tb' !! Unspent_new id = Some tt <-> t_unspent tb !! Unspent_new id = Some tt \/ id ∈ l.*1)
  /\ t_balance tb' = t_balance tb /\ t_consumed tb' = t_consumed tb /\ t_treasury tb' = t_treasury tb.
Proof.
  unfold run_effects. intros Hl. revert tb. induction Hl as [|[id c] l [a Ha] Hl IH]; intros tb; cbn [foldl].
  - split_and!; try done. intros id. set_solver.
  - destruct (IH (insert_created (id, c) tb)) as (Hc & Hu & Hb & Hco & Ht). cbn [fst snd fmap list_fmap] in *.
    rewrite Hc, Hb, Hco, Ht. unfold insert_created, insert_table in *. cbn [fst snd] in *. rewrite Ha in *.
    destruct tb; cbn in *. split_and!; try done. intros id'. rewrite Hu, insert_unit_lookup, elem_of_cons. naive_solver.
Qed.

Lemma fill_lookup (l : list (OutputId * CreatedOutput)) (m : gmap OutputId CreatedOutput) id :
  is_Some (foldl (fun m e => <[e.1 := e.2]> m) m l !! id) <-> is_Some (m !! id) \/ id ∈ l.*1.
Proof.
  revert m. induction l as [|[k c] l IH]; intros m; cbn [foldl fmap list_fmap fst snd]; [set_solver|].
  rewrite IH, lookup_insert_is_Some, elem_of_cons. destruct (decide (k = id)); naive_solver.
Qed.

Lemma fill_origin (l : list (OutputId * CreatedOutput)) (m : gmap OutputId CreatedOutput) id c :
  foldl (fun m e => <[e.1 := e.2]> m) m l !! id = Some c -> m !! id = Some c \/ (id, c) ∈ l.
Proof.
  revert m. induction l as [|[k x] l IH]; intros m; cbn [foldl fst snd]; [by left|].
  intros [[[<- <-]|[_ Hm]]%lookup_insert_Some|Hin]%IH; [right; left | by left | right; by right].
Qed.

Lemma outputs_total a l :
  NoDup l.*1 -> total_diff a (list_to_map l) = outputs_diff a (entry_outputs l).
Proof.
  induction l as [|[id c] l IH]; cbn [fmap list_fmap fst]; [intros _; apply total_diff_empty|]. intros [Hn Hd]%NoDup_cons.
  rewrite list_to_map_cons, total_diff_insert by by apply not_elem_of_list_to_map_1. by rewrite IH.
Qed.

(** A ledger without outputs. *)
Record empty_ledger (tb : LedgerTables) : Prop := {
  el_created : t_created tb = ∅;
  el_consumed : t_consumed tb = ∅;
  el_unspent : t_unspent tb = ∅;
  el_address : t_address tb = ∅;
  el_balance : t_balance tb = ∅;
}.

Section imported.
Context (tb : LedgerTables) (Hel : empty_ledger tb) (x : LedgerTreasuryOutput) (Hx : treasury_is tb x)
  (Hwx : wf_TreasuryOutput (ledger_treasury_inner x)).
Context (l : list (OutputId * CreatedOutput)) (d : BalanceDiffs).
Context (Hl : Forall (fun e => wf_Output (created_inner e.2) /\ is_Some (created_address e.2)) l) (Hd : diffs_apply ∅ d).
Context (He : forall a, entry_or_default d a = outputs_diff a (entry_outputs l))
  (Hsum : diffs_sum d = sum_Z (fun e => output_amount (created_inner e.2)) l).

Abbreviation tb1 := (run_effects insert_created l tb).
Abbreviation tb2 := (run_effects (change_balance (t_balance tb1)) (hash_iter d) tb1).

Lemma entries_positive : Forall (fun e => 0 < output_amount (created_inner e.2)) l.
Proof.
  eapply Forall_impl; [exact Hl|]. intros [id c] [Hw [a Ha]]. cbn in *. unfold created_address, output_address in Ha.
  destruct (created_inner c) as [o|o|o]; cbn in *; unfold wf_Single, wf_DustAllowance, DUST_THRESHOLD in *; [lia | lia | done].
Qed.

Lemma entries_address : Forall (fun e : OutputId * CreatedOutput => is_Some (created_address e.2)) l.
Proof. eapply Forall_impl; [exact Hl|]. by intros e [_ ?]. Qed.

Lemma imported_unsigned : amounts_unsigned tb2.
Proof.
  destruct (insert_created_fields l tb entries_address) as (Hc & _ & Hb & _). split; rewrite change_balances by done; cbn.
  - intros id c. rewrite Hc, (el_created _ Hel). intros [Hn|Hin]%fill_origin; [by rewrite lookup_empty in Hn|].
    pose proof entries_positive as Hp. rewrite Forall_forall in Hp. apply Hp in Hin. cbn in Hin. lia.
  - intros a b. rewrite Hb, (el_balance _ Hel), balances_lookup, lookup_empty. unfold new_balance.
    destruct (d !! a) as [y|]; [|done]. cbn [default]. destruct (apply_diff Balance_default y) as [b'|] eqn:Hy; [|done].
    apply apply_diff_Ok in Hy as [-> Hn]; [|done]. destruct (_ =? 0); [done|]. intros [= <-]. apply Hn.
Qed.

(** Validation finds outputs that occur twice: they count twice in the balances and once among the outputs. *)
Lemma imported_NoDup : state_valid tb2 (treasury_amount (ledger_treasury_inner x)) -> NoDup l.*1.
Proof.
  intros [_ Hu _ Hb]. rewrite change_balances in Hu, Hb by done. cbn in Hu, Hb.
  destruct (insert_created_fields l tb entries_address) as (Hc & Hun & Hba & Hco & _). rewrite Hba in Hb.
  rewrite (el_balance _ Hel), merge_empty_sum in Hb by done.
  assert (Hs : sum_Z (fun e => unspent_amount tb1 e.1) (map_to_list (t_unspent tb1)) = amounts (t_created tb1)).
  { rewrite unspent_sum.
    - f_equal. apply map_eq. intros id. apply option_eq. intros c. rewrite live_lookup, Hco, (el_consumed _ Hel), lookup_empty. naive_solver.
    - intros id. rewrite Hun, Hc, Hco, (el_unspent _ Hel), (el_consumed _ Hel), fill_lookup, (el_created _ Hel), !lookup_empty.
      split; [intros [?|?]; [done|]; by split; [right|] | intros [[[? ?]|?] _]; [done | by right]]. }
  destruct (fill_amounts l ∅ entries_positive) as [_ Hnd]; [apply map_Forall_empty|]. apply Hnd.
  rewrite <- (el_created _ Hel), <- Hc, <- Hs, (el_created _ Hel), amounts_empty.
  unfold unspent_amount in *. cbn in Hu. lia.
Qed.

Lemma imported_live : NoDup l.*1 -> live tb2 = list_to_map l.
Proof.
  intros Hn. apply map_eq. intros id. apply option_eq. intros c. rewrite live_lookup, change_balances by done.
  rewrite insert_created_all by auto using entries_address. cbn.
  rewrite (el_created _ Hel), (el_consumed _ Hel), lookup_empty, (right_id_L ∅ (∪)). naive_solver.
Qed.

Lemma imported_inv : state_valid tb2 (treasury_amount (ledger_treasury_inner x)) -> ledger_inv tb2.
Proof.
  intros Hv. pose proof (imported_NoDup Hv) as Hn. pose proof (imported_live Hn) as Hlive.
  destruct Hv as [_ Hu Hdust _].
  assert (Hw : wf_outputs (list_to_map l : gmap OutputId CreatedOutput)).
  { intros id c Hc%elem_of_list_to_map_2. rewrite Forall_forall in Hl. by apply (Hl (id, c)). }
  split.
  - intros id. rewrite change_balances, insert_created_all by auto using entries_address. cbn.
    rewrite (el_created _ Hel), (el_unspent _ Hel), (el_consumed _ Hel), !(right_id_L ∅ (∪)), ids_lookup, lookup_empty. naive_solver.
  - intros id. rewrite change_balances, insert_created_all by auto using entries_address. cbn.
    rewrite (el_consumed _ Hel), lookup_empty. by intros [? ?].
  - rewrite change_balances, insert_created_all by auto using entries_address. cbn.
    by rewrite (el_created _ Hel), (right_id_L ∅ (∪)); apply map_union_subseteq_l.
  - rewrite change_balances, insert_created_all by auto using entries_address. cbn.
    by rewrite (el_created _ Hel), (right_id_L ∅ (∪)).
  - intros a. rewrite Hlive, change_balances, insert_created_all by auto using entries_address. cbn.
    rewrite (el_balance _ Hel), balances_lookup, lookup_empty.
    pose proof (He a) as Ha. rewrite <- outputs_total in Ha by done. unfold entry_or_default in Ha. unfold new_balance.
    destruct (d !! a) as [y|] eqn:Hy; cbn [default] in *.
    + specialize (Hd a y Hy). rewrite lookup_empty in Hd. cbn [default] in Hd.
      destruct (apply_diff Balance_default y) as [b|] eqn:Hb; [|done]. apply apply_diff_Ok in Hb as [-> _]; [|done].
      assert (y = total_diff a (list_to_map l)) as -> by exact Ha.
      unfold balance_plus, total_diff. cbn. rewrite !Z.add_0_l. by destruct (total a (list_to_map l)).
    + unfold stored_balance. replace (balance_amount (total a (list_to_map l))) with 0; [done|].
      by apply (f_equal diff_amount) in Ha.
  - exists x. split; [|split; [done|]].
    + intros y. rewrite change_balances by done. cbn. destruct (insert_created_fields l tb entries_address) as (_ & _ & _ & _ & ->). apply Hx.
    + rewrite <- unspent_sum; [exact Hu|]. intros id. rewrite change_balances, insert_created_all by auto using entries_address. cbn.
      rewrite (el_created _ Hel), (el_unspent _ Hel), (el_consumed _ Hel), !(right_id_L ∅ (∪)), ids_lookup, lookup_empty. naive_solver.
Qed.

Lemma imported_dust a : state_valid tb2 (treasury_amount (ledger_treasury_inner x)) -> dust_ok (total a (live tb2)).
Proof.
  intros Hv. pose proof (imported_inv Hv) as Hinv. rewrite <- stored_total by done.
  destruct (t_balance tb2 !! a) as [b|] eqn:Hb; [by eapply (sv_dust _ _ Hv)|]. done.
Qed.
End imported.

(** ** Full snapshots *)

Lemma insert_storage_Ok {K V} `{Countable K} `{!StorageInsert B K V} `{Field LedgerTables (gmap K V)} `{!InsertOk B K V} s (k : K) (v : V) s' :
  healthy s -> storage_result (storage_insert s k v) = Ok s' -> healthy s' /\ tables s' = insert_table k v (tables s).
Proof. intros Hs Hr. destruct (insert_ok s k v Hs) as (s1 & Hi & Hs1 & Ht1). rewrite Hi in Hr. injection Hr as <-. done. Qed.

Lemma import_header_Ok h i s bs s' u rest :
  healthy s -> import_header h i s bs = (s', Ok (u, rest)) ->
  rest = bs /\ healthy s' /\ exists info, tables s' = insert_table tt info (insert_table tt (LedgerIndex_new (header_ledger_index h)) (tables s)).
Proof.
  intros Hs Hi. unfold import_header in Hi. apply ibind_Ok in Hi as (s1 & [] & bs1 & Hx & Hy).
  apply ichange_Ok in Hx as [-> Hx], Hy as [-> Hy]. apply insert_storage_Ok in Hx as [Hs1 Ht1]; [|done].
  apply insert_storage_Ok in Hy as [Hs2 Ht2]; [|done]. split_and!; [done..|]. rewrite Ht2, Ht1. by eexists.
Qed.

(** The entry points replace those of the storage; nothing else changes. *)
Lemma import_entry_points_Ok count index s bs s' u rest :
  healthy s -> import_solid_entry_points count index s bs = (s', Ok (u, rest)) ->
  healthy s' /\ same_ledger (tables s) (tables s')
  /\ forall sep i, t_sep (t_node (tables s')) !! sep = Some i -> i = index.
Proof.
  intros Hs Hi. unfold import_solid_entry_points in Hi. apply ibind_Ok in Hi as (s1 & [] & bs1 & Ht & Hi).
  apply ichange_Ok in Ht as [-> Ht]. destruct (truncate_ok (TruncateOk := truncate_sep_ok) s Hs) as (s1' & Hr & Hs1 & Ht1).
  rewrite Hr in Ht. injection Ht as ->.
  assert (Hl1 : same_ledger (tables s) (tables s1)) by (rewrite Ht1; apply same_ledger_node; by destruct (tables s) as [? ? ? ? ? ? ? ? ? ? []]).
  assert (Hsep : forall sep i, t_sep (t_node (tables s1)) !! sep = Some i -> i = index).
  { rewrite Ht1. intros sep i. destruct (tables s) as [? ? ? ? ? ? ? ? ? ? []]. cbn. by rewrite lookup_empty. }
  clear Ht1 Hr. revert s1 bs Hi Hs1 Hl1 Hsep. induction (Z.to_nat count) as [|n IH]; intros s1 bs Hi Hs1 Hl1 Hsep; cbn [irepeat] in Hi.
  { injection Hi as <- _ _. done. }
  apply ibind_Ok in Hi as (s2 & [] & bs2 & Hstep & Hi). inv_imp.
  match goal with Hc : storage_result _ = Ok _ |- _ => apply insert_storage_Ok in Hc as [Hs2 Ht2]; [|done] end.
  apply IH in Hi; [done | done | |].
  - eapply same_ledger_trans; [exact Hl1|]. rewrite Ht2. apply same_ledger_node. by destruct (tables s1) as [? ? ? ? ? ? ? ? ? ? []].
  - rewrite Ht2. intros sep i. destruct (tables s1) as [? ? ? ? ? ? ? ? ? ? []]. cbn. intros [[_ <-]|[_ ?]]%lookup_insert_Some; [done|].
    by eapply Hsep.
Qed.

Definition header_treasury (f : FullSnapshotHeader) : LedgerTreasuryOutput :=
  LedgerTreasuryOutput_new (mkTreasuryOutput (treasury_output_amount f)) (treasury_output_milestone_id f).

(** What precedes the outputs of a full snapshot. *)
Lemma import_full_prefix s i h f body s' r :
  healthy s -> empty_ledger (tables s) -> t_treasury (tables s) = ∅ -> wf_SnapshotHeader h -> wf_FullSnapshotHeader f ->
  import_full_snapshot i s (pack SnapshotHeader_packable h ++ pack FullSnapshotHeader_packable f ++ body) = (s', Ok r) ->
  exists s1 bs1, healthy s1 /\ empty_ledger (tables s1) /\ treasury_is (tables s1) (header_treasury f)
    /\ wf_TreasuryOutput (ledger_treasury_inner (header_treasury f))
    /\ t_index (tables s1) !! tt = Some (LedgerIndex_new (header_ledger_index h))
    /\ (let% _ := import_outputs (full_output_count f) in
        let% _ := import_milestone_diffs (full_milestone_diff_count f) in check_remaining) s1 bs1 = (s', Ok r).
Proof.
  intros Hs Hel Htr Hh Hf Hi. unfold import_full_snapshot in Hi.
  rewrite (iread_pack SnapshotHeader_packable wf_SnapshotHeader) in Hi by done.
  apply ibind_Ok in Hi as (s1 & [] & bs1 & Hx & Hi). apply icheck_Ok in Hx as (-> & -> & _).
  rewrite (iread_pack FullSnapshotHeader_packable wf_FullSnapshotHeader) in Hi by done.
  apply ibind_Ok in Hi as (s1 & [] & bs1 & Hx & Hi). apply icheck_Ok in Hx as (-> & -> & _).
  apply ibind_Ok in Hi as (s1 & tr & bs1 & Hx & Hi). apply icheck_Ok in Hx as (-> & -> & Hx).
  apply result_bind_Ok in Hx as (tr' & Hw & [= ->]). apply TreasuryOutput_new_Ok in Hw as [Hwt ->].
  apply ibind_Ok in Hi as (s1 & [] & bs1 & Hx & Hi). apply ichange_Ok in Hx as [-> Hx].
  apply insert_storage_Ok in Hx as [Hs1 Ht1]; [|done].
  apply ibind_Ok in Hi as (s2 & [] & bs2 & Hx & Hi). apply import_header_Ok in Hx as (-> & Hs2 & info & Ht2); [|done].
  apply ibind_Ok in Hi as (s3 & [] & bs3 & Hx & Hi). apply import_entry_points_Ok in Hx as (Hs3 & [n Ht3] & _); [|done].
  exists s3, bs3. rewrite Ht3, Ht2, Ht1. split_and!; [done | | | done | | exact Hi].
  - destruct Hel. destruct (tables s). by split.
  - destruct (tables s). cbn in Htr |- *. subst. intros y. cbn. rewrite insert_unit_lookup, lookup_empty.
    unfold header_treasury. split; [by intros [[= <-]|] | intros ->; by left].
  - destruct (tables s). cbn. by rewrite lookup_insert_eq.
Qed.

(** An imported snapshot without milestone differences that passes the validation. *)
Lemma import_full_inv s i h f body s' u rest :
  healthy s -> empty_ledger (tables s) -> t_treasury (tables s) = ∅ ->
  wf_SnapshotHeader h -> wf_FullSnapshotHeader f -> full_milestone_diff_count f = 0 ->
  import_full_snapshot i s (pack SnapshotHeader_packable h ++ pack FullSnapshotHeader_packable f ++ body) = (s', Ok (u, rest)) ->
  validate_ledger_state s' = Ok tt ->
  healthy s' /\ ledger_inv (tables s') /\ (forall a, dust_ok (total a (live (tables s'))))
  /\ t_index (tables s') !! tt = Some (LedgerIndex_new (header_ledger_index h)) /\ rest = [].
Proof.
  intros Hs Hel Htr Hh Hf Hcount Hi Hv.
  apply import_full_prefix in Hi as (s3 & bs3 & Hs3 & Hel3 & Hx3 & Hwx & Hix & Hi); [|done..].
  apply ibind_Ok in Hi as (s4 & [] & bs4 & Hx & Hi). unfold import_outputs in Hx.
  apply ibind_Ok in Hx as (s5 & d & bs5 & Hloop & Hx). apply ichange_Ok in Hx as [-> Hx].
  apply import_outputs_loop in Hloop as (l & Hl & Hs5 & Ht5 & He & Hsum); [|done].
  apply apply_balance_diffs_Ok in Hx as (Hd & Hs4 & Ht4); [|done].
  rewrite Hcount in Hi. apply ibind_Ok in Hi as (s6 & [] & bs6 & Hx & Hi). injection Hx as <- <-. unfold check_remaining in Hi.
  destruct bs5; [|by injection Hi]. injection Hi as <- _ <-.
  assert (Hb3 : t_balance (run_effects insert_created l (tables s3)) = ∅).
  { destruct (insert_created_fields l (tables s3)) as (_ & _ & -> & _); [|apply Hel3]. eapply Forall_impl; [exact Hl|]. by intros e [_ ?]. }
  assert (He' : forall a, entry_or_default d a = outputs_diff a (entry_outputs l)).
  { intros a. rewrite He. unfold entry_or_default, BalanceDiffs_new. rewrite lookup_empty. by destruct (outputs_diff a (entry_outputs l)). }
  assert (Hsum' : diffs_sum d = sum_Z (fun e => output_amount (created_inner e.2)) l) by (rewrite Hsum; unfold diffs_sum, BalanceDiffs_new; by rewrite sum_map_empty).
  rewrite Ht5, Hb3 in Hd. rewrite Ht5 in Ht4.
  assert (Hval : state_valid (tables s4) (treasury_amount (ledger_treasury_inner (header_treasury f)))).
  { apply (validate_Ok s4 Hs4 (header_treasury f)); [| |apply Hwx|done]; rewrite Ht4; [by apply imported_unsigned|].
    rewrite change_balances by done. intros y. cbn. destruct (insert_created_fields l (tables s3)) as (_ & _ & _ & _ & ->); [|apply Hx3].
    eapply Forall_impl; [exact Hl|]. by intros e [_ ?]. }
  rewrite Ht4 in *. split_and!; [done | by eapply imported_inv | intros a; by eapply imported_dust | |done].
  rewrite change_balances by done. cbn. clear -Hix Hl. unfold run_effects. revert Hix. generalize (tables s3). 
  induction Hl as [|[id c] l [_ [a Ha]] Hl IH]; intros tb Htb; cbn [foldl]; [done|]. apply IH. unfold insert_created. cbn in *. rewrite Ha. by destruct tb.
Qed.

(** ** Milestone differences *)

Lemma add_all_entry l d d' a :
  Forall (fun e => wf_Output (created_inner e.2)) l ->
  try_fold (fun diffs '(_, output) => output_add diffs (created_inner output)) d l = Ok d' ->
  entry_or_default d' a = diff_plus (entry_or_default d a) (outputs_diff a (entry_outputs l)).
Proof.
  intros Hl. revert d. induction Hl as [|[id c] l Hc Hl IH]; intros d.
  - intros [= <-]. by rewrite diff_plus_0_r.
  - intros (d1 & Hd1 & Hr)%try_fold_cons_Ok. apply IH in Hr as ->. rewrite (output_add_entry _ _ _ a Hc Hd1). cbn. by rewrite diff_plus_assoc.
Qed.

Lemma sub_all_entry (l : list (OutputId * (CreatedOutput * ConsumedOutput))) d d' a :
  Forall (fun e => wf_Output (created_inner e.2.1)) l ->
  try_fold (fun diffs '(_, (created_output, _)) => output_sub diffs (created_inner created_output)) d l = Ok d' ->
  entry_or_default d' a = diff_plus (entry_or_default d a) (diff_opp (outputs_diff a (entry_outputs (prod_map Datatypes.id fst <$> l)))).
Proof.
  intros Hl. revert d. induction Hl as [|[id [c x]] l Hc Hl IH]; intros d.
  - intros [= <-]. cbn. by destruct (entry_or_default d a); unfold diff_plus; cbn; rewrite !Z.add_0_r.
  - intros (d1 & Hd1 & Hr)%try_fold_cons_Ok. apply IH in Hr as ->. rewrite (output_sub_entry _ _ _ a Hc Hd1).
    rewrite fmap_cons. unfold entry_outputs at 2. rewrite fmap_cons. fold (entry_outputs (prod_map Datatypes.id fst <$> l)).
    cbn [outputs_diff prod_map snd fst]. unfold diff_plus, diff_opp. cbn. f_equal; lia.
Qed.

Lemma milestone_diffs_entry d diffs a :
  wf_outputs (milestone_created d) -> wf_outputs (fst <$> milestone_consumed d) -> milestone_balance_diffs d = Ok diffs ->
  entry_or_default diffs a
  = mkBalanceDiff (balance_amount (total a (milestone_created d)) - balance_amount (total a (fst <$> milestone_consumed d)))
      (balance_dust_allowance (total a (milestone_created d)) - balance_dust_allowance (total a (fst <$> milestone_consumed d)))
      (balance_dust_outputs (total a (milestone_created d)) - balance_dust_outputs (total a (fst <$> milestone_consumed d))).
Proof.
  intros Hc Hx Hm. unfold milestone_balance_diffs in Hm. apply result_bind_Ok in Hm as (d1 & Hd1 & Hm).
  apply result_bind_Ok in Hm as (d2 & Hd2 & [= <-]).
  apply (sub_all_entry _ _ _ a) in Hd2; [|apply Forall_forall; intros [id [c x]] Hin%elem_of_hash_iter; apply (Hx id); by rewrite lookup_fmap, Hin].
  apply (add_all_entry _ _ _ a) in Hd1; [|apply Forall_forall; intros [id c] Hin%elem_of_hash_iter; by apply (Hc id)].
  rewrite Hd2, Hd1, <- !outputs_total.
  - rewrite list_to_map_fmap, !list_to_map_hash_iter. unfold entry_or_default, BalanceDiffs_new. rewrite lookup_empty.
    unfold diff_plus, diff_opp, total_diff. cbn. f_equal; lia.
  - rewrite <- list_fmap_compose. apply hash_iter_NoDup.
  - apply hash_iter_NoDup.
Qed.

(** What a milestone difference has to satisfy. *)
Record valid_diff (tb : LedgerTables) (d : MilestoneDiff) (mig : option Migration) : Prop := {
  vd_fresh : milestone_created d ##ₘ t_created tb;
  vd_created : wf_outputs (milestone_created d);
  vd_consumed id c x : milestone_consumed d !! id = Some (c, x) ->
    (milestone_created d ∪ t_created tb) !! id = Some c /\ t_consumed tb !! id = None;
  vd_supply : match mig with
    | None => amounts (milestone_created d) = amounts (fst <$> milestone_consumed d)
    | Some m =>
        treasury_is tb (migration_consumed_treasury m) /\ migration_created_treasury m <> migration_consumed_treasury m
        /\ wf_TreasuryOutput (ledger_treasury_inner (migration_created_treasury m))
        /\ amounts (milestone_created d) + treasury_amount (ledger_treasury_inner (migration_created_treasury m))
           = amounts (fst <$> milestone_consumed d) + treasury_amount (ledger_treasury_inner (migration_consumed_treasury m))
    end;
}.

Lemma valid_diff_milestone tb d mig diffs :
  ledger_inv tb -> valid_diff tb d mig -> milestone_balance_diffs d = Ok diffs ->
  valid_milestone tb (milestone_created d) (milestone_consumed d) diffs mig.
Proof.
  intros Hinv [Hf Hc Hx Hs] Hd. assert (Hwx : wf_outputs (fst <$> milestone_consumed d)).
  { intros id c. rewrite lookup_fmap. intros ([c' x] & Hl & ->)%fmap_Some. apply Hx in Hl as [Hl _].
    by eapply (wf_outputs_union _ _ Hc (inv_created _ Hinv)). }
  split; [done | done | done | intros a; by apply milestone_diffs_entry | done].
Qed.

(** A ledger moves by milestone differences. *)
Inductive diff_chain : LedgerTables -> list MilestoneDiff -> LedgerTables -> Prop :=
| chain_nil tb : diff_chain tb [] tb
| chain_cons tb i d ds diffs mig tb' :
    t_index tb !! tt = Some (LedgerIndex_new (MilestoneIndex_new i)) -> 0 <= i < 2 ^ 32 - 1 ->
    milestone_number (diff_milestone d) = i + 1 ->
    milestone_balance_diffs d = Ok diffs -> milestone_migration d = Ok mig -> valid_diff tb d mig ->
    diff_chain (applied (essence_index (milestone_essence (diff_milestone d))) (milestone_created d) (milestone_consumed d)
                  diffs mig tb) ds tb' ->
    diff_chain tb (d :: ds) tb'.

Lemma milestone_import_step s i d diffs mig bs rest :
  healthy s -> ledger_inv (tables s) -> MilestoneDiff_unpack bs = Ok (d, rest) ->
  t_index (tables s) !! tt = Some (LedgerIndex_new (MilestoneIndex_new i)) -> 0 <= i < 2 ^ 32 - 1 ->
  milestone_number (diff_milestone d) = i + 1 ->
  milestone_balance_diffs d = Ok diffs -> milestone_migration d = Ok mig -> valid_diff (tables s) d mig ->
  exists s', import_milestone_diff s bs = (s', Ok (tt, rest)) /\ healthy s'
    /\ tables s' = applied (essence_index (milestone_essence (diff_milestone d))) (milestone_created d) (milestone_consumed d) diffs mig (tables s)
    /\ ledger_inv (tables s').
Proof.
  intros Hs Hinv Hread Hix Hi Hn Hd Hm Hv. pose proof (valid_diff_milestone _ _ _ _ Hinv Hv Hd) as Hvm.
  destruct (apply_milestone_does s Hs (essence_index (milestone_essence (diff_milestone d))) (milestone_created d) (milestone_consumed d) diffs mig)
    as (s' & Ha & Hs' & Hts); [by eapply valid_no_treasury | by eapply valid_diffs_apply|].
  exists s'. split_and!; [|done|done|rewrite Hts; by apply applied_inv].
  unfold import_milestone_diff. unfold ibind at 1, iread.
  change (MilestoneDiff_unpack_inner true) with MilestoneDiff_unpack. rewrite Hread.
  cbn [map_err]. unfold ibind at 1, iask, fetch_ledger_index. rewrite (fetch_ok (FetchOk := fetch_index_ok)) by done.
  change (get_field (tables s) !! tt) with (t_index (tables s) !! tt). rewrite Hix. cbn [storage_result map_err result_bind].
  unfold ibind at 1, icheck at 1. cbn [ok_or result_bind ledger_index milestone_index].
  unfold ibind at 1, icheck at 1. rewrite Hd. cbn [result_bind]. unfold ibind at 1, icheck at 1. rewrite Hm. cbn [result_bind].
  unfold milestone_number in Hn. rewrite as_u_id, Hn, Z.eqb_refl by (unfold fits; lia). unfold ichange. by rewrite Ha.
Qed.

Lemma import_diffs_chain s ds tb' bs rest :
  healthy s -> ledger_inv (tables s) -> read_n MilestoneDiff_unpack (length ds) bs = Ok (ds, rest) -> diff_chain (tables s) ds tb' ->
  exists s', import_milestone_diffs (len ds) s bs = (s', Ok (tt, rest)) /\ healthy s' /\ tables s' = tb' /\ ledger_inv tb'.
Proof.
  intros Hs Hinv Hread Hc. unfold import_milestone_diffs. replace (Z.to_nat (len ds)) with (length ds) by (unfold len; lia).
  remember (tables s) as tb eqn:Htb. revert s Htb bs Hread Hs Hinv. induction Hc as [tb|tb i d ds diffs mig tb' Hix Hi Hn Hd Hm Hv Hc IH]; intros s -> bs Hread Hs Hinv.
  - injection Hread as ->. exists s. done.
  - cbn [length irepeat read_n] in *. apply rbind_Ok in Hread as (d' & bs1 & Hd1 & Hread). apply rbind_Ok in Hread as (ds' & bs2 & Hds & Hread).
    injection Hread as -> -> ->.
    destruct (milestone_import_step s i d diffs mig bs bs1) as (s1 & Hr & Hs1 & Ht1 & Hinv1); [done..|].
    unfold ibind. rewrite Hr. apply IH; [done | done | done | by rewrite <- Ht1].
Qed.

(** ** Claims *)

(** C25. A full snapshot without milestone differences that is imported into an empty ledger and passes the validation gives a
    consistent ledger at the index of the header: in particular no output occurs twice in it. *)
Theorem import_full_consistent s i h f body s' u rest :
  healthy s -> empty_ledger (tables s) -> t_treasury (tables s) = ∅ ->
  wf_SnapshotHeader h -> wf_FullSnapshotHeader f -> full_milestone_diff_count f = 0 ->
  import_full_snapshot i s (pack SnapshotHeader_packable h ++ pack FullSnapshotHeader_packable f ++ body) = (s', Ok (u, rest)) ->
  validate_ledger_state s' = Ok tt ->
  healthy s' /\ ledger_inv (tables s') /\ (forall a, dust_ok (total a (live (tables s'))))
  /\ t_index (tables s') !! tt = Some (LedgerIndex_new (header_ledger_index h)) /\ rest = [].
Proof. intros. by eapply import_full_inv. Qed.

(** C26. If the bytes of a snapshot are read as milestone differences, and these lead from the consistent ledger in the storage
    to another one, each with the next index and with outputs that it may create and consume, then importing the bytes
    succeeds, reads exactly what the differences take, and gives the other ledger, which is consistent as well. *)
Theorem import_diffs_apply s ds tb' bs rest :
  healthy s -> ledger_inv (tables s) -> read_n MilestoneDiff_unpack (length ds) bs = Ok (ds, rest) -> diff_chain (tables s) ds tb' ->
  exists s', import_milestone_diffs (len ds) s bs = (s', Ok (tt, rest)) /\ healthy s' /\ tables s' = tb' /\ ledger_inv tb'.
Proof. apply import_diffs_chain. Qed.
End import.

(** ** Evaluation *)

Module Examples.
Import Concrete Ledger.Examples WhiteFlagLedger.Examples.

(** A full snapshot at milestone 6 with one output. *)
Definition header_6 : SnapshotHeader := mkSnapshotHeader SnapshotKind_Full 5 1 (MilestoneIndex_new 6) (MilestoneIndex_new 6).
Definition full_6 : FullSnapshotHeader := mkFullSnapshotHeader 0 1 0 (MilestoneId_new (repeat Byte.x00 32)) (IOTA_SUPPLY - 10000000).
Definition body_6 : bytes :=
  pack MessageId_packable (created_message_id (out Byte.x01 10000000)) ++ pack OutputId_packable (id Byte.x01)
  ++ pack Output_packable (created_inner (out Byte.x01 10000000)).
Definition import_6 :=
  import_full_snapshot 1 Storage_new (pack SnapshotHeader_packable header_6 ++ pack FullSnapshotHeader_packable full_6 ++ body_6).

Lemma Storage_new_healthy : healthy Storage_new.
Proof. split; [done|]. repeat split; by intros ? ? ?. Qed.

Lemma import_6_ok : exists s rest, import_6 = (s, Ok (tt, rest)) /\ validate_ledger_state s = Ok tt.
Proof.
  assert (Hok : is_ok import_6.2 && is_ok (validate_ledger_state import_6.1) = true) by (vm_compute; reflexivity).
  destruct import_6 as [s [[[] rest]|e]]; [|discriminate Hok]. cbn [fst snd is_ok andb] in Hok. exists s, rest. split; [reflexivity|].
  destruct (validate_ledger_state s) as [[]|e]; [reflexivity | discriminate Hok].
Qed.

Lemma import_full_consistent_witness : exists s rest, import_6 = (s, Ok (tt, rest)) /\ ledger_inv (tables s) /\ rest = [].
Proof.
  destruct import_6_ok as (s & rest & Hi & Hv). exists s, rest. split; [exact Hi|].
  pose proof (import_full_consistent Storage_new 1 header_6 full_6 body_6 s tt rest Storage_new_healthy) as Himp.
  fold import_6 in Himp. destruct Himp as (_ & Hinv & _ & _ & Hr); [ | reflexivity | | | reflexivity | exact Hi | exact Hv|].
  - repeat split.
  - vm_compute. intuition congruence.
  - vm_compute. intuition congruence.
  - split; [exact Hinv | exact Hr].
Defined.

(** A delta snapshot with the milestone that moves the output to another owner. *)
Definition diff_7 : MilestoneDiff := mkMilestoneDiff Snapshot.Examples.sample_milestone None created_7 consumed_7.

(** Its bytes: the milestone with its length, and the output that is created and the one that is consumed. *)
Definition delta_7 : bytes :=
  pack u32 (milestone_packed_len Snapshot.Examples.sample_milestone + 4)
  ++ pack Payload_packable (Payload_Milestone Snapshot.Examples.sample_milestone)
  ++ pack u64 1 ++ mjoin ((fun '(i, c) => pack MessageId_packable (created_message_id c) ++ pack OutputId_packable i
                             ++ pack Output_packable (created_inner c)) <$> map_to_list created_7)
  ++ pack u64 1 ++ mjoin ((fun '(i, (c, x)) => pack MessageId_packable (created_message_id c) ++ pack OutputId_packable i
                             ++ pack Output_packable (created_inner c) ++ pack TransactionId_packable (consumed_target x)) <$> map_to_list consumed_7).

Lemma delta_7_reads : read_n MilestoneDiff_unpack 1 delta_7 = Ok ([diff_7], []).
Proof. vm_compute. reflexivity. Qed.

Lemma diff_7_valid : valid_diff (tables storage_6) diff_7 None.
Proof.
  rewrite storage_6_tables. destruct valid_7 as [Hf Hc Hx _ Hs]. split; [exact Hf | exact Hc | exact Hx | exact Hs].
Qed.

Lemma diff_7_balances : exists diffs, milestone_balance_diffs diff_7 = Ok diffs.
Proof.
  assert (Hok : is_ok (milestone_balance_diffs diff_7) = true) by (vm_compute; reflexivity).
  destruct (milestone_balance_diffs diff_7) as [diffs|e]; [by exists diffs | discriminate Hok].
Qed.

Lemma import_diffs_apply_witness :
  exists s tb', import_milestone_diffs 1 storage_6 delta_7 = (s, Ok (tt, []))
    /\ tables s = tb' /\ ledger_inv tb' /\ diff_chain (tables storage_6) [diff_7] tb'.
Proof.
  destruct diff_7_balances as [diffs Hd].
  assert (Hc : diff_chain (tables storage_6) [diff_7] (applied seven created_7 consumed_7 diffs None (tables storage_6))).
  { eapply (chain_cons _ 6 diff_7 [] diffs None); [|lia|reflexivity|exact Hd|reflexivity|exact diff_7_valid|apply chain_nil].
    rewrite storage_6_tables. cbn [tables_6 t_index]. by rewrite lookup_singleton_eq. }
  destruct (import_diffs_apply storage_6 [diff_7] _ delta_7 [] storage_6_healthy storage_6_inv delta_7_reads Hc) as (s & Hs & _ & Ht & Hinv).
  exists s, (applied seven created_7 consumed_7 diffs None (tables storage_6)).
  split; [exact Hs|]. split; [exact Ht|]. split; [exact Hinv | exact Hc].
Defined.
End Examples.
