(* ===== verification/PruningCone.v ===== *)
(** * What pruning deletes

    The traversal of [prune_confirmed_data] against the tables of the storage: which messages it visits, what its batch
    deletes, and which entry points it leaves. *)

From S2P Require Import Prelude External MessageTypes Payload PayloadKeys Message TangleTypes LedgerTypes.
From S2P Require Import Vertices Storage StorageTables StorageMemory Tangle TangleCache LedgerStorage Pruning Ledger.

Local Open Scope Z_scope.

(** ** Deleted messages *)

Definition message_at (t : LedgerTables) (id : MessageId) : option Message := t_message (t_node t) !! id.
Definition metadata_at (t : LedgerTables) (id : MessageId) : option MessageMetadata := t_metadata (t_node t) !! id.
Definition parents_of (m : Message) : list MessageId := parents_inner (message_parents m).

(** The index at which a message was confirmed. *)
Definition confirmed_at (t : LedgerTables) (id : MessageId) : option Z :=
  metadata_at t id ≫= fun md => milestone_index <$> metadata_milestone_index md.

(** The effect of the deletions of one message. *)
Definition del_edges (id : MessageId) (m : Message) : LedgerTables -> LedgerTables :=
  run_effects (fun p => delete_table unit (p, id)) (parents_of m).
Definition del_indexation (id : MessageId) (m : Message) (t : LedgerTables) : LedgerTables :=
  match unwrap_indexation (message_payload m) with
  | Some i => delete_table unit (padded_index i, id) t
  | None => t
  end.
Definition del_message (id : MessageId) (t : LedgerTables) : LedgerTables :=
  delete_table MessageMetadata id (delete_table Message id t).

(** The message is recorded as unreferenced since the milestone [index]. *)
Definition listed_at (t : LedgerTables) (index : MilestoneIndex) (id : MessageId) : Prop :=
  t_unreferenced (t_node t) !! (index, UnreferencedMessage_new id) = Some tt.

(** [t'] is [t] without the messages [V], whose parents are those of [tb]. *)
Record deleted (tb : LedgerTables) (V : gset MessageId) (t t' : LedgerTables) : Prop := {
  del_ledger : t' = set_field (t_node t') t;
  del_at id : message_at t' id = if decide (id ∈ V) then None else message_at t id;
  del_meta id : metadata_at t' id = if decide (id ∈ V) then None else metadata_at t id;
  del_edge p c : edge t' p c <-> edge t p c /\ ~ (c ∈ V /\ exists m, message_at tb c = Some m /\ p ∈ parents_of m);
  del_milestone : t_milestone (t_node t') = t_milestone (t_node t);
  del_sep : t_sep (t_node t') = t_sep (t_node t);
  del_listed index id : listed_at t' index id -> listed_at t index id;
  del_unlisted index id : listed_at t index id -> listed_at t' index id \/ id ∈ V;
}.

Lemma deleted_refl tb t : deleted tb ∅ t t.
Proof. split; [by destruct t | intros id; by rewrite decide_False by set_solver.. | set_solver | done | done | done | by left]. Qed.

(** The other tables of the node do not matter. *)
Lemma deleted_indexation tb V t t' k : deleted tb V t t' -> deleted tb V t (delete_table unit (k : PaddedIndex * MessageId) t').
Proof.
  intros [Hl Hm Hd He Hs Hp Hu Hv]. rewrite Hl in *. destruct t as [? ? ? ? ? ? ? ? ? ? []], (t_node t') as [].
  by split.
Qed.
Lemma listed_delete index id t index' id' :
  listed_at (delete_table unit (index, UnreferencedMessage_new id) t) index' id' <-> listed_at t index' id' /\ ~ (index = index' /\ id = id').
Proof.
  unfold listed_at. destruct t as [? ? ? ? ? ? ? ? ? ? []]. unfold delete_table. cbn. rewrite lookup_delete_Some. naive_solver.
Qed.
Lemma deleted_unreferenced tb V t t' index id :
  id ∈ V -> deleted tb V t t' -> deleted tb V t (delete_table unit (index, UnreferencedMessage_new id) t').
Proof.
  intros Hid [Hl Hm Hd He Hs Hp Hu Hv]. assert (Hk : forall i x, listed_at (delete_table unit (index, UnreferencedMessage_new id) t') i x
    <-> listed_at t' i x /\ ~ (index = i /\ id = x)) by apply listed_delete.
  split; [..| intros i x [? _]%Hk; by apply Hu|].
  1-6: clear Hk Hu Hv; rewrite Hl in *; destruct t as [? ? ? ? ? ? ? ? ? ? []], (t_node t') as []; done.
  intros i x Hx. rewrite Hk. destruct (Hv i x Hx) as [?|?]; [|by right]. destruct (decide (id = x)) as [<-|]; [by right | left; tauto].
Qed.

Lemma edge_delete p c t p' c' : edge (delete_table unit (p, c) t) p' c' <-> edge t p' c' /\ (p, c) <> (p', c').
Proof.
  unfold edge. destruct t as [? ? ? ? ? ? ? ? ? ? []]. unfold delete_table. cbn. rewrite lookup_delete_Some. naive_solver.
Qed.

Lemma del_edges_node id m t :
  del_edges id m t = set_field (t_node (del_edges id m t)) t
  /\ (forall i, message_at (del_edges id m t) i = message_at t i) /\ (forall i, metadata_at (del_edges id m t) i = metadata_at t i)
  /\ t_milestone (t_node (del_edges id m t)) = t_milestone (t_node t) /\ t_sep (t_node (del_edges id m t)) = t_sep (t_node t)
  /\ t_unreferenced (t_node (del_edges id m t)) = t_unreferenced (t_node t)
  /\ forall p c, edge (del_edges id m t) p c <-> edge t p c /\ ~ (c = id /\ p ∈ parents_of m).
Proof.
  unfold del_edges, run_effects. revert t. induction (parents_of m) as [|q l IH]; intros t; cbn [foldl].
  - split_and!; [by destruct t | done..|]. intros p c. rewrite elem_of_nil. naive_solver.
  - destruct (IH (delete_table unit (q, id) t)) as (Hl & Hm & Hd & Hs & Hp & Hu & He). split_and!.
    + rewrite Hl. by destruct t as [? ? ? ? ? ? ? ? ? ? []].
    + intros i. rewrite Hm. by destruct t as [? ? ? ? ? ? ? ? ? ? []].
    + intros i. rewrite Hd. by destruct t as [? ? ? ? ? ? ? ? ? ? []].
    + rewrite Hs. by destruct t as [? ? ? ? ? ? ? ? ? ? []].
    + rewrite Hp. by destruct t as [? ? ? ? ? ? ? ? ? ? []].
    + rewrite Hu. by destruct t as [? ? ? ? ? ? ? ? ? ? []].
    + intros p c. rewrite He, edge_delete, elem_of_cons. naive_solver.
Qed.

Lemma del_message_node id t :
  del_message id t = set_field (t_node (del_message id t)) t
  /\ (forall i, message_at (del_message id t) i = if decide (id = i) then None else message_at t i)
  /\ (forall i, metadata_at (del_message id t) i = if decide (id = i) then None else metadata_at t i)
  /\ t_milestone (t_node (del_message id t)) = t_milestone (t_node t) /\ t_sep (t_node (del_message id t)) = t_sep (t_node t)
  /\ t_unreferenced (t_node (del_message id t)) = t_unreferenced (t_node t)
  /\ forall p c, edge (del_message id t) p c <-> edge t p c.
Proof.
  unfold del_message, delete_table, message_at, metadata_at, edge. destruct t as [? ? ? ? ? ? ? ? ? ? []]. cbn.
  split_and!; [done| | |done..]; intros i; case_decide as Hi; subst; by rewrite ?lookup_delete_eq, ?lookup_delete_ne.
Qed.

Lemma decide_visited {A} (V : gset MessageId) id i (x : option A) :
  (if decide (id = i) then None else if decide (i ∈ V) then None else x) = if decide (i ∈ {[id]} ∪ V) then None else x.
Proof. repeat case_decide; set_solver. Qed.

Lemma decide_union {A} (U V : gset MessageId) i (x : option A) :
  (if decide (i ∈ U) then None else if decide (i ∈ V) then None else x) = if decide (i ∈ U ∪ V) then None else x.
Proof. repeat case_decide; set_solver. Qed.

(** Deleting one more message, in the order of the code. *)
Lemma deleted_edges_message tb V t t' id m :
  message_at tb id = Some m -> deleted tb V t t' -> deleted tb ({[id]} ∪ V) t (del_message id (del_edges id m t')).
Proof.
  intros Hid [Hl Hm Hd He Hs Hp Hu Hv]. destruct (del_edges_node id m t') as (El & Em & Ed & Es & Ep & Eu & Ee).
  destruct (del_message_node id (del_edges id m t')) as (Ml & Mm & Md & Ms & Mp & Mu & Me). split.
  - rewrite Ml, El, Hl. by destruct t.
  - intros i. rewrite Mm, Em, Hm. apply decide_visited.
  - intros i. rewrite Md, Ed, Hd. apply decide_visited.
  - intros p c. rewrite Me, Ee, He, elem_of_union, elem_of_singleton. naive_solver.
  - by rewrite Ms, Es.
  - by rewrite Mp, Ep.
  - intros i x. unfold listed_at at 1. rewrite Mu, Eu. apply Hu.
  - intros i x Hx. unfold listed_at at 1. rewrite Mu, Eu. destruct (Hv i x Hx); [by left | right; set_solver].
Qed.

Lemma deleted_message_edges tb V t t' id m :
  message_at tb id = Some m -> deleted tb V t t' -> deleted tb ({[id]} ∪ V) t (del_edges id m (del_message id t')).
Proof.
  intros Hid [Hl Hm Hd He Hs Hp Hu Hv]. destruct (del_message_node id t') as (Ml & Mm & Md & Ms & Mp & Mu & Me).
  destruct (del_edges_node id m (del_message id t')) as (El & Em & Ed & Es & Ep & Eu & Ee). split.
  - rewrite El, Ml, Hl. by destruct t.
  - intros i. rewrite Em, Mm, Hm. apply decide_visited.
  - intros i. rewrite Ed, Md, Hd. apply decide_visited.
  - intros p c. rewrite Ee, Me, He, elem_of_union, elem_of_singleton. naive_solver.
  - by rewrite Es, Ms.
  - by rewrite Ep, Mp.
  - intros i x. unfold listed_at at 1. rewrite Eu, Mu. apply Hu.
  - intros i x Hx. unfold listed_at at 1. rewrite Eu, Mu. destruct (Hv i x Hx); [by left | right; set_solver].
Qed.

(** ** The traversal *)

Section cone.
Context `{Bitflags} `{LedgerBackendOk B}.
Context (s : B) (Hs : healthy s) (index : MilestoneIndex) (threshold : Z) (seps : gmap SolidEntryPoint MilestoneIndex).
Implicit Types (id p c root : MessageId) (cone : PruneCone (B := B)) (cache : gmap MessageId MilestoneIndex).

Abbreviation tb := (tables s).
Definition is_sep id : Prop := is_Some (seps !! SolidEntryPoint_new id).

(** The index the traversal takes for an approver. *)
Definition conf_index (md : MessageMetadata) : MilestoneIndex :=
  default (MilestoneIndex_add_u32 index threshold) (metadata_milestone_index md).

(** The messages the traversal meets. *)
Inductive cone_reach root : MessageId -> Prop :=
| reach_root : cone_reach root root
| reach_parent id m p : cone_reach root id -> ~ is_sep id -> message_at tb id = Some m -> p ∈ parents_of m -> cone_reach root p.

Definition cache_sound cache : Prop :=
  forall c k, cache !! c = Some k -> exists md, metadata_at tb c = Some md /\ k = conf_index md.

Lemma fetch_message_at id : fetch Message s id = Ok (message_at tb id).
Proof. by rewrite fetch_ok. Qed.
Lemma fetch_metadata_at id : fetch MessageMetadata s id = Ok (metadata_at tb id).
Proof. by rewrite fetch_ok. Qed.
Lemma fetch_edges_at id :
  exists l, fetch (list MessageId) s id = Ok (Some l) /\ (forall c, c ∈ l -> edge tb id c)
    /\ (within (edge_limit B) (edge tb id) -> forall c, edge tb id c -> c ∈ l).
Proof. destruct (fetch_limited (K := MessageId) (V := MessageId) s id Hs) as (l & Hl & _ & He). by exists l. Qed.

Lemma approver_conf_spec cache c :
  cache_sound cache ->
  match approver_conf_index s index threshold cache c with
  | Ok (k, cache') => cache_sound cache' /\ exists md, metadata_at tb c = Some md /\ k = conf_index md
  | Err e => e = MissingMetadata c /\ metadata_at tb c = None
  end.
Proof.
  intros Hc. unfold approver_conf_index. destruct (cache !! c) as [k|] eqn:Hk; [by split; [|apply Hc]|].
  rewrite fetch_metadata_at. cbn. destruct (metadata_at tb c) as [md|] eqn:Hm; cbn; [|done]. split; [|by exists md].
  intros c' k [[<- <-]|[_ ?]]%lookup_insert_Some; [by exists md | by apply Hc].
Qed.

(** The greatest index of the approvers. *)
Lemma max_conf_spec cache l :
  cache_sound cache ->
  match max_conf_index s index threshold cache l with
  | Ok (k, cache') =>
      cache_sound cache' /\ milestone_index index <= k
      /\ (forall c, c ∈ l -> exists md, metadata_at tb c = Some md /\ milestone_index (conf_index md) <= k)
      /\ (k = milestone_index index \/ exists c md, c ∈ l /\ metadata_at tb c = Some md /\ k = milestone_index (conf_index md))
  | Err e => exists c, c ∈ l /\ e = MissingMetadata c /\ metadata_at tb c = None
  end.
Proof.
  unfold max_conf_index. generalize (milestone_index index) as k. revert cache. induction l as [|c l IH]; intros cache k Hc; cbn [try_fold].
  { split_and!; [done | lia | by intros c ?%not_elem_of_nil | by left]. }
  pose proof (approver_conf_spec cache c Hc) as Ha. destruct (approver_conf_index s index threshold cache c) as [[k1 cache1]|e]; cbn [result_bind].
  2: { destruct Ha as [-> Hn]. exists c. split; [left | done]. }
  destruct Ha as (Hc1 & md & Hmd & ->). specialize (IH cache1 (Z.max k (milestone_index (conf_index md))) Hc1).
  destruct (try_fold _ _ l) as [[k2 cache2]|e].
  - destruct IH as (Hc2 & Hle & Hall & Hex). split_and!; [done | lia| |].
    + intros c' [->|Hc']%elem_of_cons; [|by apply Hall]. exists md. split; [done | lia].
    + destruct Hex as [->|(c' & md' & Hc' & Hmd' & ->)]; [|right; exists c', md'; split; [by right | done]].
      destruct (Z.max_spec k (milestone_index (conf_index md))) as [[_ ->]|[_ ->]]; [|by left].
      right. exists c, md. split; [left | done].
  - destruct IH as (c' & Hc' & ?). exists c'. split; [by right | done].
Qed.

(** What the state says about the messages visited so far. *)
Record cone_inv root (b0 : storage_batch B) (queue : list MessageId) cone : Prop := {
  ci_stored id : id ∈ cone_visited cone -> is_Some (message_at tb id);
  ci_sep id : id ∈ cone_visited cone -> ~ is_sep id;
  ci_closed id m p : id ∈ cone_visited cone -> message_at tb id = Some m -> p ∈ parents_of m ->
    p ∈ cone_visited cone \/ is_sep p \/ p ∈ queue;
  ci_root : root ∈ cone_visited cone \/ is_sep root \/ root ∈ queue;
  ci_reach id : id ∈ cone_visited cone \/ id ∈ queue -> cone_reach root id;
  ci_batch t : deleted tb (cone_visited cone) (pending b0 t) (pending (cone_batch cone) t);
  ci_cache : cache_sound (cone_approvers cone);
  ci_new id c md : id ∈ cone_visited cone -> within (edge_limit B) (edge tb id) -> edge tb id c -> c ∉ cone_visited cone -> metadata_at tb c = Some md ->
    milestone_index index < milestone_index (conf_index md) ->
    exists k, cone_seps cone !! SolidEntryPoint_new id = Some k /\ milestone_index (conf_index md) <= milestone_index k;
  ci_seps id k : cone_seps cone !! SolidEntryPoint_new id = Some k ->
    id ∈ cone_visited cone /\ milestone_index index < milestone_index k
    /\ exists c md, edge tb id c /\ metadata_at tb c = Some md /\ milestone_index k = milestone_index (conf_index md);
}.

Lemma cone_inv_start root b0 : cone_inv root b0 [root] (mkPruneCone ∅ ∅ ∅ b0).
Proof.
  split; cbn; [set_solver..| | | | | |].
  - right. right. left.
  - intros id [?|Hr]; [set_solver|]. apply list_elem_of_singleton in Hr as ->. constructor.
  - intros t. apply deleted_refl.
  - intros c k Hk. by rewrite lookup_empty in Hk.
  - set_solver.
  - intros id k Hk. by rewrite lookup_empty in Hk.
Qed.

(** A message that is not visited again. *)
Lemma cone_inv_skip root b0 id queue cone :
  cone_inv root b0 (id :: queue) cone -> id ∈ cone_visited cone \/ is_sep id -> cone_inv root b0 queue cone.
Proof.
  intros [? ? Hc Hr Hre ? ? ? ?] Hid. split; [done | done| | | |done..].
  - intros i m p Hi Hm Hp. destruct (Hc i m p Hi Hm Hp) as [?|[?|[->|?]%elem_of_cons]]; tauto.
  - destruct Hr as [?|[?|[->|?]%elem_of_cons]]; tauto.
  - intros i Hi. apply Hre. set_solver.
Qed.

Lemma does_prune `{Countable K} V `{!Batch B K V} `{!Field LedgerTables (gmap K V)} `{!BatchOk B K V} b k :
  batch_does (pruning_result (batch_delete V s b k)) b (delete_table V k).
Proof. by apply does_delete_with. Qed.
Lemma does_prune_indexation b id m : batch_does (prune_indexation s b id m) b (del_indexation id m).
Proof. unfold prune_indexation, del_indexation. destruct (unwrap_indexation _); [apply does_prune; apply _ | apply does_ret]. Qed.
Lemma does_prune_edges b id m : batch_does (prune_edges s b id m) b (del_edges id m).
Proof. apply does_fold. intros b2 p _. apply does_prune; apply _. Qed.
Lemma does_prune_message b id : batch_does (prune_message_and_metadata s b id) b (del_message id).
Proof.
  apply (does_bind _ _ (delete_table Message id) _ (delete_table MessageMetadata id)); [apply does_prune; apply _|].
  intros b3. apply does_prune; apply _.
Qed.

(** The batch of a visited message. *)
Lemma visit_batch b id m :
  exists b', (let? b := prune_indexation s b id m in let? b := prune_edges s b id m in prune_message_and_metadata s b id) = Ok b'
    /\ forall t, pending b' t = del_message id (del_edges id m (del_indexation id m (pending b t))).
Proof.
  apply (does_bind _ _ (del_indexation id m) _ (fun t => del_message id (del_edges id m t))); [apply does_prune_indexation|].
  intros b1. apply (does_bind _ _ (del_edges id m) _ (del_message id)); [apply does_prune_edges|].
  intros b2. apply does_prune_message.
Qed.

(** Visiting a message once. *)
Lemma cone_inv_visit root b0 id m queue cone cache new b' :
  cone_inv root b0 (id :: queue) cone -> id ∉ cone_visited cone -> ~ is_sep id -> message_at tb id = Some m ->
  (forall t, pending b' t = del_message id (del_edges id m (del_indexation id m (pending (cone_batch cone) t)))) ->
  cache_sound cache ->
  (forall c md, within (edge_limit B) (edge tb id) -> edge tb id c -> c ∉ {[id]} ∪ cone_visited cone -> metadata_at tb c = Some md ->
     milestone_index index < milestone_index (conf_index md) ->
     exists k, new !! SolidEntryPoint_new id = Some k /\ milestone_index (conf_index md) <= milestone_index k) ->
  (forall k, new !! SolidEntryPoint_new id = Some k -> milestone_index index < milestone_index k
     /\ exists c md, edge tb id c /\ metadata_at tb c = Some md /\ milestone_index k = milestone_index (conf_index md)) ->
  (forall i, i <> id -> new !! SolidEntryPoint_new i = cone_seps cone !! SolidEntryPoint_new i) ->
  cone_inv root b0 (queue ++ parents_of m) (mkPruneCone ({[id]} ∪ cone_visited cone) cache new b').
Proof.
  intros [Hst Hse Hcl Hro Hre Hba Hca Hne Hsp] Hnv Hns Hm Hb Hcs Hnew Hup Hold. split; cbn.
  - intros i [->%elem_of_singleton|?]%elem_of_union; [by eexists | by apply Hst].
  - intros i [->%elem_of_singleton|?]%elem_of_union; [done | by apply Hse].
  - intros i mi p [->%elem_of_singleton|Hi]%elem_of_union Hmi Hp; [rewrite Hm in Hmi; injection Hmi as <-; set_solver|].
    destruct (Hcl i mi p Hi Hmi Hp) as [?|[?|[->|?]%elem_of_cons]]; set_solver.
  - destruct Hro as [?|[?|[->|?]%elem_of_cons]]; set_solver.
  - intros i Hi. assert (Hid : cone_reach root id) by (apply Hre; set_solver).
    destruct (decide (i ∈ parents_of m)) as [Hp|Hp]; [by eapply reach_parent|]. apply Hre. set_solver.
  - intros t. rewrite Hb. apply deleted_edges_message; [done|]. unfold del_indexation.
    destruct (unwrap_indexation _); [apply deleted_indexation|]; apply Hba.
  - done.
  - intros i c md [->%elem_of_singleton|Hi]%elem_of_union Hw He Hc Hmd Hlt; [by eapply Hnew|].
    assert (i <> id) by (intros ->; done). rewrite Hold by done. eapply Hne; [done..| |done|done]. set_solver.
  - intros i k Hk. destruct (decide (i = id)) as [->|Hi]; [split; [set_solver | by apply Hup]|].
    rewrite Hold in Hk by done. destruct (Hsp i k Hk) as (? & ? & ?). split; [set_solver | done].
Qed.

(** One iteration of the loop. *)
Lemma prune_visit_spec root b0 id queue cone :
  cone_inv root b0 (id :: queue) cone ->
  match prune_visit s index threshold seps id cone with
  | Ok (cone', ps) =>
      cone_inv root b0 (queue ++ ps) cone'
      /\ ((cone' = cone /\ ps = [])
          \/ ((id ∉ cone_visited cone) /\ cone_visited cone' = {[id]} ∪ cone_visited cone
              /\ exists m, message_at tb id = Some m /\ ps = parents_of m))
  | Err e =>
      cone_reach root id /\ ~ is_sep id
      /\ (e = Pruning_MissingMessage id /\ message_at tb id = None
          \/ exists c, e = MissingMetadata c /\ is_Some (message_at tb id) /\ edge tb id c /\ metadata_at tb c = None)
  end.
Proof.
  intros Hi. unfold prune_visit. case_bool_decide as Hv.
  { rewrite app_nil_r. split; [|by left]. apply (cone_inv_skip _ _ id); tauto. }
  case_bool_decide as Hsep.
  { rewrite app_nil_r. split; [|by left]. apply (cone_inv_skip _ _ id); [done|]. by right. }
  assert (Hr : cone_reach root id) by (apply (ci_reach _ _ _ _ Hi); right; left).
  rewrite fetch_message_at. cbn [pruning_result map_err result_bind].
  destruct (message_at tb id) as [m|] eqn:Hm; cbn [ok_or result_bind]; [|split_and!; [done..|by left]].
  destruct (visit_batch (cone_batch cone) id m) as (b' & Hb & Hp).
  destruct (prune_indexation s (cone_batch cone) id m) as [b1|] eqn:E1; [|done]. cbn [result_bind] in *.
  destruct (prune_edges s b1 id m) as [b2|] eqn:E2; [|done]. cbn [result_bind] in *. rewrite Hb. cbn [result_bind].
  destruct (fetch_edges_at id) as (l & -> & Hl & Hall). cbn [pruning_result map_err result_bind ok_or].
  set (V := {[id]} ∪ cone_visited cone). set (un := filter (fun i => i ∉ V) l).
  assert (Hun : forall c, c ∈ un -> edge tb id c) by (intros c [_ ?]%list_elem_of_filter; by apply Hl).
  assert (Hun' : within (edge_limit B) (edge tb id) -> forall c, edge tb id c -> c ∉ V -> c ∈ un)
    by (intros Hw c He Hc; apply list_elem_of_filter; split; [done | by apply Hall]).
  pose proof (max_conf_spec (cone_approvers cone) un (ci_cache _ _ _ _ Hi)) as Hmax.
  assert (Hnone : cone_seps cone !! SolidEntryPoint_new id = None).
  { destruct (cone_seps cone !! SolidEntryPoint_new id) eqn:E; [|done]. by apply (ci_seps _ _ _ _ Hi) in E as [? _]. }
  destruct un as [|u un'] eqn:Eun.
  - split; [|right; split_and!; [done..|by exists m]]. eapply cone_inv_visit; try done.
    + apply (ci_cache _ _ _ _ Hi).
    + intros c md Hw He Hc. assert (c ∈ []) as ?%not_elem_of_nil by by apply Hun'. done.
    + intros k Hk. congruence.
  - destruct (max_conf_index s index threshold (cone_approvers cone) (u :: un')) as [[k cache]|e]; cbn [result_bind].
    2: { destruct Hmax as (c & Hc & -> & Hmc). split_and!; [done..|]. right. exists c. apply Hun in Hc. by split_and!. }
    destruct Hmax as (Hcs & Hle & Hmx & Hex).
    split; [|right; split_and!; [done..|by exists m]]. eapply cone_inv_visit; try done.
    + intros c md Hw He Hc Hmd Hlt. destruct (Hmx c) as (md' & Hmd' & Hk); [by apply Hun'|]. rewrite Hmd in Hmd'. injection Hmd' as <-.
      assert ((milestone_index index <? k) = true) as -> by lia. rewrite lookup_insert_eq. by eexists.
    + intros k' Hk'. destruct (Z.ltb_spec (milestone_index index) k) as [Hlt|Hge]; [|congruence].
      rewrite lookup_insert_eq in Hk'. injection Hk' as <-. split; [done|].
      destruct Hex as [->|(c & md & Hc & Hmd & ->)]; [lia|]. apply Hun in Hc. by exists c, md.
    + intros i Hne. destruct (milestone_index index <? k); [|done]. rewrite lookup_insert_ne; congruence.
Qed.

(** What the traversal from [root] finds: the messages behind it up to the entry points. *)
Record cone_found root (b0 : storage_batch B) cone : Prop := {
  cf_visited id : id ∈ cone_visited cone <-> cone_reach root id /\ ~ is_sep id;
  cf_stored id : id ∈ cone_visited cone -> is_Some (message_at tb id);
  cf_batch t : deleted tb (cone_visited cone) (pending b0 t) (pending (cone_batch cone) t);
  cf_new id c md : id ∈ cone_visited cone -> within (edge_limit B) (edge tb id) -> edge tb id c -> c ∉ cone_visited cone -> metadata_at tb c = Some md ->
    milestone_index index < milestone_index (conf_index md) ->
    exists k, cone_seps cone !! SolidEntryPoint_new id = Some k /\ milestone_index (conf_index md) <= milestone_index k;
  cf_seps id k : cone_seps cone !! SolidEntryPoint_new id = Some k ->
    id ∈ cone_visited cone /\ milestone_index index < milestone_index k
    /\ exists c md, edge tb id c /\ metadata_at tb c = Some md /\ milestone_index k = milestone_index (conf_index md);
}.

Lemma cone_inv_found root b0 cone : cone_inv root b0 [] cone -> cone_found root b0 cone.
Proof.
  intros [Hst Hse Hcl Hro Hre Hba Hca Hne Hsp]. split; [|done..]. intros id. split; [by intros Hi; split; [apply Hre; left | apply Hse]|].
  intros [Hr Hns]. induction Hr as [|i m p Hr IH Hi Hm Hp]; [set_solver|].
  destruct (Hcl i m p (IH Hi) Hm Hp) as [?|[?|?%not_elem_of_nil]]; done.
Qed.

(** What stops the traversal. *)
Definition cone_error root (e : PruningError) : Prop :=
  exists id, cone_reach root id /\ ~ is_sep id
    /\ ((e = Pruning_MissingMessage id /\ message_at tb id = None)
        \/ exists c, e = MissingMetadata c /\ is_Some (message_at tb id) /\ edge tb id c /\ metadata_at tb c = None).

Lemma prune_traverse_spec root b0 fuel queue cone r :
  cone_inv root b0 queue cone -> prune_traverse fuel s index threshold seps queue cone = Some r ->
  match r with Ok cone' => cone_found root b0 cone' | Err e => cone_error root e end.
Proof.
  revert queue cone. induction fuel as [|fuel IH]; intros [|id queue] cone Hi; cbn [prune_traverse]; try done;
    [by intros [= <-]; apply cone_inv_found..|].
  pose proof (prune_visit_spec root b0 id queue cone Hi) as Hv.
  destruct (prune_visit s index threshold seps id cone) as [[cone' ps]|e]; [apply IH, Hv | intros [= <-]; by exists id].
Qed.

(** *** Termination *)

(** The number of iterations is bounded by the parents of the messages that were not visited. *)
Definition cone_weight (V : gset MessageId) (queue : list MessageId) : Z :=
  len queue + sum_map (fun m => len (parents_of m)) (filter (fun e => e.1 ∉ V) (t_message (t_node tb))).

Lemma cone_weight_visit V queue id m :
  id ∉ V -> message_at tb id = Some m -> cone_weight V queue = cone_weight ({[id]} ∪ V) (queue ++ parents_of m).
Proof.
  intros Hid Hm. unfold cone_weight, len. rewrite length_app.
  assert (He : filter (fun e : MessageId * Message => e.1 ∉ V) (t_message (t_node tb))
    = <[id := m]> (filter (fun e : MessageId * Message => e.1 ∉ {[id]} ∪ V) (t_message (t_node tb)))).
  { apply map_eq. intros i. apply option_eq. intros x. rewrite lookup_insert_Some, !map_lookup_filter_Some. cbn.
    destruct (decide (id = i)) as [<-|Hne]; [unfold message_at in Hm; naive_solver | set_solver]. }
  rewrite He, sum_map_insert; [unfold len; lia|]. apply map_lookup_filter_None. right. intros x _. cbn. set_solver.
Qed.

Lemma cone_weight_nonneg V queue : len queue <= cone_weight V queue.
Proof.
  unfold cone_weight. assert (0 <= sum_map (fun m => len (parents_of m)) (filter (fun e => e.1 ∉ V) (t_message (t_node tb)))); [|lia].
  apply sum_map_nonneg. intros k x _. unfold len. lia.
Qed.

Lemma prune_traverse_ends root b0 fuel queue cone :
  cone_inv root b0 queue cone -> cone_weight (cone_visited cone) queue <= Z.of_nat fuel ->
  is_Some (prune_traverse fuel s index threshold seps queue cone).
Proof.
  revert queue cone. induction fuel as [|fuel IH]; intros queue cone Hi Hw.
  { pose proof (cone_weight_nonneg (cone_visited cone) queue). destruct queue; [by eexists | unfold len in *; cbn in *; lia]. }
  destruct queue as [|id queue]; [by eexists|]. cbn [prune_traverse].
  pose proof (prune_visit_spec root b0 id queue cone Hi) as Hv.
  destruct (prune_visit s index threshold seps id cone) as [[cone' ps]|e]; [|by eexists].
  destruct Hv as [Hi' Hps]. apply IH; [done|]. destruct Hps as [[-> ->]|(Hid & Hvis & m & Hm & ->)].
  - rewrite app_nil_r. unfold cone_weight, len in *. cbn in *. lia.
  - rewrite Hvis, <- cone_weight_visit by done. unfold cone_weight, len in *. cbn in *. lia.
Qed.
End cone.
