(* ===== verification/PruningLedger.v ===== *)
(** * Pruning keeps the ledger

    The whole of [prune] against the tables of the storage: what an iteration of its loop deletes, that it cannot fail on
    a storage whose confirmed messages are complete, and that the ledger stays what it is. *)

From S2P Require Import Prelude External MessageTypes Payload PayloadKeys PayloadCodec Message TangleTypes LedgerTypes.
From S2P Require Import StorageSystem Vertices Storage StorageTables StorageMemory Tangle TangleCache LedgerStorage Pruning.
From S2P Require Import Ledger Merkle WhiteFlag WhiteFlagOrder WhiteFlagLedger Confirm ConfirmLedger PruningCone.

Local Open Scope Z_scope.

Lemma deleted_trans tb U V t t' t'' : deleted tb V t t' -> deleted tb U t' t'' -> deleted tb (U ∪ V) t t''.
Proof.
  intros [Hl Hm Hd He Hs Hp Hu Hv] [Hl' Hm' Hd' He' Hs' Hp' Hu' Hv']. split; [| | | |congruence|congruence|by eauto|].
  - rewrite Hl', Hl. by destruct t.
  - intros id. rewrite Hm', Hm. apply decide_union.
  - intros id. rewrite Hd', Hd. apply decide_union.
  - intros p c. rewrite He', He, elem_of_union. naive_solver.
  - intros i id Hid. destruct (Hv i id Hid) as [Hid'|?]; [|right; set_solver]. destruct (Hv' i id Hid'); [by left | right; set_solver].
Qed.

(** ** Unconfirmed messages *)

Definition unconfirmed `{Bitflags} (t : LedgerTables) (id : MessageId) : Prop :=
  exists md, metadata_at t id = Some md /\ is_referenced (metadata_flags md) = false.

(** No child of the message was referenced. *)
Definition no_confirmed_child `{Bitflags} (t : LedgerTables) (id : MessageId) : Prop :=
  forall c md, edge t id c -> metadata_at t c = Some md -> is_referenced (metadata_flags md) = false.

Section parts.
Context `{BitflagsOk} `{HashOrderOk} `{LedgerBackendOk B}.
Context (s : B) (Hs : healthy s) (index : MilestoneIndex).
Implicit Types (id p c : MessageId) (b : storage_batch B).

Abbreviation tb := (tables s).

Lemma any_referenced_Ok l :
  exists r, any_referenced s l = Ok r
    /\ (r = true -> exists c md, c ∈ l /\ metadata_at tb c = Some md /\ is_referenced (metadata_flags md) = true).
Proof.
  induction l as [|id l (r & IH & Hr)]; cbn [any_referenced]; [by eexists|]. rewrite (fetch_metadata_at s Hs). cbn.
  assert (Hl : exists r, any_referenced s l = Ok r
    /\ (r = true -> exists c md, c ∈ id :: l /\ metadata_at tb c = Some md /\ is_referenced (metadata_flags md) = true)).
  { exists r. split; [done|]. intros (c & md & ? & ?)%Hr. exists c, md. split; [by right | done]. }
  destruct (metadata_at tb id) as [md|] eqn:Hmd; [|done]. destruct (is_referenced _) eqn:E; [|done].
  eexists. split; [done|]. intros _. exists id, md. split; [left | done].
Qed.

(** What is deleted for a message that is recorded as unreferenced. *)
Lemma unconfirmed_batch b id m :
  message_at tb id = Some m ->
  exists b', (let? b := prune_message_and_metadata s b id in let? b := prune_indexation s b id m in
    let? b := prune_edges s b id m in pruning_result (batch_delete unit s b (index, UnreferencedMessage_new id))) = Ok b'
    /\ forall t, deleted tb {[id]} (pending b t) (pending b' t).
Proof.
  intros Hm.
  assert (Hb : batch_does (let? b := prune_message_and_metadata s b id in let? b := prune_indexation s b id m in
    let? b := prune_edges s b id m in pruning_result (batch_delete unit s b (index, UnreferencedMessage_new id))) b
    (fun t => delete_table unit (index, UnreferencedMessage_new id) (del_edges id m (del_indexation id m (del_message id t))))).
  { apply (does_bind _ _ (del_message id) _ (fun t => delete_table unit (index, UnreferencedMessage_new id) (del_edges id m (del_indexation id m t))));
      [by apply does_prune_message|]. intros b1.
    apply (does_bind _ _ (del_indexation id m) _ (fun t => delete_table unit (index, UnreferencedMessage_new id) (del_edges id m t)));
      [by apply does_prune_indexation|]. intros b2.
    apply (does_bind _ _ (del_edges id m) _ (delete_table unit (index, UnreferencedMessage_new id)));
      [by apply does_prune_edges|]. intros b3. by apply does_prune; [|apply _]. }
  destruct Hb as (b' & -> & Hp). exists b'. split; [done|].
  intros t. rewrite Hp. apply deleted_unreferenced; [set_solver|]. rewrite <- (right_id_L ∅ (∪) {[id]}).
  replace (del_edges id m (del_indexation id m (del_message id (pending b t))))
    with (del_edges id m (del_message id (del_indexation id m (pending b t)))).
  - apply deleted_message_edges; [done|]. unfold del_indexation. destruct (unwrap_indexation _); [apply deleted_indexation|]; apply deleted_refl.
  - unfold del_indexation. destruct (unwrap_indexation _); [|done]. by destruct (pending b t) as [? ? ? ? ? ? ? ? ? ? []].
Qed.

Lemma prune_unconfirmed_message_spec b id :
  exists b' U, prune_unconfirmed_message s index b id = Ok b'
    /\ (forall i, i ∈ U -> i = id /\ unconfirmed tb i)
    /\ (unconfirmed tb id -> is_Some (message_at tb id) -> no_confirmed_child tb id -> id ∈ U)
    /\ forall t, deleted tb U (pending b t) (pending b' t).
Proof.
  assert (Hskip : ~ (unconfirmed tb id /\ is_Some (message_at tb id) /\ no_confirmed_child tb id) ->
    exists b' (U : gset MessageId), Ok b = Ok b' :> result PruningError _ /\ (forall i, i ∈ U -> i = id /\ unconfirmed tb i)
    /\ (unconfirmed tb id -> is_Some (message_at tb id) -> no_confirmed_child tb id -> id ∈ U)
    /\ forall t, deleted tb U (pending b t) (pending b' t)).
  { intros Hn. exists b, ∅. split_and!; [done | set_solver | tauto | intros t; apply deleted_refl]. }
  unfold prune_unconfirmed_message. rewrite (fetch_metadata_at s Hs). cbn [pruning_result map_err result_bind].
  destruct (metadata_at tb id) as [md|] eqn:Hmd; [|apply Hskip; intros [(? & ? & ?) _]; congruence].
  destruct (is_referenced (metadata_flags md)) eqn:Hr; [apply Hskip; intros [(? & ? & ?) _]; congruence|].
  destruct (fetch_edges_at s Hs id) as (l & -> & Hl & _). cbn [pruning_result map_err result_bind ok_or].
  destruct (any_referenced_Ok l) as (r & -> & Href). cbn [result_bind]. destruct r.
  { apply Hskip. intros (_ & _ & Hn). destruct (Href eq_refl) as (c & mdc & Hc & Hmc & Hrc). by rewrite (Hn c mdc (Hl c Hc) Hmc) in Hrc. }
  rewrite (fetch_message_at s Hs). cbn [pruning_result map_err result_bind].
  destruct (message_at tb id) as [m|] eqn:Hm; [|apply Hskip; by intros (_ & [? ?] & _)].
  destruct (unconfirmed_batch b id m Hm) as (b' & -> & Hd). exists b', {[id]}.
  split_and!; [done | | set_solver | done]. intros i ->%elem_of_singleton. split; [done|]. by exists md.
Qed.

Lemma prune_unconfirmed_spec b :
  exists b' U, prune_unconfirmed_data s b index = Ok b'
    /\ (forall i, i ∈ U -> listed_at tb index i /\ unconfirmed tb i)
    /\ (forall i, listed_at tb index i -> unconfirmed tb i -> is_Some (message_at tb i) -> no_confirmed_child tb i -> i ∈ U)
    /\ forall t, deleted tb U (pending b t) (pending b' t).
Proof.
  unfold prune_unconfirmed_data.
  destruct (fetch_vec_ok (K := MilestoneIndex) (V := UnreferencedMessage) s index Hs) as (l & -> & _ & Hl).
  cbn [pruning_result map_err result_bind limited default]. change (id l) with l.
  assert (Hin : forall i, i ∈ unreferenced_message_id <$> l <-> listed_at tb index i).
  { intros i. rewrite list_elem_of_fmap. unfold listed_at. split; [intros ([x] & -> & Hx); by apply Hl|].
    intros Hi. exists (UnreferencedMessage_new i). split; [done | by apply Hl]. }
  setoid_rewrite <- Hin. clear Hin Hl. generalize (unreferenced_message_id <$> l) as ids. clear l.
  intros ids. revert b. induction ids as [|id ids IH]; intros b; cbn [try_fold].
  { exists b, ∅. split_and!; [done | set_solver | set_solver | intros t; apply deleted_refl]. }
  destruct (prune_unconfirmed_message_spec b id) as (b1 & U1 & -> & Hu1 & Hv1 & Hd1).
  destruct (IH b1) as (b2 & U2 & -> & Hu2 & Hv2 & Hd2). exists b2, (U2 ∪ U1). split_and!; [done | | | intros t; by eapply deleted_trans].
  - intros i [Hi|Hi]%elem_of_union; [destruct (Hu2 i Hi); split; [by right | done]|]. destruct (Hu1 i Hi) as [-> ?]. split; [left | done].
  - intros i [->|Hi]%elem_of_cons ? ? ?; apply elem_of_union; [right; by apply Hv1 | left; by apply Hv2].
Qed.

(** ** The records of a milestone *)

(** The outputs that the milestone consumed, according to its output diff. *)
Definition pruned_outputs (t : LedgerTables) : list OutputId :=
  match t_diff t !! index with Some d => diff_consumed_outputs d | None => [] end.

Definition del_outputs : list OutputId -> LedgerTables -> LedgerTables :=
  run_effects (fun oid t => delete_table CreatedOutput oid (delete_table ConsumedOutput oid t)).
Definition del_receipts : list Receipt -> LedgerTables -> LedgerTables :=
  run_effects (fun r => delete_table unit (index, r)).

Record records_deleted (t t' : LedgerTables) : Prop := {
  rd_created oid : t_created t' !! oid = if decide (oid ∈ pruned_outputs tb) then None else t_created t !! oid;
  rd_consumed oid : t_consumed t' !! oid = if decide (oid ∈ pruned_outputs tb) then None else t_consumed t !! oid;
  rd_diff : t_diff t' = delete index (t_diff t);
  rd_milestone : t_milestone (t_node t') = delete index (t_milestone (t_node t));
  rd_ledger : t_unspent t' = t_unspent t /\ t_address t' = t_address t /\ t_index t' = t_index t /\ t_info t' = t_info t
    /\ t_balance t' = t_balance t /\ t_treasury t' = t_treasury t;
  rd_node : t_message (t_node t') = t_message (t_node t) /\ t_metadata (t_node t') = t_metadata (t_node t)
    /\ t_edge (t_node t') = t_edge (t_node t) /\ t_sep (t_node t') = t_sep (t_node t)
    /\ t_unreferenced (t_node t') = t_unreferenced (t_node t);
}.

Lemma del_outputs_spec l t :
  exists cr co, del_outputs l t = mkLedgerTables cr co (t_unspent t) (t_address t) (t_index t) (t_info t) (t_diff t) (t_balance t)
                                    (t_receipt t) (t_treasury t) (t_node t)
    /\ (forall oid, cr !! oid = if decide (oid ∈ l) then None else t_created t !! oid)
    /\ forall oid, co !! oid = if decide (oid ∈ l) then None else t_consumed t !! oid.
Proof.
  unfold del_outputs, run_effects. revert t. induction l as [|x l IH]; intros t; cbn [foldl].
  { exists (t_created t), (t_consumed t). split; [by destruct t|]. split; intros oid; by rewrite decide_False by apply not_elem_of_nil. }
  destruct (IH (delete_table CreatedOutput x (delete_table ConsumedOutput x t))) as (cr & co & -> & Hcr & Hco).
  exists cr, co. destruct t. split; [done|]. split; intros oid; rewrite ?Hcr, ?Hco; cbn; destruct (decide (x = oid)) as [<-|Hne];
    rewrite ?lookup_delete_eq, ?lookup_delete_ne by done; repeat case_decide; set_solver.
Qed.

Lemma del_receipts_spec l t :
  exists r, del_receipts l t = mkLedgerTables (t_created t) (t_consumed t) (t_unspent t) (t_address t) (t_index t) (t_info t) (t_diff t)
                                 (t_balance t) r (t_treasury t) (t_node t).
Proof.
  unfold del_receipts, run_effects. revert t. induction l as [|x l IH]; intros t; cbn [foldl]; [exists (t_receipt t); by destruct t|].
  destruct (IH (delete_table unit (index, x) t)) as (r & ->). exists r. by destruct t.
Qed.

Lemma records_deleted_intro l t :
  records_deleted t (del_receipts l (delete_table OutputDiff index (del_outputs (pruned_outputs tb) (delete_table Milestone index t)))).
Proof.
  destruct (del_outputs_spec (pruned_outputs tb) (delete_table Milestone index t)) as (cr & co & -> & Hcr & Hco).
  destruct (del_receipts_spec l (delete_table OutputDiff index (mkLedgerTables cr co (t_unspent (delete_table Milestone index t))
    (t_address (delete_table Milestone index t)) (t_index (delete_table Milestone index t)) (t_info (delete_table Milestone index t))
    (t_diff (delete_table Milestone index t)) (t_balance (delete_table Milestone index t)) (t_receipt (delete_table Milestone index t))
    (t_treasury (delete_table Milestone index t)) (t_node (delete_table Milestone index t))))) as (r & ->).
  destruct t as [? ? ? ? ? ? ? ? ? ? []]. by split.
Qed.

Lemma prune_milestone_data_spec b receipts :
  exists b', prune_milestone_data s b index receipts = Ok (Some b') /\ forall t, records_deleted (pending b t) (pending b' t).
Proof.
  unfold prune_milestone_data.
  assert (Hb : batch_does (let? b := prune_milestone s b index in prune_output_diff s b index) b
    (fun t => delete_table OutputDiff index (del_outputs (pruned_outputs tb) (delete_table Milestone index t)))).
  { apply (does_bind _ _ (delete_table Milestone index) _ (fun t => delete_table OutputDiff index (del_outputs (pruned_outputs tb) t)));
      [by apply does_prune; [|apply _]|]. intros b1. unfold prune_output_diff. rewrite fetch_ok by done. cbn [pruning_result map_err result_bind].
    apply (does_bind _ _ (del_outputs (pruned_outputs tb)) _ (delete_table OutputDiff index)); [|intros b2; by apply does_prune; [|apply _]].
    unfold pruned_outputs. cbn [get_field field_diff]. destruct (t_diff tb !! index) as [d|]; [|apply does_ret]. apply does_fold. intros b2 oid _.
    apply (does_bind _ _ (delete_table ConsumedOutput oid) _ (delete_table CreatedOutput oid)); [by apply does_prune; [|apply _]|].
    intros b3. by apply does_prune; [|apply _]. }
  destruct Hb as (b1 & Hb & Hp). rewrite <- result_bind_assoc, Hb. cbn [result_bind]. destruct receipts.
  - unfold prune_receipts. destruct (fetch_vec_ok (K := MilestoneIndex) (V := Receipt) s index Hs) as (l & -> & _).
    cbn [pruning_result map_err result_bind limited].
    destruct (does_fold (fun b r => pruning_result (batch_delete unit s b (index, r))) (fun r => delete_table unit (index, r)) l b1)
      as (b2 & Hb2 & Hp2); [intros b2 r _; by apply does_prune; [|apply _]|].
    rewrite Hb2. exists b2. split; [done|]. intros t. rewrite Hp2, Hp. apply records_deleted_intro.
  - exists b1. split; [done|]. intros t. rewrite Hp. apply (records_deleted_intro []).
Qed.

(** ** The entry points *)

Lemma batch_seps_spec b (seps : gmap SolidEntryPoint MilestoneIndex) :
  exists b', batch_seps s b seps = Ok b' /\ forall t, pending b' t = set_field (seps ∪ t_sep (t_node (pending b t))) (pending b t).
Proof.
  destruct (does_fold (E := PruningError) (fun b '(k, v) => pruning_result (batch_insert s b k v)) (fun '(k, v) => insert_table k v) (hash_iter seps) b)
    as (b' & Hb & Hp); [intros b1 [k v] _; apply (does_insert_with s Hs (fun e => Pruning_Storage (storage_error_display e))); apply _|].
  exists b'. split; [done|]. intros t. rewrite Hp. generalize (pending b t) as t0. intros t0.
  transitivity (set_field (list_to_map (hash_iter seps) ∪ t_sep (t_node t0)) t0); [|by rewrite list_to_map_hash_iter]. clear Hb Hp. revert t0.
  pose proof (hash_iter_NoDup seps) as Hn. induction (hash_iter seps) as [|[k v] l IH]; intros t0; unfold run_effects in *; cbn [foldl].
  - rewrite list_to_map_nil, (left_id_L ∅ (∪)). by destruct t0 as [? ? ? ? ? ? ? ? ? ? []].
  - cbn [fmap list_fmap fst] in Hn. apply NoDup_cons in Hn as [Hk Hn]. rewrite (IH Hn).
    destruct t0 as [? ? ? ? ? ? ? ? ? ? []]. unfold insert_table. cbn. do 2 f_equal.
    rewrite <- insert_union_r, insert_union_l by by apply not_elem_of_list_to_map_1. done.
Qed.
End parts.

(** ** One iteration *)

Section one.
Context `{BitflagsOk} `{HashOrderOk} `{Environment} `{LedgerBackendOk B}.
Implicit Types (t : Tangle B) (id p c : MessageId) (index : MilestoneIndex).

(** The tables after the messages [W] and the records of the milestone [index] were deleted. *)
Record pruned index (W : gset MessageId) (seps : gmap SolidEntryPoint MilestoneIndex) (now : Z) (tb tb' : LedgerTables) : Prop := {
  pr_at id : message_at tb' id = if decide (id ∈ W) then None else message_at tb id;
  pr_meta id : metadata_at tb' id = if decide (id ∈ W) then None else metadata_at tb id;
  pr_edge p c : edge tb' p c <-> edge tb p c /\ ~ (c ∈ W /\ exists m, message_at tb c = Some m /\ p ∈ parents_of m);
  pr_listed i id : listed_at tb' i id -> listed_at tb i id;
  pr_unlisted i id : listed_at tb i id -> listed_at tb' i id \/ id ∈ W;
  pr_milestone : t_milestone (t_node tb') = delete index (t_milestone (t_node tb));
  pr_sep : t_sep (t_node tb') = seps;
  pr_created oid : t_created tb' !! oid = if decide (oid ∈ pruned_outputs index tb) then None else t_created tb !! oid;
  pr_consumed oid : t_consumed tb' !! oid = if decide (oid ∈ pruned_outputs index tb) then None else t_consumed tb !! oid;
  pr_diff : t_diff tb' = delete index (t_diff tb);
  pr_ledger : t_unspent tb' = t_unspent tb /\ t_address tb' = t_address tb /\ t_index tb' = t_index tb
    /\ t_balance tb' = t_balance tb /\ t_treasury tb' = t_treasury tb;
  pr_info info : t_info tb !! tt = Some info -> t_info tb' !! tt =
    Some (SnapshotInfo_new (network_id info) (snapshot_index info) (entry_point_index info) index now);
}.

Lemma replace_seps_hash_iter (seps : gmap SolidEntryPoint MilestoneIndex) t :
  replace_solid_entry_points (hash_iter seps) t = with_seps seps t.
Proof.
  unfold replace_solid_entry_points. f_equal. rewrite <- (list_to_map_hash_iter seps) at 2.
  pose proof (hash_iter_NoDup seps) as Hn. rewrite <- (right_id_L ∅ (∪) (list_to_map (hash_iter seps))).
  generalize (∅ : gmap SolidEntryPoint MilestoneIndex) as m. induction (hash_iter seps) as [|[k v] l IH]; intros m.
  - by rewrite list_to_map_nil, (left_id_L ∅ (∪)).
  - cbn [fmap list_fmap fst foldl] in *. apply NoDup_cons in Hn as [Hk Hn]. rewrite (IH Hn), list_to_map_cons.
    rewrite <- insert_union_r, insert_union_l by by apply not_elem_of_list_to_map_1. done.
Qed.

(** The tables of the ledger, as a tuple. *)
Definition ledger_part (tb : LedgerTables) :=
  (t_created tb, t_consumed tb, t_unspent tb, t_address tb, t_index tb, t_info tb, t_diff tb, t_balance tb, t_treasury tb).

Lemma set_node_part (n : NodeTables) tb : ledger_part (set_field n tb) = ledger_part tb.
Proof. by destruct tb. Qed.
Lemma deleted_part tb W (tb1 tb2 : LedgerTables) : deleted tb W tb1 tb2 -> ledger_part tb2 = ledger_part tb1.
Proof. intros Hd. rewrite (del_ledger _ _ _ _ Hd). apply set_node_part. Qed.

Lemma truncate_seps_fields tb :
  let tb0 := truncate_table SolidEntryPoint MilestoneIndex tb in
  ledger_part tb0 = ledger_part tb /\ t_message (t_node tb0) = t_message (t_node tb) /\ t_metadata (t_node tb0) = t_metadata (t_node tb)
  /\ t_edge (t_node tb0) = t_edge (t_node tb) /\ t_milestone (t_node tb0) = t_milestone (t_node tb) /\ t_sep (t_node tb0) = ∅
  /\ t_unreferenced (t_node tb0) = t_unreferenced (t_node tb).
Proof. by destruct tb as [? ? ? ? ? ? ? ? ? ? []]. Qed.
Lemma set_seps_fields (seps : gmap SolidEntryPoint MilestoneIndex) tb :
  let tb0 := set_field seps tb in
  ledger_part tb0 = ledger_part tb /\ t_message (t_node tb0) = t_message (t_node tb) /\ t_metadata (t_node tb0) = t_metadata (t_node tb)
  /\ t_edge (t_node tb0) = t_edge (t_node tb) /\ t_milestone (t_node tb0) = t_milestone (t_node tb) /\ t_sep (t_node tb0) = seps
  /\ t_unreferenced (t_node tb0) = t_unreferenced (t_node tb).
Proof. by destruct tb as [? ? ? ? ? ? ? ? ? ? []]. Qed.

(** The batch of an iteration, applied to the tables without the old entry points. *)
Lemma batch_pruned (s : B) index (seps : gmap SolidEntryPoint MilestoneIndex) (b1 b2 b3 b4 : storage_batch B) (V U : gset MessageId) now tb' :
  (forall tb, deleted (tables s) V tb (pending b1 tb)) ->
  (forall tb, pending b2 tb = set_field (seps ∪ t_sep (t_node (pending b1 tb))) (pending b1 tb)) ->
  (forall tb, records_deleted s index (pending b2 tb) (pending b3 tb)) ->
  (forall tb, deleted (tables s) U (pending b3 tb) (pending b4 tb)) ->
  t_node tb' = t_node (pending b4 (truncate_table SolidEntryPoint MilestoneIndex (tables s))) ->
  (exists info, tb' = insert_table tt info (pending b4 (truncate_table SolidEntryPoint MilestoneIndex (tables s)))
    /\ forall i, t_info (tables s) !! tt = Some i ->
         info = SnapshotInfo_new (network_id i) (snapshot_index i) (entry_point_index i) index now) ->
  pruned index (U ∪ V) seps now (tables s) tb'.
Proof.
  intros G1 G2 G3 G4 Hn' (info & Htb' & Hinfo). set (tb0 := truncate_table SolidEntryPoint MilestoneIndex (tables s)) in *.
  destruct (truncate_seps_fields (tables s)) as (L0 & A0 & M0 & E0 & S0 & P0 & U0). fold tb0 in L0, A0, M0, E0, S0, P0, U0.
  specialize (G1 tb0). pose proof (deleted_part _ _ _ _ G1) as L1. destruct G1 as [_ A1 M1 E1 S1 P1 U1 V1].
  specialize (G2 tb0). destruct (set_seps_fields (seps ∪ t_sep (t_node (pending b1 tb0))) (pending b1 tb0)) as (L2 & A2 & M2 & E2 & S2 & P2 & U2).
  rewrite <- G2 in L2, A2, M2, E2, S2, P2, U2.
  specialize (G3 tb0) as [Rc Rx Rd Rm (Ru & Ra & Ri & Rf & Rb & Rt) (Nm & Nd & Ne & Ns & Nu)].
  specialize (G4 tb0). pose proof (deleted_part _ _ _ _ G4) as L4. destruct G4 as [_ A4 M4 E4 S4 P4 U4 V4].
  rewrite L1, L0 in L2. unfold ledger_part in L2, L4. injection L2 as Lc Lx Lu La Li Lf Ld Lb Lt.
  injection L4 as Kc Kx Ku Ka Ki Kf Kd Kb Kt.
  assert (Hat : forall id, message_at (pending b3 tb0) id = message_at (pending b1 tb0) id) by (intros id; unfold message_at; by rewrite Nm, A2).
  assert (Hmd : forall id, metadata_at (pending b3 tb0) id = metadata_at (pending b1 tb0) id) by (intros id; unfold metadata_at; by rewrite Nd, M2).
  assert (Hed : forall p c, edge (pending b3 tb0) p c <-> edge (pending b1 tb0) p c) by (intros p c; unfold edge; by rewrite Ne, E2).
  assert (Hli : forall i id, listed_at (pending b3 tb0) i id <-> listed_at (pending b1 tb0) i id) by (intros i id; unfold listed_at; by rewrite Nu, U2).
  assert (Hl' : ledger_part tb' = (t_created (pending b4 tb0), t_consumed (pending b4 tb0), t_unspent (pending b4 tb0), t_address (pending b4 tb0),
    t_index (pending b4 tb0), <[tt := info]> (t_info (pending b4 tb0)), t_diff (pending b4 tb0), t_balance (pending b4 tb0), t_treasury (pending b4 tb0))).
  { rewrite Htb'. by destruct (pending b4 tb0). }
  unfold ledger_part in Hl'. injection Hl' as Jc Jx Ju Ja Ji Jf Jd Jb Jt. split.
  - intros id. unfold message_at at 1. rewrite Hn'. fold (message_at (pending b4 tb0) id). rewrite A4, Hat, A1.
    unfold message_at. rewrite A0. apply decide_union.
  - intros id. unfold metadata_at at 1. rewrite Hn'. fold (metadata_at (pending b4 tb0) id). rewrite M4, Hmd, M1.
    unfold metadata_at. rewrite M0. apply decide_union.
  - intros p c. unfold edge at 1. rewrite Hn'. fold (edge (pending b4 tb0) p c). rewrite E4, Hed, E1.
    unfold edge. rewrite E0, elem_of_union. clear. tauto.
  - intros i id. unfold listed_at at 1. rewrite Hn'. intros Hid%U4%Hli%U1. unfold listed_at in Hid. by rewrite U0 in Hid.
  - intros i id Hid. unfold listed_at at 1. rewrite Hn'. fold (listed_at (pending b4 tb0) i id).
    destruct (V1 i id) as [Hid1%Hli|?]; [unfold listed_at; by rewrite U0 | | right; set_solver].
    destruct (V4 i id Hid1); [by left | right; set_solver].
  - by rewrite Hn', S4, Rm, S2, S1, S0.
  - by rewrite Hn', P4, Ns, P2, P1, P0, (right_id_L ∅ (∪)).
  - intros oid. rewrite Jc, Kc, Rc, Lc. done.
  - intros oid. rewrite Jx, Kx, Rx, Lx. done.
  - by rewrite Jd, Kd, Rd, Ld.
  - split_and!; congruence.
  - intros i Hi. rewrite Jf, lookup_insert_eq. by rewrite (Hinfo i Hi).
Qed.

Lemma part_info (tb1 tb2 : LedgerTables) : ledger_part tb1 = ledger_part tb2 -> t_info tb1 = t_info tb2.
Proof. unfold ledger_part. congruence. Qed.

Lemma batch_keeps_info (s : B) index (seps : gmap SolidEntryPoint MilestoneIndex) (b1 b2 b3 b4 : storage_batch B) (V U : gset MessageId) :
  (forall tb, deleted (tables s) V tb (pending b1 tb)) ->
  (forall tb, pending b2 tb = set_field (seps ∪ t_sep (t_node (pending b1 tb))) (pending b1 tb)) ->
  (forall tb, records_deleted s index (pending b2 tb) (pending b3 tb)) ->
  (forall tb, deleted (tables s) U (pending b3 tb) (pending b4 tb)) ->
  t_info (pending b4 (truncate_table SolidEntryPoint MilestoneIndex (tables s))) = t_info (tables s).
Proof.
  intros G1 G2 G3 G4. set (tb0 := truncate_table SolidEntryPoint MilestoneIndex (tables s)).
  rewrite (part_info _ _ (deleted_part _ _ _ _ (G4 tb0))). destruct (rd_ledger _ _ _ _ (G3 tb0)) as (_ & _ & _ & -> & _).
  rewrite G2, (part_info _ _ (proj1 (set_seps_fields _ _))), (part_info _ _ (deleted_part _ _ _ _ (G1 tb0))).
  apply (part_info _ _ (proj1 (truncate_seps_fields (tables s)))).
Qed.

(** What a successful iteration leaves. *)
Lemma prune_one_spec fuel (now : MilestoneIndex -> Z) config index t n new b V :
  healthy (tg_storage t) -> is_Some (t_info (tables (tg_storage t)) !! tt) ->
  prune_confirmed_data fuel (tg_config t) (tg_storage t) (batch_begin B) index (tg_seps t) = Some (Ok (new, b)) ->
  (forall tb, deleted (tables (tg_storage t)) V tb (pending b tb)) ->
  exists t' U, prune_one fuel now config index (mkPruneState t n) = Some (mkPruneState t' (as_u 64 (n + 1)), Ok tt)
    /\ (forall i, i ∈ U -> listed_at (tables (tg_storage t)) index i /\ unconfirmed (tables (tg_storage t)) i)
    /\ (forall i, listed_at (tables (tg_storage t)) index i -> unconfirmed (tables (tg_storage t)) i ->
          is_Some (message_at (tables (tg_storage t)) i) -> no_confirmed_child (tables (tg_storage t)) i -> i ∈ U)
    /\ healthy (tg_storage t')
    /\ pruned index (U ∪ V) (next_seps n index (tg_seps t) new) (now index) (tables (tg_storage t)) (tables (tg_storage t'))
    /\ tg_seps t' = next_seps n index (tg_seps t) new /\ tg_pruning t' = index
    /\ tg_vertices t' = tg_vertices t /\ tg_config t' = tg_config t /\ tg_milestones t' = tg_milestones t.
Proof.
  intros Hs [info Hinfo] Hcone HV. set (s := tg_storage t) in *. unfold prune_one. cbn [prune_tangle num_prunings]. fold s. rewrite Hcone. cbn [mbind option_bind].
  destruct (batch_seps_spec s Hs b (next_seps n index (tg_seps t) new)) as (b2 & -> & G2).
  destruct (prune_milestone_data_spec s Hs index b2 (config_prune_receipts config)) as (b3 & -> & G3).
  destruct (prune_unconfirmed_spec s Hs index b3) as (b4 & U & -> & HU & HU' & G4).
  unfold prune_commit. rewrite replace_seps_hash_iter.
  assert (Hst : tg_storage (update_entry_point_index index (with_seps (next_seps n index (tg_seps t) new) t)) = s) by by destruct t.
  rewrite Hst. destruct (truncate_ok (K := SolidEntryPoint) (V := MilestoneIndex) s Hs) as (s1 & -> & Hs1 & Ht1).
  destruct (batch_commit_ok s1 b4 true Hs1) as (s2 & -> & Hs2 & Ht2). cbn [pruning_result map_err].
  unfold prune_committed.
  set (t2 := with_storage s2 _). set (t3 := update_pruning_index index t2).
  assert (Hst3 : tg_storage t3 = s2) by (unfold t3, t2; by destruct t). rewrite Hst3.
  assert (Hinfo2 : t_info (tables s2) !! tt = Some info).
  { by rewrite Ht2, Ht1, (batch_keeps_info s index _ b b2 b3 b4 V U HV G2 G3 G4). }
  unfold prune_info, fetch_snapshot_info, insert_snapshot_info. rewrite fetch_ok by done. cbn [storage_result map_err worker_result result_bind get_field field_info].
  rewrite Hinfo2. cbn [ok_or result_bind].
  match goal with |- context [storage_insert s2 tt ?i] => destruct (insert_ok s2 tt i Hs2) as (s3 & -> & Hs3 & Ht3) end.
  cbn [storage_result worker_result map_err mbind option_bind fst snd].
  eexists _, U. split; [reflexivity|]. split; [done|]. split; [done|].
  assert (Hst4 : tg_storage (with_storage s3 t3) = s3) by (unfold t3, t2; by destruct t). rewrite Hst4. split; [done|]. split.
  - apply (batch_pruned s index _ b b2 b3 b4 V U (now index) (tables s3) HV G2 G3 G4).
    + rewrite Ht3, Ht2, Ht1. generalize (pending b4 (truncate_table SolidEntryPoint MilestoneIndex (tables s))). by intros [].
    + eexists. split; [by rewrite Ht3, Ht2, Ht1|]. intros i Hi. rewrite Hinfo in Hi. by injection Hi as <-.
  - unfold t3, t2. by destruct t.
Qed.
End one.

(** ** Storages that can be pruned *)

(** The messages a milestone confirmed, from its message on. *)
Inductive in_cone (tb : LedgerTables) (j : Z) : MessageId -> Prop :=
| cone_milestone ms :
    t_milestone (t_node tb) !! MilestoneIndex_new j = Some ms -> confirmed_at tb (milestone_message_id ms) = Some j ->
    in_cone tb j (milestone_message_id ms)
| cone_parent id m p :
    in_cone tb j id -> message_at tb id = Some m -> p ∈ parents_of m -> confirmed_at tb p = Some j -> in_cone tb j p.

(** The milestones below [first] were pruned and those up to [last] were confirmed. A message they confirmed is stored, with
    its edges, in the cone of its milestone; it has no more children than a fetch returns, and its parents are confirmed
    no later or are entry points that are kept long enough. The index of a later milestone is recorded in the message of
    that milestone only, before it is confirmed. *)
Record prunable `{Bitflags} (limit : option nat) (tb : LedgerTables) (seps : gmap SolidEntryPoint MilestoneIndex) (first last : Z)
    : Prop := {
  pv_stored id : is_Some (message_at tb id) <-> is_Some (metadata_at tb id);
  pv_edge p c : edge tb p c <-> exists m, message_at tb c = Some m /\ p ∈ parents_of m;
  pv_conf id j : confirmed_at tb id = Some j -> first <= j;
  pv_flag id md : metadata_at tb id = Some md ->
    is_referenced (metadata_flags md) = true <-> exists j, confirmed_at tb id = Some j /\ j <= last;
  pv_parent id m j p : message_at tb id = Some m -> confirmed_at tb id = Some j -> j <= last -> p ∈ parents_of m ->
    (exists j', confirmed_at tb p = Some j' /\ j' <= j)
    \/ (exists k, seps !! SolidEntryPoint_new p = Some k /\ j <= milestone_index k);
  pv_sep id : is_Some (seps !! SolidEntryPoint_new id) -> message_at tb id = None;
  pv_milestone j : first <= j <= last ->
    exists ms, t_milestone (t_node tb) !! MilestoneIndex_new j = Some ms /\ confirmed_at tb (milestone_message_id ms) = Some j;
  pv_cone id j : confirmed_at tb id = Some j -> j <= last -> in_cone tb j id;
  pv_few id j : confirmed_at tb id = Some j -> j <= last -> within limit (edge tb id);
}.

(** The messages that pruning the milestones from [start] to [target] deletes: those that the milestones confirmed, and
    those that are recorded as unreferenced since one of them and were never confirmed. *)
Definition drops `{Bitflags} (tb : LedgerTables) (start target : Z) (id : MessageId) : Prop :=
  (exists j, confirmed_at tb id = Some j /\ j <= target)
  \/ (exists j, start <= j <= target /\ listed_at tb (MilestoneIndex_new j) id) /\ unconfirmed tb id.

Lemma confirmed_stored `{Bitflags} limit tb seps first last id j :
  prunable limit tb seps first last -> confirmed_at tb id = Some j ->
  is_Some (message_at tb id) /\ exists md, metadata_at tb id = Some md /\ milestone_index <$> metadata_milestone_index md = Some j.
Proof.
  intros Hp Hc. unfold confirmed_at in Hc. destruct (metadata_at tb id) as [md|] eqn:Hmd; [|done]. cbn in Hc.
  split; [apply (pv_stored _ _ _ _ _ Hp); by rewrite Hmd | by exists md].
Qed.

Section prunable.
Context `{BitflagsOk} `{LedgerBackendOk B}.
Context (s : B) (Hs : healthy s) (seps : gmap SolidEntryPoint MilestoneIndex) (i last : Z)
  (Hp : prunable (edge_limit B) (tables s) seps i last) (Hi : i <= last).
Abbreviation tb := (tables s).
Abbreviation index := (MilestoneIndex_new i).
Implicit Types (id p c : MessageId).

(** The traversal stays in the cone of the milestone. *)
Lemma reach_confirmed root id :
  confirmed_at tb root = Some i -> cone_reach s seps root id -> ~ is_sep seps id -> confirmed_at tb id = Some i.
Proof.
  intros Hr Hre. induction Hre as [|id m p Hre IH Hns Hm Hpa]; [done|]. intros Hnp.
  destruct (pv_parent _ _ _ _ _ Hp id m i p Hm (IH Hns) Hi Hpa) as [(j' & Hj' & Hle)|(k & Hk & _)].
  - pose proof (pv_conf _ _ _ _ _ Hp p j' Hj'). by replace i with j' by lia.
  - exfalso. apply Hnp. by exists k.
Qed.

Lemma confirmed_not_sep id j : confirmed_at tb id = Some j -> ~ is_sep seps id.
Proof.
  intros Hc Hsep. destruct (confirmed_stored _ _ _ _ _ _ _ Hp Hc) as [[m Hm] _]. by rewrite (pv_sep _ _ _ _ _ Hp id Hsep) in Hm.
Qed.

Lemma confirmed_reach ms id :
  t_milestone (t_node tb) !! index = Some ms -> confirmed_at tb id = Some i -> cone_reach s seps (milestone_message_id ms) id.
Proof.
  intros Hms Hc. apply (pv_cone _ _ _ _ _ Hp) in Hc; [|done]. induction Hc as [ms' Hms' Hc'|id m p Hin IH Hm Hpa Hcp].
  - rewrite Hms in Hms'. injection Hms' as <-. constructor.
  - eapply reach_parent; [exact IH | | exact Hm | exact Hpa]. eapply confirmed_not_sep. by destruct Hin.
Qed.

(** The traversal visits exactly the messages the milestone confirmed. *)
Lemma prune_confirmed_complete fuel config :
  1 + sum_map (fun m => len (parents_of m)) (t_message (t_node tb)) <= Z.of_nat fuel ->
  exists new b V, prune_confirmed_data fuel config s (batch_begin B) index seps = Some (Ok (new, b))
    /\ (forall t, deleted tb V t (pending b t)) /\ (forall id, id ∈ V <-> confirmed_at tb id = Some i)
    /\ (forall id c j, confirmed_at tb id = Some i -> edge tb id c -> confirmed_at tb c = Some j -> i < j ->
          exists k, new !! SolidEntryPoint_new id = Some k /\ j <= milestone_index k)
    /\ forall id k, new !! SolidEntryPoint_new id = Some k -> confirmed_at tb id = Some i.
Proof.
  intros Hf. unfold prune_confirmed_data. destruct (pv_milestone _ _ _ _ _ Hp i ltac:(lia)) as (ms & Hms & Hroot).
  rewrite fetch_ok by done. cbn [pruning_result map_err result_bind get_field field_milestone]. rewrite Hms. cbn [ok_or].
  set (root := milestone_message_id ms) in *. set (th := as_u 32 (below_max_depth config + EXTRA_PRUNING_DEPTH)).
  pose proof (cone_inv_start s Hs index th seps root (batch_begin B)) as Hst.
  destruct (prune_traverse_ends s Hs index th seps root (batch_begin B) fuel [root] _ Hst) as [r Hr].
  { unfold cone_weight, len. cbn [cone_visited length].
    rewrite map_filter_id by (intros; cbn; set_solver). unfold len in Hf. lia. }
  rewrite Hr. pose proof (prune_traverse_spec s Hs index th seps root (batch_begin B) fuel [root] _ r Hst Hr) as Hsp.
  destruct r as [cone|e]; cbn [mbind option_bind result_bind].
  - exists (cone_seps cone), (cone_batch cone), (cone_visited cone). destruct Hsp as [Hv _ Hb Hn Hk].
    assert (HV : forall id, id ∈ cone_visited cone <-> confirmed_at tb id = Some i).
    { intros id. rewrite Hv. split; [intros [? ?]; by eapply reach_confirmed|].
      intros Hc. split; [by apply confirmed_reach | by eapply confirmed_not_sep]. }
    split_and!; [done | | done | | intros id k Hid; apply HV; by destruct (Hk id k Hid)].
    + intros t. rewrite <- (pending_begin t) at 1. apply Hb.
    + intros id c j Hid He Hc Hlt. destruct (confirmed_stored _ _ _ _ _ _ _ Hp Hc) as (_ & md & Hmd & Hj).
      destruct (Hn id c md) as (k & Hkk & Hle); [by apply HV | by eapply (pv_few _ _ _ _ _ Hp) | done | rewrite HV; intros ?; simplify_eq; lia | done| |].
      * unfold conf_index. destruct (metadata_milestone_index md) as [x|]; [|done]. injection Hj as <-. done.
      * exists k. split; [done|]. unfold conf_index in Hle. destruct (metadata_milestone_index md) as [x|]; [|done]. by injection Hj as <-.
  - exfalso. destruct Hsp as (id & Hre & Hns & Herr). pose proof (reach_confirmed _ _ Hroot Hre Hns) as Hc.
    destruct (confirmed_stored _ _ _ _ _ _ _ Hp Hc) as [[m Hm] _]. destruct Herr as [[_ Hn]|(c & _ & _ & He & Hn)]; [congruence|].
    apply (pv_edge _ _ _ _ _ Hp) in He as (mc & Hmc & _). destruct (proj1 (pv_stored _ _ _ _ _ Hp c)) as [md Hmd]; [by eexists | congruence].
Qed.

(** A message that was never confirmed has no confirmed child. *)
Lemma unconfirmed_children id : unconfirmed tb id -> no_confirmed_child tb id.
Proof.
  intros (md & Hmd & Hr) c mdc (m & Hm & Hpa)%(pv_edge _ _ _ _ _ Hp) Hmc. apply not_true_is_false. intros Hrc.
  apply (pv_flag _ _ _ _ _ Hp c mdc Hmc) in Hrc as (j & Hj & Hle).
  destruct (pv_parent _ _ _ _ _ Hp c m j id Hm Hj Hle Hpa) as [(j' & Hj' & Hle')|(k & Hk & _)].
  - assert (is_referenced (metadata_flags md) = true); [|congruence]. apply (pv_flag _ _ _ _ _ Hp id md Hmd). exists j'. split; [done | lia].
  - assert (Hn : message_at tb id = None) by (apply (pv_sep _ _ _ _ _ Hp); by eexists).
    destruct (proj2 (pv_stored _ _ _ _ _ Hp id)) as [m' Hm']; [by rewrite Hmd | congruence].
Qed.

Lemma unconfirmed_index id j : unconfirmed tb id -> confirmed_at tb id = Some j -> last < j.
Proof.
  intros (md & Hmd & Hr) Hj. destruct (decide (j <= last)); [|lia]. rewrite (proj2 (pv_flag _ _ _ _ _ Hp id md Hmd)) in Hr; [done|]. by exists j.
Qed.
End prunable.

(** ** The next index *)

Section next.
Context `{BitflagsOk} `{HashOrderOk} `{Environment} `{LedgerBackendOk B}.
Context (s : B) (seps new : gmap SolidEntryPoint MilestoneIndex) (i last now n : Z)
  (Hp : prunable (edge_limit B) (tables s) seps i last) (W : gset MessageId).
Context (tb' : LedgerTables) (Hpr : pruned (MilestoneIndex_new i) W (next_seps n (MilestoneIndex_new i) seps new) now (tables s) tb').
Abbreviation tb := (tables s).
Abbreviation index := (MilestoneIndex_new i).
Context (HW : forall id, id ∈ W -> confirmed_at tb id = Some i \/ forall j, confirmed_at tb id = Some j -> last < j)
  (HV : forall id, confirmed_at tb id = Some i -> id ∈ W)
  (Hnew : forall id c j, confirmed_at tb id = Some i -> edge tb id c -> confirmed_at tb c = Some j -> i < j ->
     exists k, new !! SolidEntryPoint_new id = Some k /\ j <= milestone_index k)
  (Hseps : forall id k, new !! SolidEntryPoint_new id = Some k -> confirmed_at tb id = Some i).
Implicit Types (id p c : MessageId).

Lemma pruned_confirmed_1 id j : confirmed_at tb' id = Some j -> confirmed_at tb id = Some j /\ i < j.
Proof.
  unfold confirmed_at at 1. rewrite (pr_meta _ _ _ _ _ _ Hpr). case_decide as Hid; [done|].
  fold (confirmed_at tb id). intros Hc. split; [done|]. pose proof (pv_conf _ _ _ _ _ Hp id j Hc).
  destruct (decide (i = j)) as [<-|]; [|lia]. exfalso. apply Hid. by apply HV.
Qed.
Lemma pruned_confirmed id j : j <= last -> confirmed_at tb' id = Some j <-> confirmed_at tb id = Some j /\ i < j.
Proof.
  intros Hl. split; [apply pruned_confirmed_1|]. intros [Hc Hlt]. unfold confirmed_at. rewrite (pr_meta _ _ _ _ _ _ Hpr).
  rewrite decide_False; [done|]. intros [Hi|Hi]%HW; [simplify_eq; lia|]. specialize (Hi j Hc). lia.
Qed.

Lemma pruned_message id m : message_at tb' id = Some m <-> message_at tb id = Some m /\ id ∉ W.
Proof. rewrite (pr_at _ _ _ _ _ _ Hpr). case_decide; naive_solver. Qed.

Lemma next_seps_kept (id : SolidEntryPoint) k : seps !! id = Some k -> i < milestone_index k -> next_seps n index seps new !! id = Some k.
Proof.
  intros Hk Hlt. unfold next_seps. apply lookup_union_Some_l. destruct (_ <=? _); [|done]. by apply map_lookup_filter_Some.
Qed.
Lemma next_seps_inv (id : SolidEntryPoint) k : next_seps n index seps new !! id = Some k -> seps !! id = Some k \/ new !! id = Some k.
Proof.
  unfold next_seps. intros [Hk|[_ Hk]]%lookup_union_Some_raw; [left | by right]. destruct (_ <=? _); [|done].
  by apply map_lookup_filter_Some in Hk as [? _].
Qed.
Lemma next_seps_new id k : message_at tb id <> None -> new !! SolidEntryPoint_new id = Some k ->
  next_seps n index seps new !! SolidEntryPoint_new id = Some k.
Proof.
  intros Hid Hk. unfold next_seps. rewrite lookup_union_r; [done|].
  assert (seps !! SolidEntryPoint_new id = None) as Hn.
  { apply eq_None_not_Some. intros Hsome. by apply Hid, (pv_sep _ _ _ _ _ Hp). }
  destruct (_ <=? _); [|done]. apply map_lookup_filter_None. by left.
Qed.

Lemma pruned_parent id m j p :
  message_at tb' id = Some m -> confirmed_at tb' id = Some j -> j <= last -> p ∈ parents_of m ->
  (exists j', confirmed_at tb' p = Some j' /\ j' <= j)
  \/ (exists k, next_seps n index seps new !! SolidEntryPoint_new p = Some k /\ j <= milestone_index k).
Proof.
  intros [Hm _]%pruned_message [Hc Hlt]%pruned_confirmed_1 Hl Hpa.
  destruct (pv_parent _ _ _ _ _ Hp id m j p Hm Hc Hl Hpa) as [(j' & Hj' & Hle)|(k & Hk & Hle)].
  - destruct (decide (i < j')) as [Hij|Hij]; [left; exists j'; rewrite pruned_confirmed by lia; done|]. right.
    pose proof (pv_conf _ _ _ _ _ Hp p j' Hj'). assert (j' = i) as -> by lia.
    destruct (Hnew p id j Hj') as (k & Hk & Hkj); [apply (pv_edge _ _ _ _ _ Hp); eauto | done | done|].
    exists k. split; [|done]. apply next_seps_new; [|done]. by destruct (confirmed_stored _ _ _ _ _ _ _ Hp Hj') as [[? ->] _].
  - right. exists k. split; [|done]. apply next_seps_kept; [done | lia].
Qed.

Lemma pruned_cone id j : in_cone tb j id -> i < j <= last -> in_cone tb' j id.
Proof.
  intros Hin Hlt. induction Hin as [ms Hms Hc|id m p Hin IH Hm Hpa Hc].
  - apply cone_milestone; [|apply pruned_confirmed; [lia|]; split; [done | lia]].
    rewrite (pr_milestone _ _ _ _ _ _ Hpr), lookup_delete_ne; [done|]. intros [=]. lia.
  - eapply cone_parent; [exact IH| |exact Hpa|apply pruned_confirmed; [lia|]; split; [done | lia]].
    apply pruned_message. split; [done|]. intros Hid.
    assert (Hj : confirmed_at tb id = Some j) by by destruct Hin. destruct (HW id Hid) as [?|Hl]; [simplify_eq; lia|]. specialize (Hl j Hj). lia.
Qed.

Lemma pruned_edge p c : edge tb' p c -> edge tb p c.
Proof. by intros [? _]%(pr_edge _ _ _ _ _ _ Hpr). Qed.

Lemma pruned_flag id md :
  metadata_at tb' id = Some md -> is_referenced (metadata_flags md) = true <-> exists j, confirmed_at tb' id = Some j /\ j <= last.
Proof.
  unfold confirmed_at. rewrite (pr_meta _ _ _ _ _ _ Hpr). case_decide; [done|]. apply (pv_flag _ _ _ _ _ Hp).
Qed.

Lemma pruned_prunable : prunable (edge_limit B) tb' (next_seps n index seps new) (i + 1) last.
Proof.
  split.
  - intros id. rewrite (pr_at _ _ _ _ _ _ Hpr), (pr_meta _ _ _ _ _ _ Hpr). case_decide; [split; by intros [? ?] | apply Hp].
  - intros p c. rewrite (pr_edge _ _ _ _ _ _ Hpr), (pv_edge _ _ _ _ _ Hp). setoid_rewrite pruned_message. split.
    + intros [(m & Hm & Hpa) Hn]. exists m. split_and!; [done| |done]. intros Hc. by apply Hn; eauto.
    + intros (m & (Hm & Hc) & Hpa). split; [by exists m | by intros [? _]].
  - intros id j [_ ?]%pruned_confirmed_1. lia.
  - apply pruned_flag.
  - apply pruned_parent.
  - intros id [k Hk]. apply next_seps_inv in Hk as [Hk|Hk]; rewrite (pr_at _ _ _ _ _ _ Hpr).
    + case_decide; [done|]. apply (pv_sep _ _ _ _ _ Hp). by exists k.
    + rewrite decide_True; [done|]. by eapply HV, Hseps.
  - intros j Hj. destruct (pv_milestone _ _ _ _ _ Hp j ltac:(lia)) as (ms & Hms & Hc). exists ms. split.
    + rewrite (pr_milestone _ _ _ _ _ _ Hpr), lookup_delete_ne; [done|]. intros [=]. lia.
    + apply pruned_confirmed; [lia|]. split; [done | lia].
  - intros id j [Hc Hlt]%pruned_confirmed_1 Hl. apply pruned_cone; [|lia]. by apply (pv_cone _ _ _ _ _ Hp).
  - intros id j [Hc _]%pruned_confirmed_1 Hl. eapply within_mono, (pv_few _ _ _ _ _ Hp id j Hc Hl). intros c. apply pruned_edge.
Qed.

(** What is dropped now or later. *)
Context (HU : forall id, id ∈ W -> confirmed_at tb id = Some i \/ listed_at tb index id /\ unconfirmed tb id)
  (HU' : forall id, listed_at tb index id -> unconfirmed tb id -> is_Some (message_at tb id) -> id ∈ W).

Lemma drops_next target id : drops tb i target id -> id ∉ W -> message_at tb id = None \/ drops tb' (i + 1) target id.
Proof.
  intros Hd Hid. assert (Hmd : metadata_at tb' id = metadata_at tb id) by (by rewrite (pr_meta _ _ _ _ _ _ Hpr), decide_False).
  destruct Hd as [(j & Hj & Hle)|[(j & Hj & Hli) Hun]].
  - right. left. exists j. split; [|done]. unfold confirmed_at. by rewrite Hmd.
  - destruct (decide (j = i)) as [->|Hne].
    + left. apply eq_None_not_Some. intros Hm. by apply Hid, HU'.
    + right. right. unfold unconfirmed. rewrite Hmd. split; [|done]. exists j. split; [lia|].
      by destruct (pr_unlisted _ _ _ _ _ _ Hpr _ _ Hli).
Qed.

Lemma drops_now target id : i <= target -> drops tb' (i + 1) target id \/ id ∈ W -> drops tb i target id.
Proof.
  intros Hi [[(j & [Hj _]%pruned_confirmed_1 & Hle)|[(j & Hj & Hli) (md & Hmd & Hr)]]|Hid].
  - left. by exists j.
  - right. split; [exists j; split; [lia | by apply (pr_listed _ _ _ _ _ _ Hpr)]|]. exists md. split; [|done].
    rewrite (pr_meta _ _ _ _ _ _ Hpr) in Hmd. by case_decide.
  - destruct (HU id Hid) as [?|[? ?]]; [left; exists i; by split|]. right. split; [|done]. exists i. split; [lia | done].
Qed.
End next.

(** ** The ledger *)

Section ledger.
Context `{IteratorSorted} `{Crypto} (P : TransactionPayload -> Prop) (Q : MilestonePayload -> Prop).
Context (tb tb' : LedgerTables) (index : MilestoneIndex) (W : gset MessageId) (seps : gmap SolidEntryPoint MilestoneIndex) (now : Z).
Context (i : Z) (spent : gset OutputId) (Hst : ledger_state P Q i spent tb) (Hpr : pruned index W seps now tb tb').

Lemma pruned_spent oid : oid ∈ pruned_outputs index tb -> oid ∈ spent /\ live tb !! oid = None.
Proof.
  unfold pruned_outputs. destruct (t_diff tb !! index) as [d|] eqn:Hd; [|by intros ?%not_elem_of_nil]. intros Ho.
  assert (oid ∈ spent) by by eapply (ls_diff _ _ _ _ _ Hst). split; [done|]. by apply (hist_spent _ _ _ (ls_history _ _ _ _ _ Hst)).
Qed.

Lemma pruned_live : live tb' = live tb.
Proof.
  apply map_eq. intros oid. apply option_eq. intros c. rewrite !live_lookup, (pr_created _ _ _ _ _ _ Hpr), (pr_consumed _ _ _ _ _ _ Hpr).
  case_decide as Ho; [|done]. apply pruned_spent in Ho as [_ Hn]. split; [by intros [? _]|]. rewrite <- live_lookup. congruence.
Qed.

Lemma pruned_created_weak oid c : t_created tb' !! oid = Some c -> t_created tb !! oid = Some c.
Proof. rewrite (pr_created _ _ _ _ _ _ Hpr). by case_decide. Qed.

Lemma pruned_inv : ledger_inv tb'.
Proof.
  destruct (pr_ledger _ _ _ _ _ _ Hpr) as (Hu & Ha & _ & Hb & Ht). destruct (ls_inv _ _ _ _ _ Hst) as [Iu Ix Ia Ic Ib Is]. split.
  - intros oid. rewrite Hu, Iu, (pr_created _ _ _ _ _ _ Hpr), (pr_consumed _ _ _ _ _ _ Hpr). case_decide as Ho; [|done].
    apply pruned_spent in Ho as [_ Hn]. split; [|by intros [[? ?] _]]. intros [[c Hc] Hx].
    assert (live tb !! oid = Some c) by by apply live_lookup. congruence.
  - intros oid. rewrite (pr_created _ _ _ _ _ _ Hpr), (pr_consumed _ _ _ _ _ _ Hpr). case_decide; [by intros [? ?] | apply Ix].
  - rewrite Ha. apply map_subseteq_spec. intros [a oid] []. rewrite addresses_lookup. intros (c & Hc & Hac).
    eapply lookup_weaken; [|exact Ia]. apply addresses_lookup. exists c. split; [by apply pruned_created_weak | done].
  - intros oid c Hc. by apply (Ic oid), pruned_created_weak.
  - intros a. by rewrite Hb, pruned_live.
  - destruct Is as (x & Hx & Hw & Hsum). exists x. rewrite pruned_live. split_and!; [|done..]. intros y. rewrite Ht. apply Hx.
Qed.

Lemma pruned_ledger_state : ledger_state P Q i spent tb'.
Proof.
  destruct (pr_ledger _ _ _ _ _ _ Hpr) as (_ & _ & Hi & _ & Ht). destruct Hst as [Linv [Hsp Hap] Lun Lix Lin Ldu Ldf]. split.
  - exact pruned_inv.
  - split; [intros oid; rewrite pruned_live; apply Hsp|]. intros tx oid HP Hid Ho. apply (Hap tx oid HP Hid).
    destruct Ho as [[c Hc]|?]; [left; exists c; by apply pruned_created_weak | by right].
  - intros ms HQ Hlt. destruct (Lun ms HQ Hlt) as [Uo Ut]. split.
    + intros oid Hid. destruct (Uo oid Hid) as [Hc ?]. split; [|done]. apply eq_None_not_Some. intros [c Hc']. apply pruned_created_weak in Hc'. congruence.
    + intros x Hx. apply Ut. intros y. rewrite <- Ht. apply Hx.
  - by rewrite Hi.
  - destruct Lin as [info Hinfo]. rewrite (pr_info _ _ _ _ _ _ Hpr info Hinfo). by eexists.
  - intros a. by rewrite pruned_live.
  - intros j d oid. rewrite (pr_diff _ _ _ _ _ _ Hpr). intros [_ Hd]%lookup_delete_Some. by apply (Ldf j).
Qed.
End ledger.

(** ** The loop *)

Section loop.
Context `{IteratorSorted} `{Crypto} `{BitflagsOk} `{HashOrderOk} `{Environment} `{LedgerBackendOk B}.
Implicit Types (st : PruneState (B := B)) (index : MilestoneIndex).

Abbreviation storage_of st := (tg_storage (prune_tangle st)).
Abbreviation tables_of st := (tables (tg_storage (prune_tangle st))).

(** What an iteration does, whatever the storage holds: nothing at all when the traversal fails. *)
Lemma prune_one_cases fuel now config index st :
  healthy (storage_of st) -> is_Some (t_info (tables_of st) !! tt) ->
  match prune_one fuel now config index st with
  | None => True
  | Some (st', Err e) => st' = st /\ (e = MissingMilestone index \/ exists root, cone_error (storage_of st) (tg_seps (prune_tangle st)) root e)
  | Some (st', Ok _) =>
      healthy (storage_of st') /\ tg_vertices (prune_tangle st') = tg_vertices (prune_tangle st)
      /\ exists W new, pruned index W (next_seps (num_prunings st) index (tg_seps (prune_tangle st)) new) (now index) (tables_of st) (tables_of st')
  end.
Proof.
  destruct st as [t n]. cbn [prune_tangle num_prunings]. intros Hs Hi.
  destruct (prune_confirmed_data fuel (tg_config t) (tg_storage t) (batch_begin B) index (tg_seps t)) as [[[new b]|e]|] eqn:Hc.
  - assert (HV : exists V, forall tb, deleted (tables (tg_storage t)) V tb (pending b tb)).
    { unfold prune_confirmed_data in Hc. rewrite fetch_ok in Hc by done. cbn [pruning_result map_err result_bind] in Hc.
      destruct (get_field (tables (tg_storage t)) !! index) as [ms|]; cbn [ok_or] in Hc; [|done].
      apply bind_Some in Hc as (r & Hr & Hc). injection Hc as Hc. apply result_bind_Ok in Hc as (cone & -> & Hc). injection Hc as <- <-.
      pose proof (prune_traverse_spec _ Hs _ _ _ _ _ _ _ _ _ (cone_inv_start _ Hs _ _ _ _ (batch_begin B)) Hr) as Hf.
      exists (cone_visited cone). intros tb. rewrite <- (pending_begin tb) at 1. apply (cf_batch _ _ _ _ _ _ _ Hf). }
    destruct HV as [V HV]. destruct (prune_one_spec fuel now config index t n new b V Hs Hi Hc HV)
      as (t' & U & -> & _ & _ & Hs' & Hpr & _ & _ & Hv & _). cbn [prune_tangle]. split_and!; [done..|]. by exists (U ∪ V), new.
  - unfold prune_one. cbn [prune_tangle num_prunings]. rewrite Hc. cbn [mbind option_bind]. split; [done|].
    unfold prune_confirmed_data in Hc. rewrite fetch_ok in Hc by done. cbn [pruning_result map_err result_bind] in Hc.
    destruct (get_field (tables (tg_storage t)) !! index) as [ms|]; cbn [ok_or] in Hc; [|injection Hc as <-; by left].
    apply bind_Some in Hc as (r & Hr & Hc). destruct r as [cone|e']; [done|]. injection Hc as <-. right.
    exists (milestone_message_id ms). exact (prune_traverse_spec _ Hs _ _ _ _ _ _ _ _ _ (cone_inv_start _ Hs _ _ _ _ (batch_begin B)) Hr).
  - unfold prune_one. cbn [prune_tangle num_prunings]. by rewrite Hc.
Qed.

Lemma prune_loop_keeps P Q i spent fuel now config n first st st' events r :
  healthy (storage_of st) -> ledger_state P Q i spent (tables_of st) ->
  prune_loop fuel now config n first st = Some (st', events, r) ->
  healthy (storage_of st') /\ ledger_state P Q i spent (tables_of st')
  /\ live (tables_of st') = live (tables_of st) /\ tg_vertices (prune_tangle st') = tg_vertices (prune_tangle st)
  /\ forall id, message_at (tables_of st') id = message_at (tables_of st) id \/ message_at (tables_of st') id = None.
Proof.
  revert first st st' events r. induction n as [|n IH]; intros first st st' events r Hs Hl; cbn [prune_loop].
  { intros [= <- _ _]. by eauto 10. }
  intros ([st1 r1] & Hone & Hr)%bind_Some. pose proof (prune_one_cases fuel now config (MilestoneIndex_new first) st Hs (ls_info _ _ _ _ _ Hl)) as Hc.
  rewrite Hone in Hc. destruct r1 as [u|e].
  - destruct Hc as (Hs1 & Hv1 & W & new & Hpr). apply bind_Some in Hr as ([[st2 ev] r2] & Hrest & [= <- _ _]).
    destruct (IH (first + 1) st1 st2 ev r2 Hs1) as (Hs2 & Hl2 & Hlive & Hv2 & Hm2); [by eapply pruned_ledger_state | done|].
    split_and!; [done | done | by rewrite Hlive; eapply pruned_live | congruence|].
    intros id. destruct (Hm2 id) as [->|?]; [|by right]. rewrite (pr_at _ _ _ _ _ _ Hpr). case_decide; [by right | by left].
  - destruct Hc as [-> _]. injection Hr as <- _ _. by eauto 10.
Qed.

(** An iteration on a storage that can be pruned, and what it leaves for the next one. *)
Lemma prune_one_succeeds fuel now config i last st :
  healthy (storage_of st) -> is_Some (t_info (tables_of st) !! tt) ->
  prunable (edge_limit B) (tables_of st) (tg_seps (prune_tangle st)) i last -> i <= last ->
  1 + sum_map (fun m => len (parents_of m)) (t_message (t_node (tables_of st))) <= Z.of_nat fuel ->
  exists st', prune_one fuel now config (MilestoneIndex_new i) st = Some (st', Ok tt)
    /\ healthy (storage_of st') /\ is_Some (t_info (tables_of st') !! tt)
    /\ prunable (edge_limit B) (tables_of st') (tg_seps (prune_tangle st')) (i + 1) last
    /\ 1 + sum_map (fun m => len (parents_of m)) (t_message (t_node (tables_of st'))) <= Z.of_nat fuel
    /\ (forall id, message_at (tables_of st) id = None -> message_at (tables_of st') id = None)
    /\ (forall target id, i <= target -> drops (tables_of st) i target id ->
          message_at (tables_of st') id = None \/ drops (tables_of st') (i + 1) target id)
    /\ (forall target id, i <= target -> ~ drops (tables_of st) i target id ->
          message_at (tables_of st') id = message_at (tables_of st) id /\ ~ drops (tables_of st') (i + 1) target id)
    /\ t_sep (t_node (tables_of st')) = tg_seps (prune_tangle st') /\ tg_pruning (prune_tangle st') = MilestoneIndex_new i.
Proof.
  destruct st as [t k]. cbn [prune_tangle]. intros Hs Hi Hp Hil Hf.
  destruct (prune_confirmed_complete (tg_storage t) Hs (tg_seps t) i last Hp Hil fuel (tg_config t) Hf)
    as (new & b & V & Hc & HV & HVc & Hnew & Hse).
  destruct (prune_one_spec fuel now config (MilestoneIndex_new i) t k new b V Hs Hi Hc HV)
    as (t' & U & Hrun & HU & HU' & Hs' & Hpr & Hseps & Hpi & _).
  eexists. split; [exact Hrun|]. cbn [prune_tangle]. set (tb := tables (tg_storage t)) in *. set (tb' := tables (tg_storage t')) in *.
  assert (Hdrop : forall id, id ∈ U ∪ V -> confirmed_at tb id = Some i \/ listed_at tb (MilestoneIndex_new i) id /\ unconfirmed tb id).
  { intros id [?|?]%elem_of_union; [right; by apply HU | left; by apply HVc]. }
  assert (HW : forall id, id ∈ U ∪ V -> confirmed_at tb id = Some i \/ forall j, confirmed_at tb id = Some j -> last < j).
  { intros id [?|[_ Hu]]%Hdrop; [by left | right; intros j; by eapply (unconfirmed_index (tg_storage t))]. }
  assert (HVW : forall id, confirmed_at tb id = Some i -> id ∈ U ∪ V) by (intros id Hid%HVc; set_solver).
  assert (HUW : forall id, listed_at tb (MilestoneIndex_new i) id -> unconfirmed tb id -> is_Some (message_at tb id) -> id ∈ U ∪ V).
  { intros id Hl Hu Hm. apply elem_of_union. left. apply HU'; [done..|]. by eapply (unconfirmed_children (tg_storage t)). }
  assert (Hat : forall id, message_at tb' id = if decide (id ∈ U ∪ V) then None else message_at tb id) by apply Hpr.
  split_and!.
  - done.
  - destruct Hi as [info Hinfo]. rewrite (pr_info _ _ _ _ _ _ Hpr info Hinfo). by eexists.
  - rewrite Hseps. by eapply (pruned_prunable (tg_storage t)).
  - etransitivity; [|exact Hf]. apply Zplus_le_compat_l. apply sum_map_subseteq; [intros; unfold len; lia|].
    apply map_subseteq_spec. intros id m Hm. fold (message_at tb' id) in Hm. rewrite Hat in Hm. by case_decide.
  - intros id Hid. rewrite Hat. by case_decide.
  - intros target id _ Hd. rewrite Hat. case_decide as Hid; [by left|]. by eapply (drops_next (tg_storage t)).
  - intros target id Hle Hn. assert (Hiff := drops_now (tg_storage t) (tg_seps t) new i last _ k Hp (U ∪ V) _ Hpr HVW Hdrop target id Hle).
    rewrite Hat, decide_False by tauto. split; [done | tauto].
  - by rewrite Hseps, (pr_sep _ _ _ _ _ _ Hpr).
  - done.
Qed.

(** The loop on a storage that can be pruned. *)
Lemma prune_loop_succeeds fuel now config n i last st :
  healthy (storage_of st) -> is_Some (t_info (tables_of st) !! tt) ->
  prunable (edge_limit B) (tables_of st) (tg_seps (prune_tangle st)) i last -> i + Z.of_nat n <= last + 1 ->
  1 + sum_map (fun m => len (parents_of m)) (t_message (t_node (tables_of st))) <= Z.of_nat fuel ->
  exists st', prune_loop fuel now config n i st = Some (st', (fun k => mkPrunedIndex (MilestoneIndex_new (i + Z.of_nat k))) <$> seq 0 n, Ok tt)
    /\ prunable (edge_limit B) (tables_of st') (tg_seps (prune_tangle st')) (i + Z.of_nat n) last
    /\ (forall id, message_at (tables_of st) id = None -> message_at (tables_of st') id = None)
    /\ (n <> 0%nat -> (forall id, drops (tables_of st) i (i + Z.of_nat n - 1) id -> message_at (tables_of st') id = None)
        /\ t_sep (t_node (tables_of st')) = tg_seps (prune_tangle st')
        /\ tg_pruning (prune_tangle st') = MilestoneIndex_new (i + Z.of_nat n - 1))
    /\ (forall id, ~ drops (tables_of st) i (i + Z.of_nat n - 1) id -> message_at (tables_of st') id = message_at (tables_of st) id).
Proof.
  revert i st. induction n as [|n IH]; intros i st Hs Hi Hp Hn Hf; cbn [prune_loop].
  { exists st. rewrite Z.add_0_r. by split_and!. }
  destruct (prune_one_succeeds fuel now config i last st Hs Hi Hp ltac:(lia) Hf) as (st1 & -> & Hs1 & Hi1 & Hp1 & Hf1 & Hm1 & Hd1 & Hk1 & Hsep1 & Hpi1).
  cbn [mbind option_bind]. destruct (IH (i + 1) st1 Hs1 Hi1 Hp1 ltac:(lia) Hf1) as (st2 & Hrun & Hp2 & Hm2 & Hl2 & Hk2).
  rewrite Hrun. cbn [mbind option_bind]. exists st2. replace (i + Z.of_nat (S n)) with (i + 1 + Z.of_nat n) by lia. split_and!; [|done|by auto| |].
  - do 2 f_equal. cbn [seq fmap list_fmap]. rewrite Z.add_0_r. do 2 f_equal. rewrite <- fmap_S_seq, <- list_fmap_compose.
    apply list_fmap_ext. intros _ x _. cbn. do 2 f_equal. lia.
  - intros _. destruct n as [|n].
    + cbn in Hrun. injection Hrun as <-. replace (i + 1 + Z.of_nat 0 - 1) with i by lia. split_and!; [|done|done].
      intros id Hd. destruct (Hd1 i id ltac:(lia) Hd) as [?|[(j & Hj & Hle)|[(j & Hj & _) _]]]; [done| |lia].
      pose proof (pv_conf _ _ _ _ _ Hp1 id j Hj). lia.
    + destruct Hl2 as (Hd2 & ? & ?); [done|]. split_and!; [|done|done]. intros id Hd.
      destruct (Hd1 (i + 1 + Z.of_nat (S n) - 1) id ltac:(lia) Hd) as [?|?]; [by apply Hm2 | by apply Hd2].
  - intros id Hd. destruct (Hk1 (i + 1 + Z.of_nat n - 1) id ltac:(lia) Hd) as [<- Hd']. by apply Hk2.
Qed.

(** ** Claims *)

(** C14. Pruning a storage whose confirmed messages are complete, with no more children than a fetch returns, ends and succeeds.
    The messages that are deleted are exactly these: those that the milestones up to [target] confirmed, and those that
    are recorded as unreferenced since a milestone from [start] to [target] and were never confirmed. In particular what
    later milestones confirmed is kept. The storage is complete again for the next index: every parent of a confirmed
    message that is left is left as well or is an entry point that is kept until the message is pruned. *)
Theorem prune_succeeds fuel now config st (start target last : Z) :
  healthy (storage_of st) -> is_Some (t_info (tables_of st) !! tt) -> start <= target <= last ->
  prunable (edge_limit B) (tables_of st) (tg_seps (prune_tangle st)) start last ->
  1 + sum_map (fun m => len (parents_of m)) (t_message (t_node (tables_of st))) <= Z.of_nat fuel ->
  exists st' events, prune fuel now (MilestoneIndex_new start) (MilestoneIndex_new target) config st = Some (st', events, Ok tt)
    /\ len events = target - start + 1
    /\ prunable (edge_limit B) (tables_of st') (tg_seps (prune_tangle st')) (target + 1) last
    /\ (forall id, drops (tables_of st) start target id -> message_at (tables_of st') id = None)
    /\ (forall id, ~ drops (tables_of st) start target id -> message_at (tables_of st') id = message_at (tables_of st) id)
    /\ (forall id j, confirmed_at (tables_of st) id = Some j -> target < j <= last ->
          message_at (tables_of st') id = message_at (tables_of st) id)
    /\ t_sep (t_node (tables_of st')) = tg_seps (prune_tangle st') /\ tg_pruning (prune_tangle st') = MilestoneIndex_new target.
Proof.
  intros Hs Hi Hst Hp Hf. unfold prune. cbn [milestone_index]. rewrite (proj2 (Z.ltb_ge _ _)) by lia.
  destruct (prune_loop_succeeds fuel now config (Z.to_nat (target - start + 1)) start last st Hs Hi Hp) as (st' & -> & Hp' & _ & Hd & Hk);
    [lia | done|]. rewrite Z2Nat.id in * by lia. replace (start + (target - start + 1)) with (target + 1) in * by lia.
  replace (target + 1 - 1) with target in * by lia. destruct Hd as (Hd & Hsep & Hpi); [lia|].
  eexists st', _. split_and!; [done | | done | done | done | | done | done].
  - unfold len. rewrite length_fmap, length_seq. lia.
  - intros id j Hj Hlt. apply Hk. intros [(j' & Hj' & ?)|[_ Hu]]; [simplify_eq; lia|].
    pose proof (unconfirmed_index (storage_of st) _ _ _ Hp id j Hu Hj). lia.
Qed.

(** C13. Whatever pruning returns, it does not change the ledger: the unspent outputs, the balances and the treasury are the
    same, and the records of spent outputs that it deletes are not needed for the consistency of the ledger. *)
Theorem prune_keeps_ledger P Q i spent fuel now start target config st st' events r :
  healthy (storage_of st) -> ledger_state P Q i spent (tables_of st) ->
  prune fuel now start target config st = Some (st', events, r) ->
  ledger_state P Q i spent (tables_of st') /\ live (tables_of st') = live (tables_of st)
  /\ forall id, message_at (tables_of st') id = message_at (tables_of st) id \/ message_at (tables_of st') id = None.
Proof.
  intros Hs Hl. unfold prune. destruct (_ <? _); [intros [= <- _ _]; by eauto|]. intros Hr.
  by destruct (prune_loop_keeps P Q i spent _ _ _ _ _ _ _ _ _ Hs Hl Hr) as (_ & ? & ? & _ & ?).
Qed.
End loop.

(** ** Evaluation *)

Module Examples.
Import Concrete Ledger.Examples.

#[local] Remove Hints Storage_backend Storage_tangle_backend : typeclass_instances.
#[local] Instance message_hasher : TableHasher MessageId := byte_hasher message_id_bytes.

(** The message [1] is the milestone with the index six; its parent is the entry point [0]. The message [2] has the same
    parent, and was not referenced since that milestone. *)
Definition msg (b : Byte.byte) : MessageId := MessageId_new (repeat b 32).
Definition message_1 : Message := mkMessage 0 (mkParents [msg Byte.x00]) None 0.
Definition message_2 : Message := mkMessage 0 (mkParents [msg Byte.x00]) None 1.
Definition metadata_1 : MessageMetadata := set_milestone_index (reference (arrived 5) 6) (MilestoneIndex_new 6).
Definition milestone_6 : Milestone := Milestone_new (msg Byte.x01) 0.
Definition node_6 : NodeTables :=
  mkNodeTables ∅ (<[msg Byte.x01 := message_1]> {[msg Byte.x02 := message_2]})
    (<[msg Byte.x01 := metadata_1]> {[msg Byte.x02 := arrived 5]})
    (<[(msg Byte.x00, msg Byte.x01) := tt]> {[(msg Byte.x00, msg Byte.x02) := tt]}) ∅
    {[MilestoneIndex_new 6 := milestone_6]} ∅ {[(MilestoneIndex_new 6, UnreferencedMessage_new (msg Byte.x02)) := tt]}.
Definition tables_node : LedgerTables := set_field node_6 tables_6.
Definition seps_6 : gmap SolidEntryPoint MilestoneIndex := {[SolidEntryPoint_new (msg Byte.x00) := MilestoneIndex_new 6]}.
Definition never_ago : MilestoneIndex -> Z := fun _ => 0.
Definition prune_config : PruningConfig := PruningConfigBuilder_finish (mkPruningConfigBuilder None None None).

Lemma storage_message (s : Storage) (id : MessageId) (m : Message) (md : MessageMetadata) (p : MessageId) :
  healthy s -> exists s', healthy s' /\ tables s' = insert_table (p, id) tt (insert_table id md (insert_table id m (tables s))).
Proof.
  intros Hs. destruct (insert_ok (B := Storage) s id m Hs) as (s1 & _ & Hs1 & Ht1).
  destruct (insert_ok s1 id md Hs1) as (s2 & _ & Hs2 & Ht2). destruct (insert_ok s2 (p, id) tt Hs2) as (s3 & _ & Hs3 & Ht3).
  exists s3. split; [exact Hs3|]. by rewrite Ht3, Ht2, Ht1.
Qed.

Lemma storage_node : exists s : Storage, healthy s /\ tables s = tables_node.
Proof.
  destruct (storage_message storage_6 (msg Byte.x02) message_2 (arrived 5) (msg Byte.x00) storage_6_healthy) as (s1 & Hs1 & Ht1).
  destruct (storage_message s1 (msg Byte.x01) message_1 metadata_1 (msg Byte.x00) Hs1) as (s2 & Hs2 & Ht2).
  destruct (insert_ok s2 (MilestoneIndex_new 6) milestone_6 Hs2) as (s3 & _ & Hs3 & Ht3).
  destruct (batch_insert_ok s3 (batch_begin Storage) (MilestoneIndex_new 6, UnreferencedMessage_new (msg Byte.x02)) tt Hs3) as (b & _ & Hb).
  destruct (batch_commit_ok s3 b true Hs3) as (s4 & _ & Hs4 & Ht4).
  exists s4. split; [exact Hs4|]. rewrite Ht4, Hb, pending_begin, Ht3, Ht2, Ht1, storage_6_tables. reflexivity.
Qed.

Lemma lookup_12 {A} (x y : A) i z :
  (<[msg Byte.x01 := x]> {[msg Byte.x02 := y]} : gmap MessageId A) !! i = Some z <-> msg Byte.x01 = i /\ x = z \/ msg Byte.x02 = i /\ y = z.
Proof.
  rewrite lookup_insert_Some, lookup_singleton_Some. split; [tauto|]. intros [?|[<- ?]]; [tauto|]. right. split; [discriminate | done].
Qed.

Lemma confirmed_1 i j : confirmed_at tables_node i = Some j -> msg Byte.x01 = i /\ j = 6.
Proof.
  unfold confirmed_at. intros (md & Hmd & Hj)%bind_Some. apply lookup_12 in Hmd as [[<- <-]|[<- <-]]; [|discriminate Hj].
  split; [reflexivity|]. by injection Hj as <-.
Qed.

Lemma confirmed_msg : confirmed_at tables_node (msg Byte.x01) = Some 6.
Proof.
  assert (Hmd : metadata_at tables_node (msg Byte.x01) = Some metadata_1) by (apply lookup_12; by left).
  unfold confirmed_at. rewrite Hmd. reflexivity.
Qed.

Lemma cone_msg : in_cone tables_node 6 (msg Byte.x01).
Proof. apply (cone_milestone tables_node 6 milestone_6); [|exact confirmed_msg]. apply (lookup_singleton_eq (MilestoneIndex_new 6)). Qed.

Lemma edge_12 p c : edge tables_node p c <-> p = msg Byte.x00 /\ (msg Byte.x01 = c \/ msg Byte.x02 = c).
Proof.
  unfold edge. change (t_edge (t_node tables_node))
    with (<[(msg Byte.x00, msg Byte.x01) := tt]> {[(msg Byte.x00, msg Byte.x02) := tt]} : gmap (MessageId * MessageId) unit).
  rewrite lookup_insert_Some, lookup_singleton_Some. split.
  - intros [[[= <- <-] _]|(_ & [= <- <-] & _)]; (split; [done|]); [by left | by right].
  - intros [-> [<-|<-]]; [by left|]. right. split; [discriminate | done].
Qed.

Lemma node_6_prunable : prunable (edge_limit Storage) tables_node seps_6 6 6.
Proof.
  split.
  - intros i. split; intros [x Hx]; apply lookup_12 in Hx as [[<- _]|[<- _]]; eexists; apply lookup_12; by (left + right).
  - intros p c. rewrite edge_12. split.
    + intros [-> [<-|<-]]; eexists; (split; [apply lookup_12; by (left + right) | by apply list_elem_of_singleton]).
    + intros (m & [[<- <-]|[<- <-]]%lookup_12 & ->%list_elem_of_singleton); (split; [done|]); [by left | by right].
  - intros i j [_ ->]%confirmed_1. lia.
  - intros i md [[<- <-]|[<- <-]]%lookup_12.
    + split; [intros _; exists 6; split; [exact confirmed_msg | lia] | intros _; vm_compute; reflexivity].
    + split; [intros Hr; vm_compute in Hr; discriminate Hr | intros (j & [? _]%confirmed_1 & _); discriminate].
  - intros i m j p Hm [<- ->]%confirmed_1 _ Hp. apply lookup_12 in Hm as [[_ <-]|[? _]]; [|discriminate].
    apply list_elem_of_singleton in Hp as ->. right. exists (MilestoneIndex_new 6). split; [apply lookup_singleton_eq | cbn; lia].
  - intros i [k Hk]. unfold seps_6 in Hk. apply lookup_singleton_Some in Hk as [[= <-] _]. vm_compute. reflexivity.
  - intros j Hj. assert (j = 6) as -> by lia. exists milestone_6.
    split; [apply (lookup_singleton_eq (MilestoneIndex_new 6)) | exact confirmed_msg].
  - intros i j [<- ->]%confirmed_1 _. exact cone_msg.
  - done.
Qed.

Definition tangle_of (s : Storage) : PruneState (B := Storage) :=
  mkPruneState (with_seps seps_6 (Tangle_new (TangleConfigBuilder_finish (mkTangleConfigBuilder None None None)) s (0 : @env counter))) 0.

Abbreviation tables_of st := (tables (tg_storage (prune_tangle st))).

Definition prune_6 (s : Storage) :=
  prune 5 never_ago (MilestoneIndex_new 6) (MilestoneIndex_new 6) prune_config (tangle_of s).

Lemma fuel_6 (s : Storage) :
  tables s = tables_node -> 1 + sum_map (fun m => len (parents_of m)) (t_message (t_node (tables_of (tangle_of s)))) <= Z.of_nat 5.
Proof.
  intros Ht. change (tables_of (tangle_of s)) with (tables s). rewrite Ht.
  change (t_message (t_node tables_node)) with (<[msg Byte.x01 := message_1]> {[msg Byte.x02 := message_2]} : gmap MessageId Message).
  rewrite sum_map_insert, sum_map_singleton by by rewrite lookup_singleton_ne by discriminate. vm_compute. discriminate.
Qed.

Lemma info_node (s : Storage) : tables s = tables_node -> is_Some (t_info (tables_of (tangle_of s)) !! tt).
Proof. intros Ht. change (is_Some (t_info (tables s) !! tt)). rewrite Ht. eexists. reflexivity. Qed.

(** Both messages are deleted. *)
Lemma prune_succeeds_witness :
  exists s st' events, prune_6 s = Some (st', events, Ok tt)
    /\ message_at (tables_of (tangle_of s)) (msg Byte.x01) = Some message_1 /\ message_at (tables_of st') (msg Byte.x01) = None
    /\ message_at (tables_of (tangle_of s)) (msg Byte.x02) = Some message_2 /\ message_at (tables_of st') (msg Byte.x02) = None.
Proof.
  destruct storage_node as (s & Hs & Ht). exists s.
  assert (Hp : prunable (edge_limit Storage) (tables s) seps_6 6 6) by (rewrite Ht; exact node_6_prunable).
  destruct (prune_succeeds 5 never_ago prune_config (tangle_of s) 6 6 6 Hs (info_node s Ht) ltac:(lia) Hp (fuel_6 s Ht))
    as (st' & ev & Hr & _ & _ & Hd & _).
  change (tables_of (tangle_of s)) with (tables s) in *. rewrite Ht in *.
  exists st', ev. split_and!; [exact Hr | apply lookup_12; by left | apply Hd | apply lookup_12; by right | apply Hd].
  - left. exists 6. split; [exact confirmed_msg | lia].
  - right. split; [exists 6; split; [lia | apply (lookup_singleton_eq (MilestoneIndex_new 6, UnreferencedMessage_new (msg Byte.x02)))]|].
    exists (arrived 5). split; [apply lookup_12; by right | vm_compute; reflexivity].
Defined.

(** No transaction and no milestone is known. *)
Definition no_payload {A} (_ : A) : Prop := False.

Lemma state_node : ledger_state no_payload no_payload 6 ∅ tables_node.
Proof.
  apply (ledger_state_same _ _ _ _ tables_6); [by eexists|]. split; [exact tables_6_inv | | done | | | | ].
  - split; [set_solver | done].
  - apply (lookup_singleton_eq tt).
  - eexists. apply (lookup_singleton_eq tt).
  - intros a. rewrite tables_6_live. unfold total. rewrite !sum_map_singleton. unfold contrib, output_contrib. cbn. case_bool_decide; vm_compute; done.
  - intros i d oid Hd. discriminate Hd.
Qed.

Lemma prune_6_ok : exists s st' events, healthy s /\ tables s = tables_node /\ prune_6 s = Some (st', events, Ok tt).
Proof.
  destruct storage_node as (s & Hs & Ht). assert (Hp : prunable (edge_limit Storage) (tables s) seps_6 6 6) by (rewrite Ht; exact node_6_prunable).
  destruct (prune_loop_succeeds 5 never_ago prune_config 1 6 6 (tangle_of s) Hs (info_node s Ht) Hp ltac:(lia) (fuel_6 s Ht)) as (st' & Hr & _).
  eexists s, st', _. split; [exact Hs|]. split; [exact Ht | exact Hr].
Qed.

Lemma prune_keeps_ledger_witness :
  exists s st' events, prune_6 s = Some (st', events, Ok tt) /\ ledger_state no_payload no_payload 6 ∅ (tables_of st').
Proof.
  destruct prune_6_ok as (s & st' & events & Hs & Ht & Hr). exists s, st', events. split; [exact Hr|].
  apply (prune_keeps_ledger no_payload no_payload 6 ∅ 5 never_ago (MilestoneIndex_new 6) (MilestoneIndex_new 6) prune_config
           (tangle_of s) st' events (Ok tt)); [exact Hs | change (ledger_state no_payload no_payload 6 ∅ (tables s)); rewrite Ht; exact state_node | exact Hr].
Defined.

End Examples.
