(* ===== verification/NodeSafety.v ===== *)
(** * What every operation of a node keeps

    Pruning deletes messages from the storage and leaves the vertices in the cache of the tangle, so that the cache and
    the storage of a node that prunes disagree. The ledger does not depend on their agreement. [node_safe] is what it
    depends on: the storage is healthy, the payloads of the messages in the cache and in the storage are known, and the
    ledger is consistent. Every operation of the tangle, the confirmation of milestones and pruning keep it, whatever they
    return, by rules for the monad of the tangle ([keeps]). *)

From S2P Require Import Prelude External MessageTypes Payload PayloadKeys Message TangleTypes LedgerTypes.
From S2P Require Import StorageSystem Vertices Storage StorageTables Tangle TangleCache LedgerStorage Pruning.
From S2P Require Import Ledger Merkle WhiteFlag WhiteFlagOrder WhiteFlagLedger Confirm ConfirmLedger PruningCone PruningLedger Consensus.

Local Open Scope Z_scope.

(** ** The cache *)

Section cache.
Context `{TableHasher MessageId} `{HashOrderOk} `{Environment} (K : Message -> Prop).
Implicit Types (v : Vertex) (vs : Vertices).

Definition cached (o : option (Message * MessageMetadata)) : Prop := match o with Some (m, _) => K m | None => True end.
Definition vertex_safe v : Prop := cached (vertex_message v).
Definition vertices_safe vs : Prop := Forall (map_Forall (fun _ => vertex_safe)) (v_tables vs).

Lemma vertices_safe_new n : vertices_safe (Vertices_new n).
Proof. unfold vertices_safe, Vertices_new. cbn. apply Forall_forall. intros t ->%list_elem_of_In%repeat_spec. apply map_Forall_empty. Qed.

Lemma vertices_get_safe vs id v : vertices_safe vs -> Vertices_get vs id = Some v -> vertex_safe v.
Proof.
  intros Hv. unfold Vertices_get. intros (t & Ht & Hl)%bind_Some. eapply Forall_lookup_1 in Hv; [|exact Ht]. by apply (Hv id).
Qed.

Lemma write_safe vs id v : vertices_safe vs -> vertex_safe v -> vertices_safe (write_vertex vs id v).
Proof. intros Hv Hx. unfold vertices_safe, write_vertex. cbn. apply Forall_alter; [done|]. intros t _ Ht. by apply map_Forall_insert_2. Qed.

Lemma keeps_get_mut {R} id (f : st Vertex R) Post :
  keeps vertex_safe f Post -> keeps vertices_safe (Vertices_get_mut id f) (fun o => match o with Some r => Post r | None => True end).
Proof.
  intros Hf vs a vs' Hv. unfold Vertices_get_mut. destruct (Vertices_get vs id) as [v|] eqn:E; [|by intros [= <- <-]].
  destruct (f v) as [[r v']|] eqn:Ef; [|done]. intros [= <- <-]. apply vertices_get_safe in E; [|done].
  destruct (Hf _ _ _ E Ef). split; [by apply write_safe | done].
Qed.

Lemma keeps_get_mut_or_empty {R} id (f : st Vertex R) Post : keeps vertex_safe f Post -> keeps vertices_safe (Vertices_get_mut_or_empty id f) Post.
Proof.
  intros Hf vs a vs' Hv. unfold Vertices_get_mut_or_empty. destruct (Vertices_get vs id) as [v|] eqn:E.
  - destruct (f v) as [[r v']|] eqn:Ef; [|done]. intros [= <- <-]. apply vertices_get_safe in E; [|done].
    destruct (Hf _ _ _ E Ef). split; [by apply write_safe | done].
  - destruct (f Vertex_empty) as [[r v']|] eqn:Ef; [|done]. intros [= <- <-]. destruct (Hf Vertex_empty _ _ I Ef) as [Hv' ?].
    split; [|done]. by apply (write_safe vs id v' Hv).
Qed.

Lemma pop_random_safe n vs e o vs' e' : vertices_safe vs -> pop_random n vs e = (o, vs', e') -> vertices_safe vs'.
Proof.
  intros Hv. revert e. induction n as [|n IH]; intros e; cbn [pop_random]; [by intros [= _ <- _]|].
  destruct (gen_range _ _) as [i e1]. destruct (try_write e1) as [free e2]. destruct (if free then _ else None) as [[id v]|]; [|by apply IH].
  intros [= _ <- _]. unfold vertices_safe. cbn. apply Forall_alter; [done|]. intros t _ Ht. by apply map_Forall_delete.
Qed.

Lemma keeps_unpin b : keeps vertex_safe (unpin b) (fun _ => True).
Proof.
  intros v [] v' Hv. unfold unpin. destruct b; [|by intros [= <-]]. unfold allow_eviction. destruct v as [m c x n].
  destruct (0 <=? n - 1); [by intros [= <-] | done].
Qed.

Lemma add_child_safe v c : vertex_safe v -> vertex_safe (add_child v c).
Proof. unfold vertex_safe. by rewrite (proj1 (add_child_fields v c)). Qed.
End cache.

(** ** The tangle *)

Section tangle.
Context `{TableHasher MessageId} `{HashOrderOk} `{Environment} `{Bitflags} `{LedgerBackendOk B}.
Context (K : Message -> Prop) (L : LedgerTables -> Prop) (HL : forall tb tb', same_ledger tb tb' -> L tb -> L tb').
Implicit Types (t : Tangle B) (id : MessageId).

Record tangle_safe t : Prop := {
  ts_healthy : healthy (tg_storage t);
  ts_cache : vertices_safe K (tg_vertices t);
  ts_stored id m : message_at (tables (tg_storage t)) id = Some m -> K m;
  ts_ledger : L (tables (tg_storage t));
}.

(** It depends on the cache and the storage only. *)
Lemma safe_with t t' :
  tangle_safe t -> vertices_safe K (tg_vertices t') -> tg_storage t' = tg_storage t -> tangle_safe t'.
Proof. intros [? ? ? ?] Hv Hs. split; by rewrite ?Hs. Qed.

Lemma keeps_vertices {A} (m : st Vertices A) R : keeps (vertices_safe K) m R -> keeps tangle_safe (on_vertices m) R.
Proof.
  intros Hm t a t' Ht. unfold on_vertices. destruct (m (tg_vertices t)) as [[x vs]|] eqn:E; [|done]. intros [= <- <-].
  destruct (Hm _ _ _ (ts_cache _ Ht) E). split; [|done]. apply (safe_with t); [done | by destruct t | by destruct t].
Qed.

Lemma keeps_gets {A} (f : Tangle B -> A) (R : A -> Prop) : (forall t, tangle_safe t -> R (f t)) -> keeps tangle_safe (gets f) R.
Proof. intros Hf t a t' Ht [= <- <-]. auto. Qed.

Lemma storage_get_safe t id m md : tangle_safe t -> storage_get t id = Ok (Some (m, md)) -> K m.
Proof.
  intros Ht. rewrite storage_get_ok by apply Ht. unfold stored. intros [= Hs]. destruct (t_message _ !! id) as [m'|] eqn:E; [|done].
  destruct (t_metadata _ !! id); [|done]. injection Hs as -> _. by apply (ts_stored _ Ht id).
Qed.

Lemma keeps_evict fuel : keeps tangle_safe (evict fuel) (fun _ => True).
Proof.
  induction fuel as [|fuel IH]; [by apply keeps_ret|]. intros t a t' Ht. cbn [evict]. destruct (_ <? _); [|by intros [= <- <-]].
  destruct (pop_random _ _ _) as [[o vs] e] eqn:E. apply pop_random_safe with (K := K) in E; [|apply Ht].
  assert (Ht1 : tangle_safe (with_env e (with_vertices vs t))) by (apply (safe_with t); by destruct t).
  destruct o; [by apply IH | by intros [= <- <-]].
Qed.

Lemma keeps_insert_inner id m md prevent : K m -> keeps tangle_safe (insert_inner id m md prevent) (fun _ => True).
Proof.
  intros Hm. eapply keeps_bind.
  { apply keeps_vertices, keeps_get_mut_or_empty with (Post := fun _ => True). intros [vm c x n] r v' Hv.
    destruct prevent, vm as [[? ?]|]; cbn; by intros [= <- <-]. }
  intros msg _. apply keeps_bind with (R := fun _ => True).
  { destruct msg; [|by apply keeps_ret]. apply keeps_for. intros p. apply keeps_vertices, keeps_get_mut_or_empty.
    intros v r v' Hv [= <- <-]. by split; [apply add_child_safe|]. }
  intros _ _. eapply keeps_bind with (R := fun _ => True); [|intros _ _; by apply keeps_ret].
  intros t a t' Ht. unfold perform_eviction. destruct (_ <? _); [by apply keeps_evict | by intros [= <- <-]].
Qed.

Lemma keeps_pull id prevent : keeps tangle_safe (pull_message id prevent) (fun _ => True).
Proof.
  apply keeps_bind with (R := fun _ => True).
  { destruct prevent; [|by apply keeps_gets]. eapply keeps_bind; [|intros r _; by apply keeps_ret].
    apply keeps_vertices, keeps_get_mut with (Post := fun _ => True). intros [vm c x n] r v' Hv. cbn. destruct vm as [[? ?]|]; by intros [= <- <-]. }
  intros [] _; [by apply keeps_ret|]. eapply keeps_bind.
  { apply keeps_gets with (R := fun r => forall m md, r = Ok (Some (m, md)) -> K m). intros t Ht m md. by apply storage_get_safe. }
  intros [[[m md]|]|e] Hr; try by apply keeps_ret. eapply keeps_bind; [by apply keeps_insert_inner, (Hr m md)|]. intros. by apply keeps_ret.
Qed.

Lemma keeps_get_with {R} id (f : st Vertex R) Post :
  keeps (vertex_safe K) f Post -> keeps tangle_safe (get_with id f) (fun o => match o with Some r => Post r | None => True end).
Proof.
  intros Hf. eapply keeps_bind; [apply keeps_pull|]. intros b _. apply keeps_vertices, keeps_get_mut.
  eapply keeps_bind; [apply keeps_unpin | done].
Qed.

Lemma keeps_get id : keeps tangle_safe (Tangle_get id) (fun o => match o with Some m => K m | None => True end).
Proof.
  eapply keeps_bind.
  - apply keeps_get_with with (Post := fun o => match o with Some m => K m | None => True end).
    intros [vm c x n] r v' Hv [= <- <-]. split; [done|]. cbn. by destruct vm as [[? ?]|].
  - intros [[m|]|] Hm; by apply keeps_ret.
Qed.

Lemma keeps_get_vertex id : keeps tangle_safe (get_vertex id) (fun o => match o with Some v => vertex_safe K v | None => True end).
Proof. apply keeps_get_with. by intros v r v' Hv [= <- <-]. Qed.

(** What the traversal reads. *)
Lemma safe_message t id m md : tangle_safe t -> tangle_message t id = Some (m, md) -> K m.
Proof.
  intros Ht. unfold tangle_message. cbn. destruct (get_vertex id t) as [[v t1]|] eqn:E; [|done].
  destruct (keeps_get_vertex id _ _ _ Ht E) as [_ Hv]. destruct v as [v|]; [|done]. cbn. unfold message_and_metadata.
  intros Hm. unfold vertex_safe in Hv. by rewrite Hm in Hv.
Qed.

Lemma safe_storage t s' :
  tangle_safe t -> healthy s' -> L (tables s') -> (forall id m, message_at (tables s') id = Some m -> K m) -> tangle_safe (with_storage s' t).
Proof. intros [_ ? _ _] Hs Hl Hk. destruct t. by split. Qed.

Lemma message_insert_stored id m md tb id' :
  message_at (insert_stored id m md tb) id' = if decide (id = id') then Some m else message_at tb id'.
Proof. unfold message_at, insert_stored. destruct tb as [? ? ? ? ? ? ? ? ? ? []]. cbn. case_decide; [subst; apply lookup_insert_eq | by apply lookup_insert_ne]. Qed.

Lemma keeps_store id m md : K m -> keeps tangle_safe (storage_insert_message id m md) (fun _ => True).
Proof.
  intros Hm t [] t' Ht Hr. destruct (storage_insert_message_ok id m md t (ts_healthy _ Ht)) as (s & Hrun & Hs & Htb).
  rewrite Hr in Hrun. injection Hrun as ->. split; [|done]. apply safe_storage; [done | done | |]; rewrite Htb.
  - eapply HL, Ht. apply same_ledger_stored.
  - intros id' m'. rewrite message_insert_stored. case_decide; [by intros [= <-] | apply Ht].
Qed.

Lemma message_insert_edges id ps tb id' : message_at (insert_edges id ps tb) id' = message_at tb id'.
Proof.
  unfold insert_edges. revert tb. induction ps as [|p ps IH]; intros tb; cbn [foldl]; [done|]. rewrite IH.
  by destruct tb as [? ? ? ? ? ? ? ? ? ? []].
Qed.

Lemma keeps_insert m id md : K m -> keeps tangle_safe (Tangle_insert m id md) (fun _ => True).
Proof.
  intros Hm. eapply keeps_bind; [apply keeps_pull|]. intros b _. eapply keeps_bind; [by apply keeps_insert_inner|]. intros msg _.
  apply keeps_bind with (R := fun _ => True).
  { eapply keeps_bind.
    { apply keeps_vertices, keeps_get_mut with (Post := fun _ => True).
      eapply keeps_bind; [apply keeps_unpin | intros; by apply keeps_ret]. }
    intros [?|] _; [by apply keeps_ret | apply keeps_panic]. }
  intros _ _. destruct msg; [|by apply keeps_ret]. apply keeps_bind with (R := fun _ => True).
  - intros t [] t' Ht Hr. destruct (insert_edges_ok id (parents_inner (message_parents m)) t (ts_healthy _ Ht)) as (s & Hrun & Hs & Htb).
    rewrite Hr in Hrun. injection Hrun as ->. split; [|done]. apply safe_storage; [done | done | |]; rewrite Htb.
    + eapply HL, Ht. apply same_ledger_edges.
    + intros id' m'. rewrite message_insert_edges. apply Ht.
  - intros _ _. eapply keeps_bind; [by apply keeps_store | intros; by apply keeps_ret].
Qed.

Lemma keeps_update {R} id (update : MessageMetadata -> R * MessageMetadata) : keeps tangle_safe (update_metadata id update) (fun _ => True).
Proof.
  eapply keeps_bind.
  - eapply keeps_bind; [apply keeps_pull|]. intros b _. apply keeps_vertices, keeps_get_mut with (Post := fun r => cached K r.2).
    eapply keeps_bind; [apply keeps_unpin|]. intros _ _ [vm c x n] r v' Hv. destruct vm as [[m md]|]; cbn.
    + destruct (update md) as [r' md']. by intros [= <- <-].
    + by intros [= <- <-].
  - intros [[r w]|] Hw; [|by apply keeps_ret]. eapply keeps_bind with (R := fun _ => True); [|intros; by apply keeps_ret].
    destruct w as [[m md]|]; [by apply keeps_store | by apply keeps_ret].
Qed.

Lemma keeps_children id : keeps tangle_safe (get_children id) (fun _ => True).
Proof.
  assert (Hf : keeps tangle_safe (fetch_children id) (fun _ => True)).
  { eapply keeps_bind; [by apply keeps_gets with (R := fun _ => True)|]. intros l _. eapply keeps_bind; [|intros; by apply keeps_ret].
    apply keeps_vertices, keeps_get_mut_or_empty with (Post := fun _ => True). intros v r v' Hv [= <- <-]. split; [|done].
    assert (Hse : vertex_safe K (set_exhaustive v)) by (by destruct v). clear Hv. revert Hse. generalize (set_exhaustive v).
    induction l as [|c l IH]; intros w Hw; [done|]. by apply IH, add_child_safe. }
  intros t a t' Ht. unfold get_children. destruct (Vertices_get _ _) as [v|]; [|by apply Hf].
  destruct (vertex_exhaustive v); [by intros [= <- <-] | by apply Hf].
Qed.

Lemma keeps_mark_all ts l : keeps tangle_safe (mark_all ts l) (fun _ => True).
Proof. apply keeps_for. intros [id c]. eapply keeps_bind; [apply keeps_update | intros; by apply keeps_ret]. Qed.

(** The tangle with its cache and storage in agreement. *)
Lemma inv_safe t :
  healthy (tg_storage t) -> tg_vertices t = Vertices_new (num_partitions (tg_config t)) -> L (tables (tg_storage t)) ->
  (forall id m, message_at (tables (tg_storage t)) id = Some m -> K m) -> tangle_safe t.
Proof. intros Hs Hv Hl Hk. split; [done | | done | done]. rewrite Hv. apply vertices_safe_new. Qed.
End tangle.

(** ** The consensus worker *)

Section worker.
Context `{IteratorSorted} `{Crypto} `{Hex} `{TableHasher MessageId} `{HashOrderOk} `{Environment} `{BitflagsOk} `{LedgerBackendOk B}.
Context (P : TransactionPayload -> Prop) (Q : MilestonePayload -> Prop) (Hkt : known_transactions P) (Hkm : known_milestones P Q).
Implicit Types (t : Tangle B) (w : ConsensusWorker B).

Definition message_known (m : Message) : Prop := payload_known P Q (message_payload m).
Definition node_safe (index : Z) (spent : gset OutputId) t : Prop := tangle_safe message_known (ledger_state P Q index spent) t.

Lemma ledger_state_closed index spent tb tb' : same_ledger tb tb' -> ledger_state P Q index spent tb -> ledger_state P Q index spent tb'.
Proof. apply ledger_state_same. Qed.

Lemma safe_tangle_known index spent t : node_safe index spent t -> tangle_known t P.
Proof. intros Ht id m meta Hm tx Htx. apply (safe_message _ _ _ _ _ _ Ht) in Hm. unfold message_known in Hm. by rewrite Htx in Hm. Qed.

Lemma safe_changed index spent index' spent' t (s' : B) i :
  node_safe index spent t -> healthy s' -> t_node (tables s') = t_node (tables (tg_storage t)) ->
  ledger_state P Q index' spent' (tables s') ->
  node_safe index' spent' (update_confirmed_milestone_index i (with_storage s' t)).
Proof.
  intros [_ Hv Hk _] Hs Hn Hl. destruct t. split; [done | done | | done]. intros id m. unfold message_at. cbn in *. rewrite Hn. apply Hk.
Qed.

Lemma confirm_safe index spent message fuel migrated_at t r t' :
  0 <= index < 2 ^ 32 - 1 -> node_safe index spent t ->
  confirm fuel message (LedgerIndex_new (MilestoneIndex_new index)) migrated_at t = Some (r, t') ->
  match r with
  | Ok c => confirmed_ledger_index c = LedgerIndex_new (MilestoneIndex_new (index + 1))
      /\ exists spent', spent ⊆ spent' /\ node_safe (index + 1) spent' t'
  | Err _ => node_safe index spent t'
  end.
Proof.
  intros Hix Ht Hr. destruct (Tangle_get message t) as [[o t1]|] eqn:Hg; [|unfold confirm, sbind in Hr; by rewrite Hg in Hr].
  destruct (keeps_get _ _ message _ _ _ Ht Hg) as [Ht1 Ho].
  destruct (milestone_of message o) as [[m ms]|e] eqn:Hm.
  2: { unfold confirm in Hr. rewrite (sbind_run _ _ _ _ _ Hg), Hm in Hr. by injection Hr as <- <-. }
  pose proof Hm as [-> Hp]%(milestone_of_Ok index message Hix). destruct (Z.eqb_spec (milestone_number ms) (index + 1)) as [Hnum|Hnum].
  2: { unfold confirm in Hr. rewrite (sbind_run _ _ _ _ _ Hg), Hm in Hr. cbn [ledger_index milestone_index] in Hr.
       rewrite as_u_id in Hr by (unfold fits; lia). unfold milestone_number in Hnum. rewrite (proj2 (Z.eqb_neq _ _) Hnum) in Hr.
       by injection Hr as <- <-. }
  rewrite (confirm_eq index message Hix _ _ _ _ _ _ Hg Hp Hnum) in Hr. apply bind_Some in Hr as ([r1|e] & Hpr & Hr); [|by injection Hr as <- <-].
  destruct r1 as [[[md at'] mig] s'].
  assert (HQ : Q ms) by (unfold message_known in Ho; by rewrite Hp in Ho).
  apply (prepare_Ok P Q Hkt Hkm index spent message) in Hpr as (Hs' & Hnode & Hl); [|apply Ht1 | apply Ht1 | by eapply safe_tangle_known | done..].
  pose proof (safe_changed _ _ _ _ _ _ (essence_index (milestone_essence ms)) Ht1 Hs' Hnode Hl) as Ht2.
  apply sbind_inv in Hr as ([] & t3 & Hma & Hr). injection Hr as <- <-. cbn [confirmed_ledger_index]. split.
  - unfold milestone_number in Hnum. destruct (essence_index (milestone_essence ms)). cbn in *. by subst.
  - exists (spent ∪ dom (consumed_outputs md)). split; [set_solver|].
    by destruct (keeps_mark_all _ _ (ledger_state_closed _ _) _ _ _ _ _ Ht2 Hma).
Qed.

Lemma prune_safe index spent fuel now start target config t n st' events r :
  node_safe index spent t -> prune fuel now start target config (mkPruneState t n) = Some (st', events, r) ->
  node_safe index spent (prune_tangle st').
Proof.
  intros Ht. unfold prune. destruct (_ <? _); [by intros [= <- _ _]|]. intros Hr.
  destruct (prune_loop_keeps P Q index spent _ _ _ _ _ (mkPruneState t n) _ _ _ (ts_healthy _ _ _ Ht) (ts_ledger _ _ _ Ht) Hr) as (Hs & Hl & _ & Hv & Hm).
  split; [done | rewrite Hv; apply Ht | | done]. intros id m Hid. destruct (Hm id) as [E|E]; rewrite Hid in E; [|done].
  symmetry in E. by apply (ts_stored _ _ _ Ht id).
Qed.

Definition worker_index w : Z := milestone_index (ledger_index (cw_ledger_index w)).
Definition worker_safe (spent : gset OutputId) w : Prop := 0 <= worker_index w /\ node_safe (worker_index w) spent (cw_tangle w).

Lemma after_confirmation_safe spent fuel now w w' events :
  worker_safe spent w -> after_confirmation fuel now w = Some (w', events) ->
  worker_safe spent w' /\ cw_ledger_index w' = cw_ledger_index w.
Proof.
  intros [Hi Hw]. unfold after_confirmation. destruct (negb _); [by intros [= <- _]|].
  assert (Hp : forall A (x : A), match should_snapshot (cw_tangle w) (cw_ledger_index w) (worker_snapshot_depth (cw_settings w))
    (snapshot_config (cw_settings w)) with Ok _ => x | Err _ => x end = x) by (intros; by destruct (should_snapshot _ _ _ _)).
  rewrite Hp. destruct (should_prune _ _ _ _) as [[a b]|]; [|by intros [= <- _]].
  intros ([[st ev] r] & Hr & [= <- _])%bind_Some. split; [|done]. split; [done|]. by eapply prune_safe.
Qed.

Lemma handle_command_safe spent fuel now command w w' events reply :
  worker_index w < 2 ^ 32 - 1 -> worker_safe spent w -> handle_command fuel now command w = Some (w', events, reply) ->
  worker_index w <= worker_index w' <= worker_index w + 1 /\ exists spent', spent ⊆ spent' /\ worker_safe spent' w'.
Proof.
  intros Hlt [Hi Hw] Hr. destruct command as [id|?|?|[?]]; try (injection Hr as <- _ _; split; [lia | by exists spent]).
  apply bind_Some in Hr as ([w1 ev] & Hr & [= <- _ _]). apply bind_Some in Hr as ([[c|e] t1] & Hc & Hr); [|done].
  destruct w as [t [[i]] a n settings]. unfold worker_index in *. cbn in *.
  destruct (confirm_safe i spent id fuel a t _ _ ltac:(lia) Hw Hc) as (Hix & spent' & Hsub & Ht1).
  apply bind_Some in Hr as ([w2 ev2] & Ha & [= <- _]).
  assert (Hw1 : worker_safe spent' (mkConsensusWorker t1 (confirmed_ledger_index c) (confirmed_migrated_at c) n settings)).
  { split; unfold worker_index; cbn; rewrite Hix; [cbn; lia | exact Ht1]. }
  destruct (after_confirmation_safe spent' _ _ _ _ _ Hw1 Ha) as [Hs2 Hx].
  cbn in Hx. rewrite Hx, Hix. cbn. split; [lia|]. by exists spent'.
Qed.
End worker.
