(* ===== verification/Node.v ===== *)
(** * The node

    A node inserts the messages it receives, changes their metadata, reads the tangle, learns of milestones, handles the
    commands of the consensus worker, which confirms milestones and prunes, and may be restarted, in any order.
    [node_step] is one such step; a confirmation that returns an error aborts the node, so that it has no successor. The
    ledger is consistent in every state a node reaches, and with it the validation at the start: a node can always be
    restarted. The last part has the outcomes of a confirmation on a node whose cache agrees with its storage, that is, one
    that has not pruned since it was started.

    [node_start] is the sequence of the workers [TangleWorker], [SnapshotWorker] and [ConsensusWorker] up to their loops,
    which the dependencies of the workers impose. *)

From stdpp Require Import relations.
From S2P Require Import Prelude Packable External MessageTypes Payload PayloadKeys PayloadCodec Message TangleTypes LedgerTypes.
From S2P Require Import Snapshot StorageSystem Vertices Storage StorageTables StorageMemory Tangle TangleCache LedgerStorage.
From S2P Require Import Pruning Ledger Merkle WhiteFlag WhiteFlagOrder WhiteFlagLedger Confirm SnapshotImport Consensus ConfirmLedger.
From S2P Require Import ConfirmState PruningCone PruningLedger NodeSafety.

Local Open Scope Z_scope.

(** What a node finds when it starts: its configuration and the snapshot files. *)
Record Setup := mkSetup {
  setup_config : TangleConfig;
  setup_snapshot : SnapshotConfig;
  setup_pruning : PruningConfig;
  setup_network_id : Z;
  setup_full : option bytes;
  setup_delta : option bytes;
  setup_download : result WorkerError (option bytes * option bytes);
}.

Section node.
Context `{IteratorSorted} `{Crypto} `{Hex} `{TableHasher MessageId} `{HashOrder} `{Environment} `{Bitflags} `{LedgerBackend B}
  `{!HealthBackend B}.
Context (P : TransactionPayload -> Prop) (Q : MilestonePayload -> Prop).
Implicit Types (n : ConsensusWorker B).

Definition node_start (setup : Setup) (storage : B) (e : env) : result WorkerError (ConsensusWorker B) :=
  let? tangle := (SnapshotWorker_start (setup_network_id setup) (setup_full setup) (setup_delta setup) (setup_download setup)
                    (Tangle_new (setup_config setup) storage e)).2 in
  ConsensusWorker_start (setup_snapshot setup) (setup_pruning setup) tangle.

Definition with_tangle (t : Tangle B) n : ConsensusWorker B :=
  mkConsensusWorker t (cw_ledger_index n) (cw_receipt_migrated_at n) (cw_num_prunings n) (cw_settings n).

(** The operations on the tangle that the other workers use while the node runs. *)
Inductive tangle_step : Tangle B -> Tangle B -> Prop :=
| tangle_insert t t' m id md r :
    payload_known P Q (message_payload m) -> Tangle_insert m id md t = Some (r, t') -> tangle_step t t'
| tangle_update t t' (R : Type) id (update : MessageMetadata -> R * MessageMetadata) r :
    update_metadata id update t = Some (r, t') -> tangle_step t t'
| tangle_get t t' id r : Tangle_get id t = Some (r, t') -> tangle_step t t'
| tangle_vertex_of t t' id r : get_vertex id t = Some (r, t') -> tangle_step t t'
| tangle_children t t' id r : get_children id t = Some (r, t') -> tangle_step t t'
| tangle_milestone t t' i ms r : add_milestone i ms t = Some (r, t') -> tangle_step t t'
| tangle_latest t i : tangle_step t (update_latest_milestone_index i t)
| tangle_solid t i : tangle_step t (update_solid_milestone_index i t).

Inductive node_step : ConsensusWorker B -> ConsensusWorker B -> Prop :=
| step_tangle n t : tangle_step (cw_tangle n) t -> node_step n (with_tangle t n)
| step_command n n' fuel now command events reply :
    worker_index n < 2 ^ 32 - 1 -> handle_command fuel now command n = Some (n', events, reply) -> node_step n n'
| step_restart n setup e n' : node_start setup (tg_storage (cw_tangle n)) e = Ok n' -> node_step n n'.
End node.

Section proofs.
Context `{IteratorSorted} `{Crypto} `{Hex} `{TableHasherOk MessageId} `{HashOrderOk} `{EnvironmentOk} `{BitflagsOk}
  `{LedgerBackendOk B} `{!HealthBackend B}.
Context (P : TransactionPayload -> Prop) (Q : MilestonePayload -> Prop) (Hkt : known_transactions P) (Hkm : known_milestones P Q).
Implicit Types (t : Tangle B) (n : ConsensusWorker B).

Lemma add_milestone_safe index spent i ms t r t' :
  node_safe P Q index spent t -> add_milestone i ms t = Some (r, t') -> node_safe P Q index spent t'.
Proof.
  intros Ht (u & t1 & Hu & Hr)%sbind_inv. destruct (keeps_update _ _ (ledger_state_closed P Q _ _) _ _ _ _ _ Ht Hu) as [Ht1 _].
  apply sbind_inv in Hr as ([] & t2 & Hi & [= _ <-]). destruct (insert_or_log_ok i ms t1 (ts_healthy _ _ _ Ht1)) as (s & Hrun & Hs & Htb).
  rewrite Hi in Hrun. injection Hrun as ->. assert (Ht2 : node_safe P Q index spent (with_storage s t1)).
  { apply safe_storage; [done | done | |]; rewrite Htb; destruct t1 as [? ? ? s0]; destruct Ht1 as [_ _ Hk Hl]; cbn in Hk, Hl |- *.
    - eapply ledger_state_same, Hl. apply same_ledger_node. by destruct (tables s0) as [? ? ? ? ? ? ? ? ? ? []].
    - intros id m. revert Hk. unfold message_at. destruct (tables s0) as [? ? ? ? ? ? ? ? ? ? []]. cbn. eauto. }
  destruct Ht2 as [? ? ? ?], t1. by split.
Qed.

Lemma tangle_step_safe index spent t t' : node_safe P Q index spent t -> tangle_step P Q t t' -> node_safe P Q index spent t'.
Proof.
  intros Ht Hstep. destruct Hstep as [t t' m id md r Hm Hr|t t' R id u r Hr|t t' id r Hr|t t' id r Hr|t t' id r Hr|t t' i ms r Hr|t i|t i].
  - by eapply (keeps_insert _ _ (ledger_state_closed P Q _ _)) in Hr as [? _].
  - by eapply (keeps_update _ _ (ledger_state_closed P Q _ _)) in Hr as [? _].
  - by eapply keeps_get in Hr as [? _].
  - by eapply keeps_get_vertex in Hr as [? _].
  - by eapply keeps_children in Hr as [? _].
  - by eapply add_milestone_safe.
  - apply (safe_with _ _ t); [done | destruct t; apply Ht | by destruct t].
  - apply (safe_with _ _ t); [done | destruct t; apply Ht | by destruct t].
Qed.

(** ** Starting *)

Lemma load_tangle_ok t i info :
  healthy (tg_storage t) -> t_index (tables (tg_storage t)) !! tt = Some i -> t_info (tables (tg_storage t)) !! tt = Some info ->
  exists t', load_tangle t = Ok t' /\ tg_vertices t' = tg_vertices t /\ tg_storage t' = tg_storage t.
Proof.
  intros Hs Hix Hinfo. unfold load_tangle, fetch_ledger_index, fetch_snapshot_info.
  destruct (iter_ok (IterOk := iter_sep_ok) (tg_storage t) Hs) as (l & -> & _). cbn [storage_result map_err result_bind].
  assert (Hl : forall acc, try_fold (fun l r => let? e := storage_result r in Ok (l ++ [e])) acc (Ok <$> l) = Ok (acc ++ l)).
  { induction l as [|a l IH]; intros acc; cbn; [by rewrite app_nil_r | by rewrite IH, <- app_assoc]. }
  rewrite Hl. cbn [result_bind]. rewrite (fetch_ok (FetchOk := fetch_index_ok)), (fetch_ok (FetchOk := fetch_info_ok)) by done.
  change (get_field (tables (tg_storage t)) !! tt) with (t_index (tables (tg_storage t)) !! tt) at 1. rewrite Hix.
  cbn [storage_result map_err result_bind ok_or].
  change (get_field (tables (tg_storage t)) !! tt) with (t_info (tables (tg_storage t)) !! tt). rewrite Hinfo.
  cbn [storage_result map_err result_bind ok_or]. eexists. split; [done|]. by destruct t.
Qed.

(** A node whose storage satisfies the invariant starts, on the network it was started on before. *)
Lemma node_start_ok index spent t setup e info :
  0 <= index -> node_safe P Q index spent t ->
  t_info (tables (tg_storage t)) !! tt = Some info -> network_id info = setup_network_id setup ->
  exists n, node_start setup (tg_storage t) e = Ok n /\ cw_ledger_index n = LedgerIndex_new (MilestoneIndex_new index)
    /\ worker_safe P Q spent n /\ tg_storage (cw_tangle n) = tg_storage t.
Proof.
  intros Hpos Ht Hinfo Hid. pose proof (ts_ledger _ _ _ Ht) as Hls. pose proof (ts_healthy _ _ _ Ht) as Hs.
  set (t0 := Tangle_new (setup_config setup) (tg_storage t) e).
  destruct (load_tangle_ok t0 _ info Hs (ls_index _ _ _ _ _ Hls) Hinfo) as (t' & Hl & Hv' & Hst').
  assert (Ht' : node_safe P Q index spent t').
  { apply (safe_with _ _ (with_vertices (tg_vertices t0) t)); [|rewrite Hv'; apply vertices_safe_new | by rewrite Hst'; destruct t].
    destruct Ht as [? _ ? ?], t. split; [done | apply vertices_safe_new | done..]. }
  unfold node_start, SnapshotWorker_start, fetch_snapshot_info. fold t0. change (tg_storage t0) with (tg_storage t).
  rewrite (fetch_ok (FetchOk := fetch_info_ok)) by done.
  change (get_field (tables (tg_storage t)) !! tt) with (t_info (tables (tg_storage t)) !! tt). rewrite Hinfo.
  cbn [storage_result map_err]. rewrite (proj2 (Z.eqb_eq _ _) Hid). cbn [negb snd]. rewrite Hl. cbn [result_bind].
  unfold ConsensusWorker_start, fetch_ledger_index. rewrite Hst'. change (tg_storage t0) with (tg_storage t).
  destruct (inv_supply _ (ls_inv _ _ _ _ _ Hls)) as (x & Hx & Hw & _).
  rewrite (proj2 (validate_Ok (tg_storage t) Hs x (inv_unsigned _ (ls_inv _ _ _ _ _ Hls)) Hx (proj1 Hw))) by (apply inv_state_valid; [apply Hls | apply Hls | done]).
  cbn [result_bind]. rewrite (fetch_ok (FetchOk := fetch_index_ok)) by done.
  change (get_field (tables (tg_storage t)) !! tt) with (t_index (tables (tg_storage t)) !! tt).
  rewrite (ls_index _ _ _ _ _ Hls). eexists. split; [done|]. cbn. done.
Qed.

Lemma node_start_network t setup e info n :
  healthy (tg_storage t) -> t_info (tables (tg_storage t)) !! tt = Some info -> node_start setup (tg_storage t) e = Ok n ->
  network_id info = setup_network_id setup.
Proof.
  intros Hs Hinfo Hr.
  unfold node_start, SnapshotWorker_start, fetch_snapshot_info in Hr. cbn [tg_storage Tangle_new] in Hr.
  rewrite (fetch_ok (FetchOk := fetch_info_ok)) in Hr by done.
  change (get_field (tables (tg_storage t)) !! tt) with (t_info (tables (tg_storage t)) !! tt) in Hr. rewrite Hinfo in Hr.
  cbn [storage_result map_err] in Hr. by destruct (Z.eqb_spec (network_id info) (setup_network_id setup)).
Qed.

(** ** Steps *)

Lemma step_keeps spent n n' :
  worker_safe P Q spent n -> node_step P Q n n' -> exists spent', spent ⊆ spent' /\ worker_safe P Q spent' n' /\ worker_index n <= worker_index n'.
Proof.
  intros Hn Hstep. destruct Hstep as [n t Hs|n n' fuel now command events reply Hlt Hr|n setup e n' Hr].
  - exists spent. split; [done|]. split; [|unfold worker_index; cbn; lia]. destruct Hn as [? Ht]. split; [done|]. by eapply tangle_step_safe.
  - destruct (handle_command_safe P Q Hkt Hkm _ _ _ _ _ _ _ _ Hlt Hn Hr) as (? & spent' & ? & ?). exists spent'. split_and!; [done | done | lia].
  - destruct Hn as [Hpos Ht]. destruct (ls_info _ _ _ _ _ (ts_ledger _ _ _ Ht)) as [info Hinfo].
    pose proof (node_start_network _ _ _ _ _ (ts_healthy _ _ _ Ht) Hinfo Hr) as Hid.
    destruct (node_start_ok _ spent _ setup e info Hpos Ht Hinfo Hid) as (n2 & Hr' & Hix & Hn' & _). rewrite Hr in Hr'. injection Hr' as <-.
    exists spent. split_and!; [done | done|]. unfold worker_index in *. rewrite Hix. done.
Qed.

Lemma reachable_safe spent n n' :
  worker_safe P Q spent n -> rtc (node_step P Q) n n' ->
  exists spent', spent ⊆ spent' /\ worker_safe P Q spent' n' /\ worker_index n <= worker_index n'.
Proof.
  intros Hn Hr. revert spent Hn. induction Hr as [n|n n1 n2 Hs Hr IH]; intros spent Hn; [by exists spent|].
  destruct (step_keeps spent n n1 Hn Hs) as (sp1 & Hsub1 & Hn1 & ?). destruct (IH sp1 Hn1) as (sp2 & Hsub2 & Hn2 & ?).
  exists sp2. split_and!; [by etransitivity | done | lia].
Qed.

(** ** Claims *)

(** C1. Whatever a node does (receiving messages, changing metadata, reading, learning of milestones, confirming them with
    or without a receipt, pruning, restarting), its ledger stays consistent: the unspent outputs and the treasury hold the
    supply, every balance is the sum of the unspent outputs of its address, the dust limits hold, an output that was once
    spent is never unspent again, the index never decreases, and it is the one in the storage. *)
Theorem node_stays_consistent spent n n' :
  worker_safe P Q spent n -> rtc (node_step P Q) n n' ->
  let tb := tables (tg_storage (cw_tangle n')) in
  ledger_inv tb /\ (forall a, dust_ok (total a (live tb)))
  /\ (forall id, id ∈ spent -> live tb !! id = None)
  /\ worker_index n <= worker_index n' /\ t_index tb !! tt = Some (cw_ledger_index n').
Proof.
  intros Hn Hr. destruct (reachable_safe spent n n' Hn Hr) as (spent' & Hsub & [_ Ht] & Hix). pose proof (ts_ledger _ _ _ Ht) as [Hinv Hh _ Hi _ Hd].
  split_and!; [done | done | intros id Hid; by apply (hist_spent _ _ _ Hh), Hsub | done|]. rewrite Hi. unfold worker_index.
  by destruct (cw_ledger_index n') as [[?]].
Qed.

(** C4. A node can be restarted in every state it reaches, on the network it was started on: the validation of the ledger
    succeeds, and the node continues at the index at which it was stopped, with the storage it had. *)
Theorem node_restarts spent n n' info setup e :
  worker_safe P Q spent n -> rtc (node_step P Q) n n' ->
  t_info (tables (tg_storage (cw_tangle n'))) !! tt = Some info -> network_id info = setup_network_id setup ->
  exists n2, node_start setup (tg_storage (cw_tangle n')) e = Ok n2 /\ cw_ledger_index n2 = cw_ledger_index n'
    /\ tg_storage (cw_tangle n2) = tg_storage (cw_tangle n').
Proof.
  intros Hn Hr Hinfo Hid. destruct (reachable_safe spent n n' Hn Hr) as (spent' & _ & [Hpos Ht] & _).
  destruct (node_start_ok _ _ _ setup e info Hpos Ht Hinfo Hid) as (n2 & Hs & Hix & _ & Hst). exists n2. split_and!; [done | | done].
  rewrite Hix. unfold worker_index. by destruct (cw_ledger_index n') as [[?]].
Qed.

(** C5. In every state a node reaches, its answers to queries are those of the ledger: the balance of an address is the sum
    of its unspent outputs, an output that was not spent is returned, and the outputs of an address are recorded for it,
    each once. They contain all of its unspent ones if no more outputs are recorded for the address, the spent ones
    included, than a fetch of the backend returns. Each answer carries the index of the ledger, and the node is left as
    it is. *)
Theorem queries_answered spent n n' fuel now :
  worker_safe P Q spent n -> rtc (node_step P Q) n n' ->
  let tb := tables (tg_storage (cw_tangle n')) in
  (forall a, handle_command fuel now (FetchBalance a) n'
     = Some (n', [], Reply_Balance (Ok (stored_balance (total a (live tb)))) (cw_ledger_index n')))
  /\ (forall id, exists o, handle_command fuel now (FetchOutput id) n' = Some (n', [], Reply_Output (Ok o) (cw_ledger_index n'))
        /\ forall c, live tb !! id = Some c -> o = Some c)
  /\ (forall a, exists l, handle_command fuel now (FetchOutputs (Address_Ed25519 a)) n'
        = Some (n', [], Reply_Outputs (Ok (Some l)) (cw_ledger_index n'))
        /\ NoDup l /\ (forall id, id ∈ l -> t_address tb !! (a, id) = Some tt)
        /\ (within (output_id_limit B) (fun id => t_address tb !! (a, id) = Some tt) ->
            forall id c, live tb !! id = Some c -> created_address c = Some a -> id ∈ l)).
Proof.
  intros Hn Hr. destruct (reachable_safe spent n n' Hn Hr) as (spent' & _ & [_ Ht] & _). cbn zeta.
  pose proof (ts_healthy _ _ _ Ht) as Hs. pose proof (ls_inv _ _ _ _ _ (ts_ledger _ _ _ Ht)) as Hi. cbn [handle_command].
  split_and!.
  - intros a. unfold fetch_balance. rewrite (fetch_ok (FetchOk := fetch_balance_ok)) by done. cbn [storage_result map_err].
    change (get_field (tables (tg_storage (cw_tangle n'))) !! a) with (t_balance (tables (tg_storage (cw_tangle n'))) !! a).
    by rewrite (inv_balance _ Hi).
  - intros id. unfold fetch_output. rewrite (fetch_ok (FetchOk := fetch_created_ok)) by done. eexists. split; [done|].
    intros c [Hc _]%map_lookup_filter_Some. done.
  - intros a. unfold fetch_outputs_for_ed25519_address.
    destruct (fetch_limited (H4 := fetch_address_ok) (tg_storage (cw_tangle n')) a Hs) as (l & Hl & Hd & Hin & Hall). rewrite Hl.
    exists l. split_and!; [done | done | exact Hin|]. intros Hw id c [Hc _]%map_lookup_filter_Some Ha. apply (Hall Hw).
    change (t_address (tables (tg_storage (cw_tangle n'))) !! (a, id) = Some tt). eapply lookup_weaken; [|apply (inv_address _ Hi)].
    apply addresses_lookup. by exists c.
Qed.

(** ** Nodes whose cache agrees with the storage *)

Lemma stored_insert_known id m md t t' :
  tables (tg_storage t') = insert_stored id m md (insert_edges id (parents_inner (message_parents m)) (tables (tg_storage t))) ->
  payload_known P Q (message_payload m) ->
  (forall id m meta, stored (tables (tg_storage t)) id = Some (m, meta) -> payload_known P Q (message_payload m)) ->
  forall id m meta, stored (tables (tg_storage t')) id = Some (m, meta) -> payload_known P Q (message_payload m).
Proof.
  intros Ht Hm Hk id' m' meta. rewrite Ht, stored_insert_stored. case_decide; [by intros [= <- <-]|]. rewrite stored_insert_edges. apply Hk.
Qed.

Lemma insert_keeps index spent m id md t r t' :
  node_inv P Q index spent t -> payload_known P Q (message_payload m) -> Tangle_insert m id md t = Some (r, t') ->
  node_inv P Q index spent t'.
Proof.
  intros Hn Hm Hr. pose proof (ni_tangle _ _ _ _ _ Hn) as Hi. destruct (stored (tables (tg_storage t)) id) as [x|] eqn:Hst.
  - destruct (Tangle_insert_known m id md t x Hi Hst) as (t1 & Hrun & Hi1 & Hs1). rewrite Hr in Hrun. injection Hrun as _ <-.
    by apply (node_inv_storage _ _ _ _ t).
  - destruct (Tangle_insert_new m id md t Hi Hst) as (t1 & Hrun & Hi1 & Ht1). rewrite Hr in Hrun. injection Hrun as _ <-.
    apply (node_inv_same _ _ _ _ t); [done | done| |].
    + rewrite Ht1. eapply same_ledger_trans; [apply same_ledger_edges | apply same_ledger_stored].
    + eapply stored_insert_known; [exact Ht1 | done | apply Hn].
Qed.

Lemma inv_entry_points l t : tangle_inv t -> tangle_inv (replace_solid_entry_points l t).
Proof. intros [? ? ? ?]. destruct t. by split. Qed.

(** C2. Confirming a milestone either succeeds or leaves the storage as it was. If it succeeds then the message is a
    milestone with the next index; the ledger is consistent at this index, and the outputs that were consumed count as
    spent; and every stored message that is reported as referenced is marked, while all others keep their metadata. *)
Theorem confirm_outcome index spent message fuel migrated_at t r t' :
  0 <= index < 2 ^ 32 - 1 -> node_inv P Q index spent t ->
  confirm fuel message (LedgerIndex_new (MilestoneIndex_new index)) migrated_at t = Some (r, t') ->
  match r with
  | Ok c => exists m ms md, milestone_confirmed P Q index spent message t c t' m ms md
      /\ forall id, id ∈ (marked md).*1 <-> MessageReferenced id ∈ confirmed_events c
  | Err _ => node_inv P Q index spent t' /\ tg_storage t' = tg_storage t
  end.
Proof.
  intros Hix Hn Hr. destruct r as [c|e]; [|by eapply confirm_Err].
  destruct (confirm_Ok P Q Hkt Hkm index spent message Hix fuel migrated_at t c t' Hn Hr) as (m & ms & md & Hc).
  exists m, ms, md. split; [done|]. intros id. destruct (cf_events _ _ _ _ _ _ _ _ _ _ _ Hc) as [receipt ->].
  unfold confirm_events. rewrite !elem_of_app, !list_elem_of_fmap. split.
  - intros ([id' cr] & -> & Hin). left. by exists (id', cr).
  - intros [([id' cr] & [= ->] & Hin)|[Hin|[([? ?] & ? & _)|([? [? ?]] & ? & _)]]]; [by exists (id', cr) | | done | done].
    by apply list_elem_of_singleton in Hin.
Qed.

End proofs.

(** ** Evaluation *)

Module Examples.
Import Concrete Ledger.Examples WhiteFlagOrder.Examples WhiteFlagLedger.Examples.

#[local] Remove Hints Storage_backend Storage_tangle_backend : typeclass_instances.
#[local] Instance message_hasher : TableHasher MessageId := byte_hasher message_id_bytes.
#[local] Instance message_hasher_ok : TableHasherOk MessageId.
Proof. intros [[|b l]]; cbn; unfold fits; [lia|]. pose proof (u8_of_byte_range b). lia. Qed.

(** A milestone whose past cone is the message [1] with a transaction; the message [0] is an entry point. *)
Definition milestone_7 : MilestonePayload :=
  mkMilestonePayload
    (mkMilestonePayloadEssence seven 100 (mkParents [msg_id Byte.x01]) (merkle_digest blake2b256 [msg_id Byte.x01]) 0 0
       [repeat Byte.x01 32] None)
    [repeat Byte.x02 64].
Definition only_milestone (ms : MilestonePayload) : Prop := ms = milestone_7.

Definition transfer_message : Message := mkMessage 0 (mkParents [msg_id Byte.x00]) (Some (Payload_Transaction transfer)) 0.
Definition milestone_message : Message := mkMessage 0 (mkParents [msg_id Byte.x01]) (Some (Payload_Milestone milestone_7)) 0.

Definition run {A} (m : st (Tangle Storage) A) (t : Tangle Storage) : Tangle Storage :=
  match m t with Some (_, t) => t | None => t end.

Lemma run_Some {A} (m : st (Tangle Storage) A) t : match m t with Some _ => true | None => false end = true -> exists r, m t = Some (r, run m t).
Proof. unfold run. destruct (m t) as [[r t']|]; [by exists r | done]. Qed.

Definition config : TangleConfig := TangleConfigBuilder_finish (mkTangleConfigBuilder None None None).

Definition tangle_a : Tangle Storage :=
  replace_solid_entry_points [(SolidEntryPoint_new (msg_id Byte.x00), seven)] (Tangle_new config storage_6 (0 : @env counter)).
Definition tangle_b : Tangle Storage := run (Tangle_insert transfer_message (msg_id Byte.x01) (arrived 5)) tangle_a.
Definition tangle_c : Tangle Storage := run (Tangle_insert milestone_message (msg_id Byte.x03) (arrived 6)) tangle_b.

Lemma milestone_7_wf : wf_Payload (Payload_Milestone milestone_7).
Proof.
  apply (unpack_wf (P := Payload_packable) (pack Payload_packable (Payload_Milestone milestone_7)) _ []). vm_compute. reflexivity.
Qed.

Lemma milestone_7_known : known_milestones only_transfer only_milestone.
Proof.
  split; [intros ms ->; exact milestone_7_wf | by intros ms ms' -> -> | intros ms tx -> ->; vm_compute; discriminate].
Qed.

Lemma state_6 : ledger_state only_transfer only_milestone 6 ∅ (tables storage_6).
Proof.
  split; [exact storage_6_inv | exact transfer_history | | | | |].
  - intros ms -> _. rewrite storage_6_tables. split.
    + intros i Hi. split; [|set_solver]. cbn [tables_6 t_created]. apply lookup_singleton_ne. intros <-. vm_compute in Hi. discriminate.
    + intros x Hx. assert (x = treasury) as ->.
      { symmetry. apply Hx. cbn [tables_6 t_treasury]. by rewrite lookup_singleton_eq. }
      vm_compute. discriminate.
  - rewrite storage_6_tables. cbn [tables_6 t_index]. by rewrite lookup_singleton_eq.
  - rewrite storage_6_tables. cbn [tables_6 t_info]. rewrite lookup_singleton_eq. by eexists.
  - intros a. rewrite <- stored_total by exact storage_6_inv. apply storage_6_dust.
  - intros i d oid Hd. rewrite storage_6_tables in Hd. discriminate Hd.
Qed.

Lemma tangle_a_inv : node_inv only_transfer only_milestone 6 ∅ tangle_a.
Proof.
  split; [|exact state_6|intros i m meta Hm; discriminate Hm].
  apply inv_entry_points, Tangle_new_inv; [exact storage_6_healthy | done | intros i m meta p Hm; discriminate Hm].
Qed.

Lemma tangle_c_inv :
  node_inv only_transfer only_milestone 6 ∅ tangle_c
  /\ stored (tables (tg_storage tangle_c)) (msg_id Byte.x03) = Some (milestone_message, arrived 6).
Proof.
  pose proof tangle_a_inv as Ha.
  destruct (Tangle_insert_new transfer_message (msg_id Byte.x01) (arrived 5) tangle_a (ni_tangle _ _ _ _ _ Ha) eq_refl) as (tb & Hb & Hib & Htb).
  assert (Heb : tangle_b = tb) by (unfold tangle_b, run; rewrite Hb; reflexivity).
  pose proof (insert_keeps _ _ _ _ _ _ _ _ _ _ Ha (eq_refl : payload_known only_transfer only_milestone (message_payload transfer_message)) Hb) as Hnb.
  assert (Hst : stored (tables (tg_storage tb)) (msg_id Byte.x03) = None).
  { rewrite Htb, stored_insert_stored, decide_False by (vm_compute; discriminate). rewrite stored_insert_edges. reflexivity. }
  destruct (Tangle_insert_new milestone_message (msg_id Byte.x03) (arrived 6) tb Hib Hst) as (tc & Hc & Hic & Htc).
  assert (Hec : tangle_c = tc) by (unfold tangle_c, run; rewrite Heb, Hc; reflexivity). rewrite Hec.
  split; [exact (insert_keeps _ _ _ _ _ _ _ _ _ _ Hnb (eq_refl : payload_known only_transfer only_milestone (message_payload milestone_message)) Hc)|].
  rewrite Htc, stored_insert_stored, decide_True by reflexivity. reflexivity.
Qed.

Lemma check_result {E A} (r : option (result E A)) (p : A -> bool) :
  match r with Some (Ok a) => p a | _ => false end = true -> exists a, r = Some (Ok a) /\ p a = true.
Proof. destruct r as [[a|]|]; intros Hp; [by exists a | done | done]. Qed.

Abbreviation six := (LedgerIndex_new (MilestoneIndex_new 6)).
Definition confirm_7 := confirm 10 (msg_id Byte.x03) six (MilestoneIndex_new 0) tangle_c.

Lemma confirm_7_ok : exists c t, confirm_7 = Some (Ok c, t) /\ milestone_index (ledger_index (confirmed_ledger_index c)) = 7.
Proof.
  destruct (check_result (r ← confirm_7; Some (let? c := r.1 in Ok (c, r.2)))
              (fun c => milestone_index (ledger_index (confirmed_ledger_index c.1)) =? 7)) as ([c t] & Hc & Hix).
  { vm_compute. reflexivity. }
  exists c, t. apply bind_Some in Hc as ([r t'] & Hr & Hc). rewrite Hr. destruct r as [c'|e]; [|discriminate Hc].
  injection Hc as -> ->. split; [reflexivity | exact (proj1 (Z.eqb_eq _ _) Hix)].
Qed.

Lemma confirm_outcome_witness :
  exists c t m ms md, confirm_7 = Some (Ok c, t) /\ message_payload m = Some (Payload_Milestone ms)
    /\ milestone_confirmed only_transfer only_milestone 6 ∅ (msg_id Byte.x03) tangle_c c t m ms md.
Proof.
  destruct confirm_7_ok as (c & t & Hc & _).
  pose proof (fun r t' => confirm_outcome only_transfer only_milestone transfer_known milestone_7_known 6 ∅ (msg_id Byte.x03) 10
    (MilestoneIndex_new 0) tangle_c r t' ltac:(lia) (proj1 tangle_c_inv)) as Hout. fold confirm_7 in Hout.
  specialize (Hout (Ok c) t Hc). destruct Hout as (m & ms & md & Hm & _).
  exists c, t, m, ms, md. split; [exact Hc|]. split; [exact (cf_payload _ _ _ _ _ _ _ _ _ _ _ Hm) | exact Hm].
Defined.




(** The node receives the milestone, confirms it, and is restarted. *)
Definition snapshot_6 : SnapshotConfig := SnapshotConfigBuilder_finish (mkSnapshotConfigBuilder None None None None None None).
Definition pruning_6 : PruningConfig := PruningConfigBuilder_finish (mkPruningConfigBuilder None None None).
Definition setup : Setup := mkSetup config snapshot_6 pruning_6 1 None None (Err NoMilestonePayload).
Definition settings : ConsensusSettings := mkConsensusSettings snapshot_6 pruning_6 50 60480.
Definition node_a : ConsensusWorker Storage := mkConsensusWorker tangle_a six (MilestoneIndex_new 0) 0 settings.
Definition node_c : ConsensusWorker Storage := with_tangle tangle_c node_a.

Lemma node_a_safe : worker_safe only_transfer only_milestone ∅ node_a.
Proof.
  split; [cbn; lia|]. apply inv_safe; [exact storage_6_healthy | reflexivity | exact state_6 | intros i m Hm; discriminate Hm].
Qed.

Abbreviation step := (node_step (B := Storage) only_transfer only_milestone).

Lemma node_c_reached : rtc step node_a node_c.
Proof.
  destruct (run_Some (Tangle_insert transfer_message (msg_id Byte.x01) (arrived 5)) tangle_a) as [rb Hb]; [vm_compute; reflexivity|].
  destruct (run_Some (Tangle_insert milestone_message (msg_id Byte.x03) (arrived 6)) tangle_b) as [rc Hc]; [vm_compute; reflexivity|].
  eapply rtc_l; [eapply step_tangle, tangle_insert; [|exact Hb]; reflexivity|].
  eapply rtc_l; [eapply step_tangle, tangle_insert; [|exact Hc]; reflexivity|]. apply rtc_refl.
Qed.

Lemma node_c_confirms : exists n, rtc step node_a n /\ worker_index n = 7.
Proof.
  pose (r := handle_command 10 (fun _ => 0) (ConfirmMilestone (msg_id Byte.x03)) node_c).
  destruct (check_result ((fun r => Ok (E := unit) r) <$> r) (fun r => worker_index r.1.1 =? 7)) as ([[n ev] reply] & Hr & Hix).
  { vm_compute. reflexivity. }
  apply fmap_Some in Hr as (x & Hr & [= <-]). exists n. split; [|exact (proj1 (Z.eqb_eq _ _) Hix)].
  eapply rtc_r; [exact node_c_reached|]. eapply step_command; [vm_compute; reflexivity | exact Hr].
Qed.

Lemma node_stays_consistent_witness : exists n, worker_index n = 7 /\ ledger_inv (tables (tg_storage (cw_tangle n))).
Proof.
  destruct node_c_confirms as (n & Hn & Hix). exists n. split; [exact Hix|].
  exact (proj1 (node_stays_consistent only_transfer only_milestone transfer_known milestone_7_known ∅ node_a n node_a_safe Hn)).
Defined.

Lemma node_restarts_witness :
  exists n, node_start setup (tg_storage (cw_tangle node_c)) (0 : @env counter) = Ok n /\ cw_ledger_index n = six.
Proof.
  destruct (node_restarts only_transfer only_milestone transfer_known milestone_7_known ∅ node_a node_c info_6 setup (0 : @env counter)
              node_a_safe node_c_reached) as (n & Hs & Hix & _); [vm_compute; reflexivity | reflexivity|].
  exists n. split; [exact Hs | exact Hix].
Defined.

Lemma queries_answered_witness :
  handle_command 10 (fun _ => 0) (FetchBalance (owner Byte.x01)) node_c
    = Some (node_c, [], Reply_Balance (Ok (stored_balance (total (owner Byte.x01) (live (tables (tg_storage (cw_tangle node_c))))))) six)
  /\ forall a, exists l, handle_command 10 (fun _ => 0) (FetchOutputs (Address_Ed25519 a)) node_c = Some (node_c, [], Reply_Outputs (Ok (Some l)) six)
    /\ forall id c, live (tables (tg_storage (cw_tangle node_c))) !! id = Some c -> created_address c = Some a -> id ∈ l.
Proof.
  destruct (queries_answered only_transfer only_milestone transfer_known milestone_7_known ∅ node_a node_c 10 (fun _ => 0)
    node_a_safe node_c_reached) as (Hb & _ & Ho).
  split; [apply Hb|]. intros a. destruct (Ho a) as (l & Hl & _ & _ & Hall). exists l. split; [exact Hl | by apply Hall].
Defined.
End Examples.
