(* ===== verification/Protocol.v ===== *)
(** * The protocol as a whole

    The workers of [Workers.v] run next to each other and next to the consensus worker, which confirms the milestones that
    the solidifier hands over. [sync_step] is one step of any of them: an event of any worker is handled, whatever the order
    in which the events of different workers were sent, a packet or a submission arrives, a timer fires, a peer comes or
    goes, or the consensus worker handles a command: the confirmation of the next milestone, or a query. A handler is one
    step.

    In every state that is reached, the milestones that wait for their confirmation are the ones that follow the ledger, in
    their order; each of them is stored and solid, so that its past cone is available, and White Flag traverses it without
    missing a message. The theorems are about a node whose configuration disables pruning: pruning makes the cache and the
    storage differ. *)

From stdpp Require Import relations.
From S2P Require Import Prelude Packable External MessageTypes Payload PayloadKeys PayloadCodec Message Packets Pow.
From S2P Require Import TangleTypes LedgerTypes Vertices Storage StorageTables StorageMemory Tangle TangleFrame TangleCache TipPool.
From S2P Require Import Solidity Peers Calm LedgerStorage Pruning Ledger Merkle WhiteFlag WhiteFlagOrder Confirm Consensus Workers ConfirmLedger.
From S2P Require Import Trits StorageSystem WhiteFlagLedger Node.

Local Open Scope Z_scope.

(** ** Steps *)

Section steps.
Context `{IteratorSorted} `{Crypto} `{Hex} `{Curl} `{XxHash} `{PeerIds} `{TableHasher MessageId} `{HashOrder} `{Environment} `{Bitflags}
  `{ProtocolBackend B}.
Implicit Types (p : Protocol B).

(** The protocol, with the variables of the consensus worker; the tangle is shared. *)
Record Sync := mkSync {
  sy_protocol : Protocol B;
  sy_ledger : LedgerIndex;
  sy_migrated_at : MilestoneIndex;
  sy_num_prunings : Z;
}.

Definition sync_worker (settings : ConsensusSettings) (s : Sync) : ConsensusWorker B :=
  mkConsensusWorker (pr_tangle (sy_protocol s)) (sy_ledger s) (sy_migrated_at s) (sy_num_prunings s) settings.
Definition sync_with (p : Protocol B) (w : ConsensusWorker B) : Sync :=
  mkSync (set_pr_tangle (cw_tangle w) p) (cw_ledger_index w) (cw_receipt_migrated_at w) (cw_num_prunings w).

(** The message of a milestone to confirm. *)
Definition confirming_event (e : WorkerEvent) : option MessageId :=
  match e with
  | To_Consensus (ConfirmMilestone id) => Some id
  | _ => None
  end.
Definition propagating_event (e : WorkerEvent) : option MessageId :=
  match e with
  | To_Propagator id => Some id
  | _ => None
  end.
Definition confirming (q : list WorkerEvent) : list MessageId := omap confirming_event q.
Definition propagating (q : list WorkerEvent) : list MessageId := omap propagating_event q.

(** The last milestone index is not in use: its successor would be zero. *)
Definition bounded p : Prop := milestone_index (tg_latest (pr_tangle p)) < 2 ^ 32 - 1.

Context (config : ProtocolConfig) (settings : ConsensusSettings) (edges : B -> nat).

Inductive protocol_step : Protocol B -> Protocol B -> Prop :=
| step_event fuel now q1 e q2 p p' :
    pr_queue p = q1 ++ e :: q2 -> confirming_event e = None -> (edges (tg_storage (pr_tangle p)) < fuel)%nat ->
    handle_event config fuel now e (set_pr_queue (q1 ++ q2) p) = Some (tt, p') -> protocol_step p p'
| step_submit message n p p' : submit message n p = Some (tt, p') -> protocol_step p p'
| step_packet now peer header bs p p' : process_packet now peer header bs p = Some (tt, p') -> protocol_step p p'
| step_retry_messages now p p' : retry_messages now p = Some (tt, p') -> protocol_step p p'
| step_retry_milestones now p p' : retry_milestones now p = Some (tt, p') -> protocol_step p p'
| step_network now event p : protocol_step p (set_pr_peers (handle_network_event now (pr_tangle p) event (pr_peers p)) p).

(** The consensus worker takes the first of the confirmations that wait for it; a query comes from elsewhere. *)
Inductive sync_step : Sync -> Sync -> Prop :=
| sync_protocol p p' l m n : bounded p -> protocol_step p p' -> sync_step (mkSync p l m n) (mkSync p' l m n)
| sync_confirm fuel now q1 id q2 s w events reply :
    pr_queue (sy_protocol s) = q1 ++ To_Consensus (ConfirmMilestone id) :: q2 -> confirming q1 = [] ->
    handle_command fuel now (ConfirmMilestone id) (sync_worker settings s) = Some (w, events, reply) ->
    sync_step s (sync_with (set_pr_queue (q1 ++ q2) (sy_protocol s)) w)
| sync_query fuel now command s w events reply :
    (forall id, command <> ConfirmMilestone id) ->
    handle_command fuel now command (sync_worker settings s) = Some (w, events, reply) ->
    sync_step s (sync_with (sy_protocol s) w).
End steps.
Arguments Sync {_ _} B {_}.
#[local] Arguments propagating : simpl never.
#[local] Arguments confirming : simpl never.

(** ** The invariant *)

Section invariant.
Context `{IteratorSortedOk} `{Crypto} `{Hex} `{Curl} `{XxHash} `{PeerIds} `{TableHasherOk MessageId} `{HashOrderOk} `{EnvironmentOk} `{BitflagsOk}
  `{LedgerBackendOk B} `{!ProtocolBackend B} `{!InsertOk B (PaddedIndex * MessageId) unit}.
Implicit Types (t : Tangle B) (p : Protocol B) (id : MessageId) (q : list WorkerEvent).

(** The message [id] is the milestone number [i]. *)
Definition milestone_at t id (i : Z) : Prop :=
  exists m ms, fst <$> stored_at t id = Some m /\ message_payload m = Some (Payload_Milestone ms) /\ milestone_number ms = i.

(** The message of an event is stored. *)
Definition event_ok t (e : WorkerEvent) : Prop :=
  match e with
  | To_Payload id m | To_MilestonePayload id m => fst <$> stored_at t id = Some m
  | _ => True
  end.

(** The batch of the inserter changes one table only. *)
Definition batch_small (b : storage_batch B) : Prop :=
  forall tb, exists u : gmap (MilestoneIndex * UnreferencedMessage) unit, pending b tb = set_field u tb.

Record protocol_inv (ledger : Z) (X : list MessageId) p : Prop := {
  pi_ledger : 0 <= ledger;
  pi_solidity : solidity (pr_tangle p) (X ++ propagating (pr_queue p));
  pi_batch : batch_small (pr_batch p);
  pi_events : Forall (event_ok (pr_tangle p)) (pr_queue p);
  pi_milestones i ms : milestones_of (pr_tangle p) !! i = Some ms -> ledger < milestone_index i ->
    milestone_at (pr_tangle p) (milestone_message_id ms) (milestone_index i);
  pi_commands k id : confirming (pr_queue p) !! k = Some id ->
    milestone_at (pr_tangle p) id (ledger + 1 + Z.of_nat k) /\ solid (pr_tangle p) id;
  pi_solid : milestone_index (tg_solid (pr_tangle p)) = ledger + len (confirming (pr_queue p));
  pi_latest : milestone_index (tg_solid (pr_tangle p)) <= milestone_index (tg_latest (pr_tangle p));
}.

Definition sync_index (s : Sync B) : Z := milestone_index (ledger_index (sy_ledger s)).
Definition sync_inv (s : Sync B) : Prop := protocol_inv (sync_index s) [] (sy_protocol s).

(** *** Rules *)

Lemma same_messages_milestone t t' id i : same_messages t t' -> milestone_at t id i -> milestone_at t' id i.
Proof. intros [_ Hm] (m & ms & Hs & Hp & Hn). exists m, ms. by rewrite Hm. Qed.

Lemma same_messages_events t t' q : same_messages t t' -> Forall (event_ok t) q -> Forall (event_ok t') q.
Proof. intros [_ Hm] Hq. eapply Forall_impl; [exact Hq|]. intros [] He; try done; cbn in *; by rewrite Hm. Qed.

(** Another tangle with more solid messages, and the same milestones and indexes. *)
Lemma inv_set_tangle ledger X X' p t :
  protocol_inv ledger X p -> solidity t (X' ++ propagating (pr_queue p)) -> same_messages (pr_tangle p) t ->
  (forall id, solid (pr_tangle p) id -> solid t id) -> milestones_of t = milestones_of (pr_tangle p) ->
  tg_latest t = tg_latest (pr_tangle p) -> tg_solid t = tg_solid (pr_tangle p) -> protocol_inv ledger X' (set_pr_tangle t p).
Proof.
  intros [G0 G1 G2 G3 G4 G5 G6 G7] Hso Hm Hs Hms Hl Hsm. destruct p as [t0 ? ? ? ? ? ? ? q]. cbn in *. split; cbn; rewrite ?Hms, ?Hl, ?Hsm; try done.
  - by eapply same_messages_events.
  - intros i ms Hi Hlt. eapply same_messages_milestone; [done | by apply G4].
  - intros k id Hk. destruct (G5 k id Hk). split; [by eapply same_messages_milestone | by apply Hs].
Qed.

Lemma inv_calm ledger X p t : protocol_inv ledger X p -> calm (pr_tangle p) t -> protocol_inv ledger X (set_pr_tangle t p).
Proof.
  intros Hp Hc. destruct (calm_indexes _ _ Hc) as (Hl & Hs & _). eapply inv_set_tangle; [done | | | | | done | done].
  - apply Hc, Hp.
  - apply Hc.
  - intros id. apply Hc.
  - apply Hc.
Qed.

(** [m] keeps the invariant, and changes nothing in the tangle that matters for solidity. *)
Definition quiet {A} (m : st (Protocol B) A) : Prop := forall ledger X p a p',
  protocol_inv ledger X p -> m p = Some (a, p') -> protocol_inv ledger X p' /\ calm (pr_tangle p) (pr_tangle p').

Lemma quiet_ret {A} (a : A) : quiet (sret a).
Proof. intros ledger X p a' p' Hp [= <- <-]. split; [done | apply calm_refl]. Qed.

Lemma quiet_panic {A} : quiet (spanic (A := A)).
Proof. by intros ledger X p a p' Hp. Qed.

Lemma quiet_bind {A A'} (m : st (Protocol B) A) (k : A -> st (Protocol B) A') : quiet m -> (forall a, quiet (k a)) -> quiet (sbind m k).
Proof.
  intros Hm Hk ledger X p a p' Hp (b & p1 & Hr1 & Hr2)%sbind_inv. destruct (Hm _ _ _ _ _ Hp Hr1) as [Hp1 Hc1].
  destruct (Hk _ _ _ _ _ _ Hp1 Hr2) as [Hp2 Hc2]. split; [done | by eapply calm_trans].
Qed.

Lemma quiet_for {A} (f : A -> st (Protocol B) unit) l : (forall a, quiet (f a)) -> quiet (sfor f l).
Proof. intros Hf. induction l as [|a l IH]; [apply quiet_ret|]. by apply quiet_bind. Qed.

Lemma on_tangle_inv {A} (m : st (Tangle B) A) p a p' :
  on_tangle m p = Some (a, p') -> exists t, m (pr_tangle p) = Some (a, t) /\ p' = set_pr_tangle t p.
Proof. unfold on_tangle. destruct (m (pr_tangle p)) as [[a' t]|]; [|done]. intros [= <- <-]. by exists t. Qed.

Lemma pr_tangle_set t p : pr_tangle (set_pr_tangle t p) = t.
Proof. by destruct p. Qed.

Lemma quiet_tangle {A} (m : st (Tangle B) A) : calms_any m -> quiet (on_tangle m).
Proof.
  intros Hm ledger X p a p' Hp (t & Hr & ->)%on_tangle_inv. pose proof (Hm _ _ _ _ (pi_solidity _ _ _ Hp) Hr) as Hc.
  rewrite pr_tangle_set. split; [by apply inv_calm | done].
Qed.

Lemma quiet_gets {A} (f : Protocol B -> A) : quiet (pgets f).
Proof. intros ledger X p a p' Hp [= <- <-]. split; [done | apply calm_refl]. Qed.

(** A change of what the invariant does not mention. *)
Lemma inv_modify ledger X p p' :
  protocol_inv ledger X p -> pr_tangle p' = pr_tangle p -> pr_queue p' = pr_queue p -> pr_batch p' = pr_batch p -> protocol_inv ledger X p'.
Proof. intros [] Ht Hq Hb. split; by rewrite ?Ht, ?Hq, ?Hb. Qed.

Lemma quiet_modify (f : Protocol B -> Protocol B) :
  (forall p, pr_tangle (f p) = pr_tangle p /\ pr_queue (f p) = pr_queue p /\ pr_batch (f p) = pr_batch p) -> quiet (pmodify f).
Proof.
  intros Hf ledger X p a p' Hp [= <- <-]. destruct (Hf p) as (Ht & Hq & Hb). split; [by apply (inv_modify _ _ p) | rewrite Ht; apply calm_refl].
Qed.

Lemma quiet_peers {A} (f : PeerManager -> A * PeerManager) : quiet (on_peers f).
Proof.
  intros ledger X p a p' Hp Hr. unfold on_peers in Hr. destruct (f (pr_peers p)) as [a' peers]. injection Hr as <- <-.
  split; [by apply (inv_modify _ _ p); try destruct p | destruct p; apply calm_refl].
Qed.

Lemma propagating_app q q' : propagating (q ++ q') = propagating q ++ propagating q'.
Proof. apply omap_app. Qed.
Lemma confirming_app q q' : confirming (q ++ q') = confirming q ++ confirming q'.
Proof. apply omap_app. Qed.

(** An event that is neither for the propagator nor for the consensus worker. *)
Lemma emit_inv ledger X e p :
  protocol_inv ledger X p -> propagating_event e = None -> confirming_event e = None -> event_ok (pr_tangle p) e ->
  protocol_inv ledger X (set_pr_queue (pr_queue p ++ [e]) p).
Proof.
  intros [G0 G1 G2 G3 G4 G5 G6 G7] Hp Hc He. destruct p as [t ? ? ? ? ? ? ? q]. cbn in *.
  assert (Hq1 : propagating (q ++ [e]) = propagating q) by (rewrite propagating_app; unfold propagating at 2; cbn; by rewrite Hp, app_nil_r).
  assert (Hq2 : confirming (q ++ [e]) = confirming q) by (rewrite confirming_app; unfold confirming at 2; cbn; by rewrite Hc, app_nil_r).
  split; cbn; rewrite ?Hq1, ?Hq2; try done. apply Forall_app. by split; [|constructor].
Qed.

Lemma quiet_emit e : propagating_event e = None -> confirming_event e = None -> (forall t, event_ok t e) -> quiet (emit e).
Proof. intros He Hc Hok ledger X p a p' Hp [= <- <-]. split; [by apply emit_inv | destruct p; apply calm_refl]. Qed.

(** The storage changes in other tables than those of the messages and milestones. *)
Definition same_tables (tb tb' : LedgerTables) : Prop :=
  t_message (t_node tb') = t_message (t_node tb) /\ t_metadata (t_node tb') = t_metadata (t_node tb)
  /\ t_edge (t_node tb') = t_edge (t_node tb) /\ t_milestone (t_node tb') = t_milestone (t_node tb).

Lemma calm_tables t (s : B) : healthy s -> same_tables (tables (tg_storage t)) (tables s) -> calm t (with_storage s t).
Proof. intros Hs (K1 & K2 & K3 & K4). apply calm_storage; unfold stored, edge; rewrite ?K1, ?K2, ?K3; done. Qed.

Lemma same_tables_indexation (tb : LedgerTables) k : same_tables tb (insert_table (V := unit) (k : PaddedIndex * MessageId) tt tb).
Proof. by destruct tb as [? ? ? ? ? ? ? ? ? ? []]. Qed.
Lemma same_tables_unreferenced (tb : LedgerTables) (u : gmap (MilestoneIndex * UnreferencedMessage) unit) : same_tables tb (set_field u tb).
Proof. by destruct tb as [? ? ? ? ? ? ? ? ? ? []]. Qed.

Ltac quiet :=
  repeat first
    [ apply quiet_ret | apply quiet_panic | apply quiet_gets | apply quiet_peers | apply quiet_tangle; eauto with calm
    | apply quiet_modify; by intros [] | apply quiet_emit; done | apply quiet_for; intros ?
    | match goal with |- quiet (sbind _ _) => apply quiet_bind; [|intros ?] end | case_match
    | solve [eauto with calm] ].

Create HintDb calm.
#[local] Hint Resolve calms_get_metadata calms_get_vertex calms_children calms_contains_milestone calms_milestone_message calms_update_tip_scores
  calms_solidified : calm.

Lemma calms_contains_any id : calms_any (Tangle_contains (B := B) id).
Proof. eapply any_calms, calms_contains. Qed.
Lemma calms_get_any id : calms_any (Tangle_get (B := B) id).
Proof. eapply any_calms, calms_get. Qed.
#[local] Hint Resolve calms_contains_any calms_get_any : calm.

Lemma quiet_notify notifier reply : quiet (notify (B := B) notifier reply).
Proof. unfold notify. quiet. Qed.
#[local] Hint Resolve quiet_notify : calm.

Lemma quiet_hasher config from packet notifier : quiet (handle_hasher config from packet notifier).
Proof. unfold handle_hasher. quiet. Qed.

Lemma quiet_request_message id index : quiet (request_message id index).
Proof. unfold request_message. quiet. Qed.
#[local] Hint Resolve quiet_request_message : calm.

Lemma quiet_request_milestone index peer : quiet (request_milestone index peer).
Proof. unfold request_milestone. quiet. Qed.
#[local] Hint Resolve quiet_request_milestone : calm.

Lemma quiet_message_request id index : quiet (message_request_unchecked id index).
Proof. unfold message_request_unchecked. quiet. Qed.
Lemma quiet_milestone_request index peer : quiet (milestone_request_unchecked index peer).
Proof. unfold milestone_request_unchecked. quiet. Qed.
#[local] Hint Resolve quiet_message_request quiet_milestone_request : calm.

Lemma quiet_message_requester now id index : quiet (handle_message_requester now id index).
Proof. unfold handle_message_requester. quiet. Qed.
Lemma quiet_milestone_requester now index peer : quiet (handle_milestone_requester now index peer).
Proof. unfold handle_milestone_requester. quiet. Qed.

Lemma quiet_retry_messages now : quiet (retry_messages now).
Proof. unfold retry_messages. quiet. Qed.
Lemma quiet_retry_milestones now : quiet (retry_milestones now).
Proof. unfold retry_milestones. quiet. Qed.

Lemma quiet_message_responder peer request : quiet (handle_message_responder peer request).
Proof. unfold handle_message_responder, respond. quiet. Qed.
Lemma quiet_milestone_responder peer request : quiet (handle_milestone_responder peer request).
Proof. unfold handle_milestone_responder, respond. quiet. Qed.

Lemma quiet_heartbeat now : quiet (heartbeat now).
Proof. unfold heartbeat. quiet. Qed.

Lemma quiet_tip_pool now s : quiet (handle_tip_pool now s).
Proof. unfold handle_tip_pool. quiet. Qed.

Lemma quiet_transaction id m : quiet (handle_transaction_payload (B := B) id m).
Proof. unfold handle_transaction_payload. quiet. Qed.

Lemma quiet_process_packet now peer header bs : quiet (process_packet now peer header bs).
Proof. unfold process_packet. quiet. Qed.

(** *** The index updater *)

Ltac calms :=
  repeat first
    [ apply calms_ret | apply calms_panic | apply calms_gets | match goal with |- calms_any (sbind _ _) => apply calms_bind; [|intros ?] end | case_match
    | apply calms_update; intros ?; first [apply keeps_roots_past | apply keeps_roots_omrsi | apply keeps_roots_ymrsi]
    | solve [eauto with calm] ].

Lemma calms_past_cone fuel parents index updated : calms_any (update_past_cone (B := B) fuel parents index updated).
Proof. revert parents updated. induction fuel; intros [|parent parents] updated; cbn [update_past_cone]; calms. Qed.

Lemma calms_update_child parent o y child : calms_any (update_child (B := B) parent o y child).
Proof. unfold update_child. calms. Qed.

Lemma calms_update_children parent o y processed children : calms_any (update_children (B := B) parent o y processed children).
Proof. induction children; cbn [update_children]; [calms|]. apply calms_bind; [apply calms_update_child | intros; calms]. Qed.
#[local] Hint Resolve calms_past_cone calms_update_children : calm.

Lemma calms_future_cone fuel to_process processed : calms_any (update_future_cone (B := B) fuel to_process processed).
Proof. revert to_process processed. induction fuel; intros [|parent to_process] processed; cbn [update_future_cone]; calms. Qed.
#[local] Hint Resolve calms_future_cone : calm.

Lemma quiet_index_updater fuel index ms : quiet (handle_index_updater fuel index ms).
Proof. unfold handle_index_updater. quiet. Qed.

(** *** Writing to the storage *)

Lemma quiet_indexation id m : quiet (handle_indexation_payload id m).
Proof.
  unfold handle_indexation_payload. case_match; [|apply quiet_ret]. intros ledger X p a p' Hp [= <- <-].
  pose proof (ti_healthy _ (so_tangle _ _ (pi_solidity _ _ _ Hp))) as Hh. destruct (insert_ok _ (padded_index i, id) tt Hh) as (s & -> & Hs & Ht).
  assert (Hc : calm (pr_tangle p) (with_storage s (pr_tangle p))) by (apply calm_tables; [done|]; rewrite Ht; apply same_tables_indexation).
  rewrite pr_tangle_set. split; [by apply inv_calm | done].
Qed.

Lemma batch_small_begin : batch_small (batch_begin B).
Proof. intros tb. rewrite pending_begin. exists (get_field tb). by destruct tb as [? ? ? ? ? ? ? ? ? ? []]. Qed.

Lemma quiet_unreferenced id index : quiet (handle_unreferenced_inserter id index).
Proof.
  intros ledger X p a p' Hp. pose proof (ti_healthy _ (so_tangle _ _ (pi_solidity _ _ _ Hp))) as Hh.
  destruct (batch_insert_ok _ (pr_batch p) (index, UnreferencedMessage_new id) tt Hh) as (b & Hb & Hpend).
  assert (Hsmall : batch_small b).
  { intros tb. rewrite Hpend. destruct (pi_batch _ _ _ Hp tb) as [u ->]. eexists. by destruct tb as [? ? ? ? ? ? ? ? ? ? []]. }
  unfold handle_unreferenced_inserter, pgets, sbind. rewrite Hb. case_match; intros [= <- <-].
  - destruct (batch_commit_ok (tg_storage (pr_tangle p)) b true Hh) as (s & -> & Hs & Ht).
    assert (Hc : calm (pr_tangle p) (with_storage s (pr_tangle p))).
    { destruct (Hsmall (tables (tg_storage (pr_tangle p)))) as [u Hu].
      apply calm_tables; [done|]. rewrite Ht, Hu. apply same_tables_unreferenced. }
    split; [|by destruct p]. destruct (inv_calm _ _ _ _ Hp Hc). destruct p. by split; try apply batch_small_begin.
  - split; [|destruct p; apply calm_refl]. destruct p, Hp. by split.
Qed.

(** *** Payloads *)

Lemma payload_inv ledger X p id m u p' :
  protocol_inv ledger X p -> fst <$> stored_at (pr_tangle p) id = Some m -> handle_payload id m p = Some (u, p') -> protocol_inv ledger X p'.
Proof. intros Hp Hm. unfold handle_payload. repeat case_match; intros [= _ <-]; by apply emit_inv || done. Qed.

(** *** The processor *)

Lemma unpacked_parents bs m rest : unpack Message_packable bs = Ok (m, rest) -> parents_at m <> [].
Proof.
  intros Hu. apply Message_unpack_inv in Hu as [(_ & (_ & Hl & _) & _) _]. unfold parents_at, len in *. intros E. rewrite E in Hl. cbn in Hl. lia.
Qed.

(** A new message waits for the propagator. *)
Lemma insert_inv ledger X p id m now :
  protocol_inv ledger X p -> stored_at (pr_tangle p) id = None -> parents_at m <> [] ->
  exists t, Tangle_insert m id (arrived now) (pr_tangle p) = Some (Some m, t) /\ fst <$> stored_at t id = Some m
    /\ protocol_inv ledger X (set_pr_queue (pr_queue p ++ [To_Propagator id]) (set_pr_tangle t p)).
Proof.
  intros [G0 G1 G2 G3 G4 G5 G6 G7] Hn Hne. destruct (insert_solidity m id (arrived now) (pr_tangle p) _ G1 Hn Hne) as (t & Hr & Hso & Hf & Ht);
    [by apply arrived_flags..|].
  assert (Hat : forall x, stored_at t x = if decide (id = x) then Some (m, arrived now) else stored_at (pr_tangle p) x).
  { intros x. unfold stored_at. by rewrite Ht, stored_insert_stored, stored_insert_edges. }
  assert (Hsub : forall x m', fst <$> stored_at (pr_tangle p) x = Some m' -> fst <$> stored_at t x = Some m').
  { intros x m' Hx. rewrite Hat. by destruct (decide (id = x)) as [<-|]; [rewrite Hn in Hx|]. }
  assert (Hms : forall x i, milestone_at (pr_tangle p) x i -> milestone_at t x i).
  { intros x i (m' & ms & Hx & ?). exists m', ms. split; [by apply Hsub | done]. }
  destruct (same_rest_fields _ _ Hf) as (_ & _ & F3 & F4 & F5 & _).
  assert (Hsol : forall x, solid (pr_tangle p) x -> solid t x).
  { intros x [?|(m' & md & Hx & ?)]; [left; unfold sep; by rewrite F3 | right; exists m', md]. rewrite Hat. destruct (decide (id = x)) as [<-|]; [congruence | done]. }
  assert (Hmt : milestones_of t = milestones_of (pr_tangle p)) by (unfold milestones_of; by rewrite Ht, milestone_insert_stored, milestone_insert_edges).
  exists t. split_and!; [done | rewrite Hat, decide_True; done|]. destruct p as [t0 ? ? ? ? ? ? ? q]. cbn in *.
  assert (Hq : confirming (q ++ [To_Propagator id]) = confirming q) by (rewrite confirming_app; apply app_nil_r).
  split; cbn; rewrite ?Hq, ?Hmt, ?F4, ?F5; try done.
  - eapply solidity_weaken; [exact Hso|]. intros x. rewrite propagating_app. unfold propagating at 3. cbn. set_solver.
  - apply Forall_app. split; [|by constructor]. eapply Forall_impl; [exact G3|]. intros []; cbn; try done; apply Hsub.
  - intros i ms Hi Hl. by apply Hms, G4.
  - intros k x Hk. destruct (G5 k x Hk). split; [by apply Hms | by apply Hsol].
Qed.

(** The invariant, and a message that is stored. *)
Definition with_message (ledger : Z) (X : list MessageId) id (m : Message) p : Prop :=
  protocol_inv ledger X p /\ fst <$> stored_at (pr_tangle p) id = Some m.

Lemma quiet_with_message {A} ledger X id m (f : st (Protocol B) A) : quiet f -> keeps (with_message ledger X id m) f (fun _ => True).
Proof.
  intros Hf p a p' [Hp Hm] Hr. destruct (Hf _ _ _ _ _ Hp Hr) as [Hp' Hc]. split; [|done]. split; [done|]. by rewrite (proj2 (calm_messages _ _ Hc)).
Qed.

Lemma quiet_keeps {A} ledger X (f : st (Protocol B) A) : quiet f -> keeps (protocol_inv ledger X) f (fun _ => True).
Proof. intros Hf p a p' Hp Hr. split; [by eapply Hf | done]. Qed.

Lemma keeps_emit_message ledger X id m e :
  propagating_event e = None -> confirming_event e = None -> (forall t, fst <$> stored_at t id = Some m -> event_ok t e) ->
  keeps (with_message ledger X id m) (emit e) (fun _ => True).
Proof. intros He Hc Hok p a p' [Hp Hm] [= <- <-]. split; [|done]. split; [by apply emit_inv; try apply Hok | by destruct p]. Qed.

(** The message that has been inserted is handed on. *)
Definition processed from packet notifier id m : st (Protocol B) unit :=
  let* requested := pgets (fun p => pr_requested_messages p !! id) in
  let* _ := pmodify (fun p => set_pr_requested_messages (delete id (pr_requested_messages p)) p) in
  let* _ :=
    match requested with
    | Some (index, _) => sfor (fun parent => request_message parent index) (parents_inner (message_parents m))
    | None =>
        let* _ := emit (To_Broadcaster from packet) in
        let* latest := pgets (fun p => tg_latest (pr_tangle p)) in
        emit (To_UnreferencedInserter id latest)
    end in
  let* _ := emit (To_Payload id m) in
  notify notifier (Ok id).

Lemma keeps_processed ledger X from packet notifier id m :
  keeps (with_message ledger X id m) (processed from packet notifier id m) (fun _ => True).
Proof.
  eapply keeps_bind; [apply quiet_with_message; quiet|]. intros r _. eapply keeps_bind; [apply quiet_with_message; quiet|]. intros _ _.
  eapply keeps_bind; [apply quiet_with_message; quiet|]. intros _ _. eapply keeps_bind; [by apply keeps_emit_message|]. intros _ _.
  apply quiet_with_message. quiet.
Qed.

Lemma processor_inv ledger X config now from packet notifier p u p' :
  protocol_inv ledger X p -> handle_processor config now from packet notifier p = Some (u, p') -> protocol_inv ledger X p'.
Proof.
  intros Hp. unfold handle_processor. destruct (unpack Message_packable _) as [[m rest]|e] eqn:Hu; [|by apply quiet_notify].
  case_match; [by apply quiet_notify|]. destruct (Message_id m) as [id bs]. intros (r & p1 & (t & Hr & ->)%on_tangle_inv & Hrest)%sbind_inv.
  destruct (stored_at (pr_tangle p) id) as [x|] eqn:Hst.
  - destruct (insert_known_solidity m id (arrived now) _ _ x (pi_solidity _ _ _ Hp) Hst) as (t' & Hr' & Hso & Hf & Hs).
    rewrite Hr in Hr'. injection Hr' as -> <-. injection Hrest as _ <-. apply inv_calm; [done|]. apply calm_same_rest; [done | apply Hso | done].
  - destruct (insert_inv ledger X p id m now Hp Hst) as (t' & Hr' & Hm & Hp1); [by eapply unpacked_parents|].
    rewrite Hr in Hr'. injection Hr' as -> <-. change (emit (To_Propagator id)) with (pmodify (B := B) (fun p => set_pr_queue (pr_queue p ++ [To_Propagator id]) p)) in Hrest.
    apply sbind_inv in Hrest as (u1 & p1 & [= _ <-] & Hrest).
    eapply (keeps_processed ledger X from packet notifier id m); [|exact Hrest]. split; [by destruct p | by destruct p].
Qed.

(** *** Milestones *)

(** The tangle with other indexes and another maximal length of the cache. *)
Lemma tangle_inv_fields t t' :
  tg_storage t' = tg_storage t -> tg_vertices t' = tg_vertices t -> tg_milestones t' = tg_milestones t -> tangle_inv t -> tangle_inv t'.
Proof. intros Hs Hv Hm [? ? ? ?]. split; by rewrite ?Hs, ?Hv, ?Hm. Qed.

Lemma solidity_fields t t' X :
  tg_storage t' = tg_storage t -> tg_vertices t' = tg_vertices t -> tg_milestones t' = tg_milestones t -> tg_seps t' = tg_seps t ->
  solidity t X -> solidity t' X.
Proof. intros Hs Hv Hm Hp Hso. apply (solidity_read_only t); [done | | done]. by eapply tangle_inv_fields, (so_tangle _ _ Hso). Qed.

Lemma latest_inv ledger X p index :
  protocol_inv ledger X p -> milestone_index (tg_latest (pr_tangle p)) <= milestone_index index ->
  protocol_inv ledger X (set_pr_tangle (update_latest_milestone_index index (pr_tangle p)) p).
Proof.
  intros [G0 G1 G2 G3 G4 G5 G6 G7] Hl. destruct p as [t ? ? ? ? ? ? ? q], t. cbn in *. split; try done; cbn; [|lia].
  by eapply solidity_fields, G1.
Qed.

Lemma milestone_inv ledger X p id index (ms : Milestone) :
  protocol_inv ledger X p -> milestone_message_id ms = id -> milestone_at (pr_tangle p) id (milestone_index index) ->
  exists t, add_milestone index ms (pr_tangle p) = Some (tt, t) /\ protocol_inv ledger X (set_pr_tangle t p).
Proof.
  intros Hp Hid Hat. destruct (milestone_solidity index ms _ _ (pi_solidity _ _ _ Hp)) as (t & Hr & Hso & Hm & Hs & _ & Hl & Hsm & Hms).
  exists t. split; [done|]. destruct Hp as [G0 G1 G2 G3 G4 G5 G6 G7]. destruct p as [t0 ? ? ? ? ? ? ? q]. cbn in *.
  split; cbn; rewrite ?Hl, ?Hsm; try done.
  - by eapply same_messages_events.
  - intros i ms' Hi Hlt. eapply same_messages_milestone; [done|]. unfold milestones_of in Hi. rewrite Hms in Hi.
    apply lookup_insert_Some in Hi as [[<- <-]|[_ Hi]]; [by rewrite Hid | by apply G4].
  - intros k x Hk. destruct (G5 k x Hk). split; [by eapply same_messages_milestone | by apply Hs].
Qed.

Lemma validated_milestone id m ms keys ms' : validate_milestone id m ms keys = Ok ms' -> milestone_message_id ms' = id.
Proof. unfold validate_milestone. intros Hv. repeat apply result_bind_Ok in Hv as (? & _ & Hv). by injection Hv as <-. Qed.

Lemma quiet_known index :
  quiet (let* _ := pmodify (B := B) (fun p => set_pr_requested_milestones (delete index (pr_requested_milestones p)) p) in emit (To_Solidifier index)).
Proof. quiet. Qed.

Lemma milestone_payload_inv ledger X config now id m p u p' :
  protocol_inv ledger X p -> fst <$> stored_at (pr_tangle p) id = Some m -> handle_milestone_payload config now id m p = Some (u, p') ->
  protocol_inv ledger X p'.
Proof.
  intros Hp Hst. unfold handle_milestone_payload. destruct (message_payload m) as [[| ms | | |]|] eqn:Hpl; try (by intros [= _ <-]).
  intros (i & p1 & [= _ <-] & Hr)%sbind_inv. case_match; [by injection Hr as _ <-|].
  destruct (validate_milestone _ _ _ _) as [ms'|e] eqn:Hv; [|by injection Hr as _ <-]. apply validated_milestone in Hv.
  apply sbind_inv in Hr as (u1 & p1 & (t & Ha & ->)%on_tangle_inv & Hr).
  destruct (milestone_inv ledger X p id (essence_index (milestone_essence ms)) ms' Hp Hv) as (t' & Ha' & Hp1); [by exists m, ms|].
  rewrite Ha in Ha'. injection Ha' as _ <-. apply sbind_inv in Hr as (lmi & p2 & [= Hlmi <-] & Hr).
  apply sbind_inv in Hr as (u2 & p2 & Hl & Hr). assert (Hp2 : protocol_inv ledger X p2).
  { destruct (lmi <? _) eqn:E; [|by injection Hl as _ <-]. apply Z.ltb_lt in E. apply sbind_inv in Hl as (u3 & p3 & [= _ <-] & Hl).
    eapply quiet_heartbeat; [|exact Hl]. apply latest_inv; [done | lia]. }
  eapply quiet_known; [exact Hp2 | exact Hr].
Qed.

(** *** The propagator *)

Lemma propagator_inv ledger X fuel now id p u p' :
  protocol_inv ledger (id :: X) p -> (size (t_edge (t_node (tables (tg_storage (pr_tangle p))))) < fuel)%nat ->
  handle_propagator fuel now id p = Some (u, p') -> protocol_inv ledger X p'.
Proof.
  intros Hp Hf (sent & p1 & (t & Hr & ->)%on_tangle_inv & Hrest)%sbind_inv.
  destruct (propagate_spec fuel (fun _ => now) id _ _ (pi_solidity _ _ _ Hp) Hf) as (sent' & t' & Hr' & Hpg).
  rewrite Hr in Hr'. injection Hr' as <- <-. destruct (same_rest_fields (pr_tangle p) t) as (_ & _ & _ & Hl & Hs & _).
  { eapply framed_run; [|exact Hr]. intros t0. apply framed_propagate_loop. }
  assert (Hq : quiet (sfor (fun s => emit (To_TipPool s)) sent)) by quiet.
  eapply Hq; [|exact Hrest]. eapply inv_set_tangle; [exact Hp | apply Hpg | apply Hpg | apply Hpg | apply Hpg | done | done].
Qed.

(** *** The solidifier *)

Lemma quiet_request_milestones fuel last : quiet (request_milestones (B := B) fuel last).
Proof. induction fuel; cbn [request_milestones]; quiet. Qed.

Lemma calms_milestone_id_any idx : calms_any (get_milestone_message_id (B := B) idx).
Proof. eapply any_calms, calms_milestone_id. Qed.

Lemma calms_visit fuel matches parents visited : calms_any (visit_parents_depth_first (B := B) fuel matches parents visited).
Proof. revert parents visited. induction fuel; intros [|parent parents] visited; cbn [visit_parents_depth_first]; calms. Qed.
#[local] Hint Resolve quiet_request_milestones calms_milestone_id_any calms_visit : calm.

Lemma quiet_light index : quiet (light_solidification (B := B) index).
Proof. unfold light_solidification. quiet. Qed.

Lemma quiet_heavy fuel index id : quiet (heavy_solidification (B := B) fuel index id).
Proof. unfold heavy_solidification. quiet. Qed.
#[local] Hint Resolve quiet_light : calm.

(** The next milestone is handed over. *)
Lemma solidify_inv ledger X now p id target (ms : Milestone) u p' :
  protocol_inv ledger X p -> milestones_of (pr_tangle p) !! target = Some ms -> milestone_message_id ms = id -> solid (pr_tangle p) id ->
  milestone_index target = milestone_index (tg_solid (pr_tangle p)) + 1 ->
  milestone_index target <= milestone_index (tg_latest (pr_tangle p)) -> solidify_milestone now id target p = Some (u, p') ->
  protocol_inv ledger X p' /\ tg_solid (pr_tangle p') = target /\ tg_latest (pr_tangle p') = tg_latest (pr_tangle p).
Proof.
  intros [G0 G1 G2 G3 G4 G5 G6 G7] Hms Hid Hs Ht Hl (u1 & p1 & [= _ <-] & Hr)%sbind_inv. apply sbind_inv in Hr as (u2 & p2 & [= _ <-] & Hr).
  set (p2 := set_pr_queue _ _) in Hr. assert (Hp2 : protocol_inv ledger X p2).
  { destruct p as [t ? ? ? ? ? ? ? q], t as [? ? ? s]. cbn in *.
    assert (Hq1 : propagating (q ++ [To_Consensus (ConfirmMilestone id)]) = propagating q) by (rewrite propagating_app; apply app_nil_r).
    assert (Hq2 : confirming (q ++ [To_Consensus (ConfirmMilestone id)]) = confirming q ++ [id]) by apply confirming_app.
    split; cbn; rewrite ?Hq1, ?Hq2; try done; cbn.
    - by eapply solidity_fields, G1.
    - apply Forall_app. split; [done | by constructor].
    - intros k x Hk. apply lookup_app_Some in Hk as [Hk|[Hk Hx]]; [by apply G5|]. apply list_lookup_singleton_Some in Hx as [Hk0 <-].
      split; [|done]. rewrite <- Hid. replace (ledger + 1 + Z.of_nat k) with (milestone_index target) by (unfold len in *; lia). apply G4; [done|].
      unfold len in *. lia.
    - rewrite len_app. cbn. unfold len in *. cbn. lia. }
  assert (Hq : quiet (let* _ := emit (To_IndexUpdater target (Milestone_new id 0)) in heartbeat now)).
  { apply quiet_bind; [quiet | intros; apply quiet_heartbeat]. }
  destruct (Hq _ _ _ _ _ Hp2 Hr) as [Hp' Hc]. destruct (calm_indexes _ _ Hc) as (Hc1 & Hc2 & _). split; [done|]. rewrite Hc1, Hc2. subst p2.
  by destruct p as [[] ? ? ? ? ? ? ? ?].
Qed.

Lemma solidify_milestones_inv ledger X fuel now target p u p' :
  protocol_inv ledger X p -> bounded p -> milestone_index target = milestone_index (tg_solid (pr_tangle p)) + 1 ->
  solidify_milestones fuel now target (milestone_index (tg_latest (pr_tangle p))) p = Some (u, p') -> protocol_inv ledger X p'.
Proof.
  revert target p. induction fuel as [|fuel IH]; intros target p Hp Hb Ht; cbn [solidify_milestones].
  { case_match; [done | by intros [= _ <-]]. }
  destruct (milestone_index target <=? _) eqn:Hle; [|by intros [= _ <-]]. apply Z.leb_le in Hle.
  intros (o & p1 & (t1 & Hr1 & ->)%on_tangle_inv & Hr)%sbind_inv.
  destruct (calms_milestone_id target _ _ _ _ (pi_solidity _ _ _ Hp) Hr1) as [Hc1 Ho].
  assert (Hp1 : protocol_inv ledger X (set_pr_tangle t1 p)) by by apply inv_calm. destruct o as [id|]; [|by injection Hr as _ <-].
  apply sbind_inv in Hr as (o2 & p2 & (t2 & Hr2 & ->)%on_tangle_inv & Hr). rewrite pr_tangle_set in Hr2.
  destruct (calms_is_solid id _ _ _ _ (calm_solidity _ _ Hc1 _ (pi_solidity _ _ _ Hp)) Hr2) as [Hc2 ->].
  assert (Hp2 : protocol_inv ledger X (set_pr_tangle t2 (set_pr_tangle t1 p))) by (apply inv_calm; [done | by rewrite pr_tangle_set]).
  destruct (calm_indexes _ _ Hc1) as (L1 & S1 & _), (calm_indexes _ _ Hc2) as (L2 & S2 & _).
  case_bool_decide as Hs; [|by eapply quiet_heavy]. apply sbind_inv in Hr as (u3 & p3 & Hr3 & Hr).
  symmetry in Ho. apply fmap_Some in Ho as (ms & Hms & ->).
  edestruct (solidify_inv ledger X now _ (milestone_message_id ms) target ms u3 p3 Hp2) as (Hp3 & S3 & L3);
    [| | | | | exact Hr3 |]; rewrite ?pr_tangle_set.
  - by rewrite (calm_milestones _ _ Hc2), (calm_milestones _ _ Hc1).
  - done.
  - by apply Hc2.
  - by rewrite S2, S1.
  - by rewrite L2, L1.
  - rewrite pr_tangle_set, L2, L1 in L3. rewrite <- L3 in Hr. eapply IH; [exact Hp3 | unfold bounded; by rewrite L3 | | exact Hr].
    cbn. rewrite S3, as_u_id; [done|]. pose proof (pi_ledger _ _ _ Hp). pose proof (pi_solid _ _ _ Hp). unfold bounded in Hb. unfold fits, len in *. lia.
Qed.

Lemma solidifier_inv ledger X config fuel now index p u p' :
  protocol_inv ledger X p -> bounded p -> handle_solidifier config fuel now index p = Some (u, p') -> protocol_inv ledger X p'.
Proof.
  intros Hp Hb (smi & p1 & [= <- <-] & Hr)%sbind_inv. apply sbind_inv in Hr as (lmi & p1 & [= <- <-] & Hr).
  apply sbind_inv in Hr as (u1 & p1 & Hr1 & Hr). destruct (quiet_request_milestones _ _ _ _ _ _ _ Hp Hr1) as [Hp1 Hc1].
  apply sbind_inv in Hr as (next & p2 & [= <- <-] & Hr). apply sbind_inv in Hr as (u2 & p2 & Hr2 & Hr).
  assert (Hq : quiet (if milestone_index index <? milestone_index (pr_next p1) then light_solidification index else sret tt)) by quiet.
  destruct (Hq _ _ _ _ _ Hp1 Hr2) as [Hp2 Hc2]. destruct (calm_indexes _ _ (calm_trans _ _ _ Hc1 Hc2)) as (L & S & _).
  rewrite <- L in Hr. eapply solidify_milestones_inv; [exact Hp2 | unfold bounded; by rewrite L | | exact Hr].
  cbn. rewrite S, as_u_id; [done|]. pose proof (pi_ledger _ _ _ Hp). pose proof (pi_solid _ _ _ Hp). pose proof (pi_latest _ _ _ Hp).
  unfold bounded in Hb. unfold fits, len in *. lia.
Qed.

(** *** Events *)

Lemma pop_inv ledger p q1 e q2 :
  protocol_inv ledger [] p -> pr_queue p = q1 ++ e :: q2 -> confirming_event e = None ->
  protocol_inv ledger (option_list (propagating_event e)) (set_pr_queue (q1 ++ q2) p) /\ event_ok (pr_tangle p) e.
Proof.
  intros [G0 G1 G2 G3 G4 G5 G6 G7] Hq Hc. rewrite Hq in *. apply Forall_app in G3 as [Ha [He Hb]%Forall_cons]. split; [|done].
  assert (Hq2 : confirming (q1 ++ e :: q2) = confirming (q1 ++ q2)) by (rewrite !confirming_app; f_equal; unfold confirming; cbn; by rewrite Hc).
  rewrite Hq2 in *. destruct p as [t ? ? ? ? ? ? ? q]. cbn in *. split; cbn; try done; [|by apply Forall_app].
  eapply solidity_weaken; [exact G1|]. intros x. rewrite !propagating_app. unfold propagating at 2. cbn. fold (propagating q2).
  destruct (propagating_event e); cbn; set_solver.
Qed.

Definition edges (s : B) : nat := size (t_edge (t_node (tables s))).

Lemma event_inv ledger config fuel now q1 e q2 p u p' :
  protocol_inv ledger [] p -> bounded p -> pr_queue p = q1 ++ e :: q2 -> confirming_event e = None -> (edges (tg_storage (pr_tangle p)) < fuel)%nat ->
  handle_event config fuel now e (set_pr_queue (q1 ++ q2) p) = Some (u, p') -> protocol_inv ledger [] p'.
Proof.
  intros Hp Hb Hq Hc Hf. destruct (pop_inv ledger p q1 e q2 Hp Hq Hc) as [Hp1 He].
  assert (Ht : pr_tangle (set_pr_queue (q1 ++ q2) p) = pr_tangle p) by by destruct p. rewrite <- Ht in He, Hf.
  assert (Hb1 : bounded (set_pr_queue (q1 ++ q2) p)) by (unfold bounded; by rewrite Ht). clear Hb Hq Hp Ht. revert Hp1 He Hf Hb1.
  generalize (set_pr_queue (q1 ++ q2) p). clear p. intros p Hp He Hf Hb.
  destruct e; cbn [handle_event propagating_event option_list] in *; intros Hr; cbn [event_ok] in He.
  - by eapply quiet_hasher.
  - by eapply processor_inv.
  - by eapply propagator_inv.
  - by eapply quiet_tip_pool.
  - by eapply quiet_peers.
  - by eapply quiet_unreferenced.
  - by eapply payload_inv.
  - by eapply quiet_transaction.
  - by eapply milestone_payload_inv.
  - by eapply quiet_indexation.
  - by eapply quiet_message_requester.
  - by eapply quiet_milestone_requester.
  - by eapply quiet_message_responder.
  - by eapply quiet_milestone_responder.
  - by eapply solidifier_inv.
  - by eapply quiet_index_updater.
  - by injection Hr as _ <-.
  - by injection Hr as _ <-.
Qed.

Lemma step_inv ledger config p p' : protocol_inv ledger [] p -> bounded p -> protocol_step config edges p p' -> protocol_inv ledger [] p'.
Proof.
  intros Hp Hb Hs. destruct Hs as [fuel now q1 e q2 p p' Hq Hc Hf Hr|message n p p' Hr|now peer header bs p p' Hr|now p p' Hr|now p p' Hr|now event p].
  - by eapply event_inv.
  - injection Hr as <-. by apply emit_inv.
  - by eapply quiet_process_packet.
  - by eapply quiet_retry_messages.
  - by eapply quiet_retry_milestones.
  - by apply (inv_modify _ _ p); try destruct p.
Qed.

(** *** Confirmation *)

Lemma calms_mark_all ts l : calms_any (mark_all (B := B) ts l).
Proof.
  apply calms_for. intros [id c]. apply calms_bind; [|intros; apply calms_ret]. apply calms_update. intros md.
  apply keeps_roots_reference.
Qed.

Lemma calm_confirmed t i : calm t (update_confirmed_milestone_index i t).
Proof.
  assert (Hro : read_only t (update_confirmed_milestone_index i t)) by by destruct t. split.
  - by apply read_only_messages.
  - intros id. by apply read_only_solid.
  - unfold milestones_of. by rewrite (proj1 Hro).
  - by destruct t.
  - intros X Hso. eapply solidity_fields, Hso; by destruct t.
Qed.

Lemma applied_tables t (s : B) index created consumed diffs mig :
  healthy (tg_storage t) -> apply_milestone (tg_storage t) index created consumed diffs mig = Ok s -> calm t (with_storage s t).
Proof.
  intros Hh Ha. destruct (apply_milestone_Ok _ Hh _ _ _ _ _ _ Ha) as [Hc Hd].
  destruct (apply_milestone_does _ Hh index created consumed diffs mig Hc Hd) as (s' & Ha' & Hs & Ht). rewrite Ha in Ha'. injection Ha' as <-.
  apply calm_tables; [done|]. rewrite Ht. by destruct (tables (tg_storage t)), mig.
Qed.

(** A confirmation that succeeds changes the ledger and the metadata of the messages only. *)
Lemma confirm_calm fuel id l migrated t X c t' :
  solidity t X -> confirm fuel id l migrated t = Some (Ok c, t') ->
  calm t t' /\ exists m ms, fst <$> stored_at t id = Some m /\ message_payload m = Some (Payload_Milestone ms)
    /\ confirmed_ledger_index c = LedgerIndex_new (essence_index (milestone_essence ms)).
Proof.
  intros Hso (found & t1 & Hg & Hr)%sbind_inv. destruct (calms_get id _ _ _ _ Hso Hg) as [Hc1 ->]. pose proof (calm_solidity _ _ Hc1 _ Hso) as Hso1.
  destruct (milestone_of id (fst <$> stored_at t id)) as [[m ms]|e] eqn:Hms; [|done]. cbv zeta in Hr. destruct (negb _); [done|].
  apply (milestone_of_Ok 0 id ltac:(lia)) in Hms as [Hm Hp]. destruct (white_flag _ _ _ _ _) as [r|]; [|done]. destruct (result_bind r _) as [a|e] eqn:Hx; [|done].
  destruct a as [[[md at'] mig] s]. apply result_bind_Ok in Hx as (md0 & -> & Hx). apply result_bind_Ok in Hx as ([[md1 at1] mig1] & _ & Hx).
  apply result_bind_Ok in Hx as (s1 & Ha & [= -> -> -> ->]). apply sbind_inv in Hr as (u & t2 & Hmk & [= <- <-]).
  pose proof (applied_tables _ _ _ _ _ _ _ (ti_healthy _ (so_tangle _ _ Hso1)) Ha) as Hc2.
  pose proof (calm_trans _ _ _ Hc2 (calm_confirmed _ (essence_index (milestone_essence ms)))) as Hc3.
  pose proof (calms_mark_all _ _ _ _ _ _ (calm_solidity _ _ Hc3 _ Hso1) Hmk) as Hc4. split; [|by exists m, ms].
  eapply calm_trans; [exact Hc1|]. by eapply calm_trans.
Qed.

(** The first command leaves the queue, and the ledger moves on. *)
Lemma confirmed_inv ledger p q1 id q2 t ms :
  protocol_inv ledger [] p -> pr_queue p = q1 ++ To_Consensus (ConfirmMilestone id) :: q2 -> confirming q1 = [] -> calm (pr_tangle p) t ->
  milestone_number ms = ledger + 1 -> protocol_inv (milestone_number ms) [] (set_pr_tangle t (set_pr_queue (q1 ++ q2) p)).
Proof.
  intros Hp Hq Hq1 Hc ->. destruct (inv_calm _ _ _ _ Hp Hc) as [G0 G1 G2 G3 G4 G5 G6 G7]. destruct p as [t0 ? ? ? ? ? ? ? q]. cbn in *. subst q.
  assert (Hqc : confirming (q1 ++ To_Consensus (ConfirmMilestone id) :: q2) = id :: confirming q2) by (rewrite confirming_app, Hq1; done).
  assert (Hqp : propagating (q1 ++ To_Consensus (ConfirmMilestone id) :: q2) = propagating (q1 ++ q2)) by by rewrite !propagating_app.
  rewrite Hqc, ?Hqp in *. apply Forall_app in G3 as [? [_ ?]%Forall_cons].
  assert (Hq' : confirming (q1 ++ q2) = confirming q2) by (rewrite confirming_app, Hq1; done). split; cbn; rewrite ?Hq'; try done.
  - lia.
  - by apply Forall_app.
  - intros i ms' Hi Hlt. apply G4; [done | lia].
  - intros k x Hk. replace (ledger + 1 + 1 + Z.of_nat k) with (ledger + 1 + Z.of_nat (S k)) by lia. by apply (G5 (S k) x).
  - rewrite G6. unfold len. cbn. lia.
Qed.

(** Without pruning the consensus worker only confirms. *)
Lemma handle_confirm_only fuel now id (w w' : ConsensusWorker B) events :
  pruning_disabled (pruning_config (cw_settings w)) = true -> handle_confirm fuel now id w = Some (w', events) ->
  exists c t, confirm fuel id (cw_ledger_index w) (cw_receipt_migrated_at w) (cw_tangle w) = Some (Ok c, t)
    /\ w' = mkConsensusWorker t (confirmed_ledger_index c) (confirmed_migrated_at c) (cw_num_prunings w) (cw_settings w).
Proof.
  intros Hd ([[c|e] t] & Hc & Hr)%bind_Some; [|done]. exists c, t. split; [done|]. apply bind_Some in Hr as ([w1 pruned] & Ha & [= <- _]).
  unfold after_confirmation, should_prune in Ha. cbn [cw_tangle cw_settings cw_ledger_index] in Ha. rewrite Hd in Ha.
  cbn [negb ensure result_bind] in Ha. repeat case_match; by simplify_eq.
Qed.

Section without_pruning.
Context (config : ProtocolConfig) (settings : ConsensusSettings) (Hoff : pruning_disabled (pruning_config settings) = true).

Lemma sync_step_inv s s' : sync_inv s -> sync_step config settings edges s s' -> sync_inv s'.
Proof.
  intros Hs Hst. destruct Hst as [p p' l m n Hb Hst|fuel now q1 id q2 s w events reply Hq Hq1 Hr|fuel now command s w events reply Hn Hr].
  { unfold sync_inv, sync_index in *. cbn in *. by eapply step_inv. }
  - cbn [handle_command] in Hr. apply bind_Some in Hr as ([w1 ev] & Hr & [= <- _ _]).
    apply handle_confirm_only in Hr as (c & t & Hr & ->); [|done]. destruct s as [p l m n]. unfold sync_inv, sync_index in *. cbn in *.
    destruct (confirm_calm _ _ _ _ _ _ _ _ (pi_solidity _ _ _ Hs) Hr) as (Hc & m' & ms & Hm & Hp & ->).
    destruct (pi_commands _ _ _ Hs 0 id) as [(m2 & ms2 & Hm2 & Hp2 & Hn) _].
    { rewrite Hq, confirming_app, Hq1. done. }
    rewrite Hm in Hm2. injection Hm2 as <-. rewrite Hp in Hp2. injection Hp2 as <-. eapply (confirmed_inv _ p q1 id q2 t ms); [done.. | rewrite Hn; cbn; lia].
  - assert (w = sync_worker settings s) as -> by (destruct command as [id| | |[]]; [by destruct (Hn id)|..]; by injection Hr as <- _ _).
    destruct s as [p l m n]. unfold sync_inv, sync_index in *. cbn in *. by destruct p.
Qed.

Lemma sync_reachable s s' : sync_inv s -> rtc (sync_step config settings edges) s s' -> sync_inv s'.
Proof. intros Hs. induction 1 as [|s1 s2 s3 Hst _ IH]; [done|]. by eapply IH, sync_step_inv. Qed.
End without_pruning.

(** ** The past cone of a solid message *)

(** No solid entry point is stored as a message. *)
Definition entry_points_clear t : Prop := forall id, sep t id -> stored_at t id = None.

(** The search comes to an end at [id] without missing a message, whatever it has visited before. *)
Definition traversed t id : Prop :=
  boundary_message t id
  \/ exists m, pending_message t id m /\ forall V, exists order V', visits t false V (parents_at m) order (inl V').

Lemma visits_list t again V ids : (forall id, id ∈ ids -> traversed t id) -> exists order V', visits t again V ids order (inl V').
Proof.
  revert V. induction ids as [|id ids IH]; intros V Hids; [by repeat eexists; constructor|].
  assert (Hrest : forall V, exists order V', visits t again V ids order (inl V')) by (intros; apply IH; intros x Hx; apply Hids; by right).
  assert (Hcheck : again = false /\ id ∈ V \/ again = true \/ id ∉ V) by (destruct again, (decide (id ∈ V)); tauto).
  destruct Hcheck as [[-> Hin]|Hnew]; [destruct (Hrest V) as (? & ? & ?); eauto using visits|].
  destruct (Hids id) as [Hb|(m & Hm & Hp)]; [by left | |].
  - destruct (Hrest ({[id]} ∪ V)) as (? & ? & ?). eauto using visits.
  - destruct (Hp V) as (order1 & V1 & Hv1). destruct (Hrest ({[id]} ∪ V1)) as (? & ? & ?). eauto using visits.
Qed.

Lemma available_traversed t id : tangle_inv t -> entry_points_clear t -> available t id -> traversed t id.
Proof.
  intros Hi Hcl. assert (Hmsg : forall id, tangle_message t id = stored_at t id) by (intros; by apply tangle_message_stored).
  induction 1 as [id Hs|id m md Hst _ IH].
  - left. unfold boundary_message. rewrite Hmsg, Hcl by done. by apply bool_decide_eq_true_2.
  - destruct (is_referenced (metadata_flags md)) eqn:Hr; [left; unfold boundary_message; by rewrite Hmsg, Hst|].
    right. exists m. split; [exists md; by rewrite Hmsg|]. intros V. by apply visits_list.
Qed.

(** White Flag applies the past cone of available messages. *)
Lemma available_white_flag t ids md :
  tangle_inv t -> entry_points_clear t -> (forall id, id ∈ ids -> available t id) ->
  exists order, parents_first t ∅ order
    /\ (forall id, id ∈ order <-> past_cone t ids id /\ exists m, pending_message t id m)
    /\ exists n, forall fuel, (n <= fuel)%nat ->
         white_flag fuel t (tg_storage t) ids md = Some (let? md := apply_order t (tg_storage t) order md in white_flag_finish md).
Proof.
  intros Hi Hcl Hav. destruct (visits_list t true ∅ ids) as (order & V & Hv); [intros id Hid; by apply available_traversed, Hav|].
  destruct (visits_white_flag t (tg_storage t) ids md order (inl V) Hv) as (Hpf & Ho & Hall & Hn). exists order. split_and!; [done | | done].
  intros id. split; [apply Ho|]. intros [Hid [m Hm]]. by eapply Hall.
Qed.

(** ** Claims *)

(** C6. On a node with pruning disabled, whatever the workers, the peers and the consensus worker do, and in whatever order: the
    milestones that wait for their confirmation are the ones that follow the ledger index, without a gap and in their
    order, each of them stored and solid; the solid milestone index is that of the last of them; and solid messages are
    available. When no message waits for the propagator, and none has more children than a fetch of the backend returns,
    the available messages are all solid. *)
Theorem solidifier_feeds_ledger config settings s s' :
  pruning_disabled (pruning_config settings) = true -> sync_inv s -> rtc (sync_step config settings edges) s s' ->
  let t := pr_tangle (sy_protocol s') in
  (forall k id, confirming (pr_queue (sy_protocol s')) !! k = Some id -> milestone_at t id (sync_index s' + 1 + Z.of_nat k) /\ solid t id)
  /\ milestone_index (tg_solid t) = sync_index s' + len (confirming (pr_queue (sy_protocol s')))
  /\ (forall id, solid t id -> available t id)
  /\ (propagating (pr_queue (sy_protocol s')) = [] -> (forall id, children_within t id) -> forall id, available t id -> solid t id).
Proof.
  intros Hoff Hs Hst t. pose proof (sync_reachable _ _ Hoff _ _ Hs Hst) as Hs'. split_and!; [apply Hs' | apply Hs' | apply Hs'|].
  intros Hq Hw id. apply solid_available; [|done]. pose proof (pi_solidity _ _ _ Hs') as Hso. rewrite Hq in Hso. exact Hso.
Qed.

(** C7. On a node with pruning disabled, the next confirmation finds what it needs: the command that the consensus worker takes names a stored milestone
    with the index after the ledger index, and, unless a solid entry point has been stored as a message, White Flag
    traverses the whole past cone of the milestone, parents first, without missing a message. *)
Theorem next_milestone_traversed config settings s s' q1 id q2 :
  pruning_disabled (pruning_config settings) = true -> sync_inv s -> rtc (sync_step config settings edges) s s' ->
  pr_queue (sy_protocol s') = q1 ++ To_Consensus (ConfirmMilestone id) :: q2 -> confirming q1 = [] ->
  let t := pr_tangle (sy_protocol s') in
  entry_points_clear t ->
  exists m ms, fst <$> stored_at t id = Some m /\ message_payload m = Some (Payload_Milestone ms) /\ milestone_number ms = sync_index s' + 1
    /\ forall md, exists order, parents_first t ∅ order
      /\ (forall x, x ∈ order <-> past_cone t (parents_at m) x /\ exists m, pending_message t x m)
      /\ exists n, forall fuel, (n <= fuel)%nat ->
           white_flag fuel t (tg_storage t) (parents_at m) md = Some (let? md := apply_order t (tg_storage t) order md in white_flag_finish md).
Proof.
  intros Hoff Hs Hst Hq Hq1 t Hcl. subst t. pose proof (sync_reachable _ _ Hoff _ _ Hs Hst) as Hs'.
  destruct (pi_commands _ _ _ Hs' 0 id) as [(m & ms & Hm & Hp & Hn) Hsol]; [by rewrite Hq, confirming_app, Hq1|].
  exists m, ms. split_and!; [done | done | rewrite Hn; cbn; lia|]. intros md. pose proof (pi_solidity _ _ _ Hs') as Hso.
  apply available_white_flag; [apply Hso | done|]. intros x Hx. destruct (so_available _ _ Hso id Hsol) as [id Hsep|id m' md' Hst' Hall].
  - by rewrite (Hcl id Hsep) in Hm.
  - apply Hall. rewrite Hst' in Hm. by injection Hm as ->.
Qed.

(** A search that fails at once. *)
Lemma missing_visit t x mx (q : MessageId) :
  tangle_inv t -> pending_message t x mx -> parents_at mx = [q] -> stored_at t q = None -> ~ sep t q -> visits t true ∅ [x] [] (inr q).
Proof.
  intros Hi Hx Hp Hq Hs. eapply visits_fail; [by left | done|]. unfold parents_at in Hp. rewrite Hp. apply visits_missing.
  - right. set_solver.
  - by rewrite tangle_message_stored.
  - by apply bool_decide_eq_false_2.
Qed.

(** C40. A solid entry point that arrives as a message stops the node: to the propagator the entry point is solid, and so is
    a milestone above it (unless it still waits, or was not found among the children of the entry point because they are
    more than a fetch of the backend returns), but White Flag looks at the stored message first and follows its parents, which need not be
    there; the confirmation of the milestone returns an error, and the consensus worker aborts. *)
Theorem stored_entry_point_blocks t X id m ms x mx (q : MessageId) l migrated_at :
  solidity t X -> fst <$> stored_at t id = Some m -> message_payload m = Some (Payload_Milestone ms) ->
  milestone_number ms = as_u 32 (milestone_index (ledger_index l) + 1) -> parents_at m = [x] ->
  sep t x -> pending_message t x mx -> parents_at mx = [q] -> stored_at t q = None -> ~ sep t q ->
  (id ∉ X -> children_within t x -> solid t id)
  /\ exists n, forall fuel, (n <= fuel)%nat -> exists t', confirm fuel id l migrated_at t = Some (Err (MissingMessage q), t').
Proof.
  intros Hso Hm Hp Hn Hpar Hx Hmx Hpq Hq Hsq. split.
  { intros HX Hw. destruct (decide (solid t id)) as [|Hns]; [done|]. destruct HX. destruct (stored_at t id) as [[m' md]|] eqn:E; [|done].
    injection Hm as ->. eapply (so_complete _ _ Hso id m md E Hns); intros p; rewrite Hpar, list_elem_of_singleton; intros ->; [by left | done]. }
  pose proof (so_tangle _ _ Hso) as Hi. pose proof (missing_visit t x mx q Hi Hmx Hpq Hq Hsq) as Hv.
  destruct (visits_white_flag t (tg_storage t) [x] (WhiteFlagMetadata_new (essence_index (milestone_essence ms))) [] (inr q) Hv)
    as (_ & _ & _ & n & Hw). exists n. intros fuel Hf. specialize (Hw fuel Hf).
  destruct (Tangle_get_spec _ _ _ id t (ti_cache _ Hi) (inv_reads t id Hi)) as (t1 & Hg & Hs1 & Hc1). exists t1.
  unfold confirm. rewrite (sbind_run _ _ _ _ _ Hg). fold (stored_at t id). rewrite Hm. unfold milestone_of, milestone_number in *. cbn [ok_or result_bind].
  rewrite Hp. cbv zeta. rewrite Hn, Z.eqb_refl. cbn [negb]. fold (parents_at m). rewrite Hpar, (cache_step_storage _ _ Hs1), (white_flag_ext _ _ t1 t).
  - by rewrite Hw.
  - intros y. assert (Hi1 : tangle_inv t1) by by apply (inv_step t). by rewrite !tangle_message_stored, (cache_step_storage _ _ Hs1).
  - intros y. unfold is_solid_entry_point. by rewrite (proj2 (cache_step_milestones _ _ Hs1)).
Qed.
End invariant.

(** ** Evaluation *)

Module Examples.
Import Concrete Ledger.Examples WhiteFlagOrder.Examples WhiteFlagLedger.Examples Peers.Examples Node.Examples.

#[local] Remove Hints Storage_backend Storage_tangle_backend : typeclass_instances.
#[local] Instance message_hasher : TableHasher MessageId := byte_hasher message_id_bytes.
#[local] Instance message_hasher_ok : TableHasherOk MessageId.
Proof. intros [[|b l]]; cbn; unfold fits; [lia|]. pose proof (u8_of_byte_range b). lia. Qed.

(** A hash without zeros at its end, and a number for every byte string. *)
#[local] Instance toy_curl : Curl := {
  curl_digest l := repeat PlusOne 243;
  curl_batch l := (fun _ => repeat PlusOne 243) <$> l;
  BATCH_SIZE := 4;
}.
#[local] Instance toy_hash : XxHash := fun bs => foldr (fun b n => 256 * n + u8_of_byte b + 1) 0 bs.
#[local] Instance memory_protocol : ProtocolBackend Storage := impl_insert (VecBinTable PaddedIndex MessageId).
#[local] Instance memory_protocol_ok : InsertOk Storage (PaddedIndex * MessageId) unit := impl_insert_ok (T := VecBinTable PaddedIndex MessageId).

(** The scheduler that handles the first event that is not a command. *)
Fixpoint next_event (q : list WorkerEvent) : option (list WorkerEvent * WorkerEvent * list WorkerEvent) :=
  match q with
  | [] => None
  | e :: q =>
      match confirming_event e with
      | None => Some ([], e, q)
      | Some _ => '(q1, e', q2) ← next_event q; Some (e :: q1, e', q2)
      end
  end.

Fixpoint drain (n fuel : nat) (config : ProtocolConfig) (now : Z) (p : Protocol Storage) : option (Protocol Storage) :=
  match n, next_event (pr_queue p) with
  | _, None => Some p
  | O, _ => None
  | S n, Some (q1, e, q2) =>
      if (milestone_index (tg_latest (pr_tangle p)) <? 2 ^ 32 - 1) && (Z.of_nat (edges (tg_storage (pr_tangle p))) <? Z.of_nat fuel) then
        '(_, p) ← handle_event config fuel now e (set_pr_queue (q1 ++ q2) p);
        drain n fuel config now p
      else None
  end.

Lemma next_event_app q q1 e q2 : next_event q = Some (q1, e, q2) -> q = q1 ++ e :: q2 /\ confirming_event e = None.
Proof.
  revert q1. induction q as [|e' q IH]; intros q1; cbn; [done|]. destruct (confirming_event e') eqn:E; [|by intros [= <- <- <-]].
  intros ([[q3 e2] q4] & Hq & [= <- <- <-])%bind_Some. destruct (IH _ Hq) as [-> ?]. done.
Qed.

Lemma drain_steps n fuel config settings now p p' l m n0 :
  drain n fuel config now p = Some p' -> rtc (sync_step config settings edges) (mkSync p l m n0) (mkSync p' l m n0).
Proof.
  revert p. induction n as [|n IH]; intros p; cbn [drain]; destruct (next_event (pr_queue p)) as [[[q1 e] q2]|] eqn:E;
    [done | by intros [= <-] | | by intros [= <-]].
  destruct (_ && _) eqn:Hb; [|done]. apply andb_true_iff in Hb as [Hb Hf]. apply next_event_app in E as [Hq Hc].
  intros ([[] p1] & Hr & Hd)%bind_Some. eapply rtc_l; [|by apply IH]. apply sync_protocol; [by apply Z.ltb_lt|].
  eapply step_event; [exact Hq | exact Hc | | exact Hr]. apply Z.ltb_lt in Hf. lia.
Qed.

(** A transaction and a milestone above it; the identifier [0] is a solid entry point. *)
Definition transfer_id : MessageId := (Message_id transfer_message).1.
Definition essence_7 (parent : MessageId) : MilestonePayloadEssence :=
  mkMilestonePayloadEssence seven 100 (mkParents [parent]) (merkle_digest blake2b256 [parent]) 0 0 [repeat Byte.x01 32] None.
Definition message_7 (parent : MessageId) : Message :=
  mkMessage 0 (mkParents [parent])
    (Some (Payload_Milestone (mkMilestonePayload (essence_7 parent) [MilestonePayloadEssence_hash (essence_7 parent) ++ repeat Byte.x00 32]))) 0.

Definition protocol_config : ProtocolConfig :=
  mkProtocolConfig (f64_of_Z 0) 1 [mkMilestoneKeyRange (hex_encode (repeat Byte.x01 32)) (MilestoneIndex_new 0) (MilestoneIndex_new 100)] 10 200 0.

Definition tangle_6 : Tangle Storage :=
  update_solid_milestone_index (MilestoneIndex_new 6) (update_latest_milestone_index (MilestoneIndex_new 6) tangle_a).
Definition protocol_of (t : Tangle Storage) : Protocol Storage :=
  mkProtocol t PeerManager_new ∅ ∅ (HashCache_new 10) (MilestoneIndex_new 7) (batch_begin Storage) 0 [].
Definition sync_of (p : Protocol Storage) : Sync Storage := mkSync p (LedgerIndex_new (MilestoneIndex_new 6)) (MilestoneIndex_new 0) 0.

(** A node that does not prune. *)
Definition no_pruning : ConsensusSettings :=
  mkConsensusSettings (SnapshotConfigBuilder_finish (mkSnapshotConfigBuilder None None None None None None))
    (PruningConfigBuilder_finish (mkPruningConfigBuilder (Some false) None None)) 50 60480.

(** Two submissions, and what the workers make of them. *)
Definition receive (m1 m2 : Message) (p : Protocol Storage) : option (Protocol Storage) :=
  '(_, p) ← submit (pack_new Message_packable m1) 1 p;
  '(_, p) ← submit (pack_new Message_packable m2) 2 p;
  drain 20 20 protocol_config 5 p.

Lemma receive_steps m1 m2 p p' : receive m1 m2 p = Some p' -> bounded p -> rtc (sync_step protocol_config no_pruning edges) (sync_of p) (sync_of p').
Proof.
  intros Hr Hb. unfold receive in Hr. apply bind_Some in Hr as ([[] p1] & Hr1 & Hr). apply bind_Some in Hr as ([[] p2] & Hr2 & Hr).
  eapply rtc_l; [apply sync_protocol; [exact Hb | by eapply step_submit]|].
  eapply rtc_l; [apply sync_protocol; [|by eapply step_submit] | by eapply drain_steps]. injection Hr1 as <-. by destruct p.
Qed.

(** A node that has just been started has no messages above its entry points. *)
Lemma fresh_inv t :
  tangle_inv t -> (forall id, stored_at t id = None) -> milestone_index (tg_solid t) = 6 -> milestone_index (tg_latest t) = 6 ->
  (forall i ms, milestones_of t !! i <> Some ms) -> sync_inv (sync_of (protocol_of t)).
Proof.
  intros Ht Hn Hs Hl Hm. split; [cbn; lia | | apply batch_small_begin | constructor | intros i ms Hi; by apply Hm in Hi | done | exact Hs |].
  2: { cbn [sy_protocol sync_of pr_tangle protocol_of]. lia. }
  cbn [sy_protocol sync_of pr_tangle pr_queue protocol_of].
  split; [done | intros id m md; by rewrite Hn | | intros id m md; by rewrite Hn..].
  intros id [Hsep|(m & md & Hst & _)]; [by apply available_sep | by rewrite Hn in Hst].
Qed.

Lemma sync_6_inv : sync_inv (sync_of (protocol_of tangle_6)).
Proof.
  apply fresh_inv; [|reflexivity..|intros i ms Hi; discriminate Hi].
  exact (tangle_inv_fields tangle_a tangle_6 eq_refl eq_refl eq_refl (ni_tangle _ _ _ _ _ tangle_a_inv)).
Qed.

(** The milestone is handed over. *)
Definition received : option (Protocol Storage) := receive transfer_message (message_7 transfer_id) (protocol_of tangle_6).

(** The command in the queue, if no entry point is stored. *)
Definition clear_command (p : Protocol Storage) : option MessageId :=
  match pr_queue p with
  | [To_Consensus (ConfirmMilestone id)] =>
      if forallb (fun e => bool_decide (stored_at (pr_tangle p) (sep_message_id e.1) = None)) (map_to_list (tg_seps (pr_tangle p))) then Some id else None
  | _ => None
  end.

Lemma clear_command_spec p id :
  clear_command p = Some id -> pr_queue p = [] ++ To_Consensus (ConfirmMilestone id) :: [] /\ entry_points_clear (pr_tangle p).
Proof.
  unfold clear_command. intros Hc. repeat case_match; simplify_eq. split; [done|]. intros x [i Hs].
  match goal with Hf : forallb _ _ = true |- _ =>
    eapply bool_decide_eq_true_1, (proj1 (forallb_forall _ _) Hf (SolidEntryPoint_new x, i)) end.
  by apply list_elem_of_In, elem_of_map_to_list.
Qed.

Lemma check_bind {A C} (o : option A) (f : A -> option C) :
  match o ≫= f with Some _ => true | None => false end = true -> exists a c, o = Some a /\ f a = Some c.
Proof. destruct o as [a|]; cbn; [|done]. destruct (f a) as [c|] eqn:E; [|done]. by exists a, c. Qed.

Lemma received_ok : exists p id, received = Some p /\ clear_command p = Some id.
Proof. apply check_bind. vm_compute. reflexivity. Qed.

Lemma received_steps : exists p id, rtc (sync_step protocol_config no_pruning edges) (sync_of (protocol_of tangle_6)) (sync_of p)
  /\ pr_queue p = [] ++ To_Consensus (ConfirmMilestone id) :: [] /\ entry_points_clear (pr_tangle p).
Proof.
  destruct received_ok as (p & id & Hr & Hc). exists p, id. split; [|by apply clear_command_spec].
  apply (receive_steps transfer_message (message_7 transfer_id) (protocol_of tangle_6) p Hr). vm_compute. reflexivity.
Qed.

Lemma solidifier_feeds_ledger_witness :
  exists p id, pr_queue p = [To_Consensus (ConfirmMilestone id)] /\ milestone_at (pr_tangle p) id 7 /\ milestone_index (tg_solid (pr_tangle p)) = 7.
Proof.
  destruct received_steps as (p & id & Hst & Hq & _). exists p, id.
  destruct (solidifier_feeds_ledger protocol_config no_pruning (sync_of (protocol_of tangle_6)) (sync_of p) eq_refl sync_6_inv Hst) as (Hc & Hs & _).
  cbn [sync_of sy_protocol] in Hc, Hs. rewrite Hq in Hc, Hs. split; [exact Hq|]. split; [exact (proj1 (Hc 0%nat id eq_refl)) | exact Hs].
Defined.

Lemma next_milestone_traversed_witness :
  exists p id m ms, pr_queue p = [To_Consensus (ConfirmMilestone id)] /\ fst <$> stored_at (pr_tangle p) id = Some m
    /\ message_payload m = Some (Payload_Milestone ms) /\ milestone_number ms = 7.
Proof.
  destruct received_steps as (p & id & Hst & Hq & Hcl).
  destruct (next_milestone_traversed protocol_config no_pruning (sync_of (protocol_of tangle_6)) (sync_of p) [] id [] eq_refl sync_6_inv Hst Hq eq_refl Hcl)
    as (m & ms & Hm & Hp & Hn & _).
  exists p, id, m, ms. split; [exact Hq|]. split; [exact Hm|]. split; [exact Hp | exact Hn].
Defined.

(** The message of a solid entry point, with a parent that the node does not have, and a milestone above it. *)
Definition stale_message : Message := mkMessage 0 (mkParents [msg_id Byte.x09]) None 0.
Definition stale_id : MessageId := (Message_id stale_message).1.
Definition tangle_stale : Tangle Storage := replace_solid_entry_points [(SolidEntryPoint_new stale_id, MilestoneIndex_new 6)] tangle_6.

Lemma sync_stale_inv : sync_inv (sync_of (protocol_of tangle_stale)).
Proof.
  apply fresh_inv; [|reflexivity..|intros i ms Hi; discriminate Hi].
  exact (tangle_inv_fields tangle_a tangle_stale eq_refl eq_refl eq_refl (ni_tangle _ _ _ _ _ tangle_a_inv)).
Qed.

(** The command in the queue, if its milestone rests on the message [x], which rests on [q]. *)
Definition blocked_command (p : Protocol Storage) (x q : MessageId) : option (MessageId * Message * MilestonePayload * Message) :=
  let t := pr_tangle p in
  match pr_queue p, stored_at t x with
  | [To_Consensus (ConfirmMilestone id)], Some (mx, md) =>
      match fst <$> stored_at t id with
      | Some m =>
          match message_payload m with
          | Some (Payload_Milestone ms) =>
              if (milestone_number ms =? 7) && bool_decide (parents_at m = [x]) && bool_decide (sep t x) && negb (is_referenced (metadata_flags md))
                 && bool_decide (parents_at mx = [q]) && bool_decide (stored_at t q = None) && bool_decide (~ sep t q)
              then Some (id, m, ms, mx) else None
          | _ => None
          end
      | None => None
      end
  | _, _ => None
  end.

Lemma stale_received :
  exists p r, receive stale_message (message_7 stale_id) (protocol_of tangle_stale) = Some p /\ blocked_command p stale_id (msg_id Byte.x09) = Some r.
Proof. apply check_bind. vm_compute. reflexivity. Qed.

Lemma blocked_command_spec p x q id m ms mx :
  tangle_inv (pr_tangle p) -> blocked_command p x q = Some (id, m, ms, mx) ->
  let t := pr_tangle p in
  pr_queue p = [To_Consensus (ConfirmMilestone id)] /\ fst <$> stored_at t id = Some m /\ message_payload m = Some (Payload_Milestone ms)
  /\ milestone_number ms = 7 /\ parents_at m = [x] /\ sep t x /\ pending_message t x mx /\ parents_at mx = [q] /\ stored_at t q = None /\ ~ sep t q.
Proof.
  intros Hi Hc. cbv zeta. unfold blocked_command in Hc. repeat case_match; simplify_eq.
  repeat match goal with Hb : _ && _ = true |- _ => apply andb_true_iff in Hb as [? ?] end.
  repeat match goal with Hb : bool_decide _ = true |- _ => apply bool_decide_eq_true_1 in Hb end.
  split_and!; try done; [by apply Z.eqb_eq|]. eexists. split; [by rewrite tangle_message_stored | by apply negb_true_iff].
Qed.

Lemma stored_entry_point_blocks_witness :
  exists p id n t, rtc (sync_step protocol_config no_pruning edges) (sync_of (protocol_of tangle_stale)) (sync_of p)
    /\ pr_queue p = [To_Consensus (ConfirmMilestone id)] /\ solid (pr_tangle p) id
    /\ confirm n id (LedgerIndex_new (MilestoneIndex_new 6)) (MilestoneIndex_new 0) (pr_tangle p) = Some (Err (MissingMessage (msg_id Byte.x09)), t).
Proof.
  destruct stale_received as (p & [[[id m] ms] mx] & Hr & Hc).
  apply receive_steps in Hr; [|vm_compute; reflexivity]. pose proof (sync_reachable protocol_config no_pruning eq_refl _ _ sync_stale_inv Hr) as Hs.
  pose proof (pi_solidity _ _ _ Hs) as Hso. apply blocked_command_spec in Hc as (Hq & Hm & Hp & Hn & Hpar & Hx & Hmx & Hpq & Hst & Hsq); [|apply Hso].
  cbn [sync_of sy_protocol] in Hso. rewrite Hq in Hso.
  destruct (stored_entry_point_blocks (pr_tangle p) [] id m ms stale_id mx (msg_id Byte.x09) (LedgerIndex_new (MilestoneIndex_new 6)) (MilestoneIndex_new 0)
    Hso Hm Hp Hn Hpar Hx Hmx Hpq Hst Hsq) as [Hsol [n Hc]].
  destruct (Hc n (le_n n)) as [t Ht]. exists p, id, n, t. split; [exact Hr|]. split; [exact Hq|]. split; [|exact Ht].
  apply Hsol; [apply not_elem_of_nil | exact I].
Defined.
End Examples.
